(* ===== verification/_CoqProject ===== *)
-Q . S2P
Prelude.v
GoStrings.v
Crypto.v
Effects.v
Frame.v
ChunkAssembler.v
Registry.v
RateLimiter.v
Subdomain.v
PublicHost.v
Headers.v
Json.v
Messages.v
Migrate.v
Config.v
Tables.v
AuthService.v
Reader.v
Http.v
Mux.v
Server.v
AuthHTTP.v
SessionManager.v
AgentTokens.v
Agents.v
TunnelService.v
TrafficService.v
SessionSteps.v
AgentConnect.v
LocalHTTP.v
AgentClient.v
Cli.v
PublicHandler.v
EndToEnd.v
Connect.v
Multiplex.v
JobScript.v
Link.v
LinkRuns.v
LinkWaits.v
LinkDelivery.v
LinkRequests.v
LinkRoom.v
RoundTrip.v
Samples.v
Backend.v
Accounts.v
Tunneling.v
Process.v
