(* ===== verification/Prelude.v ===== *)
(** * myNgrok: a verification development of the tunnel gateway and its agent

    The program has two parts written in Go.  The gateway (backend/) accepts public
    HTTP requests for the subdomains of its base domain and forwards each over the
    WebSocket session of the agent that opened the tunnel; it also serves an API
    under /api/v1/ for accounts, agent tokens, agents, tunnels and traffic, which are
    stored in PostgreSQL.  The agent (agent/) keeps a session open, forwards requests
    to a local service and streams the responses back.  Control messages are JSON
    text, bodies are numbered binary frames.  This library translates both parts and
    proves them correct: forwarding, from the public client to the local service and
    back; the goroutines and channels of a session; the API and its tables; and the
    assembled gateway, in which the requests of the API, connecting agents, ending
    sessions and the flush of counters interleave, from its start to its exit.

    ** The files, in dependency order

    Foundations.
    - Prelude: results with errors, fixed-width integers, [time], bytes and strings,
      big-endian integers, the tactics and the hint database of the development.
    - GoStrings: what the sources use of [strings], [utf8], [net], [net/textproto],
      [encoding/hex] and [encoding/base64], with the UTF-8 round trip.
    - Crypto: [sha256], [hmac] and the decoder of [base64.RawURLEncoding].
    - Effects: programs that talk to the outside, as trees of atomic actions on a
      shared state; one run, all interleavings of many threads, a rely-guarantee
      rule, and lenses that let a program on a part run on the whole.
    - Json: [encoding/json] at the level of bytes, with its round trip.  Reader:
      bodies, [http.MaxBytesReader] and the 32 KiB copying loop.  Http: requests,
      response writers, cookies, and the JSON envelope of the API.

    Forwarding.
    - Frame: protocol/frame.go and the agent's frame.go, instances of one class.
      ChunkAssembler: chunk_assembler.go.  Messages: protocol/messages.go,
      protocol.go and the structs of client.go.
    - Registry: tunnels/registry.go.  RateLimiter: tunnels/rate_limiter.go and
      auth/rate_limiter.go.  Subdomain, PublicHost: the files of tunnels/ of that
      name.  Headers: the header filters of public_handler.go and local_http.go.
    - SessionManager: gateway/session_manager.go over a store of channels, so that
      aliasing between goroutines is explicit.  SessionSteps: the same methods cut
      into atomic steps, with the invariants of every interleaving.
    - AgentConnect: gateway/agent_connect.go: the token guard, the hello exchange, one
      function per case of the [select] of [serveSession], the clean-up.
    - LocalHTTP, AgentClient, Cli: the agent's local_http.go, client.go and
      cmd/tunnel-agent/main.go, the last with the [flag] package.
    - PublicHandler: tunnels/public_handler.go.  EndToEnd: the two programs joined by
      their wire format.  Connect: [Connect] of client.go from the configuration to
      the session, joined with the gateway's [ServeHTTP].  Multiplex: any number of
      requests and responses whose messages are interleaved on one connection.

    The goroutines of a session.
    - JobScript: the agent's job as a dialogue of sends and their outcomes.
    - Link: a transition system whose state holds the loop and the reading goroutine
      of [serveSession], the two directions of the connection, and the read loop, the
      workers and the writer of [Connect], with every channel at its capacity.  One
      action is one step of one goroutine; the public handlers and the end of the
      session are actions of the outside.
    - LinkRuns: the invariants of its runs.  LinkWaits: when goroutines wait.
      LinkDelivery: what a session at rest has delivered.  LinkRequests: what the agent
      makes of what public handlers queue.  LinkRoom: how many responses are under way
      at a time.  RoundTrip: the handlers, the goroutines and the local service put
      together.

    The API and its tables.
    - Migrate: database.Migrate and migrations.go, run by any number of processes.
    - Tables: the six tables of backend/migrations/, their constraints, and what a
      statement of the sources does to them.
    - AuthService, AuthHTTP: auth/service.go and auth/http.go.  AgentTokens, Agents,
      TunnelService, TrafficService: service.go and http.go of agenttokens/, agents/,
      tunnels/ and traffic/, and [valid] of agent_connect.go.
    - Config: config/config.go, with [time.ParseDuration] and the levels of [slog].
    - Mux: [http.ServeMux] as server/handler.go fills it.  Server: the rest of
      server/: request IDs, log, security headers, CORS, metrics, health.

    The assembled gateway.
    - Samples: small concrete instances of the classes and tables, for examples.
    - Backend: cmd/server/main.go: the state of all parts, the callbacks, the flush,
      the handler, and the invariant of the whole.
    - Accounts, Tunneling: the theorems across several services.
    - Process: [main] and [run] of cmd/server/main.go and [Open] of database.go: the
      start, the goroutines of [run] and the shutdown.

    ** What the theorems show

    EndToEnd, Multiplex: what [ServeHTTP] queues for public requests, interleaved in
    any way, is read by the agent as exactly one job per request with the same method,
    path, headers and body; what the jobs send, interleaved in any way, is delivered
    as exactly the local service's responses, each under the ID of its request; an
    oversized body is cut and cancelled.  Connect: an agent with a valid token gets
    the session the gateway has registered; the waits of [Run].  LinkRuns: under
    every schedule each request is run at most once and in order, each job queues what
    the sequential job sends, and the two directions are bounded queues that lose
    nothing while the session is open.  LinkDelivery: under every schedule, when the
    session has come to rest, each request the agent has read was answered with
    exactly the response of its local service.  RoundTrip: and each public request
    that was forwarded completely was run once, and the channel on which its handler
    waits holds that response, whatever other handlers did meanwhile.  LinkRoom: with up
    to 32 workers and local services within the limits there is room at the gateway for
    every message of a response.  LinkWaits: an open session in which nobody can
    act is at rest or in a circle of full buffers; the circle can be reached and is
    never left; a session that is over winds down completely.  SessionSteps
    and AgentConnect: in every interleaving a request gets at most one response and
    only its own, deliveries never block, a request whose session ends is sent a
    response unless it was withdrawn, buffers
    are bounded, the loop is simulated by the steps.  PublicHandler: every request is
    refused, or reaches only the session that owns its host and is then answered, or
    given up with a cancellation offered, unless it could not be announced at all.
    Backend: in every interleaving of the gateway's work, with whatever failures, the
    tables keep their constraints and every route is backed by a stored tunnel of the
    same agent and owner.  Tunneling: opened tunnels are reachable at the announced
    address, agents that reconnect after the clean-up get their address back, a flush
    charges each user exactly once.
    Accounts: refresh tokens work once, access tokens are authentic and expire,
    revoked agent tokens are locked out, lists are isolated, and what refused requests
    change is known, which is nothing but for logins and refreshes.  Server, Mux: the routing tree implements the table, redirections end,
    requests are counted, foreign origins are refused.  Process: a server listens only
    on a database to which every script was applied, once and in order, and stops in
    order, closing the sessions after the last flush.  Config, Cli: what is accepted, and which error is reported.
    The other files: round trips of the codecs and of JSON, refinement of registry and
    limiters to abstract specifications, exactness of host parsing and header
    filtering.  Where the code falls short the theorem says how: a refresh token used
    twice concurrently, a session that registers during the revocation of its token,
    the clean-up of an old session that closes the rows of a newer one, a logout that
    revokes nothing, a refused refresh that costs the session, a reconnection before the
    clean-up that costs the address, a sender blocked on the queue of a removed session, limiter
    bursts across a window boundary or by a late reading of the clock, a session that deadlocks, waits that are not
    reset by a session, a stop that leaves traffic unstored, a public request whose
    announcement is too long for the agent, more workers or more uploads at a time than
    the other end holds.

    ** Conventions and bounds

    Machine integers are [Z] with their wrap-around written out; strings and byte
    slices are lists of bytes; maps are [gmap]s, and where the order in which Go
    visits a map could matter it is a parameter.

    A program of type [prog S A] is a tree of atomic actions.  An SQL statement is one
    action: the sources use no transactions outside the migrations, and a statement at
    the isolation level of the server sees and changes the tables at once.  Each
    action draws an [answer] from the outside: the time, random bytes, a new UUID, and
    possibly a failure, before or after the statement was executed.  Theorems are
    stated for every answer.  PostgreSQL's parsing of UUIDs and addresses and bcrypt
    are classes whose laws state documented behaviour (a canonical UUID is parsed to
    itself, a hash is accepted for its own password); Samples has instances.

    Recursion that is not structural has fuel: the JSON parser twice the length of the
    text (lemma [Json.parse_fuel_enough]), the copying loops the size of the body
    (lemma [Reader.copy_body]), the subdomain loop the random bytes supplied, the
    routing tree the length of the path, [ParseDuration] and [Parse] the length of the
    text or the number of arguments; waiting for the migration lock is a number of
    polls, and the theorem holds for every number.  Clocks, map orders, failing
    writes, the choice of a [select] and the answers of the HTTP client are inputs.
    [unicode.ToLower] and [ToUpper] beyond ASCII, the JSON text of a [time.Time] and
    the pages of the standard mux are parameters without hypotheses.  Cookies are
    records; the text of the Set-Cookie header is not written out.  The method labels
    of the metrics page are written without escapes, which the tokens of HTTP methods
    never need.  A session ID is assumed fresh when a session is registered (144
    random bits), and only there.

    In Link the buffers of the connection hold a given number of messages in each
    direction; the theorems hold for every number, from one on where that matters.  A
    message over the read limit of an end cannot be read and ends the session there.
    A handler that waits for a response is the channel it waits on: what was delivered
    into it stays in it.
    The end of the connection as seen by either end is an action of the outside, and
    so are reads and writes that fail.  A job's dialogue is finite because the body of
    a local response is; how the local service behaves to a job, a cancellation
    included, is chosen when a worker takes the job.

    ** What is not modelled

    The WebSocket library with its close handshake; payloads that are declared and never
    used (close_tunnel, the agent's copies of tunnel_opened and cancel_request); the
    constructors that only store their arguments; the connection pool and the listener, whose errors are inputs; the delivery of
    signals; the wording of errors that only end in a log; writing the log. *)

From Stdlib Require Export ZArith Lia.
From Stdlib Require Strings.Byte Strings.String.
From stdpp Require Export gmap strings list fin_maps countable numbers.

#[global] Set Default Goal Selector "!".
#[global] Open Scope Z_scope.

(** ** Notations and automation of the development *)

Declare Scope go_scope.
Delimit Scope go_scope with go.

Create HintDb gateway.

(** Splits every conjunction and existential of the context. *)
Ltac destr_all :=
  repeat match goal with
         | H : _ /\ _ |- _ => destruct H
         | H : exists _, _ |- _ => destruct H
         | H : is_Some _ |- _ => destruct H
         end.

(** Case analysis on the innermost [if]/[match] that blocks the goal or a
    hypothesis; used on the guard cascades the handlers are made of. *)
Ltac guard_cases :=
  match goal with
  | |- context [ match ?x with _ => _ end ] =>
      lazymatch x with
      | context [ match _ with _ => _ end ] => fail
      | _ => destruct x eqn:?
      end
  | H : context [ match ?x with _ => _ end ] |- _ =>
      lazymatch x with
      | context [ match _ with _ => _ end ] => fail
      | _ => destruct x eqn:?
      end
  end.

(** Turns boolean tests of the code into the propositions they decide. *)
Ltac prop_guards :=
  repeat match goal with
         | H : (_ && _)%bool = true |- _ => apply andb_true_iff in H as [? ?]
         | H : (_ || _)%bool = false |- _ => apply orb_false_iff in H as [? ?]
         | H : negb _ = true |- _ => apply negb_true_iff in H
         | H : negb _ = false |- _ => apply negb_false_iff in H
         | H : bool_decide _ = true |- _ => apply bool_decide_eq_true in H
         | H : bool_decide _ = false |- _ => apply bool_decide_eq_false in H
         | H : (_ =? _) = true |- _ => apply Z.eqb_eq in H
         | H : (_ =? _) = false |- _ => apply Z.eqb_neq in H
         | H : (_ <? _) = true |- _ => apply Z.ltb_lt in H
         | H : (_ <? _) = false |- _ => apply Z.ltb_ge in H
         | H : (_ <=? _) = true |- _ => apply Z.leb_le in H
         | H : (_ <=? _) = false |- _ => apply Z.leb_gt in H
         end.

(** ** Fallible operations: Go's [(value, error)] results *)

Inductive result (E A : Type) : Type :=
| Ok (a : A)
| Err (e : E).
Arguments Ok {E A} a.
Arguments Err {E A} e.

#[global] Instance result_ret {E} : MRet (result E) := fun _ x => Ok x.
#[global] Instance result_bind {E} : MBind (result E) :=
  fun _ _ k m => match m with Ok x => k x | Err e => Err e end.

#[global] Instance result_eq_dec {E A} `{EqDecision E, EqDecision A} :
  EqDecision (result E A).
Proof. solve_decision. Defined.

Definition is_ok {E A} (r : result E A) : bool :=
  match r with Ok _ => true | Err _ => false end.

(** ** Fixed-width integers *)

(** Conversion of an integer to the unsigned Go type of [w] bits. *)
Definition wrapu (w : Z) (z : Z) : Z := z mod 2 ^ w.
Abbreviation u16 := (wrapu 16).
Abbreviation u32 := (wrapu 32).
Abbreviation u64 := (wrapu 64).

Definition fits_u (w : Z) (z : Z) : Prop := 0 <= z < 2 ^ w.

Definition max_int64 : Z := 2 ^ 63 - 1.
Definition min_int64 : Z := - 2 ^ 63.

Lemma wrapu_small w z : fits_u w z -> wrapu w z = z.
Proof. intros H. apply Z.mod_small, H. Qed.

Lemma wrapu_fits w z : 0 <= w -> fits_u w (wrapu w z).
Proof. intros H. apply Z.mod_pos_bound. lia. Qed.

Lemma wrapu_add_l w x y : 0 <= w -> wrapu w (wrapu w x + y) = wrapu w (x + y).
Proof. intros H. unfold wrapu. apply Zplus_mod_idemp_l. Qed.

Lemma wrapu_add_r w x y : 0 <= w -> wrapu w (x + wrapu w y) = wrapu w (x + y).
Proof. intros H. unfold wrapu. apply Zplus_mod_idemp_r. Qed.

Lemma wrapu_add_eq w a a' b b' :
  wrapu w a = wrapu w a' -> wrapu w b = wrapu w b' -> wrapu w (a + b) = wrapu w (a' + b').
Proof.
  unfold wrapu. intros Ha Hb. rewrite (Zplus_mod a b), (Zplus_mod a' b'). congruence.
Qed.

#[export] Hint Resolve wrapu_small wrapu_fits : gateway.

(** ** Time *)

(** A [time.Time] is the number of nanoseconds since the zero Time (January 1,
    year 1, UTC); a [time.Duration] is a number of nanoseconds. *)
Definition Second : Z := 10 ^ 9.
Definition Minute : Z := 60 * Second.

Definition IsZero (t : Z) : bool := t =? 0.

(** [t.Sub(u)], which saturates at the limits of [Duration]. *)
Definition Sub (t u : Z) : Z := Z.max min_int64 (Z.min max_int64 (t - u)).

Lemma Sub_mono t t' u : t <= t' -> Sub t u <= Sub t' u.
Proof. unfold Sub. lia. Qed.

Lemma Sub_ge_iff t u d : min_int64 < d <= max_int64 -> (d <= Sub t u <-> d <= t - u).
Proof. unfold Sub. lia. Qed.

Lemma Sub_small t u : min_int64 <= t - u <= max_int64 -> Sub t u = t - u.
Proof. unfold Sub. lia. Qed.

(** ** Bytes and Go strings *)

Abbreviation byte := Byte.byte.

(** A Go [string] is an immutable sequence of bytes and a [[]byte] a mutable
    one; the model of both is a list of bytes. *)
Abbreviation gostring := (list Byte.byte).

(** A string literal of the source. *)
Definition lit (s : String.string) : gostring := String.list_byte_of_string s.
Notation "$ s" := (lit s%string) (at level 1, format "$ s") : go_scope.
#[global] Open Scope go_scope.

#[global] Instance byte_eq_dec : EqDecision byte := Byte.byte_eq_dec.
#[global] Instance byte_countable : Countable byte.
Proof.
  refine (inj_countable Byte.to_N Byte.of_N _).
  intros b. apply Byte.of_to_N.
Defined.

(** [len(s)] as the Go [int] it is. *)
Definition zlen {A} (l : list A) : Z := Z.of_nat (length l).

Lemma zlen_nonneg {A} (l : list A) : 0 <= zlen l.
Proof. unfold zlen. lia. Qed.

Lemma zlen_app {A} (l k : list A) : zlen (l ++ k) = zlen l + zlen k.
Proof. unfold zlen. rewrite length_app. lia. Qed.

Lemma zlen_cons {A} (x : A) (l : list A) : zlen (x :: l) = zlen l + 1.
Proof. unfold zlen. simpl. lia. Qed.

Lemma zlen_nil_iff {A} (l : list A) : zlen l = 0 <-> l = [].
Proof. unfold zlen. destruct l; simpl; split; (done || lia). Qed.

#[export] Hint Resolve zlen_nonneg : gateway.

Definition byte_to_Z (b : byte) : Z := Z.of_N (Byte.to_N b).
Definition byte_of_Z (z : Z) : byte :=
  default Byte.x00 (Byte.of_N (Z.to_N (z mod 256))).

Lemma byte_to_Z_range b : 0 <= byte_to_Z b < 256.
Proof. unfold byte_to_Z. pose proof (Byte.to_N_bounded b). lia. Qed.

Lemma byte_to_of_Z z : byte_to_Z (byte_of_Z z) = z mod 256.
Proof.
  unfold byte_to_Z, byte_of_Z.
  pose proof (Z.mod_pos_bound z 256 ltac:(lia)) as Hr.
  pose proof (Byte.to_of_N_option_map (Z.to_N (z mod 256))) as Ho.
  destruct (Byte.of_N _) as [b|] eqn:Hb; simpl in *.
  - apply Byte.to_of_N in Hb. rewrite Hb. lia.
  - destruct (N.leb_spec (Z.to_N (z mod 256)) 255); [done | lia].
Qed.

Lemma byte_to_Z_inj b c : byte_to_Z b = byte_to_Z c -> b = c.
Proof.
  unfold byte_to_Z. intros H.
  pose proof (Byte.of_to_N b) as Hb. pose proof (Byte.of_to_N c) as Hc.
  replace (Byte.to_N b) with (Byte.to_N c) in Hb by lia. congruence.
Qed.

Lemma byte_of_to_Z b : byte_of_Z (byte_to_Z b) = b.
Proof.
  apply byte_to_Z_inj. rewrite byte_to_of_Z. apply Z.mod_small, byte_to_Z_range.
Qed.

(** ** [encoding/binary]'s big-endian integers *)

(** The [n] bytes of [z], most significant first, as [PutUint16]/[PutUint32]
    store them. *)
Fixpoint be_put (n : nat) (z : Z) : list byte :=
  match n with
  | O => []
  | S n => byte_of_Z (Z.shiftr z (8 * Z.of_nat n)) :: be_put n z
  end.

(** The integer a big-endian byte sequence denotes, as [Uint16]/[Uint32] read
    it. *)
Definition be_get (l : list byte) : Z :=
  fold_left (fun acc b => Z.lor (Z.shiftl acc 8) (byte_to_Z b)) l 0.

Lemma shl_lor_byte acc b : Z.lor (Z.shiftl acc 8) (byte_to_Z b) = 256 * acc + byte_to_Z b.
Proof.
  rewrite Z.shiftl_mul_pow2 by lia. change (2 ^ 8) with 256.
  pose proof (byte_to_Z_range b) as Hb.
  enough (Z.land (acc * 256) (byte_to_Z b) = 0) as Hland.
  { pose proof (Z.add_lor_land (acc * 256) (byte_to_Z b)). lia. }
  apply Z.bits_inj'. intros n Hn. rewrite Z.land_spec, Z.bits_0.
  change 256 with (2 ^ 8). rewrite <- Z.shiftl_mul_pow2 by lia.
  destruct (Z.lt_ge_cases n 8) as [Hlt|Hge].
  - rewrite Z.shiftl_spec_low by lia. done.
  - destruct (Z.eq_dec (byte_to_Z b) 0) as [->|Hnz].
    { rewrite Z.bits_0. apply andb_false_r. }
    rewrite (Z.bits_above_log2 (byte_to_Z b)); [apply andb_false_r | lia |].
    apply Z.log2_lt_pow2; [lia |].
    pose proof (Z.pow_le_mono_r 2 8 n). lia.
Qed.

Lemma be_get_fold l acc :
  fold_left (fun acc b => Z.lor (Z.shiftl acc 8) (byte_to_Z b)) l acc
  = acc * 256 ^ zlen l + be_get l.
Proof.
  unfold be_get. revert acc. induction l as [|b l IH] using rev_ind; intros acc.
  { unfold zlen. simpl. lia. }
  rewrite !fold_left_app. simpl. rewrite !shl_lor_byte, IH, zlen_app.
  change (zlen [b]) with 1. rewrite Z.pow_add_r by (auto with gateway; lia).
  specialize (IH 0). lia.
Qed.

Lemma be_get_cons b l : be_get (b :: l) = byte_to_Z b * 256 ^ zlen l + be_get l.
Proof.
  unfold be_get at 1. simpl. rewrite be_get_fold. reflexivity.
Qed.

Lemma be_get_bound l : 0 <= be_get l < 256 ^ zlen l.
Proof.
  induction l as [|b l IH]; [done |].
  rewrite be_get_cons, zlen_cons, Z.pow_add_r by (auto with gateway; lia).
  pose proof (byte_to_Z_range b). nia.
Qed.

Lemma length_be_put n z : length (be_put n z) = n.
Proof. induction n; simpl; auto. Qed.

Lemma be_get_put n z : be_get (be_put n z) = z mod 256 ^ Z.of_nat n.
Proof.
  induction n as [|n IH]; [by rewrite Z.mod_1_r |].
  simpl be_put. rewrite be_get_cons, IH, byte_to_of_Z.
  unfold zlen. rewrite length_be_put, Z.shiftr_div_pow2 by lia.
  rewrite Z.pow_mul_r by lia. change (2 ^ 8) with 256.
  rewrite Nat2Z.inj_succ, Z.pow_succ_r, (Z.mul_comm 256) by lia.
  rewrite Z.rem_mul_r by lia. lia.
Qed.

Lemma be_get_inj l k : length l = length k -> be_get l = be_get k -> l = k.
Proof.
  revert k. induction l as [|b l IH]; intros [|c k] Hlen Heq; try done.
  simpl in Hlen. injection Hlen as Hlen.
  rewrite !be_get_cons in Heq. unfold zlen in Heq. rewrite Hlen in Heq.
  pose proof (be_get_bound l) as Hl. pose proof (be_get_bound k) as Hk.
  unfold zlen in Hl, Hk. rewrite Hlen in Hl.
  assert (byte_to_Z b = byte_to_Z c) as Hbc by nia.
  rewrite Hbc in Heq. f_equal; [by apply byte_to_Z_inj | apply IH; [done | lia]].
Qed.

Lemma be_put_get l : be_put (length l) (be_get l) = l.
Proof.
  apply be_get_inj; [apply length_be_put |].
  rewrite be_get_put. apply Z.mod_small, be_get_bound.
Qed.

(** ** Slices *)

(** [make([]byte, n)]. *)
Definition make_bytes (n : nat) : list byte := replicate n Byte.x00.

(** [copy(dst[off:], src)]: overwrites as many bytes as both slices have. *)
Definition copy_at {A} (off : nat) (src dst : list A) : list A :=
  take off dst ++ take (length dst - off) src ++ drop (off + length src) dst.

(** [s[i:j]]. *)
Definition slice {A} (i j : nat) (l : list A) : list A := take (j - i) (drop i l).

(** [data[i]], evaluated by the code only where the index is in range. *)
Definition byte_at (data : list byte) (i : nat) : byte := default Byte.x00 (data !! i).

Lemma copy_at_app {A} (pre old post src : list A) off :
  length pre = off -> length old = length src ->
  copy_at off src (pre ++ old ++ post) = pre ++ src ++ post.
Proof.
  intros Hoff Hlen. unfold copy_at.
  rewrite take_app_length' by done. f_equal.
  rewrite !length_app, take_ge by lia. f_equal.
  rewrite app_assoc, drop_app_length'; [done |]. rewrite length_app. lia.
Qed.

Lemma take_drop_split {A} (l : list A) (n : nat) :
  (n <= length l)%nat -> exists a b, l = a ++ b /\ length a = n.
Proof.
  intros H. exists (take n l), (drop n l).
  by rewrite take_drop, length_take_le.
Qed.

(** ** Finite maps *)

(** An injection from the entries of one map into the keys of another. *)
Lemma map_size_le_inj `{Countable K1} `{Countable K2} {A B} (m1 : gmap K1 A) (m2 : gmap K2 B)
    (f : K1 -> A -> K2) :
  (forall k x, m1 !! k = Some x -> is_Some (m2 !! f k x)) ->
  (forall k k' x x', m1 !! k = Some x -> m1 !! k' = Some x' -> f k x = f k' x' -> k = k') ->
  (size m1 <= size m2)%nat.
Proof.
  intros Hin Hinj. rewrite <- (length_map_to_list m1), <- (length_map_to_list m2).
  rewrite <- (length_fmap (fun p => f p.1 p.2) (map_to_list m1)), <- (length_fmap fst (map_to_list m2)).
  apply submseteq_length, NoDup_submseteq.
  - apply NoDup_fmap_2_strong; [|apply NoDup_map_to_list].
    intros [k x] [k' x'] Hk%elem_of_map_to_list Hk'%elem_of_map_to_list Heq. simpl in *.
    assert (k = k') as -> by eauto. f_equal. congruence.
  - intros y (p & -> & Hp)%list_elem_of_fmap. destruct p as [k x].
    apply elem_of_map_to_list in Hp. destruct (Hin _ _ Hp) as [z Hz]. simpl.
    apply list_elem_of_fmap. exists (f k x, z). split; [done | by apply elem_of_map_to_list].
Qed.
