(* ===== verification/GoStrings.v ===== *)
(** * The string routines of the Go standard library the program uses

    [strings], [unicode/utf8], [net.SplitHostPort] and the header-key
    canonicalisation of [net/textproto], on byte sequences.  The Unicode case
    tables are not reproduced: [strings.ToLower] takes the mapping of
    non-ASCII runes as an argument. *)

From S2P Require Import Prelude.

(** ** Byte classes *)

Definition byte_in (lo hi : Z) (b : byte) : bool := (lo <=? byte_to_Z b) && (byte_to_Z b <=? hi).
Definition is_ascii (b : byte) : bool := byte_to_Z b <? 128.
Definition is_lower (b : byte) : bool := byte_in 97 122 b.
Definition is_upper (b : byte) : bool := byte_in 65 90 b.
Definition is_digit (b : byte) : bool := byte_in 48 57 b.
Definition is_alpha (b : byte) : bool := is_lower b || is_upper b.

Definition to_lower_byte (b : byte) : byte := if is_upper b then byte_of_Z (byte_to_Z b + 32) else b.
Definition to_upper_byte (b : byte) : byte := if is_lower b then byte_of_Z (byte_to_Z b - 32) else b.

(** ** Prefixes, suffixes, single-byte searches *)

Definition HasPrefix (s p : gostring) : bool := bool_decide (p `prefix_of` s).
Definition HasSuffix (s p : gostring) : bool := bool_decide (p `suffix_of` s).
Definition TrimPrefix (s p : gostring) : gostring := if HasPrefix s p then drop (length p) s else s.
Definition TrimSuffix (s p : gostring) : gostring :=
  if HasSuffix s p then take (length s - length p) s else s.

(** [strings.Contains] of a one-byte string. *)
Definition contains_byte (s : gostring) (b : byte) : bool := bool_decide (b ∈ s).

(** [IndexByte] and [LastIndexByte]; [None] is -1. *)
Fixpoint IndexByte (s : gostring) (b : byte) : option nat :=
  match s with
  | [] => None
  | c :: s => if bool_decide (c = b) then Some O else S <$> IndexByte s b
  end.
Fixpoint LastIndexByte (s : gostring) (b : byte) : option nat :=
  match s with
  | [] => None
  | c :: s => match LastIndexByte s b with
              | Some i => Some (S i)
              | None => if bool_decide (c = b) then Some O else None
              end
  end.

(** [strings.Split] by a one-byte separator. *)
Fixpoint split_byte (sep : byte) (s : gostring) : list gostring :=
  match s with
  | [] => [[]]
  | c :: s =>
      let parts := split_byte sep s in
      if bool_decide (c = sep) then [] :: parts
      else match parts with
           | p :: parts => (c :: p) :: parts
           | [] => [[c]]
           end
  end.

(** ** UTF-8 *)

Definition RuneError : Z := 65533.

Definition cont_byte (b : byte) : bool := byte_in 128 191 b.

(** [utf8.DecodeRuneInString]: the first rune and its width; an invalid or
    truncated sequence is [RuneError] of width 1.  The payload bits the library
    masks and shifts are written as the equal differences and products. *)
Definition DecodeRune (s : gostring) : Z * nat :=
  let err := (RuneError, 1%nat) in
  let low b := byte_to_Z b - 128 in
  match s with
  | [] => (RuneError, 0%nat)
  | b0 :: s1 =>
      let x := byte_to_Z b0 in
      if x <? 128 then (x, 1%nat)
      else if (194 <=? x) && (x <=? 223) then
        match s1 with
        | b1 :: _ => if cont_byte b1 then ((x - 192) * 64 + low b1, 2%nat) else err
        | _ => err
        end
      else if (224 <=? x) && (x <=? 239) then
        let lo := if x =? 224 then 160 else 128 in
        let hi := if x =? 237 then 159 else 191 in
        match s1 with
        | b1 :: b2 :: _ =>
            if byte_in lo hi b1 && cont_byte b2
            then ((x - 224) * 4096 + low b1 * 64 + low b2, 3%nat)
            else err
        | _ => err
        end
      else if (240 <=? x) && (x <=? 244) then
        let lo := if x =? 240 then 144 else 128 in
        let hi := if x =? 244 then 143 else 191 in
        match s1 with
        | b1 :: b2 :: b3 :: _ =>
            if byte_in lo hi b1 && cont_byte b2 && cont_byte b3
            then ((x - 240) * 262144 + low b1 * 4096 + low b2 * 64 + low b3, 4%nat)
            else err
        | _ => err
        end
      else err
  end.

(** The runes [range s] yields. *)
Fixpoint runes_fuel (fuel : nat) (s : gostring) : list Z :=
  match fuel with
  | O => []
  | S fuel =>
      match s with
      | [] => []
      | _ => let '(r, w) := DecodeRune s in r :: runes_fuel fuel (drop w s)
      end
  end.
Definition runes (s : gostring) : list Z := runes_fuel (length s) s.

(** [utf8.AppendRune]: an invalid rune is written as [RuneError]. *)
Definition EncodeRune (r : Z) : gostring :=
  let c d := byte_of_Z (128 + (r / d) mod 64) in
  if (0 <=? r) && (r <? 128) then [byte_of_Z r]
  else if (0 <=? r) && (r <? 2048) then [byte_of_Z (192 + r / 64); c 1]
  else if (r <? 0) || (1114111 <? r) || ((55296 <=? r) && (r <=? 57343))
  then [Byte.xef; Byte.xbf; Byte.xbd]
  else if r <? 65536 then [byte_of_Z (224 + r / 4096); c 64; c 1]
  else [byte_of_Z (240 + r / 262144); c 4096; c 64; c 1].

(** ** Case *)

Definition all_ascii (s : gostring) : bool := forallb is_ascii s.

(** [strings.ToLower].  [lower] is [unicode.ToLower] on non-ASCII runes; an
    ASCII string takes the byte-wise fast path. *)
Definition ToLower (lower : Z -> Z) (s : gostring) : gostring :=
  if all_ascii s then to_lower_byte <$> s
  else concat ((fun r => EncodeRune (if r <? 128 then byte_to_Z (to_lower_byte (byte_of_Z r)) else lower r))
                 <$> runes s).

(** ** White space *)

(** The encodings of the runes [unicode.IsSpace] accepts. *)
Definition space_encodings : list gostring :=
  EncodeRune <$> [9; 10; 11; 12; 13; 32; 133; 160; 5760; 8192; 8193; 8194; 8195; 8196; 8197; 8198;
                  8199; 8200; 8201; 8202; 8232; 8233; 8239; 8287; 12288].

Fixpoint trim_left_fuel (fuel : nat) (s : gostring) : gostring :=
  match fuel with
  | O => s
  | S fuel =>
      match list_find (fun e => e `prefix_of` s) space_encodings with
      | Some (_, e) => trim_left_fuel fuel (drop (length e) s)
      | None => s
      end
  end.
Fixpoint trim_right_fuel (fuel : nat) (s : gostring) : gostring :=
  match fuel with
  | O => s
  | S fuel =>
      match list_find (fun e => e `suffix_of` s) space_encodings with
      | Some (_, e) => trim_right_fuel fuel (take (length s - length e) s)
      | None => s
      end
  end.

(** [strings.TrimSpace]; every turn drops a byte at least, so the length is
    enough fuel. *)
Definition TrimSpace (s : gostring) : gostring :=
  let s := trim_left_fuel (length s) s in trim_right_fuel (length s) s.

(** ** [net.SplitHostPort] *)

Inductive addr_error :=
| MissingPort | TooManyColons | MissingBracket | UnexpectedOpen | UnexpectedClose.

Definition colon : byte := Byte.x3a.
Definition lbracket : byte := Byte.x5b.
Definition rbracket : byte := Byte.x5d.

Definition SplitHostPort (hostport : gostring) : result addr_error (gostring * gostring) :=
  match LastIndexByte hostport colon with
  | None => Err MissingPort
  | Some i =>
      let finish host (j k : nat) :=
        if contains_byte (drop j hostport) lbracket then Err UnexpectedOpen
        else if contains_byte (drop k hostport) rbracket then Err UnexpectedClose
        else Ok (host, drop (i + 1) hostport) in
      if bool_decide (byte_at hostport 0 = lbracket) then
        match IndexByte hostport rbracket with
        | None => Err MissingBracket
        | Some e =>
            if bool_decide ((e + 1)%nat = length hostport) then Err MissingPort
            else if bool_decide ((e + 1)%nat = i) then finish (slice 1 e hostport) 1%nat (e + 1)%nat
            else if bool_decide (byte_at hostport (e + 1) = colon) then Err TooManyColons
            else Err MissingPort
        end
      else
        let host := take i hostport in
        if contains_byte host colon then Err TooManyColons else finish host 0%nat 0%nat
  end.

(** ** Header keys *)

(** [validHeaderFieldByte]: the token characters of RFC 7230. *)
Definition validHeaderFieldByte (b : byte) : bool :=
  is_alpha b || is_digit b
  || bool_decide (b ∈ lit "!#$%&'*+-.^_`|~").

Fixpoint canonical_loop (upper : bool) (s : gostring) : gostring :=
  match s with
  | [] => []
  | c :: s =>
      let c' := if upper then to_upper_byte c else to_lower_byte c in
      c' :: canonical_loop (bool_decide (c' = Byte.x2d)) s
  end.

(** [textproto.CanonicalMIMEHeaderKey]: a name with a byte that cannot occur in
    a header name is left as it is. *)
Definition CanonicalKey (s : gostring) : gostring :=
  if forallb validHeaderFieldByte s then canonical_loop true s else s.

(** ** Lemmas *)

Lemma HasSuffix_app a p : HasSuffix (a ++ p) p = true.
Proof. apply bool_decide_eq_true. by exists a. Qed.

Lemma TrimSuffix_app a p : TrimSuffix (a ++ p) p = a.
Proof.
  unfold TrimSuffix. rewrite HasSuffix_app, length_app.
  replace (length a + length p - length p)%nat with (length a) by lia. apply take_app_length.
Qed.

Lemma HasSuffix_iff s p : HasSuffix s p = true <-> exists a, s = a ++ p.
Proof. unfold HasSuffix. by rewrite bool_decide_eq_true. Qed.

Lemma TrimSuffix_no s p : HasSuffix s p = false -> TrimSuffix s p = s.
Proof. unfold TrimSuffix. by intros ->. Qed.

(** A string that does not end in the byte [b] has no suffix [[b]]. *)
Lemma no_suffix_byte (s : gostring) (b : byte) : list.last s <> Some b -> HasSuffix s [b] = false.
Proof.
  intros H. apply bool_decide_eq_false. intros [a ->]. by rewrite last_snoc in H.
Qed.

(** Bytes of no white-space encoding. *)
Definition plain (b : byte) : bool := forallb (fun e => negb (bool_decide (b ∈ e))) space_encodings.

Lemma plain_not_space e b : e ∈ space_encodings -> b ∈ e -> plain b = false.
Proof.
  intros He Hb. apply not_true_is_false. unfold plain. rewrite forallb_forall.
  intros H. specialize (H e (proj1 (list_elem_of_In _ _) He)).
  by rewrite bool_decide_eq_true_2 in H.
Qed.

Lemma space_encoding_cons e : e ∈ space_encodings -> exists b e', e = b :: e'.
Proof.
  intros He. destruct e as [|b e']; [|by eauto]. exfalso.
  apply (bool_decide_eq_false_1 ([] ∈ space_encodings)); [vm_compute; reflexivity | done].
Qed.

(** A string whose bytes are all plain has nothing to trim. *)
Lemma TrimSpace_plain s : forallb plain s = true -> TrimSpace s = s.
Proof.
  intros Hs. unfold TrimSpace.
  assert (Hno : forall e, e ∈ space_encodings -> ~ e `prefix_of` s /\ ~ e `suffix_of` s).
  { intros e He. destruct (space_encoding_cons e He) as (b & e' & ->).
    assert (Hb : b ∈ s -> False).
    { intros Hb. rewrite forallb_forall in Hs. specialize (Hs b (proj1 (list_elem_of_In _ _) Hb)).
      rewrite (plain_not_space _ b He) in Hs; [done | left]. }
    split; intros [k ->]; apply Hb; rewrite ?elem_of_app; [by left; left | by right; left]. }
  assert (Hl : trim_left_fuel (length s) s = s).
  { destruct (length s); cbn [trim_left_fuel]; [done |].
    destruct (list_find (fun e => e `prefix_of` s) space_encodings) as [[i e]|] eqn:Hf; [|done].
    apply list_find_Some in Hf as (Hi & Hp & _). by destruct (Hno e (list_elem_of_lookup_2 _ _ _ Hi)). }
  rewrite Hl. destruct (length s); cbn [trim_right_fuel]; [done |].
  destruct (list_find (fun e => e `suffix_of` s) space_encodings) as [[i e]|] eqn:Hf; [|done].
  apply list_find_Some in Hf as (Hi & Hp & _). by destruct (Hno e (list_elem_of_lookup_2 _ _ _ Hi)).
Qed.

Lemma contains_byte_false s b : contains_byte s b = false <-> b ∉ s.
Proof. apply bool_decide_eq_false. Qed.

Lemma LastIndexByte_None s b : LastIndexByte s b = None <-> b ∉ s.
Proof.
  induction s as [|c s IH]; simpl; [split; [intros _; apply not_elem_of_nil | done] |].
  rewrite not_elem_of_cons. destruct (LastIndexByte s b).
  - split; [done |]. intros [_ H]. apply IH in H. done.
  - case_bool_decide; split; try done; [by intros [? _] | intros _]. split; [congruence | by apply IH].
Qed.

Lemma LastIndexByte_app s b t : b ∉ t -> LastIndexByte (s ++ b :: t) b = Some (length s).
Proof.
  intros Ht. induction s as [|c s IH]; simpl.
  - apply LastIndexByte_None in Ht. by rewrite Ht, bool_decide_eq_true_2.
  - by rewrite IH.
Qed.

(** A host without colons or brackets, with a port. *)
Lemma SplitHostPort_plain host port :
  colon ∉ host -> lbracket ∉ host -> rbracket ∉ host ->
  colon ∉ port -> lbracket ∉ port -> rbracket ∉ port ->
  SplitHostPort (host ++ colon :: port) = Ok (host, port).
Proof.
  intros H1 H2 H3 H4 H5 H6. unfold SplitHostPort. rewrite LastIndexByte_app by done.
  assert (H0 : byte_at (host ++ colon :: port) 0 <> lbracket).
  { destruct host as [|b host]; [done |]. unfold byte_at. simpl. intros ->. apply H2. left. }
  rewrite (bool_decide_eq_false_2 _ H0).
  rewrite take_app_length, (proj2 (contains_byte_false host colon)) by done.
  rewrite !drop_0, !(proj2 (contains_byte_false _ _)); [|
    rewrite elem_of_app, elem_of_cons; intros [?|[[=]|?]]; done ..].
  f_equal. f_equal. change (host ++ colon :: port) with (host ++ [colon] ++ port).
  rewrite app_assoc. apply drop_app_length'. by rewrite length_app.
Qed.

Lemma SplitHostPort_no_colon host : colon ∉ host -> SplitHostPort host = Err MissingPort.
Proof. intros H. unfold SplitHostPort. by rewrite (proj2 (LastIndexByte_None host colon)). Qed.

Example canonical_1 : CanonicalKey ($"x-forwarded-FOR") = $"X-Forwarded-For".
Proof. reflexivity. Qed.
Example canonical_2 : CanonicalKey ($"TE") = $"Te".
Proof. reflexivity. Qed.
Example trim_1 : TrimSpace (lit "  a b" ++ [Byte.xc2; Byte.xa0]) = $"a b".
Proof. reflexivity. Qed.
Example split_1 : SplitHostPort ($"demo.test:80") = Ok ($"demo.test", $"80").
Proof. reflexivity. Qed.
Example split_2 : SplitHostPort ($"[::1]:80") = Ok ($"::1", $"80").
Proof. reflexivity. Qed.

(** ** Text encodings of bytes *)

Definition lowerhex (n : Z) : byte := byte_of_Z (if n <? 10 then 48 + n else 87 + n).

(** [hex.EncodeToString]. *)
Definition hex_encode (data : list byte) : gostring :=
  data ≫= fun b => [lowerhex (byte_to_Z b / 16); lowerhex (byte_to_Z b mod 16)].

Definition base64url_alphabet : gostring :=
  $"ABCDEFGHIJKLMNOPQRSTUVWXYZabcdefghijklmnopqrstuvwxyz0123456789-_".
Definition base64url_char (n : Z) : byte := default Byte.x00 (base64url_alphabet !! Z.to_nat n).

(** [base64.RawURLEncoding.EncodeToString]. *)
Fixpoint base64url_encode (data : list byte) : gostring :=
  match data with
  | a :: b :: c :: rest =>
      let v := byte_to_Z a * 65536 + byte_to_Z b * 256 + byte_to_Z c in
      base64url_char (v / 262144) :: base64url_char ((v / 4096) mod 64)
        :: base64url_char ((v / 64) mod 64) :: base64url_char (v mod 64) :: base64url_encode rest
  | [a; b] =>
      let v := byte_to_Z a * 65536 + byte_to_Z b * 256 in
      [base64url_char (v / 262144); base64url_char ((v / 4096) mod 64); base64url_char ((v / 64) mod 64)]
  | [a] => let v := byte_to_Z a * 65536 in
           [base64url_char (v / 262144); base64url_char ((v / 4096) mod 64)]
  | [] => []
  end.

Example base64url_demo : base64url_encode ($"hello?>") = $"aGVsbG8_Pg".
Proof. reflexivity. Qed.

(** ** UTF-8 round trip *)

Lemma byte_of_Z_eq b z : z = byte_to_Z b -> byte_of_Z z = b.
Proof. intros ->. apply byte_of_to_Z. Qed.

Lemma EncodeRune_2 b b1 :
  194 <= byte_to_Z b <= 223 -> 128 <= byte_to_Z b1 <= 191 ->
  EncodeRune ((byte_to_Z b - 192) * 64 + (byte_to_Z b1 - 128)) = [b; b1].
Proof.
  intros Hb Hb1. unfold EncodeRune. set (r := (byte_to_Z b - 192) * 64 + (byte_to_Z b1 - 128)).
  assert (Hr : 128 <= r < 2048) by (subst r; lia).
  replace ((0 <=? r) && (r <? 128)) with false by lia. replace ((0 <=? r) && (r <? 2048)) with true by lia.
  repeat f_equal; apply byte_of_Z_eq; subst r; clear Hr; Z.to_euclidean_division_equations; lia.
Qed.

Lemma EncodeRune_3 b b1 b2 r :
  r = (byte_to_Z b - 224) * 4096 + (byte_to_Z b1 - 128) * 64 + (byte_to_Z b2 - 128) ->
  224 <= byte_to_Z b <= 239 -> 128 <= byte_to_Z b1 <= 191 -> 128 <= byte_to_Z b2 <= 191 ->
  2048 <= r -> (r < 55296 \/ 57343 < r) ->
  EncodeRune r = [b; b1; b2].
Proof.
  intros -> Hb Hb1 Hb2. set (r := _ + (byte_to_Z b2 - 128)). intros Hr Hs. unfold EncodeRune.
  replace ((0 <=? r) && (r <? 128)) with false by lia. replace ((0 <=? r) && (r <? 2048)) with false by lia.
  replace ((r <? 0) || (1114111 <? r) || ((55296 <=? r) && (r <=? 57343))) with false by lia.
  replace (r <? 65536) with true by lia.
  repeat f_equal; apply byte_of_Z_eq; subst r; clear Hr Hs; Z.to_euclidean_division_equations; lia.
Qed.

Lemma EncodeRune_4 b b1 b2 b3 r :
  r = (byte_to_Z b - 240) * 262144 + (byte_to_Z b1 - 128) * 4096 + (byte_to_Z b2 - 128) * 64
      + (byte_to_Z b3 - 128) ->
  240 <= byte_to_Z b <= 244 -> 128 <= byte_to_Z b1 <= 191 -> 128 <= byte_to_Z b2 <= 191 ->
  128 <= byte_to_Z b3 <= 191 -> 65536 <= r <= 1114111 ->
  EncodeRune r = [b; b1; b2; b3].
Proof.
  intros -> Hb Hb1 Hb2 Hb3. set (r := _ + (byte_to_Z b3 - 128)). intros Hr. unfold EncodeRune.
  replace ((0 <=? r) && (r <? 128)) with false by lia. replace ((0 <=? r) && (r <? 2048)) with false by lia.
  replace ((r <? 0) || (1114111 <? r) || ((55296 <=? r) && (r <=? 57343))) with false by lia.
  replace (r <? 65536) with false by lia.
  repeat f_equal; apply byte_of_Z_eq; subst r; clear Hr; Z.to_euclidean_division_equations; lia.
Qed.

(** [s] starts with the encoding of [r], of width [n], whatever follows it. *)
Definition decodes_as (s : gostring) (r : Z) (n : nat) : Prop :=
  exists e t, s = e ++ t /\ length e = n /\ (0 < n)%nat /\ EncodeRune r = e
              /\ forall t', DecodeRune (e ++ t') = (r, n).

Lemma DecodeRune_ascii b s : byte_to_Z b < 128 -> DecodeRune (b :: s) = (byte_to_Z b, 1%nat).
Proof. intros H. unfold DecodeRune. by rewrite (proj2 (Z.ltb_lt _ _) H). Qed.

Lemma EncodeRune_ascii b : byte_to_Z b < 128 -> EncodeRune (byte_to_Z b) = [b].
Proof.
  intros H. unfold EncodeRune. pose proof (byte_to_Z_range b).
  replace ((0 <=? byte_to_Z b) && (byte_to_Z b <? 128)) with true by lia. by rewrite byte_of_to_Z.
Qed.

(** A decoded rune is either one invalid byte or an encoding. *)
Lemma DecodeRune_cases b s r n :
  DecodeRune (b :: s) = (r, n) ->
  (r = RuneError /\ n = 1%nat /\ 128 <= byte_to_Z b) \/ decodes_as (b :: s) r n.
Proof.
  destruct (decide (byte_to_Z b < 128)) as [Ha|Ha].
  { rewrite DecodeRune_ascii by done. intros [= <- <-]. right. exists [b], s.
    split_and!; auto using EncodeRune_ascii. intros t'. by apply DecodeRune_ascii. }
  assert (Herr : (RuneError, 1%nat) = (r, n) ->
    (r = RuneError /\ n = 1%nat /\ 128 <= byte_to_Z b) \/ decodes_as (b :: s) r n)
    by (intros [= <- <-]; left; auto with lia).
  unfold DecodeRune. destruct (byte_to_Z b <? 128) eqn:H1; [lia |].
  destruct ((194 <=? byte_to_Z b) && (byte_to_Z b <=? 223)) eqn:H2.
  { destruct s as [|b1 s]; [exact Herr |]. destruct (cont_byte b1) eqn:Hc1; [|exact Herr].
    intros [= <- <-]. right. exists [b; b1], s. split_and!; auto with lia.
    - unfold cont_byte, byte_in in Hc1. apply EncodeRune_2; lia.
    - intros t'. simpl. by rewrite H1, H2, Hc1. }
  destruct ((224 <=? byte_to_Z b) && (byte_to_Z b <=? 239)) eqn:H3.
  { destruct s as [|b1 [|b2 s]]; try exact Herr. cbv zeta.
    destruct (byte_in _ _ b1 && cont_byte b2) eqn:Hc; [|exact Herr].
    intros [= <- <-]. right. exists [b; b1; b2], s. split_and!; auto with lia.
    - unfold cont_byte, byte_in in Hc. eapply EncodeRune_3; [reflexivity | ..];
        destruct (byte_to_Z b =? 224) eqn:?, (byte_to_Z b =? 237) eqn:?; lia.
    - intros t'. simpl. by rewrite H1, H2, H3, Hc. }
  destruct ((240 <=? byte_to_Z b) && (byte_to_Z b <=? 244)) eqn:H4; [|exact Herr].
  destruct s as [|b1 [|b2 [|b3 s]]]; try exact Herr. cbv zeta.
  destruct (byte_in _ _ b1 && cont_byte b2 && cont_byte b3) eqn:Hc; [|exact Herr].
  intros [= <- <-]. right. exists [b; b1; b2; b3], s. split_and!; auto with lia.
  - unfold cont_byte, byte_in in Hc. eapply EncodeRune_4; [reflexivity | ..];
      destruct (byte_to_Z b =? 240) eqn:?, (byte_to_Z b =? 244) eqn:?; lia.
  - intros t'. simpl. by rewrite H1, H2, H3, H4, Hc.
Qed.
