(* ===== verification/Crypto.v ===== *)
(** * Hashes, message authentication codes and base64 decoding

    The parts of crypto/sha256, crypto/hmac and encoding/base64 the token code
    uses: [sha256.Sum256], [hmac.New(sha256.New, key)] with [Write] and [Sum], and
    [base64.RawURLEncoding.DecodeString] with its round trip. *)

From S2P Require Import Prelude GoStrings.

(** ** SHA-256 *)

Definition mask32 : Z := 4294967295.
Definition add32 (x y : Z) : Z := Z.land (x + y) mask32.
Definition rotr32 (n x : Z) : Z := Z.lor (Z.shiftr x n) (Z.land (Z.shiftl x (32 - n)) mask32).

Definition big_sigma0 (x : Z) : Z := Z.lxor (rotr32 2 x) (Z.lxor (rotr32 13 x) (rotr32 22 x)).
Definition big_sigma1 (x : Z) : Z := Z.lxor (rotr32 6 x) (Z.lxor (rotr32 11 x) (rotr32 25 x)).
Definition small_sigma0 (x : Z) : Z := Z.lxor (rotr32 7 x) (Z.lxor (rotr32 18 x) (Z.shiftr x 3)).
Definition small_sigma1 (x : Z) : Z := Z.lxor (rotr32 17 x) (Z.lxor (rotr32 19 x) (Z.shiftr x 10)).
Definition choose32 (x y z : Z) : Z := Z.lxor (Z.land x y) (Z.land (Z.lxor x mask32) z).
Definition majority32 (x y z : Z) : Z := Z.lxor (Z.land x y) (Z.lxor (Z.land x z) (Z.land y z)).

(** The constants of the standard are the first 32 bits of the fractional parts of
    roots of primes; [root_bits k n count r] finds the [count] low bits of the
    integer [k]-th root of [n]. *)
Fixpoint root_bits (k n : Z) (count : nat) (r : Z) : Z :=
  match count with
  | O => r
  | S count => let r' := r + 2 ^ Z.of_nat count in root_bits k n count (if r' ^ k <=? n then r' else r)
  end.

Definition root_fraction (k p : Z) : Z := Z.land (root_bits k (p * 2 ^ (32 * k)) 37 0) mask32.

Definition primes (count : nat) : list Z :=
  take count (filter (fun p => forallb (fun d => negb (p mod d =? 0)) (seqZ 2 (p - 2)) = true) (seqZ 2 311)).

(** The cube roots of the first 64 primes. *)
Definition round_constants : list Z := Eval vm_compute in root_fraction 3 <$> primes 64.

Record digest_state := mkDigest { da : Z; db_ : Z; dc : Z; dd : Z; de : Z; df : Z; dg : Z; dh : Z }.

(** The square roots of the first eight. *)
Definition initial_digest : digest_state := Eval vm_compute in
  match root_fraction 2 <$> primes 8 with
  | [a; b; c; d; e; f; g; h] => mkDigest a b c d e f g h
  | _ => mkDigest 0 0 0 0 0 0 0 0
  end.

Definition word_at (w : list Z) (i : nat) : Z := default 0 (w !! i).

(** One round: the window holds the sixteen words of the schedule that the round
    and the ones after it need. *)
Definition sha_round (s : digest_state * list Z) (k : Z) : digest_state * list Z :=
  let '(d, w) := s in
  let t1 := add32 (add32 (dh d) (big_sigma1 (de d)))
                  (add32 (choose32 (de d) (df d) (dg d)) (add32 k (word_at w 0))) in
  let t2 := add32 (big_sigma0 (da d)) (majority32 (da d) (db_ d) (dc d)) in
  let next := add32 (add32 (small_sigma1 (word_at w 14)) (word_at w 9))
                    (add32 (small_sigma0 (word_at w 1)) (word_at w 0)) in
  (mkDigest (add32 t1 t2) (da d) (db_ d) (dc d) (add32 (dd d) t1) (de d) (df d) (dg d), tail w ++ [next]).

Fixpoint groups {A} (count size : nat) (l : list A) : list (list A) :=
  match count with
  | O => []
  | S count => take size l :: groups count size (drop size l)
  end.

Definition compress (d : digest_state) (block : list byte) : digest_state :=
  let e := (foldl sha_round (d, be_get <$> groups 16 4 block) round_constants).1 in
  mkDigest (add32 (da d) (da e)) (add32 (db_ d) (db_ e)) (add32 (dc d) (dc e)) (add32 (dd d) (dd e))
           (add32 (de d) (de e)) (add32 (df d) (df e)) (add32 (dg d) (dg e)) (add32 (dh d) (dh e)).

(** The message, a one bit, zeros, and its length in bits: a multiple of 64
    bytes. *)
Definition sha_pad (data : list byte) : list byte :=
  let zeros := Z.to_nat ((55 - zlen data) mod 64) in
  data ++ [Byte.x80] ++ replicate zeros Byte.x00 ++ be_put 8 (8 * zlen data).

Definition digest_bytes (d : digest_state) : list byte :=
  [da d; db_ d; dc d; dd d; de d; df d; dg d; dh d] ≫= be_put 4.

(** [sha256.Sum256]. *)
Definition Sum256 (data : list byte) : list byte :=
  let padded := sha_pad data in
  digest_bytes (foldl compress initial_digest (groups (length padded / 64) 64 padded)).

(** [hmac.New(sha256.New, key)], then [Write(data)] and [Sum(nil)]. *)
Definition hmac_key (key : list byte) : list byte :=
  let key := if 64 <? zlen key then Sum256 key else key in
  key ++ replicate (64 - length key) Byte.x00.
Definition xor_byte (m : Z) (b : byte) : byte := byte_of_Z (Z.lxor (byte_to_Z b) m).
Definition hmac_sha256 (key data : list byte) : list byte :=
  let k := hmac_key key in
  Sum256 ((xor_byte 92 <$> k) ++ Sum256 ((xor_byte 54 <$> k) ++ data)).

Example sha256_empty :
  hex_encode (Sum256 []) = $"e3b0c44298fc1c149afbf4c8996fb92427ae41e4649b934ca495991b7852b855".
Proof. vm_compute. reflexivity. Qed.
Example sha256_abc :
  hex_encode (Sum256 ($"abc")) = $"ba7816bf8f01cfea414140de5dae2223b00361a396177a9cb410ff61f20015ad".
Proof. vm_compute. reflexivity. Qed.
Example sha256_two_blocks :
  hex_encode (Sum256 ($"abcdbcdecdefdefgefghfghighijhijkijkljklmklmnlmnomnopnopq"))
  = $"248d6a61d20638b8e5c026930c3e6039a33ce45964ff2167f6ecedd419db06c1".
Proof. vm_compute. reflexivity. Qed.
Example hmac_rfc4231_2 :
  hex_encode (hmac_sha256 ($"Jefe") ($"what do ya want for nothing?"))
  = $"5bdcc146bf60754e6a042426089575c75a003f089d2739839dec58b964ec3843".
Proof. vm_compute. reflexivity. Qed.

(** ** Base64 *)

(** The value of a digit of the URL alphabet. *)
Definition base64url_value (b : byte) : option Z :=
  let c := byte_to_Z b in
  if is_upper b then Some (c - 65)
  else if is_lower b then Some (c - 71)
  else if is_digit b then Some (c + 4)
  else if c =? 45 then Some 62
  else if c =? 95 then Some 63
  else None.

Fixpoint join_sextets (l : list Z) : option (list byte) :=
  match l with
  | a :: b :: c :: d :: rest =>
      let v := a * 262144 + b * 4096 + c * 64 + d in
      t ← join_sextets rest;
      Some (byte_of_Z (v / 65536) :: byte_of_Z (v / 256) :: byte_of_Z v :: t)
  | [a; b; c] =>
      let v := a * 262144 + b * 4096 + c * 64 in
      Some [byte_of_Z (v / 65536); byte_of_Z (v / 256)]
  | [a; b] => Some [byte_of_Z ((a * 262144 + b * 4096) / 65536)]
  | [_] => None
  | [] => Some []
  end.

(** [base64.RawURLEncoding.DecodeString]: line ends are skipped anywhere and the
    unused bits of the last digit are ignored. *)
Definition base64url_decode (s : gostring) : option (list byte) :=
  let s := filter (fun b => b <> Byte.x0a /\ b <> Byte.x0d) s in
  l ← mapM base64url_value s; join_sextets l.

Definition sextet_ok (n : Z) : bool :=
  bool_decide (base64url_value (base64url_char n) = Some n)
  && negb (bool_decide (base64url_char n = Byte.x0a)) && negb (bool_decide (base64url_char n = Byte.x0d))
  && negb (bool_decide (base64url_char n = Byte.x2e)) && is_ascii (base64url_char n)
  && plain (base64url_char n).

Lemma sextet_char n : 0 <= n < 64 ->
  base64url_value (base64url_char n) = Some n /\ base64url_char n <> Byte.x0a /\ base64url_char n <> Byte.x0d
  /\ base64url_char n <> Byte.x2e /\ is_ascii (base64url_char n) = true /\ plain (base64url_char n) = true.
Proof.
  intros Hn. assert (H : sextet_ok n = true).
  { assert (Hall : forallb sextet_ok (Z.of_nat <$> seq 0 64) = true) by (vm_compute; reflexivity).
    rewrite forallb_forall in Hall. apply Hall. apply list_elem_of_In, list_elem_of_fmap.
    exists (Z.to_nat n). split; [lia |]. apply elem_of_seq. lia. }
  unfold sextet_ok in H. rewrite !andb_true_iff, !negb_true_iff, !bool_decide_eq_false, bool_decide_eq_true in H.
  tauto.
Qed.

(** The digits of an encoding, before the alphabet is applied. *)
Fixpoint sextets (data : list byte) : list Z :=
  match data with
  | a :: b :: c :: rest =>
      let v := byte_to_Z a * 65536 + byte_to_Z b * 256 + byte_to_Z c in
      v / 262144 :: (v / 4096) mod 64 :: (v / 64) mod 64 :: v mod 64 :: sextets rest
  | [a; b] => let v := byte_to_Z a * 65536 + byte_to_Z b * 256 in
              [v / 262144; (v / 4096) mod 64; (v / 64) mod 64]
  | [a] => let v := byte_to_Z a * 65536 in [v / 262144; (v / 4096) mod 64]
  | [] => []
  end.

(** Induction on a byte sequence three at a time. *)
Lemma triples_ind (P : list byte -> Prop) :
  P [] -> (forall a, P [a]) -> (forall a b, P [a; b]) ->
  (forall a b c l, P l -> P (a :: b :: c :: l)) -> forall l, P l.
Proof.
  intros H0 H1 H2 H3. fix IH 1. intros [|a [|b [|c l]]]; [done | apply H1 | apply H2 | apply H3, IH].
Qed.

Lemma base64url_encode_sextets data : base64url_encode data = base64url_char <$> sextets data.
Proof. induction data using triples_ind; [done | done | done |]. cbn. by rewrite IHdata. Qed.

Ltac byte_ranges :=
  repeat match goal with b : byte |- _ =>
    lazymatch goal with
    | _ : 0 <= byte_to_Z b < 256 |- _ => fail
    | _ => pose proof (byte_to_Z_range b)
    end
  end.

Lemma sextets_range data : Forall (fun n => 0 <= n < 64) (sextets data).
Proof.
  induction data using triples_ind; cbn [sextets]; repeat constructor; try done; byte_ranges;
    Z.to_euclidean_division_equations; lia.
Qed.

Lemma byte_of_Z_mod z b : z mod 256 = byte_to_Z b -> byte_of_Z z = b.
Proof. intros H. apply byte_to_Z_inj. by rewrite byte_to_of_Z. Qed.

Lemma join_sextets_sextets data : join_sextets (sextets data) = Some data.
Proof.
  induction data using triples_ind; cbn [sextets join_sextets]; [done | ..]; rewrite ?IHdata; cbn [mbind option_bind];
    repeat f_equal; apply byte_of_Z_mod; byte_ranges; Z.to_euclidean_division_equations; lia.
Qed.

Lemma base64url_encode_all (P : byte -> Prop) data :
  (forall n, 0 <= n < 64 -> P (base64url_char n)) -> Forall P (base64url_encode data).
Proof.
  intros HP. rewrite base64url_encode_sextets, Forall_fmap. eapply list.Forall_impl; [apply sextets_range | done].
Qed.

Lemma filter_keeps_all {A} (P : A -> Prop) `{!forall x, Decision (P x)} (l : list A) : Forall P l -> filter P l = l.
Proof. induction 1 as [|x l Hx _ IH]; [done |]. by rewrite filter_cons_True, IH. Qed.

Lemma base64url_roundtrip data : base64url_decode (base64url_encode data) = Some data.
Proof.
  unfold base64url_decode. rewrite filter_keeps_all.
  - rewrite base64url_encode_sextets. enough (mapM base64url_value (base64url_char <$> sextets data) = Some (sextets data)) as ->.
    { apply join_sextets_sextets. }
    pose proof (sextets_range data) as Hr. induction Hr as [|n l Hn _ IH]; [done |].
    cbn. rewrite (proj1 (sextet_char n Hn)). cbn. by rewrite IH.
  - apply base64url_encode_all. intros n Hn. by pose proof (sextet_char n Hn) as (_ & ? & ? & _).
Qed.

Lemma base64url_no_dot data : Byte.x2e ∉ base64url_encode data.
Proof.
  intros Hin. pose proof (base64url_encode_all (fun b => b <> Byte.x2e) data) as H.
  rewrite list.Forall_forall in H. eapply H; [|exact Hin | done]. intros n Hn. by pose proof (sextet_char n Hn) as (_ & _ & _ & ? & _).
Qed.

Lemma base64url_plain data : forallb plain (base64url_encode data) = true.
Proof.
  apply forallb_forall. intros b Hb%list_elem_of_In.
  pose proof (base64url_encode_all (fun b => plain b = true) data) as H. rewrite list.Forall_forall in H.
  apply H; [|done]. intros n Hn. by pose proof (sextet_char n Hn) as (_ & _ & _ & _ & _ & ?).
Qed.

Lemma base64url_ascii data : forallb is_ascii (base64url_encode data) = true.
Proof.
  apply forallb_forall. intros b Hb%list_elem_of_In.
  pose proof (base64url_encode_all (fun b => is_ascii b = true) data) as H. rewrite list.Forall_forall in H.
  apply H; [|done]. intros n Hn. by pose proof (sextet_char n Hn) as (_ & _ & _ & _ & ? & _).
Qed.

#[global] Arguments Sum256 : simpl never.
#[global] Arguments hmac_sha256 : simpl never.
#[global] Arguments base64url_encode : simpl never.
#[global] Arguments base64url_decode : simpl never.
