(* ===== verification/Effects.v ===== *)
(** * Programs that talk to the outside

    The request handlers and services of the gateway run concurrently and are
    atomic only statement by statement: a query, a clock reading, a call that
    holds a mutex.  A program is the tree of its atomic actions.  What the outside
    answers to an action (the time, random bytes, a generated key, a failure) is
    an [answer], so that one program can be run alone, on a given sequence of
    answers, or interleaved with others. *)

From S2P Require Import Prelude.

(** How a statement sent to the database can fail for reasons of its own: before
    it took effect, or after, when only the reply was lost. *)
Inductive fault :=
| NotExecuted (text : gostring)
| ReplyLost (text : gostring).

Record answer := mkAnswer {
  a_now : Z;                          (* time.Now() and NOW() *)
  a_uuid : gostring;                  (* gen_random_uuid() *)
  a_random : option (list byte);      (* rand.Read *)
  a_fault : option fault
}.

Inductive prog (S A : Type) : Type :=
| Ret (a : A)
| Do (B : Set) (f : answer -> S -> B * S) (k : B -> prog S A).
Arguments Ret {S A} a.
Arguments Do {S A B} f k.

Section prog.
Context {S : Type}.

Fixpoint prog_bind {A B} (m : prog S A) (g : A -> prog S B) : prog S B :=
  match m with
  | Ret a => g a
  | Do f k => Do f (fun b => prog_bind (k b) g)
  end.

#[global] Instance prog_ret : MRet (prog S) := fun _ a => Ret a.
#[global] Instance prog_mbind : MBind (prog S) := fun _ _ g m => prog_bind m g.

(** One atomic action. *)
Definition action {B : Set} (f : answer -> S -> B * S) : prog S B := Do f Ret.

Definition Now : prog S Z := action (fun a s => (a_now a, s)).

(** [rand.Read] of a slice of [n] bytes: all of them, or an error. *)
Definition rand_Read (n : nat) : prog S (option (list byte)) :=
  action (fun a s => (match a_random a with Some b => Some (take n (b ++ make_bytes n)) | None => None end, s)).

(** ** Running a program alone *)

(** The result, the state left, and the number of answers used. *)
Fixpoint run {A} (env : nat -> answer) (n : nat) (m : prog S A) (s : S) : A * S * nat :=
  match m with
  | Ret a => (a, s, n)
  | Do f k => let '(b, s') := f (env n) s in run env (Datatypes.S n) (k b) s'
  end.

Lemma run_bind {A B} env n (m : prog S A) (g : A -> prog S B) s :
  run env n (m ≫= g) s = let '(a, s', n') := run env n m s in run env n' (g a) s'.
Proof.
  revert n s. induction m as [a|T f k IH]; intros n s; [done |].
  cbn. destruct (f (env n) s) as [b s']. apply IH.
Qed.

Lemma run_action {B : Set} env n (f : answer -> S -> B * S) s :
  run env n (action f) s = (f (env n) s, Datatypes.S n).
Proof. cbn. by destruct (f (env n) s). Qed.

(** ** Interleavings *)

Inductive thread := | Thread {A : Set} (p : prog S A).

(** Requests of the kind [arrives] come in at any time; every thread advances by
    one action at a time. *)
Inductive step (arrives : thread -> Prop) : S * list thread -> S * list thread -> Prop :=
| step_arrive s ts t : arrives t -> step arrives (s, ts) (s, ts ++ [t])
| step_action s s' ts1 ts2 A B (f : answer -> S -> B * S) (k : B -> prog S A) a b :
    f a s = (b, s') ->
    step arrives (s, ts1 ++ Thread (Do f k) :: ts2) (s', ts1 ++ Thread (k b) :: ts2).



(** A program run alone is one of the interleavings. *)
Lemma run_steps {A : Set} arrives env n (m : prog S A) s ts1 ts2 :
  rtc (step arrives) (s, ts1 ++ Thread m :: ts2)
    ((run env n m s).1.2, ts1 ++ Thread (Ret (S := S) (run env n m s).1.1) :: ts2).
Proof.
  revert n s. induction m as [a|T f k IH]; intros n s; [apply rtc_refl |].
  cbn [run]. destruct (f (env n) s) as [b s'] eqn:Hf. eapply rtc_l; [by eapply step_action | apply IH].
Qed.

(** ** A given interleaving of two programs *)

(** [false] lets the first one act, [true] the second. *)
Fixpoint schedule {A B} (sch : list (bool * answer)) (m1 : prog S A) (m2 : prog S B) (s : S) : prog S A * prog S B * S :=
  match sch with
  | [] => (m1, m2, s)
  | (false, a) :: sch =>
      match m1 with
      | Ret _ => schedule sch m1 m2 s
      | Do f k => let '(b, s') := f a s in schedule sch (k b) m2 s'
      end
  | (true, a) :: sch =>
      match m2 with
      | Ret _ => schedule sch m1 m2 s
      | Do f k => let '(b, s') := f a s in schedule sch m1 (k b) s'
      end
  end.

Lemma schedule_steps {A1 A2 : Set} arrives sch (m1 : prog S A1) (m2 : prog S A2) s :
  let '(m1', m2', s') := schedule sch m1 m2 s in
  rtc (step arrives) (s, [Thread m1; Thread m2]) (s', [Thread m1'; Thread m2']).
Proof.
  revert m1 m2 s. induction sch as [|[[] a] sch IH]; intros m1 m2 s; cbn [schedule]; [apply rtc_refl | |].
  - destruct m2 as [x|B f k]; [apply IH |]. destruct (f a s) as [b s'] eqn:Hf. specialize (IH m1 (k b) s').
    destruct (schedule sch m1 (k b) s') as [[m1' m2'] s'']. eapply rtc_l; [|exact IH].
    by apply (step_action arrives s s' [Thread m1] [] A2 B f k a b).
  - destruct m1 as [x|B f k]; [apply IH |]. destruct (f a s) as [b s'] eqn:Hf. specialize (IH (k b) m2 s').
    destruct (schedule sch (k b) m2 s') as [[m1' m2'] s'']. eapply rtc_l; [|exact IH].
    by apply (step_action arrives s s' [] [Thread m2] A1 B f k a b).
Qed.

(** ** Rely and guarantee

    [inv] holds between any two actions of any thread, and the state only moves
    along [rel].  [rg post s m]: started in a state reached from [s], every action
    of [m] keeps to this and the result satisfies [post], whatever the other
    threads do meanwhile. *)

Section rely_guarantee.
Context (inv : S -> Prop) (rel : S -> S -> Prop) `{!PreOrder rel}.

Fixpoint rg {A} (post : A -> S -> Prop) (s0 : S) (m : prog S A) : Prop :=
  match m with
  | Ret a => post a s0
  | Do f k => forall a s, inv s -> rel s0 s ->
                let '(b, s') := f a s in inv s' /\ rel s s' /\ rg post s' (k b)
  end.

Lemma rg_weaken {A} (post post' : A -> S -> Prop) s0 m :
  inv s0 -> rg post s0 m -> (forall a s, inv s -> rel s0 s -> post a s -> post' a s) -> rg post' s0 m.
Proof.
  revert s0. induction m as [x|B f k IH]; intros s0 Hi Hm Hp; [apply Hp; [done | reflexivity | exact Hm] |].
  intros a s Hs Hr. specialize (Hm a s Hs Hr). destruct (f a s) as [b s']. destruct Hm as (Hi' & Hr' & Hm).
  split_and!; [done | done |]. apply IH; [done | done |]. intros x t Ht Hrel. apply Hp; [done |].
  etrans; [exact Hr |]. by etrans.
Qed.

(** What other threads did before the first action changes nothing. *)
Lemma rg_later {A} s0 s1 (m : prog S A) : rel s0 s1 -> rg (fun _ _ => True) s0 m -> rg (fun _ _ => True) s1 m.
Proof.
  destruct m as [x|B f k]; [done |]. intros Hrel Hm a s Hs Hr. apply Hm; [done |]. by etrans.
Qed.

Lemma rg_ret {A} (post : A -> S -> Prop) s0 a : post a s0 -> rg post s0 (mret a).
Proof. done. Qed.

Lemma rg_action {B : Set} (post : B -> S -> Prop) s0 (f : answer -> S -> B * S) :
  (forall a s, inv s -> rel s0 s -> inv (f a s).2 /\ rel s (f a s).2 /\ post (f a s).1 (f a s).2) ->
  rg post s0 (action f).
Proof. intros H a s Hs Hr. specialize (H a s Hs Hr). cbn. by destruct (f a s). Qed.

Lemma rg_bind {A B} (post : B -> S -> Prop) s0 (m : prog S A) (g : A -> prog S B) :
  rg (fun a s => rg post s (g a)) s0 m -> rg post s0 (m ≫= g).
Proof.
  revert s0. induction m as [x|T f k IH]; intros s0; [done |].
  intros Hm a s Hs Hr. cbn. specialize (Hm a s Hs Hr). destruct (f a s) as [b s']. destruct Hm as (Hi' & Hr' & Hm).
  split_and!; [done | done |]. by apply IH.
Qed.

Lemma rg_run {A} post env n (m : prog S A) s a s' n' :
  inv s -> rg post s m -> run env n m s = (a, s', n') -> inv s' /\ rel s s' /\ post a s'.
Proof.
  revert n s. induction m as [x|T f k IH]; intros n s Hi Hm; cbn [run].
  - intros [= <- <- <-]. split_and!; [done | reflexivity | done].
  - specialize (Hm (env n) s Hi ltac:(reflexivity)). destruct (f (env n) s) as [b s1]. destruct Hm as (Hi' & Hr' & Hm).
    intros Hrun. destruct (IH b _ _ Hi' Hm Hrun) as (H1 & H2 & H3). split_and!; [done | by etrans | done].
Qed.

Definition thread_rg (s : S) (t : thread) : Prop := let '(Thread p) := t in rg (fun _ _ => True) s p.

(** Every interleaving keeps the invariant and moves along [rel]. *)
Lemma rg_steps (arrives : thread -> Prop) s ts s' ts' :
  (forall t s, arrives t -> inv s -> thread_rg s t) ->
  rtc (step arrives) (s, ts) (s', ts') -> inv s -> Forall (thread_rg s) ts ->
  inv s' /\ rel s s' /\ Forall (thread_rg s') ts'.
Proof.
  intros Harr Hsteps. remember (s, ts) as c eqn:Hc. remember (s', ts') as c' eqn:Hc'.
  revert s ts Hc. induction Hsteps as [c|c1 c2 c3 Hstep _ IH]; intros s ts ->.
  { injection Hc' as <- <-. intros Hs Hts. split_and!; [done | reflexivity | done]. }
  intros Hs Hts. inversion Hstep as [? ? t Ht|s1 s2 ts1 ts2 A B f k a b Hf]; subst.
  - eapply IH; [done | reflexivity | done |]. apply list.Forall_app. split; [done |].
    constructor; [by apply Harr | done].
  - apply list.Forall_app in Hts as [H1 [Hk H2]%list.Forall_cons].
    specialize (Hk a s Hs ltac:(reflexivity)). rewrite Hf in Hk. destruct Hk as (Hi' & Hr' & Hk).
    assert (Hlater : forall us, Forall (thread_rg s) us -> Forall (thread_rg s2) us).
    { intros us Hus. eapply list.Forall_impl; [exact Hus |]. intros [T p]. by apply rg_later. }
    destruct (IH eq_refl s2 (ts1 ++ Thread (k b) :: ts2) eq_refl Hi') as (Ha & Hb & Hc).
    + apply list.Forall_app. split; [auto |]. constructor; [exact Hk | auto].
    + split_and!; [done | by etrans | done].
Qed.
End rely_guarantee.
End prog.

Arguments thread S : clear implicits.

(** Any number of actions of any threads. *)
Abbreviation interleaves arrives := (rtc (step arrives)).

(** ** A program on a part of a larger state *)

Record lens (S T : Type) := mkLens { view : S -> T; update : T -> S -> S }.
Arguments mkLens {S T}.
Arguments view {S T}.
Arguments update {S T}.

Class LensLaws {S T} (l : lens S T) : Prop := {
  view_update t s : view l (update l t s) = t;
  update_view s : update l (view l s) s = s;
  update_update t t' s : update l t (update l t' s) = update l t s
}.

Section lift.
Context {S T : Type} (l : lens S T).

Definition on_part {B : Set} (f : answer -> T -> B * T) (a : answer) (s : S) : B * S :=
  let '(b, t) := f a (view l s) in (b, update l t s).

Fixpoint lift {A} (m : prog T A) : prog S A :=
  match m with
  | Ret a => Ret a
  | Do f k => Do (on_part f) (fun b => lift (k b))
  end.

Lemma run_lift `{!LensLaws l} {A} env n (m : prog T A) s :
  run env n (lift m) s
  = let '(a, t, n') := run env n m (view l s) in (a, update l t s, n').
Proof.
  revert n s. induction m as [a|B f k IH]; intros n s; cbn.
  - by rewrite update_view.
  - unfold on_part. destruct (f (env n) (view l s)) as [b t]. rewrite IH, view_update.
    destruct (run env (Datatypes.S n) (k b) t) as [[a t'] n']. by rewrite update_update.
Qed.

Lemma rg_lift `{!LensLaws l} {A} (inv : T -> Prop) (rel : T -> T -> Prop) post (s0 : S) (m : prog T A) :
  rg inv rel post (view l s0) m ->
  rg (fun s => inv (view l s)) (fun s s' => rel (view l s) (view l s')) (fun a s => post a (view l s)) s0 (lift m).
Proof.
  revert s0. induction m as [x|B f k IH]; intros s0; [done |]. intros Hm a s Hs Hr. unfold on_part.
  specialize (Hm a _ Hs Hr). destruct (f a (view l s)) as [b t]. destruct Hm as (Hi' & Hr' & Hm). cbn.
  rewrite view_update. split_and!; [done | done |]. apply IH. by rewrite view_update.
Qed.
End lift.
