(* ===== verification/Frame.v ===== *)
(** * Binary frames

    The body chunks both ends exchange travel in WebSocket binary messages with
    a fixed header.  [MarshalBinary]/[ParseBinaryFrame] are the gateway's codec
    (backend/internal/protocol/frame.go) and [marshalBinary]/[parseBinaryFrame]
    the agent's (agent/internal/gatewayclient/frame.go). *)

From S2P Require Import Prelude.

(** ** Data *)

Definition BinaryFrameVersion : byte := Byte.x01.
Definition RequestBodyChunk : byte := Byte.x01.
Definition ResponseBodyChunk : byte := Byte.x02.
Definition binaryFrameHeader : Z := 12.
Definition MaxBinaryFramePayload : Z := Z.shiftl 32 10.

Record BinaryFrame := mkFrame {
  Type_ : byte;
  RequestID : gostring;
  Sequence : Z;            (* uint32 *)
  Payload : list byte
}.

#[global] Instance BinaryFrame_eq_dec : EqDecision BinaryFrame.
Proof. solve_decision. Defined.

(** The errors of the two codecs, one constructor per [fmt.Errorf]. *)
Inductive frame_error :=
| UnsupportedType (t : byte)
| InvalidRequestIDLength (n : Z)
| PayloadTooLarge
| InvalidFrame
| InvalidFrameLength.

#[global] Instance frame_error_eq_dec : EqDecision frame_error.
Proof. solve_decision. Defined.

(** ** The gateway's codec *)

Definition MarshalBinary (f : BinaryFrame) : result frame_error (list byte) :=
  if bool_decide (Type_ f ≠ RequestBodyChunk) && bool_decide (Type_ f ≠ ResponseBodyChunk)
  then Err (UnsupportedType (Type_ f))
  else if (zlen (RequestID f) =? 0) || (Z.shiftl 1 16 - 1 <? zlen (RequestID f))
  then Err (InvalidRequestIDLength (zlen (RequestID f)))
  else if MaxBinaryFramePayload <? zlen (Payload f)
  then Err PayloadTooLarge
  else
    let data := make_bytes (Z.to_nat (binaryFrameHeader + zlen (RequestID f) + zlen (Payload f))) in
    let data := copy_at 0 [BinaryFrameVersion; Type_ f] data in
    let data := copy_at 2 (be_put 2 (u16 (zlen (RequestID f)))) data in
    let data := copy_at 4 (be_put 4 (Sequence f)) data in
    let data := copy_at 8 (be_put 4 (u32 (zlen (Payload f)))) data in
    let data := copy_at 12 (RequestID f) data in
    let data := copy_at (12 + length (RequestID f)) (Payload f) data in
    Ok data.

Definition ParseBinaryFrame (data : list byte) : result frame_error BinaryFrame :=
  if (zlen data <? binaryFrameHeader) || bool_decide (byte_at data 0 ≠ BinaryFrameVersion)
  then Err InvalidFrame
  else
    let frameType := byte_at data 1 in
    if bool_decide (frameType ≠ RequestBodyChunk) && bool_decide (frameType ≠ ResponseBodyChunk)
    then Err (UnsupportedType frameType)
    else
      let idLength := be_get (slice 2 4 data) in
      let payloadLength := be_get (slice 8 12 data) in
      if MaxBinaryFramePayload <? payloadLength then Err PayloadTooLarge
      else if (idLength =? 0) || negb (zlen data =? binaryFrameHeader + idLength + payloadLength)
      then Err InvalidFrameLength
      else Ok (mkFrame frameType (slice 12 (12 + Z.to_nat idLength) data)
                 (be_get (slice 4 8 data)) (drop (12 + Z.to_nat idLength) data)).

(** ** The agent's codec *)

Definition marshalBinary (f : BinaryFrame) : result frame_error (list byte) :=
  if bool_decide (Type_ f ≠ RequestBodyChunk) && bool_decide (Type_ f ≠ ResponseBodyChunk)
  then Err (UnsupportedType (Type_ f))
  else if (zlen (RequestID f) =? 0) || (Z.shiftl 1 16 - 1 <? zlen (RequestID f))
  then Err (InvalidRequestIDLength (zlen (RequestID f)))
  else if MaxBinaryFramePayload <? zlen (Payload f)
  then Err PayloadTooLarge
  else
    let data := make_bytes (Z.to_nat (binaryFrameHeader + zlen (RequestID f) + zlen (Payload f))) in
    let data := copy_at 0 [BinaryFrameVersion; Type_ f] data in
    let data := copy_at 2 (be_put 2 (u16 (zlen (RequestID f)))) data in
    let data := copy_at 4 (be_put 4 (Sequence f)) data in
    let data := copy_at 8 (be_put 4 (u32 (zlen (Payload f)))) data in
    let data := copy_at 12 (RequestID f) data in
    let data := copy_at (12 + length (RequestID f)) (Payload f) data in
    Ok data.

Definition parseBinaryFrame (data : list byte) : result frame_error BinaryFrame :=
  if (zlen data <? binaryFrameHeader) || bool_decide (byte_at data 0 ≠ BinaryFrameVersion)
  then Err InvalidFrame
  else
    let idLength := be_get (slice 2 4 data) in
    let payloadLength := be_get (slice 8 12 data) in
    if MaxBinaryFramePayload <? payloadLength then Err PayloadTooLarge
    else if (bool_decide (byte_at data 1 ≠ RequestBodyChunk)
             && bool_decide (byte_at data 1 ≠ ResponseBodyChunk))
            || (idLength =? 0)
            || negb (zlen data =? binaryFrameHeader + idLength + payloadLength)
    then Err InvalidFrameLength
    else Ok (mkFrame (byte_at data 1) (slice 12 (12 + Z.to_nat idLength) data)
               (be_get (slice 4 8 data)) (drop (12 + Z.to_nat idLength) data)).

(** ** The wire layout *)

(** What a frame looks like on the wire, as the documentation of [BinaryFrame]
    states it. *)
Definition frame_layout (f : BinaryFrame) : list byte :=
  [BinaryFrameVersion; Type_ f] ++ be_put 2 (zlen (RequestID f)) ++ be_put 4 (Sequence f)
  ++ be_put 4 (zlen (Payload f)) ++ RequestID f ++ Payload f.

(** The frames the codecs accept. *)
Definition frame_wf (f : BinaryFrame) : Prop :=
  (Type_ f = RequestBodyChunk \/ Type_ f = ResponseBodyChunk)
  /\ 1 <= zlen (RequestID f) < 2 ^ 16
  /\ fits_u 32 (Sequence f)
  /\ zlen (Payload f) <= MaxBinaryFramePayload.

Lemma MaxBinaryFramePayload_eq : MaxBinaryFramePayload = 32768.
Proof. reflexivity. Qed.

Lemma type_guard (t : byte) :
  bool_decide (t ≠ RequestBodyChunk) && bool_decide (t ≠ ResponseBodyChunk) = false
  <-> t = RequestBodyChunk \/ t = ResponseBodyChunk.
Proof.
  rewrite andb_false_iff, !bool_decide_eq_false.
  split; intros [H|H]; try (left; by destruct (decide (t = RequestBodyChunk)));
    try (right; by destruct (decide (t = ResponseBodyChunk))); tauto.
Qed.

(** The in-place writes of [MarshalBinary] produce the documented layout. *)
Lemma marshal_writes t id seq payload :
  let data := make_bytes (Z.to_nat (binaryFrameHeader + zlen id + zlen payload)) in
  let data := copy_at 0 [BinaryFrameVersion; t] data in
  let data := copy_at 2 (be_put 2 (zlen id)) data in
  let data := copy_at 4 (be_put 4 seq) data in
  let data := copy_at 8 (be_put 4 (zlen payload)) data in
  let data := copy_at 12 id data in
  copy_at (12 + length id) payload data = frame_layout (mkFrame t id seq payload).
Proof.
  cbv zeta. unfold frame_layout, make_bytes. simpl Type_. simpl RequestID. simpl Sequence. simpl Payload.
  assert (Hlen : forall n z, length (be_put n z) = n) by apply length_be_put.
  replace (Z.to_nat _) with (2 + (2 + (4 + (4 + (length id + length payload)))))%nat
    by (unfold zlen, binaryFrameHeader; lia).
  rewrite !replicate_add.
  rewrite <- (app_nil_l (replicate 2 Byte.x00 ++ replicate 2 Byte.x00 ++ _)).
  rewrite copy_at_app, app_nil_l by done.
  rewrite copy_at_app by (by rewrite ?Hlen).
  rewrite (app_assoc _ (be_put 2 _)), copy_at_app by (by rewrite ?length_app, ?Hlen).
  rewrite (app_assoc _ (be_put 4 seq)), copy_at_app by (by rewrite ?length_app, ?Hlen).
  rewrite (app_assoc _ (be_put 4 (zlen payload))), copy_at_app
    by (by rewrite ?length_app, ?Hlen, ?length_replicate).
  rewrite (app_assoc _ id), <- (app_nil_r (replicate (length payload) _)), copy_at_app
    by (by rewrite ?length_app, ?Hlen, ?length_replicate).
  by rewrite app_nil_r, <- !app_assoc.
Qed.

Lemma marshal_ok_iff f data :
  MarshalBinary f = Ok data
  <-> (Type_ f = RequestBodyChunk \/ Type_ f = ResponseBodyChunk)
      /\ 1 <= zlen (RequestID f) < 2 ^ 16
      /\ zlen (Payload f) <= MaxBinaryFramePayload
      /\ data = frame_layout f.
Proof.
  unfold MarshalBinary.
  destruct (_ && _) eqn:Ht; [split; [done |] | ].
  { intros (Hty & _). apply type_guard in Hty. congruence. }
  apply type_guard in Ht. change (Z.shiftl 1 16) with 65536. change (2 ^ 16) with 65536.
  pose proof (zlen_nonneg (RequestID f)).
  destruct (_ || _) eqn:Hid; [split; [done |] | ].
  { intros (_ & ? & _). apply orb_true_iff in Hid as [?%Z.eqb_eq | ?%Z.ltb_lt]; lia. }
  prop_guards. destruct (_ <? _) eqn:Hp; prop_guards; [split; [done | lia] |].
  pose proof (zlen_nonneg (Payload f)).
  rewrite (wrapu_small 16), (wrapu_small 32)
    by (unfold fits_u; rewrite ?MaxBinaryFramePayload_eq in *; lia).
  pose proof (marshal_writes (Type_ f) (RequestID f) (Sequence f) (Payload f)) as Hw.
  cbv zeta in Hw |- *. rewrite Hw. destruct f; simpl in *.
  split; [intros [= <-]; repeat split; (done || lia) | by intros (_ & _ & _ & ->)].
Qed.

Lemma header_fields v t a b c rest :
  length a = 2%nat -> length b = 4%nat -> length c = 4%nat ->
  let data := [v; t] ++ a ++ b ++ c ++ rest in
  zlen data = 12 + zlen rest /\ byte_at data 0 = v /\ byte_at data 1 = t
  /\ slice 2 4 data = a /\ slice 4 8 data = b /\ slice 8 12 data = c
  /\ (forall n, drop (12 + n) data = drop n rest /\ slice 12 (12 + n) data = take n rest).
Proof.
  intros Ha Hb Hc.
  destruct a as [|? [|? [|]]]; try done. destruct b as [|? [|? [|? [|? [|]]]]]; try done.
  destruct c as [|? [|? [|? [|? [|]]]]]; try done.
  cbv zeta. repeat split; try reflexivity.
  - unfold zlen. simpl. lia.
  - unfold slice. by rewrite Nat.add_comm, Nat.add_sub.
Qed.

Lemma split_header (data : list byte) :
  binaryFrameHeader <= zlen data ->
  exists (v t : byte) (a b c rest : list byte), data = [v; t] ++ a ++ b ++ c ++ rest
    /\ length a = 2%nat /\ length b = 4%nat /\ length c = 4%nat.
Proof.
  unfold binaryFrameHeader, zlen. intros H.
  do 12 (destruct data as [|? data]; [simpl in H; lia |]).
  match goal with
  | H : context [?x0 :: ?x1 :: ?x2 :: ?x3 :: ?x4 :: ?x5 :: ?x6 :: ?x7 :: ?x8 :: ?x9 :: ?x10 :: ?x11 :: ?r] |- _ =>
      by exists x0, x1, [x2; x3], [x4; x5; x6; x7], [x8; x9; x10; x11], r
  end.
Qed.

(** Parsing a message whose five header fields are given. *)
Lemma parse_header_iff v t a b c rest f :
  length a = 2%nat -> length b = 4%nat -> length c = 4%nat ->
  ParseBinaryFrame ([v; t] ++ a ++ b ++ c ++ rest) = Ok f
  <-> v = BinaryFrameVersion /\ (t = RequestBodyChunk \/ t = ResponseBodyChunk)
      /\ be_get c <= MaxBinaryFramePayload /\ be_get a <> 0
      /\ zlen rest = be_get a + be_get c
      /\ f = mkFrame t (take (Z.to_nat (be_get a)) rest) (be_get b)
               (drop (Z.to_nat (be_get a)) rest).
Proof.
  intros Ha Hb Hc.
  destruct (header_fields v t a b c rest Ha Hb Hc) as (Hl & H0 & H1 & H2 & H4 & H8 & Hr).
  unfold ParseBinaryFrame. cbv zeta in *. rewrite Hl, H0, H1, H2, H4, H8.
  destruct (Hr (Z.to_nat (be_get a))) as [-> ->]. clear -Hb.
  unfold binaryFrameHeader. pose proof (zlen_nonneg rest).
  destruct (_ || bool_decide _) eqn:Hv.
  { split; [done |]. intros (-> & _).
    apply orb_true_iff in Hv as [?%Z.ltb_lt | ?%bool_decide_eq_true]; [lia | done]. }
  prop_guards. destruct (_ && _) eqn:Ht.
  { split; [done |]. intros (_ & Ht' & _). apply type_guard in Ht'. congruence. }
  apply type_guard in Ht. destruct (MaxBinaryFramePayload <? _) eqn:Hp; prop_guards.
  { split; [done | lia]. }
  destruct (_ || negb _) eqn:Hg.
  { split; [done |]. intros (_ & _ & _ & ? & ? & _).
    apply orb_true_iff in Hg as [?%Z.eqb_eq | Hg%negb_true_iff%Z.eqb_neq]; lia. }
  prop_guards. assert (v = BinaryFrameVersion) by (by destruct (decide (v = BinaryFrameVersion))).
  split; [intros [= <-]; repeat split; (done || lia) | by intros (_ & _ & _ & _ & _ & ->)].
Qed.

Lemma parse_layout f : frame_wf f -> ParseBinaryFrame (frame_layout f) = Ok f.
Proof.
  intros (Ht & Hid & Hseq & Hp). unfold frame_layout, fits_u in *.
  apply parse_header_iff; try apply length_be_put.
  pose proof (zlen_nonneg (Payload f)).
  assert (zlen (Payload f) < 2 ^ 32) by (rewrite MaxBinaryFramePayload_eq in *; lia).
  rewrite !be_get_put. change (256 ^ Z.of_nat 2) with (2 ^ 16). change (256 ^ Z.of_nat 4) with (2 ^ 32).
  rewrite !Z.mod_small by lia.
  replace (Z.to_nat (zlen (RequestID f))) with (length (RequestID f)) by (unfold zlen; lia).
  rewrite take_app_length, drop_app_length.
  destruct f; simpl in *. rewrite zlen_app. repeat split; (done || lia).
Qed.

Lemma parse_ok_layout data f :
  ParseBinaryFrame data = Ok f -> frame_wf f /\ data = frame_layout f.
Proof.
  intros Hp. assert (Hlen : binaryFrameHeader <= zlen data).
  { unfold ParseBinaryFrame in Hp. destruct (_ || _) eqn:Hg; [done | prop_guards; lia]. }
  destruct (split_header data Hlen) as (v & t & a & b & c & rest & -> & Ha & Hb & Hc).
  apply parse_header_iff in Hp as (-> & Ht & Hc' & Ha' & Hrest & ->); [|done..].
  pose proof (be_get_bound a) as Ba. pose proof (be_get_bound b) as Bb.
  pose proof (be_get_bound c) as Bc. unfold zlen in Ba, Bb, Bc, Hrest.
  rewrite Ha in Ba. rewrite Hb in Bb. rewrite Hc in Bc.
  assert (Hid : zlen (take (Z.to_nat (be_get a)) rest) = be_get a).
  { unfold zlen. rewrite length_take_le; lia. }
  assert (Hpl : zlen (drop (Z.to_nat (be_get a)) rest) = be_get c).
  { unfold zlen. rewrite length_drop. lia. }
  unfold frame_wf, frame_layout, fits_u. cbn [Type_ RequestID Sequence Payload].
  rewrite Hid, Hpl. split.
  { change (256 ^ Z.of_nat 2) with (2 ^ 16) in Ba. change (256 ^ Z.of_nat 4) with (2 ^ 32) in Bb.
    repeat split; (done || lia). }
  pose proof (be_put_get a) as Ea. pose proof (be_put_get b) as Eb. pose proof (be_put_get c) as Ec.
  rewrite Ha in Ea. rewrite Hb in Eb. rewrite Hc in Ec. by rewrite Ea, Eb, Ec, take_drop.
Qed.

(** The two parsers accept the same messages. *)
Lemma parsers_agree f data : parseBinaryFrame data = Ok f <-> ParseBinaryFrame data = Ok f.
Proof.
  unfold parseBinaryFrame, ParseBinaryFrame. cbv zeta.
  destruct (_ || bool_decide (byte_at data 0 ≠ _)); [done |].
  destruct (bool_decide (_ ≠ RequestBodyChunk) && _); simpl; [by case_match |]. reflexivity.
Qed.

(** ** The interface of a codec *)

(** What the streaming code relies on, whichever end's codec it uses: well-formed
    frames are written in the documented layout and read back, and nothing else is
    accepted. *)
Class FrameCodec (enc : BinaryFrame -> result frame_error (list byte))
    (dec : list byte -> result frame_error BinaryFrame) : Prop := {
  codec_encode : forall f, frame_wf f -> enc f = Ok (frame_layout f);
  codec_decode : forall f, frame_wf f -> dec (frame_layout f) = Ok f;
  codec_canonical : forall data f, dec data = Ok f -> frame_wf f /\ data = frame_layout f
}.

#[global] Instance gateway_codec : FrameCodec MarshalBinary ParseBinaryFrame.
Proof.
  split; [|apply parse_layout | apply parse_ok_layout].
  intros f (Ht & Hid & _ & Hp). by apply marshal_ok_iff.
Qed.

#[global] Instance agent_codec : FrameCodec marshalBinary parseBinaryFrame.
Proof.
  split; [apply (codec_encode (enc := MarshalBinary)) | |].
  - intros f Hf. by apply parsers_agree, parse_layout.
  - intros data f Hp. by apply parse_ok_layout, parsers_agree.
Qed.

(** ** Properties *)

(** C32 (round trip).  For every frame whose sequence number is a [uint32], the
    gateway's encoder yields [data] exactly when the gateway's parser maps
    [data] back to that frame: decoding inverts encoding, and no byte sequence
    other than the canonical encoding of a frame is accepted. *)
Theorem frame_roundtrip (f : BinaryFrame) (data : list byte) :
  MarshalBinary f = Ok data /\ fits_u 32 (Sequence f) <-> ParseBinaryFrame data = Ok f.
Proof.
  rewrite marshal_ok_iff. split.
  - intros [(Ht & Hid & Hp & ->) Hseq]. by apply parse_layout.
  - intros Hp. apply parse_ok_layout in Hp as [(Ht & Hid & Hseq & Hp) ->]. done.
Qed.

(** The agent's codec and the gateway's agree: the same
    frames are encoded to the same bytes, and the same bytes are accepted and
    decoded to the same frame, although the two parsers test their guards in a
    different order and report different errors. *)
Theorem frame_codecs_agree (f : BinaryFrame) (data : list byte) :
  marshalBinary f = MarshalBinary f
  /\ (parseBinaryFrame data = Ok f <-> ParseBinaryFrame data = Ok f).
Proof. split; [reflexivity | apply parsers_agree]. Qed.
