(* ===== verification/ChunkAssembler.v ===== *)
(** * The agent's request-body assembler

    [chunkAssembler] of agent/internal/gatewayclient/chunk_assembler.go: it
    rebuilds one request body from numbered chunks.  The methods mutate the
    assembler through a pointer; here each returns the new assembler. *)

From S2P Require Import Prelude Frame.

(** ** Data and operations *)

Record chunkAssembler := mkAssembler {
  expected : Z;        (* int64 *)
  next : Z;            (* uint32 *)
  body : list byte
}.

Inductive assembler_error :=
| InvalidContentLength
| UnexpectedChunk
| BodyExceedsContentLength
| BodyShorterThanContentLength.

#[global] Instance assembler_error_eq_dec : EqDecision assembler_error.
Proof. solve_decision. Defined.

(** The capacity [make] receives is an allocation hint; the new slice is empty
    whatever it is. *)
Definition newChunkAssembler (expected : Z) : result assembler_error chunkAssembler :=
  if expected <? -1 then Err InvalidContentLength
  else Ok (mkAssembler expected 0 []).

Definition add (a : chunkAssembler) (frame : BinaryFrame) :
    result assembler_error (bool * chunkAssembler) :=
  if bool_decide (Type_ frame ≠ RequestBodyChunk) || negb (Sequence frame =? next a)
  then Err UnexpectedChunk
  else if (0 <=? expected a) && (expected a <? zlen (body a) + zlen (Payload frame))
  then Err BodyExceedsContentLength
  else
    let a' := mkAssembler (expected a) (u32 (next a + 1)) (body a ++ Payload frame) in
    Ok ((0 <=? expected a) && (zlen (body a') =? expected a), a').

Definition complete (a : chunkAssembler) : result assembler_error unit :=
  if (0 <=? expected a) && negb (zlen (body a) =? expected a)
  then Err BodyShorterThanContentLength
  else Ok tt.

(** ** A whole stream *)

(** The chunks of one request, in arrival order. *)
Fixpoint add_all (a : chunkAssembler) (frames : list BinaryFrame) :
    result assembler_error chunkAssembler :=
  match frames with
  | [] => Ok a
  | f :: frames => match add a f with
                   | Ok (_, a') => add_all a' frames
                   | Err e => Err e
                   end
  end.

(** Start, chunks, end: the life of an assembler in the agent's read loop. *)
Definition assemble (contentLength : Z) (frames : list BinaryFrame) :
    result assembler_error (list byte) :=
  a ← newChunkAssembler contentLength;
  a ← add_all a frames;
  _ ← complete a;
  mret (body a).

(** Chunk [i] of the stream that starts at sequence number [n]. *)
Definition in_sequence (n : Z) (frames : list BinaryFrame) : Prop :=
  forall i f, frames !! i = Some f ->
    Type_ f = RequestBodyChunk /\ Sequence f = u32 (n + Z.of_nat i).

Definition payloads (frames : list BinaryFrame) : list byte := concat (Payload <$> frames).

(** ** Lemmas *)

Lemma in_sequence_cons n f frames :
  in_sequence n (f :: frames)
  <-> (Type_ f = RequestBodyChunk /\ Sequence f = u32 n) /\ in_sequence (n + 1) frames.
Proof.
  unfold in_sequence. split.
  - intros H. split.
    + destruct (H O f eq_refl) as [? Hs]. by rewrite Z.add_0_r in Hs.
    + intros i g Hg. destruct (H (S i) g Hg) as [? ->]. split; [done | f_equal; lia].
  - intros [H0 H] [|i] g Hg; simpl in Hg.
    + injection Hg as <-. by rewrite Z.add_0_r.
    + destruct (H i g Hg) as [? ->]. split; [done | f_equal; lia].
Qed.

Lemma add_ok_iff a f done a' :
  add a f = Ok (done, a')
  <-> Type_ f = RequestBodyChunk /\ Sequence f = next a
      /\ (0 <= expected a -> zlen (body a) + zlen (Payload f) <= expected a)
      /\ a' = mkAssembler (expected a) (u32 (next a + 1)) (body a ++ Payload f)
      /\ done = (0 <=? expected a) && (zlen (body a ++ Payload f) =? expected a).
Proof.
  unfold add. destruct (_ || _) eqn:Hg.
  { split; [done |]. intros (Ht & Hs & _).
    apply orb_true_iff in Hg as [Hg%bool_decide_eq_true | Hg%negb_true_iff%Z.eqb_neq]; done. }
  prop_guards. assert (Type_ f = RequestBodyChunk) by (by destruct (decide (Type_ f = RequestBodyChunk))).
  destruct (_ && _) eqn:Hl.
  { split; [done | prop_guards; lia]. }
  split; [intros [= <- <-]; split_and!; try done | by intros (_ & _ & _ & -> & ->)].
  intros He. apply andb_false_iff in Hl as [?%Z.leb_gt | ?%Z.ltb_ge]; lia.
Qed.

(** [add_all] succeeds exactly on an in-sequence stream that stays within the
    announced length, and then holds the concatenation of the payloads. *)
Lemma add_all_ok_iff frames : forall a a',
  fits_u 32 (next a) ->
  (add_all a frames = Ok a'
   <-> in_sequence (next a) frames
       /\ (frames <> [] -> 0 <= expected a -> zlen (body a ++ payloads frames) <= expected a)
       /\ a' = mkAssembler (expected a) (u32 (next a + zlen frames)) (body a ++ payloads frames)).
Proof.
  induction frames as [|f frames IH]; intros a a' Hn; simpl.
  { rewrite app_nil_r, Z.add_0_r, wrapu_small by done. destruct a. simpl. split; [intros [= <-] | by intros (_ & _ & ->)].
    split; [by intros i g ? | split; done]. }
  rewrite in_sequence_cons, (wrapu_small 32 (next a)) by done.
  destruct (add a f) as [[d a1]|e] eqn:Ha.
  - apply add_ok_iff in Ha as (Ht & Hs & He & -> & _).
    rewrite IH by (apply wrapu_fits; lia). cbn [expected next body].
    rewrite wrapu_add_l, <- app_assoc by lia. unfold payloads. cbn [fmap list_fmap concat].
    rewrite zlen_cons. replace (next a + 1 + zlen frames) with (next a + (zlen frames + 1)) by lia.
    assert (Hw : in_sequence (u32 (next a + 1)) frames <-> in_sequence (next a + 1) frames).
    { unfold in_sequence. by setoid_rewrite wrapu_add_l; [|lia]. }
    rewrite Hw. split.
    + intros (Hseq & Hlen & ->). split_and!; try done. intros _ Hpos.
      destruct frames; [|by apply Hlen]. simpl. rewrite app_nil_r, zlen_app. auto.
    + intros ([_ Hseq] & Hlen & ->). split_and!; try done. intros _. by apply Hlen.
  - split; [done |]. intros ([[Ht Hs] _] & Hlen & _). exfalso.
    enough (exists r, add a f = Ok r) as [? ?] by congruence.
    eexists (_, _). apply add_ok_iff. split_and!; try done. intros Hpos.
    specialize (Hlen ltac:(done) Hpos). unfold payloads in Hlen.
    cbn [fmap list_fmap concat] in Hlen. rewrite !zlen_app in Hlen.
    pose proof (zlen_nonneg (concat (Payload <$> frames))). lia.
Qed.

Lemma complete_ok_iff a : complete a = Ok tt <-> (0 <= expected a -> zlen (body a) = expected a).
Proof.
  unfold complete. destruct (_ && _) eqn:Hg; prop_guards.
  - split; [done | lia].
  - apply andb_false_iff in Hg as [?%Z.leb_gt | ?%negb_false_iff%Z.eqb_eq]; split; (done || lia).
Qed.

(** ** Properties *)

(** A request stream is accepted by the agent exactly when
    the announced length is at least -1, every frame is a request chunk and
    carries the next sequence number (modulo 2^32), and, if the length was
    announced, the chunks add up to it; the assembled body is then the
    concatenation of the payloads in order. *)
Theorem assemble_exact (contentLength : Z) (frames : list BinaryFrame) (out : list byte) :
  assemble contentLength frames = Ok out
  <-> -1 <= contentLength /\ in_sequence 0 frames /\ out = payloads frames
      /\ (contentLength = -1 \/ zlen out = contentLength).
Proof.
  unfold assemble, newChunkAssembler.
  destruct (_ <? _) eqn:Hc; prop_guards; cbn [mbind result_bind].
  { split; [done | lia]. }
  set (a0 := mkAssembler contentLength 0 []).
  assert (Ha0 : fits_u 32 (next a0)) by (unfold fits_u; simpl; lia).
  destruct (add_all a0 frames) as [a|e] eqn:Hadd; cbn [mbind result_bind].
  - apply add_all_ok_iff in Hadd as (Hseq & Hlen & ->); [|done]. simpl in Hseq.
    destruct (complete _) as [[]|] eqn:Hcm; cbn [mbind result_bind body app].
    + pose proof (proj1 (complete_ok_iff _) Hcm) as Hcm'. simpl in Hcm'.
      split; [intros [= <-] | intros (_ & _ & -> & _); done].
      split_and!; try done. destruct (decide (contentLength = -1)); [by left | right; lia].
    + split; [done |]. intros (_ & _ & -> & Hor).
      enough (complete (mkAssembler contentLength (u32 (0 + zlen frames)) (payloads frames)) = Ok tt)
        by (simpl in *; congruence).
      apply complete_ok_iff. simpl. lia.
  - split; [done |]. intros (_ & Hseq & -> & Hor). exfalso.
    enough (exists r, add_all a0 frames = Ok r) as [? ?] by congruence.
    eexists. apply add_all_ok_iff; [done |]. split_and!; try done. simpl. lia.
Qed.
