(* ===== verification/Registry.v ===== *)
(** * The routing registry of open tunnels

    [Registry] of backend/internal/tunnels/registry.go: the in-memory routes
    from public subdomains to agent sessions, with the traffic counters.  Every
    method holds the mutex for its whole body, so each is one atomic step. *)

From S2P Require Import Prelude.

(** ** Data *)

Record ActiveTunnel := mkTunnel {
  ID : gostring;
  Subdomain : gostring;
  AgentID : gostring;
  UserID : gostring;
  SessionID : gostring;
  LocalAddress : gostring
}.

(** The zero value a missing map key yields. *)
Definition zeroTunnel : ActiveTunnel := mkTunnel [] [] [] [] [] [].

Record TrafficMetrics := mkTraffic {
  RequestsTotal : Z;       (* uint64 *)
  RequestBytes : Z;        (* uint64 *)
  ResponseBytes : Z        (* uint64 *)
}.

Definition zeroTraffic : TrafficMetrics := mkTraffic 0 0 0.

#[global] Instance ActiveTunnel_eq_dec : EqDecision ActiveTunnel.
Proof. solve_decision. Defined.
#[global] Instance TrafficMetrics_eq_dec : EqDecision TrafficMetrics.
Proof. solve_decision. Defined.

Record Registry := mkRegistry {
  bySubdomain : gmap gostring ActiveTunnel;
  byID : gmap gostring gostring;
  traffic : TrafficMetrics;
  perUser : gmap gostring TrafficMetrics
}.

(** ** Operations *)

Definition NewRegistry : Registry := mkRegistry ∅ ∅ zeroTraffic ∅.

Definition Open (tunnel : ActiveTunnel) (r : Registry) : Registry :=
  mkRegistry (<[Subdomain tunnel := tunnel]> (bySubdomain r))
             (<[ID tunnel := Subdomain tunnel]> (byID r))
             (traffic r) (perUser r).

Definition Get (subdomain : gostring) (r : Registry) : option ActiveTunnel :=
  bySubdomain r !! subdomain.

Definition Close (id : gostring) (r : Registry) : bool * Registry :=
  match byID r !! id with
  | None => (false, r)
  | Some subdomain =>
      (true, mkRegistry (delete subdomain (bySubdomain r)) (delete id (byID r))
                        (traffic r) (perUser r))
  end.

(** One turn of the loop of [CloseSession]. *)
Definition closeSession_entry (sessionID : gostring) (r : Registry)
    (entry : gostring * gostring) : Registry :=
  let '(id, subdomain) := entry in
  if bool_decide (SessionID (default zeroTunnel (bySubdomain r !! subdomain)) = sessionID)
  then mkRegistry (delete subdomain (bySubdomain r)) (delete id (byID r))
                  (traffic r) (perUser r)
  else r.

(** [range r.byID] visits the entries in an order the language leaves open:
    [order] is that order. *)
Definition CloseSession_in (order : list (gostring * gostring)) (sessionID : gostring)
    (r : Registry) : Registry :=
  foldl (closeSession_entry sessionID) r order.

Definition CloseSession (sessionID : gostring) (r : Registry) : Registry :=
  CloseSession_in (map_to_list (byID r)) sessionID r.

Definition Count (r : Registry) : Z := Z.of_nat (size (byID r)).

(** [m.RequestsTotal++] and the two guarded additions, with [uint64]
    wrap-around. *)
Definition addTraffic (requestBytes responseBytes : Z) (m : TrafficMetrics) : TrafficMetrics :=
  mkTraffic (u64 (RequestsTotal m + 1))
            (if 0 <? requestBytes then u64 (RequestBytes m + u64 requestBytes) else RequestBytes m)
            (if 0 <? responseBytes then u64 (ResponseBytes m + u64 responseBytes) else ResponseBytes m).

Definition RecordTraffic (tunnelID : gostring) (requestBytes responseBytes : Z) (r : Registry) : Registry :=
  match byID r !! tunnelID with
  | None => r
  | Some subdomain =>
      let total := addTraffic requestBytes responseBytes (traffic r) in
      let userID := UserID (default zeroTunnel (bySubdomain r !! subdomain)) in
      if bool_decide (userID ≠ [])
      then
        let delta := addTraffic requestBytes responseBytes (default zeroTraffic (perUser r !! userID)) in
        mkRegistry (bySubdomain r) (byID r) total (<[userID := delta]> (perUser r))
      else mkRegistry (bySubdomain r) (byID r) total (perUser r)
  end.

Definition Traffic (r : Registry) : TrafficMetrics := traffic r.

Definition DrainUserDeltas (r : Registry) : gmap gostring TrafficMetrics * Registry :=
  (perUser r, mkRegistry (bySubdomain r) (byID r) (traffic r) ∅).

(** ** The contract: a set of routes *)

(** What the registry promises its clients: a map from subdomains to open
    tunnels, whose entries are closed by tunnel ID or by session. *)
Module Routes.
Abbreviation routes := (gmap gostring ActiveTunnel).

Definition open (t : ActiveTunnel) (m : routes) : routes := <[Subdomain t := t]> m.
Definition close (id : gostring) (m : routes) : routes :=
  filter (fun p => ID p.2 ≠ id) m.
Definition close_session (sid : gostring) (m : routes) : routes :=
  filter (fun p => SessionID p.2 ≠ sid) m.
Definition has_id (id : gostring) (m : routes) : Prop :=
  exists sd t, m !! sd = Some t /\ ID t = id.
(** Opening [t] must not give its ID a second subdomain nor its subdomain a
    second ID: the tunnels table has [id] as primary key and [subdomain]
    unique. *)
Definition compatible (t : ActiveTunnel) (m : routes) : Prop :=
  forall sd t', m !! sd = Some t' -> (ID t' = ID t <-> sd = Subdomain t).
End Routes.

(** The representation invariant: the two maps are inverse views of the same
    set of tunnels. *)
Definition coherent (r : Registry) : Prop :=
  (forall id sd, byID r !! id = Some sd -> exists t, bySubdomain r !! sd = Some t /\ ID t = id)
  /\ (forall sd t, bySubdomain r !! sd = Some t -> Subdomain t = sd /\ byID r !! ID t = Some sd).

(** ** Lemmas *)

Lemma coherent_new : coherent NewRegistry.
Proof. split; intros ?? H; simpl in H; by rewrite lookup_empty in H. Qed.

Lemma coherent_lookup r id sd t :
  coherent r -> bySubdomain r !! sd = Some t -> (byID r !! id = Some sd <-> ID t = id).
Proof.
  intros [H1 H2] Ht. split.
  - intros Hid. destruct (H1 _ _ Hid) as (t' & ? & ?). congruence.
  - intros <-. by apply H2.
Qed.

Lemma coherent_has_id r id :
  coherent r -> (is_Some (byID r !! id) <-> Routes.has_id id (bySubdomain r)).
Proof.
  intros [H1 H2]. split.
  - intros [sd Hsd]. destruct (H1 _ _ Hsd) as (t & ? & ?). by exists sd, t.
  - intros (sd & t & Ht & <-). exists sd. by apply H2.
Qed.

Lemma coherent_open t r :
  coherent r -> Routes.compatible t (bySubdomain r) -> coherent (Open t r).
Proof.
  intros [H1 H2] Hc. split; unfold Open; simpl.
  - intros id sd Hid. apply lookup_insert_Some in Hid as [[<- <-] | [Hne Hid]].
    { exists t. by rewrite lookup_insert_eq. }
    destruct (H1 _ _ Hid) as (t' & Ht' & <-). exists t'.
    rewrite lookup_insert_ne; [done |]. intros <-. apply Hne.
    symmetry. by apply (Hc _ _ Ht').
  - intros sd t' Ht'. apply lookup_insert_Some in Ht' as [[<- <-] | [Hne Ht']].
    { by rewrite lookup_insert_eq. }
    destruct (H2 _ _ Ht') as [Hsd Hid]. split; [done |]. rewrite lookup_insert_ne; [done |].
    intros Heq. apply Hne. symmetry. by apply (Hc _ _ Ht').
Qed.

(** Deleting one tunnel from both maps. *)
Lemma coherent_delete r id sd :
  coherent r -> byID r !! id = Some sd ->
  coherent (mkRegistry (delete sd (bySubdomain r)) (delete id (byID r)) (traffic r) (perUser r)).
Proof.
  intros [H1 H2] Hid. split; simpl.
  - intros id' sd' Hid'. apply lookup_delete_Some in Hid' as [Hne Hid'].
    destruct (H1 _ _ Hid') as (t & Ht & <-). exists t. rewrite lookup_delete_ne; [done |].
    intros <-. destruct (H1 _ _ Hid) as (? & ? & ?). congruence.
  - intros sd' t Ht. apply lookup_delete_Some in Ht as [Hne Ht].
    destruct (H2 _ _ Ht) as [? Hid']. split; [done |]. rewrite lookup_delete_ne; [done |].
    intros ->. congruence.
Qed.

Lemma close_routes r id sd :
  coherent r -> byID r !! id = Some sd ->
  delete sd (bySubdomain r) = Routes.close id (bySubdomain r).
Proof.
  intros Hc Hid. apply map_eq. intros sd'. unfold Routes.close. apply option_eq. intros t.
  rewrite lookup_delete_Some, map_lookup_filter_Some. simpl. split.
  - intros [Hne Ht]. split; [done |]. intros Heq. apply Hne.
    pose proof (proj2 (coherent_lookup _ id _ _ Hc Ht) Heq). congruence.
  - intros [Ht Hne]. split; [|done]. intros <-. apply Hne. by apply (coherent_lookup _ id _ _ Hc Ht).
Qed.

Lemma close_routes_absent r id :
  coherent r -> byID r !! id = None -> Routes.close id (bySubdomain r) = bySubdomain r.
Proof.
  intros [_ H2] Hid. apply map_filter_id. intros sd t Ht. simpl.
  destruct (H2 _ _ Ht). congruence.
Qed.

(** Counting by ID and counting by subdomain agree. *)
Lemma coherent_size r : coherent r -> size (byID r) = size (bySubdomain r).
Proof.
  intros [H1 H2]. apply Nat.le_antisymm.
  - apply (map_size_le_inj _ _ (fun _ sd => sd)).
    + intros id sd Hid. destruct (H1 _ _ Hid) as (? & ? & _). by eauto.
    + intros id id' sd sd' Hid Hid' <-. destruct (H1 _ _ Hid) as (t & ? & <-).
      destruct (H1 _ _ Hid') as (t' & ? & <-). congruence.
  - apply (map_size_le_inj _ _ (fun _ t => ID t)).
    + intros sd t Ht. destruct (H2 _ _ Ht). by eauto.
    + intros sd sd' t t' Ht Ht' Heq. destruct (H2 _ _ Ht), (H2 _ _ Ht'). congruence.
Qed.

(** ** [CloseSession] *)

(** Closing a session leaves the counters alone. *)
Lemma closeSession_frame sid order r :
  traffic (CloseSession_in order sid r) = traffic r
  /\ perUser (CloseSession_in order sid r) = perUser r.
Proof.
  unfold CloseSession_in. revert r. induction order as [|[id sd] order IH]; intros r; [done |].
  cbn [foldl]. destruct (IH (closeSession_entry sid r (id, sd))) as [-> ->]. simpl. by case_bool_decide.
Qed.

(** The loop over any part of [byID], in any order: the entries it visits lose
    their tunnel when the session owns it, the others keep theirs. *)
Lemma closeSession_fold sid order : forall r,
  coherent r -> NoDup order.*1 ->
  (forall id sd, (id, sd) ∈ order -> byID r !! id = Some sd) ->
  let r' := CloseSession_in order sid r in
  coherent r' /\ bySubdomain r' = filter (fun p => ~ (SessionID p.2 = sid /\ (ID p.2, p.1) ∈ order)) (bySubdomain r).
Proof.
  induction order as [|[id sd] order IH]; intros r Hc Hnd Hin; cbv zeta.
  { split; [done |]. symmetry. apply map_filter_id. intros sd t _ [_ ?%not_elem_of_nil]. done. }
  simpl in Hnd. apply list.NoDup_cons in Hnd as [Hnin Hnd].
  assert (Hid : byID r !! id = Some sd) by (apply Hin; left).
  destruct (proj1 Hc _ _ Hid) as (t & Ht & Htid).
  unfold CloseSession_in. simpl. rewrite Ht. simpl.
  set (r1 := if bool_decide _ then _ else r).
  assert (Hc1 : coherent r1).
  { subst r1. destruct (bool_decide _); [by apply coherent_delete | done]. }
  assert (Hin1 : forall id' sd', (id', sd') ∈ order -> byID r1 !! id' = Some sd').
  { intros id' sd' Hel. assert (id <> id').
    { intros <-. apply Hnin. apply list_elem_of_fmap. by exists (id, sd'). }
    subst r1. destruct (bool_decide _); simpl; [rewrite lookup_delete_ne by done |]; apply Hin; by right. }
  destruct (IH r1 Hc1 Hnd Hin1) as (Hc' & Hby).
  unfold CloseSession_in in *. split; [done |].
  rewrite Hby. subst r1. clear IH Hc' Hby.
  destruct (bool_decide (SessionID t = sid)) eqn:Hs; prop_guards; simpl;
    apply map_eq; intros sd'; apply option_eq; intros t';
    rewrite !map_lookup_filter_Some; simpl.
  - rewrite lookup_delete_Some. split.
    + intros [[Hne Ht'] Hno]. split; [done |]. intros [Hs' [[= <- <-] | Hel]%elem_of_cons]; [done | by apply Hno].
    + intros [Ht' Hno]. split; [split; [|done] |].
      * intros <-. apply Hno. simplify_eq. split; [done | left].
      * intros [Hs' Hel]. apply Hno. split; [done | by right].
  - split.
    + intros [Ht' Hno]. split; [done |]. intros [Hs' [[= <- <-] | Hel]%elem_of_cons]; [congruence | by apply Hno].
    + intros [Ht' Hno]. split; [done |]. intros [Hs' Hel]. apply Hno. split; [done | by right].
Qed.

(** In whatever order the runtime visits [byID], closing a session removes
    exactly its tunnels. *)
Lemma closeSession_spec sid order r :
  coherent r -> order ≡ₚ map_to_list (byID r) ->
  let r' := CloseSession_in order sid r in
  coherent r' /\ bySubdomain r' = Routes.close_session sid (bySubdomain r).
Proof.
  intros Hc Hp. destruct (closeSession_fold sid order r) as (Hc' & Hby); [done | ..].
  { rewrite Hp. apply NoDup_fst_map_to_list. }
  { intros id sd. rewrite Hp. by rewrite elem_of_map_to_list. }
  cbv zeta in *. split; [done |]. rewrite Hby. apply map_filter_ext. intros sd t Ht. simpl.
  rewrite Hp, elem_of_map_to_list. destruct (proj2 Hc _ _ Ht) as [_ Hid]. tauto.
Qed.

(** ** Runs *)

Inductive reg_op :=
| OpOpen (t : ActiveTunnel)
| OpClose (id : gostring)
| OpCloseSession (sid : gostring)
| OpRecord (id : gostring) (requestBytes responseBytes : Z)
| OpDrain.

(** What a step shows its caller: [Close]'s boolean, the drained map, or the
    user ([None] when the tunnel is gone, the empty name when it has no owner)
    a traffic record was attributed to. *)
Inductive reg_out :=
| OutNone
| OutClosed (ok : bool)
| OutRecorded (userID : option gostring) (requestBytes responseBytes : Z)
| OutDrained (m : gmap gostring TrafficMetrics).

Definition owner_of (id : gostring) (r : Registry) : option gostring :=
  sd ← byID r !! id; Some (UserID (default zeroTunnel (bySubdomain r !! sd))).

Inductive reg_step : Registry -> reg_op -> reg_out -> Registry -> Prop :=
| step_open t r : reg_step r (OpOpen t) OutNone (Open t r)
| step_close id r : reg_step r (OpClose id) (OutClosed (Close id r).1) (Close id r).2
| step_close_session sid order r :
    order ≡ₚ map_to_list (byID r) ->
    reg_step r (OpCloseSession sid) OutNone (CloseSession_in order sid r)
| step_record id rq rs r :
    reg_step r (OpRecord id rq rs) (OutRecorded (owner_of id r) rq rs) (RecordTraffic id rq rs r)
| step_drain r : reg_step r OpDrain (OutDrained (DrainUserDeltas r).1) (DrainUserDeltas r).2.

Inductive reg_run : Registry -> list reg_op -> list reg_out -> Registry -> Prop :=
| run_nil r : reg_run r [] [] r
| run_cons r op out r' ops outs r'' :
    reg_step r op out r' -> reg_run r' ops outs r'' -> reg_run r (op :: ops) (out :: outs) r''.

Module RoutesRun.
Definition step (m : Routes.routes) (op : reg_op) : Routes.routes :=
  match op with
  | OpOpen t => Routes.open t m
  | OpClose id => Routes.close id m
  | OpCloseSession sid => Routes.close_session sid m
  | OpRecord _ _ _ | OpDrain => m
  end.
Definition run (ops : list reg_op) (m : Routes.routes) : Routes.routes := foldl step m ops.

(** Every [Open] of the sequence respects the uniqueness the database enforces. *)
Fixpoint admissible (ops : list reg_op) (m : Routes.routes) : Prop :=
  match ops with
  | [] => True
  | op :: ops =>
      match op with OpOpen t => Routes.compatible t m | _ => True end
      /\ admissible ops (step m op)
  end.
End RoutesRun.

Lemma record_frame id rq rs r :
  bySubdomain (RecordTraffic id rq rs r) = bySubdomain r /\ byID (RecordTraffic id rq rs r) = byID r.
Proof. unfold RecordTraffic. destruct (byID r !! id); [case_match |]; done. Qed.

(** One step of the code is one step of the contract. *)
Lemma reg_step_refines r op out r' :
  reg_step r op out r' -> coherent r ->
  match op with OpOpen t => Routes.compatible t (bySubdomain r) | _ => True end ->
  coherent r' /\ bySubdomain r' = RoutesRun.step (bySubdomain r) op
  /\ (forall id, op = OpClose id -> out = OutClosed (bool_decide (is_Some (byID r !! id)))).
Proof.
  intros Hs Hc Hok. destruct Hs as [t r|id r|sid order r Hp|id rq rs r|r]; simpl.
  - split_and!; [by apply coherent_open | done..].
  - unfold Close. destruct (byID r !! id) as [sd|] eqn:Hid; simpl.
    + split_and!; [by apply coherent_delete | by apply close_routes | intros ? [= <-]; by rewrite Hid].
    + split_and!; [done | by rewrite close_routes_absent | intros ? [= <-]; by rewrite Hid].
  - destruct (closeSession_spec sid order r Hc Hp) as [? ?]. done.
  - destruct (record_frame id rq rs r) as [E1 E2]. unfold coherent. by rewrite E1, E2.
  - done.
Qed.

Lemma reg_run_refines r ops outs r' :
  reg_run r ops outs r' -> coherent r -> RoutesRun.admissible ops (bySubdomain r) ->
  coherent r' /\ bySubdomain r' = RoutesRun.run ops (bySubdomain r).
Proof.
  induction 1 as [|r op out r1 ops outs r' Hs _ IH]; intros Hc; simpl; [done |].
  intros [Hok Hadm]. destruct (reg_step_refines _ _ _ _ Hs Hc Hok) as (Hc1 & Hb & _).
  rewrite <- Hb in *. by apply IH.
Qed.

(** ** Accounting *)

(** Unbounded sums of the counters, and their reduction to [uint64]. *)
Definition tm_add (x y : TrafficMetrics) : TrafficMetrics :=
  mkTraffic (RequestsTotal x + RequestsTotal y) (RequestBytes x + RequestBytes y)
            (ResponseBytes x + ResponseBytes y).
Definition tm_u64 (x : TrafficMetrics) : TrafficMetrics :=
  mkTraffic (u64 (RequestsTotal x)) (u64 (RequestBytes x)) (u64 (ResponseBytes x)).

(** One completed request: one request and the positive byte counts. *)
Definition event (rq rs : Z) : TrafficMetrics := mkTraffic 1 (Z.max 0 rq) (Z.max 0 rs).

(** The requests the steps attributed to [u]. *)
Definition credited (u : gostring) (out : reg_out) : TrafficMetrics :=
  match out with
  | OutRecorded (Some u') rq rs => if bool_decide (u' = u) then event rq rs else zeroTraffic
  | _ => zeroTraffic
  end.
(** The requests the steps counted for any tunnel. *)
Definition counted (out : reg_out) : TrafficMetrics :=
  match out with OutRecorded (Some _) rq rs => event rq rs | _ => zeroTraffic end.
(** What the steps handed out for [u] to be persisted. *)
Definition drained (u : gostring) (out : reg_out) : TrafficMetrics :=
  match out with OutDrained m => default zeroTraffic (m !! u) | _ => zeroTraffic end.

Definition tm_sum (f : reg_out -> TrafficMetrics) (outs : list reg_out) : TrafficMetrics :=
  foldr (fun o acc => tm_add (f o) acc) zeroTraffic outs.

Definition balance (u : gostring) (r : Registry) : TrafficMetrics := default zeroTraffic (perUser r !! u).

Lemma tm_eq x y :
  RequestsTotal x = RequestsTotal y -> RequestBytes x = RequestBytes y ->
  ResponseBytes x = ResponseBytes y -> x = y.
Proof. destruct x, y. simpl. congruence. Qed.

Ltac tm_solve :=
  apply tm_eq; unfold tm_add, zeroTraffic; cbn [RequestsTotal RequestBytes ResponseBytes]; lia.

Lemma guarded_add m n :
  u64 (if 0 <? n then u64 (m + u64 n) else m) = u64 (m + Z.max 0 n).
Proof.
  destruct (Z.ltb_spec 0 n).
  - unfold wrapu. by rewrite Zmod_mod, Zplus_mod_idemp_r, Z.max_r by lia.
  - by rewrite Z.max_l, Z.add_0_r by lia.
Qed.

Lemma addTraffic_event rq rs m : tm_u64 (addTraffic rq rs m) = tm_u64 (tm_add m (event rq rs)).
Proof.
  apply tm_eq; unfold tm_u64, addTraffic, tm_add, event; cbn [RequestsTotal RequestBytes ResponseBytes];
    rewrite ?guarded_add; [unfold wrapu; by rewrite Zmod_mod | done..].
Qed.

Lemma tm_add_0_r x : tm_add x zeroTraffic = x.
Proof. tm_solve. Qed.
Lemma tm_add_0_l x : tm_add zeroTraffic x = x.
Proof. tm_solve. Qed.
Lemma tm_add_assoc x y z : tm_add x (tm_add y z) = tm_add (tm_add x y) z.
Proof. tm_solve. Qed.
Lemma tm_add_comm x y : tm_add x y = tm_add y x.
Proof. tm_solve. Qed.

(** Equality of counters modulo 2^64 is a congruence for addition. *)
Definition tm_eqm (x y : TrafficMetrics) : Prop := tm_u64 x = tm_u64 y.
#[global] Instance tm_eqm_equiv : Equivalence tm_eqm.
Proof. split; unfold tm_eqm; [intros ? | intros ?? | intros ???]; congruence. Qed.
#[global] Instance tm_add_proper : Proper (tm_eqm ==> tm_eqm ==> tm_eqm) tm_add.
Proof.
  unfold tm_eqm, tm_u64. intros x x' [= H1 H2 H3] y y' [= H4 H5 H6].
  apply tm_eq; cbn [RequestsTotal RequestBytes ResponseBytes tm_add]; by apply wrapu_add_eq.
Qed.

Lemma record_balance u id rq rs r :
  tm_eqm (balance u (RecordTraffic id rq rs r))
         (tm_add (balance u r) (if bool_decide (u = []) then zeroTraffic
                                else credited u (OutRecorded (owner_of id r) rq rs))).
Proof.
  unfold RecordTraffic, owner_of, balance.
  destruct (byID r !! id) as [sd|]; simpl;
    [|case_bool_decide; by rewrite tm_add_0_r].
  set (o := UserID _). destruct (bool_decide (o ≠ [])) eqn:Ho; prop_guards; simpl.
  - rewrite lookup_insert. case_decide as Hou.
    + rewrite <- Hou, (bool_decide_eq_false_2 (o = [])), (bool_decide_eq_true_2 (o = o)) by done.
      simpl. apply addTraffic_event.
    + rewrite (bool_decide_eq_false_2 (o = u)) by done. case_bool_decide; by rewrite tm_add_0_r.
  - assert (o = []) as -> by (by destruct (decide (o = []))).
    case_bool_decide; [by rewrite tm_add_0_r |].
    rewrite bool_decide_eq_false_2 by done. by rewrite tm_add_0_r.
Qed.

(** A step moves a user's counters between the registry and the caller, and
    adds to them only what it records. *)
Lemma step_balance u r op out r' :
  u <> [] -> reg_step r op out r' ->
  tm_eqm (tm_add (drained u out) (balance u r')) (tm_add (balance u r) (credited u out)).
Proof.
  intros Hu Hs. destruct Hs as [t r|id r|sid order r Hp|id rq rs r|r]; cbn [drained credited].
  - by rewrite tm_add_0_l, tm_add_0_r.
  - rewrite tm_add_0_l, tm_add_0_r. unfold Close. by destruct (byID r !! id).
  - rewrite tm_add_0_l, tm_add_0_r. unfold balance. by rewrite (proj2 (closeSession_frame _ _ _)).
  - rewrite tm_add_0_l, record_balance, bool_decide_eq_false_2 by done. done.
  - unfold DrainUserDeltas, balance. simpl. by rewrite lookup_empty, !tm_add_0_r.
Qed.

Lemma run_balance u r ops outs r' :
  u <> [] -> reg_run r ops outs r' ->
  tm_eqm (tm_add (tm_sum (drained u) outs) (balance u r'))
         (tm_add (balance u r) (tm_sum (credited u) outs)).
Proof.
  intros Hu. induction 1 as [r|r op out r1 ops outs r' Hs _ IH]; simpl.
  - by rewrite tm_add_0_l, tm_add_0_r.
  - rewrite <- tm_add_assoc, IH, !tm_add_assoc, <- (step_balance u _ _ _ _ Hu Hs). done.
Qed.

Lemma step_traffic r op out r' :
  reg_step r op out r' -> tm_eqm (traffic r') (tm_add (traffic r) (counted out)).
Proof.
  intros Hs. destruct Hs as [t r|id r|sid order r Hp|id rq rs r|r]; cbn [counted]; rewrite ?tm_add_0_r.
  - done.
  - unfold Close. by destruct (byID r !! id).
  - by rewrite (proj1 (closeSession_frame _ _ _)).
  - unfold RecordTraffic, owner_of. destruct (byID r !! id) as [sd|]; simpl; [|by rewrite tm_add_0_r].
    case_bool_decide; apply addTraffic_event.
  - done.
Qed.

Lemma run_traffic r ops outs r' :
  reg_run r ops outs r' -> tm_eqm (traffic r') (tm_add (traffic r) (tm_sum counted outs)).
Proof.
  induction 1 as [r|r op out r1 ops outs r' Hs _ IH]; simpl.
  - by rewrite tm_add_0_r.
  - by rewrite IH, (step_traffic _ _ _ _ Hs), tm_add_assoc.
Qed.

(** The process-wide counters always hold [uint64] values. *)
Definition tm_fits (m : TrafficMetrics) : Prop := tm_u64 m = m.

Lemma addTraffic_fits rq rs m : tm_fits m -> tm_fits (addTraffic rq rs m).
Proof.
  unfold tm_fits, tm_u64. destruct m as [a b c]. cbn [RequestsTotal RequestBytes ResponseBytes].
  intros [= Ha Hb Hc]. unfold addTraffic. cbn [RequestsTotal RequestBytes ResponseBytes].
  f_equal; [|destruct (0 <? rq)|destruct (0 <? rs)]; try done; unfold wrapu; by rewrite Zmod_mod.
Qed.

Lemma step_traffic_fits r op out r' : reg_step r op out r' -> tm_fits (traffic r) -> tm_fits (traffic r').
Proof.
  intros Hs Hf. destruct Hs as [t r|id r|sid order r Hp|id rq rs r|r]; try done.
  - unfold Close. by destruct (byID r !! id).
  - by rewrite (proj1 (closeSession_frame _ _ _)).
  - unfold RecordTraffic. destruct (byID r !! id) as [sd|]; [|done].
    case_bool_decide; by apply addTraffic_fits.
Qed.

Lemma run_traffic_fits r ops outs r' : reg_run r ops outs r' -> tm_fits (traffic r) -> tm_fits (traffic r').
Proof. induction 1; eauto using step_traffic_fits. Qed.

(** ** Properties *)

(** C30 (refinement).  After any sequence of operations that starts with the
    empty registry and opens tunnels as the database allows, in whatever order
    [CloseSession] visits its map, the registry is the abstract set of routes:
    [Get] looks up that map, [Count] is its size, [Close] succeeds exactly for
    the tunnel IDs in it, and the two indexes are mutually consistent. *)
Theorem registry_refines_routes (ops : list reg_op) (outs : list reg_out) (r : Registry) :
  reg_run NewRegistry ops outs r -> RoutesRun.admissible ops ∅ ->
  let m := RoutesRun.run ops ∅ in
  coherent r
  /\ (forall sd, Get sd r = m !! sd)
  /\ Count r = Z.of_nat (size m)
  /\ (forall id, (Close id r).1 = true <-> Routes.has_id id m).
Proof.
  intros Hrun Hadm. destruct (reg_run_refines _ _ _ _ Hrun coherent_new Hadm) as [Hc Hb].
  cbn [bySubdomain NewRegistry] in Hb. cbv zeta. rewrite <- Hb. split_and!; try done.
  - unfold Count. by rewrite coherent_size.
  - intros id. rewrite <- coherent_has_id by done. unfold Close.
    destruct (byID r !! id) eqn:E; simpl; split; (done || by intros []).
Qed.

(** Two tunnels of different sessions, one of them closed with its session. *)
Definition tunnel_a : ActiveTunnel := mkTunnel ($"t1") ($"aaa") ($"ag1") ($"u1") ($"s1") ($"3000").
Definition tunnel_b : ActiveTunnel := mkTunnel ($"t2") ($"bbb") ($"ag2") ($"u2") ($"s2") ($"4000").
Definition sample_ops : list reg_op :=
  [OpOpen tunnel_a; OpOpen tunnel_b; OpRecord ($"t1") 7 11; OpDrain; OpRecord ($"t1") (-1) 5;
   OpCloseSession ($"s1")].
Definition sample_registry : Registry :=
  CloseSession ($"s1") (RecordTraffic ($"t1") (-1) 5
    (DrainUserDeltas (RecordTraffic ($"t1") 7 11 (Open tunnel_b (Open tunnel_a NewRegistry)))).2).

Lemma compatible_fresh t m :
  (forall sd t', m !! sd = Some t' -> ID t' <> ID t /\ sd <> Subdomain t) -> Routes.compatible t m.
Proof. intros H sd t' Ht'. destruct (H sd t' Ht'). tauto. Qed.

Lemma sample_admissible : RoutesRun.admissible sample_ops ∅.
Proof.
  cbn [sample_ops RoutesRun.admissible]. split_and!; try done; apply compatible_fresh; intros sd t' H.
  unfold RoutesRun.step, Routes.open in H.
  apply lookup_insert_Some in H as [[<- <-] | [_ H]]; [done | by rewrite lookup_empty in H].
Qed.

Lemma sample_run : exists outs, reg_run NewRegistry sample_ops outs sample_registry
  /\ tm_u64 (tm_sum (credited ($"u1")) outs) = mkTraffic 2 7 16
  /\ tm_u64 (tm_sum counted outs) = mkTraffic 2 7 16.
Proof.
  eexists. split; [do 6 (eapply run_cons; [by constructor |]); apply run_nil |]. split; reflexivity.
Qed.

Lemma registry_refines_routes_witness :
  Get ($"aaa") sample_registry = None /\ Count sample_registry = 1.
Proof.
  destruct sample_run as (outs & Hrun & _).
  destruct (registry_refines_routes sample_ops outs sample_registry Hrun sample_admissible) as (_ & Hg & Hn & _).
  split; [rewrite Hg; reflexivity | rewrite Hn; reflexivity].
Defined.

(** Closing a session of a consistent registry removes exactly
    the routes of that session, in whatever order the map is visited: a
    subdomain routed to it stops resolving and every other subdomain keeps
    resolving to the same tunnel. *)
Theorem close_session_exact (sid : gostring) (order : list (gostring * gostring)) (r : Registry) :
  coherent r -> order ≡ₚ map_to_list (byID r) ->
  forall sd, Get sd (CloseSession_in order sid r)
             = match Get sd r with
               | Some t => if decide (SessionID t = sid) then None else Some t
               | None => None
               end.
Proof.
  intros Hc Hp sd. destruct (closeSession_spec sid order r Hc Hp) as [_ Hb].
  unfold Get. rewrite Hb. unfold Routes.close_session. rewrite map_lookup_filter.
  destruct (bySubdomain r !! sd) as [t|]; simpl; [|done].
  destruct (decide (SessionID t = sid)); case_guard; simpl; done || tauto.
Qed.

Lemma close_session_exact_witness :
  let r := Open tunnel_b (Open tunnel_a NewRegistry) in
  Get ($"aaa") (CloseSession_in (reverse (map_to_list (byID r))) ($"s1") r) = None
  /\ Get ($"bbb") (CloseSession_in (reverse (map_to_list (byID r))) ($"s1") r) = Some tunnel_b.
Proof.
  cbv zeta. set (r := Open tunnel_b _).
  assert (Hc : coherent r).
  { apply coherent_open; [apply coherent_open; [apply coherent_new |] |];
      apply compatible_fresh; intros sd t' H; unfold Open, NewRegistry in H; cbn [bySubdomain] in H.
    - by rewrite lookup_empty in H.
    - apply lookup_insert_Some in H as [[<- <-] | [_ H]]; [done | by rewrite lookup_empty in H]. }
  split; rewrite (close_session_exact _ _ r Hc (reverse_Permutation _)); reflexivity.
Defined.

(** Traffic accounting conserves every recorded request: for
    each user, what the drains handed out plus what is still held equals, in
    [uint64], the sum of the events attributed to that user, with nothing lost
    and nothing counted twice; the process-wide counters are the sum of all
    events on open tunnels. *)
Theorem traffic_conserved (ops : list reg_op) (outs : list reg_out) (r : Registry) :
  reg_run NewRegistry ops outs r ->
  (forall u, u <> [] ->
     tm_u64 (tm_add (tm_sum (drained u) outs) (balance u r)) = tm_u64 (tm_sum (credited u) outs))
  /\ Traffic r = tm_u64 (tm_sum counted outs).
Proof.
  intros Hrun. split.
  - intros u Hu. pose proof (run_balance u _ _ _ _ Hu Hrun) as H.
    unfold balance at 2 in H. simpl in H. rewrite lookup_empty in H. simpl in H.
    rewrite tm_add_0_l in H. exact H.
  - pose proof (run_traffic _ _ _ _ Hrun) as H. simpl in H. rewrite tm_add_0_l in H.
    unfold Traffic. rewrite <- H. symmetry. by apply (run_traffic_fits _ _ _ _ Hrun).
Qed.

Lemma traffic_conserved_witness :
  exists outs, tm_u64 (tm_add (tm_sum (drained ($"u1")) outs) (balance ($"u1") sample_registry))
               = mkTraffic 2 7 16
               /\ Traffic sample_registry = mkTraffic 2 7 16.
Proof.
  destruct sample_run as (outs & Hrun & Hc & Ha). exists outs.
  destruct (traffic_conserved sample_ops outs sample_registry Hrun) as [Hu Ht].
  split; [rewrite Hu by done; exact Hc | rewrite Ht; exact Ha].
Defined.
