(* ===== verification/RateLimiter.v ===== *)
(** * The request rate limiters

    [publicRateLimiter] of backend/internal/tunnels/rate_limiter.go and
    [authRateLimiter] of backend/internal/auth/rate_limiter.go: one fixed-window
    counter per key, swept of expired windows on every call.  [allow] holds the
    mutex for its whole body. *)

From S2P Require Import Prelude.

(** ** Data *)

Definition publicRateLimit : Z := 120.
Definition publicRateWindow : Z := Minute.
Definition authRateLimit : Z := 10.
Definition authRateWindow : Z := Minute.

Record publicRateEntry := mkEntry {
  started : Z;       (* time.Time *)
  count : Z          (* int *)
}.

#[global] Instance publicRateEntry_eq_dec : EqDecision publicRateEntry.
Proof. solve_decision. Defined.

Definition zeroEntry : publicRateEntry := mkEntry 0 0.

Record publicRateLimiter := mkLimiter {
  limit : Z;
  window : Z;
  entries : gmap gostring publicRateEntry
}.

Definition newPublicRateLimiter (limit window : Z) : publicRateLimiter :=
  mkLimiter limit window ∅.

(** ** Operations *)

(** The loop that drops expired windows, visiting the map in the order
    [order]. *)
Definition sweep_in (order : list (gostring * publicRateEntry)) (now w : Z)
    (m : gmap gostring publicRateEntry) : gmap gostring publicRateEntry :=
  foldl (fun m '(currentKey, entry) =>
           if w <=? Sub now (started entry) then delete currentKey m else m) m order.

Definition allow_in (order : list (gostring * publicRateEntry)) (key : gostring) (now : Z)
    (l : publicRateLimiter) : (bool * Z) * publicRateLimiter :=
  let m := sweep_in order now (window l) (entries l) in
  let entry := default zeroEntry (m !! key) in
  if IsZero (started entry) || (window l <=? Sub now (started entry))
  then ((true, 0), mkLimiter (limit l) (window l) (<[key := mkEntry now 1]> m))
  else if limit l <=? count entry
  then ((false, window l - Sub now (started entry)), mkLimiter (limit l) (window l) m)
  else ((true, 0), mkLimiter (limit l) (window l) (<[key := mkEntry (started entry) (count entry + 1)]> m)).

Definition allow (key : gostring) (now : Z) (l : publicRateLimiter) :
    (bool * Z) * publicRateLimiter :=
  allow_in (map_to_list (entries l)) key now l.

(** ** The auth package's limiter *)

Record rateWindow := mkRateWindow { rw_started : Z; rw_count : Z }.
Record authRateLimiter := mkAuthLimiter {
  auth_limit : Z; auth_window : Z; auth_entries : gmap gostring rateWindow
}.

Definition newAuthRateLimiter (limit window : Z) : authRateLimiter := mkAuthLimiter limit window ∅.

Definition auth_allow (key : gostring) (now : Z) (l : authRateLimiter) :
    (bool * Z) * authRateLimiter :=
  let m := foldl (fun m '(currentKey, entry) =>
                    if auth_window l <=? Sub now (rw_started entry) then delete currentKey m else m)
                 (auth_entries l) (map_to_list (auth_entries l)) in
  let entry := default (mkRateWindow 0 0) (m !! key) in
  if IsZero (rw_started entry) || (auth_window l <=? Sub now (rw_started entry))
  then ((true, 0), mkAuthLimiter (auth_limit l) (auth_window l) (<[key := mkRateWindow now 1]> m))
  else if auth_limit l <=? rw_count entry
  then ((false, auth_window l - Sub now (rw_started entry)),
        mkAuthLimiter (auth_limit l) (auth_window l) m)
  else ((true, 0), mkAuthLimiter (auth_limit l) (auth_window l)
                     (<[key := mkRateWindow (rw_started entry) (rw_count entry + 1)]> m)).

(** ** The contract: one fixed-window counter per key *)

(** Whether the window of [e] is over at [now]. *)
Definition expired (w now : Z) (e : publicRateEntry) : bool :=
  IsZero (started e) || (w <=? now - started e).

(** The counter of one key, as seen by a client that calls [allow] at [now]. *)
Definition counter_step (lim w : Z) (e : option publicRateEntry) (now : Z) :
    (bool * Z) * publicRateEntry :=
  match e with
  | Some e =>
      if expired w now e then ((true, 0), mkEntry now 1)
      else if count e <? lim then ((true, 0), mkEntry (started e) (count e + 1))
      else ((false, w - (now - started e)), e)
  | None => ((true, 0), mkEntry now 1)
  end.

Fixpoint counter_run (lim w : Z) (e : option publicRateEntry) (nows : list Z) : list (Z * (bool * Z)) :=
  match nows with
  | [] => []
  | now :: nows =>
      let '(r, e') := counter_step lim w e now in
      (now, r) :: counter_run lim w (Some e') nows
  end.

(** A history of calls [(key, now)] with the answers given. *)
Fixpoint limiter_run (l : publicRateLimiter) (calls : list (gostring * Z)) :
    list (gostring * (Z * (bool * Z))) :=
  match calls with
  | [] => []
  | (key, now) :: calls =>
      let '(r, l') := allow key now l in
      (key, (now, r)) :: limiter_run l' calls
  end.

Definition for_key {A} (k : gostring) (l : list (gostring * A)) : list A :=
  snd <$> filter (fun p => p.1 = k) l.

(** The readings of the clock never decrease in the order in which the calls take
    the mutex.  The callers read [time.Now()] before [allow] locks, so this is a
    case and not a rule: [skewed] says how far it can be missed. *)
Fixpoint clocked (t : Z) (nows : list Z) : Prop :=
  match nows with
  | [] => True
  | now :: nows => t <= now /\ clocked now nows
  end.

(** No call takes the mutex with a reading more than [d] older than one that was
    used before it: with [d] a bound on the time from the reading to the lock. *)
Fixpoint skewed (d latest : Z) (nows : list Z) : Prop :=
  match nows with
  | [] => True
  | now :: nows => latest - d <= now /\ skewed d (Z.max latest now) nows
  end.

(** The window of a key after the sweep of a call at [now], whoever makes it. *)
Definition swept (w now : Z) (o : option publicRateEntry) : option publicRateEntry :=
  match o with
  | Some e => if w <=? now - started e then None else Some e
  | None => None
  end.

(** The counter of the key [k] that sees the calls of [k] and, of the calls of the
    other keys, only the readings of the clock. *)
Fixpoint ticked_run (lim w : Z) (k : gostring) (o : option publicRateEntry) (calls : list (gostring * Z)) :
    list (Z * (bool * Z)) :=
  match calls with
  | [] => []
  | (key, now) :: calls =>
      if decide (key = k)
      then let '(r, e') := counter_step lim w (swept w now o) now in
           (now, r) :: ticked_run lim w k (Some e') calls
      else ticked_run lim w k (swept w now o) calls
  end.

(** ** The sweep *)

Lemma sweep_lookup order now w m k :
  order ⊆ map_to_list m -> NoDup order.*1 ->
  sweep_in order now w m !! k
  = match m !! k with
    | Some e => if bool_decide ((k, e) ∈ order) && (w <=? Sub now (started e)) then None else Some e
    | None => None
    end.
Proof.
  unfold sweep_in. revert m. induction order as [|[k' e'] order IH]; intros m Hsub Hnd; cbn [foldl].
  { destruct (m !! k); [|done]. by rewrite bool_decide_eq_false_2 by apply not_elem_of_nil. }
  apply list.NoDup_cons in Hnd as [Hnin Hnd].
  assert (Hk' : m !! k' = Some e') by (apply elem_of_map_to_list, Hsub; left).
  assert (Hfresh : forall x, (k', x) ∉ order).
  { intros x Hx. apply Hnin, list_elem_of_fmap. by exists (k', x). }
  assert (Hsub' : forall m', (forall k0, k0 <> k' -> m' !! k0 = m !! k0) -> order ⊆ map_to_list m').
  { intros m' Hm' [k0 e0] Hel. apply elem_of_map_to_list. rewrite Hm'.
    - apply elem_of_map_to_list, Hsub. by right.
    - intros ->. by apply (Hfresh e0). }
  destruct (w <=? Sub now (started e')) eqn:Hx; (rewrite IH; [|apply Hsub'; intros; by rewrite ?lookup_delete_ne|done]).
  - rewrite lookup_delete. case_decide as Hk.
    + subst k. rewrite Hk'. rewrite bool_decide_eq_true_2 by left. by rewrite Hx.
    + destruct (m !! k) as [e|]; [|done].
      rewrite (bool_decide_ext ((k, e) ∈ order) ((k, e) ∈ (k', e') :: order)); [done |].
      rewrite elem_of_cons. split; [by right | intros [[=] | ?]; done].
  - destruct (m !! k) as [e|] eqn:Hk; [|done].
    destruct (decide ((k, e) = (k', e'))) as [[= -> ->]|Hne].
    + rewrite Hx, !andb_false_r. done.
    + rewrite (bool_decide_ext ((k, e) ∈ order) ((k, e) ∈ (k', e') :: order)); [done |].
      rewrite elem_of_cons. tauto.
Qed.

(** Whatever order the map is visited in, the sweep keeps exactly the live
    windows. *)
Lemma sweep_spec order now w m k :
  order ≡ₚ map_to_list m ->
  sweep_in order now w m !! k
  = match m !! k with
    | Some e => if w <=? Sub now (started e) then None else Some e
    | None => None
    end.
Proof.
  intros Hp. rewrite sweep_lookup.
  - destruct (m !! k) as [e|] eqn:Hk; [|done]. rewrite bool_decide_eq_true_2; [done |].
    rewrite Hp. by apply elem_of_map_to_list.
  - by rewrite Hp.
  - rewrite Hp. apply NoDup_fst_map_to_list.
Qed.

(** ** [allow] against the per-key counter *)

(** The readings lie within the 292 years a [Duration] can measure. *)
Definition measurable (t0 : Z) (t : Z) : Prop := 0 < t0 <= t /\ t <= t0 + max_int64.

Definition limiter_wf (t0 : Z) (l : publicRateLimiter) : Prop :=
  0 < window l <= max_int64 /\ forall k e, entries l !! k = Some e -> measurable t0 (started e).

Lemma expired_alt w now e :
  0 < w <= max_int64 -> IsZero (started e) || (w <=? Sub now (started e)) = expired w now e.
Proof.
  intros Hw. unfold expired. f_equal. apply eq_true_iff_eq. rewrite !Z.leb_le.
  apply Sub_ge_iff. unfold min_int64. lia.
Qed.

(** One call: the answer and the key's window are those of the counter, and of every
    other key the sweep leaves what its own counter keeps at [now]. *)
Lemma allow_spec order key now t0 l :
  limiter_wf t0 l -> measurable t0 now -> order ≡ₚ map_to_list (entries l) ->
  let '(r, l') := allow_in order key now l in
  let '(r', e') := counter_step (limit l) (window l) (swept (window l) now (entries l !! key)) now in
  r = r' /\ limit l' = limit l /\ window l' = window l /\ limiter_wf t0 l' /\ entries l' !! key = Some e'
  /\ (forall k, k <> key -> entries l' !! k = swept (window l) now (entries l !! k)).
Proof.
  intros [Hw Hl] Hnow Hp. unfold allow_in.
  set (m := sweep_in order now (window l) (entries l)).
  assert (Hm : forall k, m !! k = swept (window l) now (entries l !! k)).
  { intros k. subst m. rewrite (sweep_spec _ _ _ _ _ Hp). destruct (entries l !! k) as [e|]; [|done].
    cbn [swept]. replace (window l <=? Sub now (started e)) with (window l <=? now - started e); [done |].
    apply eq_true_iff_eq. rewrite !Z.leb_le. symmetry. apply Sub_ge_iff. unfold min_int64. lia. }
  assert (Hmb : forall k e, m !! k = Some e -> measurable t0 (started e)).
  { intros k e. rewrite Hm. destruct (entries l !! k) as [e0|] eqn:He; [|done]. cbn [swept].
    destruct (_ <=? _); [done |]. intros [= <-]. by eapply Hl. }
  assert (Hins : forall e, measurable t0 (started e) ->
            let l' := mkLimiter (limit l) (window l) (<[key := e]> m) in
            limiter_wf t0 l' /\ entries l' !! key = Some e
            /\ (forall k, k <> key -> entries l' !! k = swept (window l) now (entries l !! k))).
  { intros e He. cbv zeta. split; [split; [done |] | split].
    - cbn [entries]. intros k e' [[<- <-] | [_ Hk]]%lookup_insert_Some; [done | by eapply Hmb].
    - cbn [entries]. by apply lookup_insert_eq.
    - intros k Hne. cbn [entries]. by rewrite lookup_insert_ne. }
  assert (Hnew : measurable t0 (started (mkEntry now 1))) by done.
  rewrite expired_alt by done. rewrite <- Hm. destruct (m !! key) as [e|] eqn:Hk; simpl.
  - pose proof (Hmb _ _ Hk) as He. destruct (expired (window l) now e) eqn:Hx; [by destruct (Hins _ Hnew) |].
    unfold expired in Hx. prop_guards.
    assert (Hs : Sub now (started e) = now - started e)
      by (apply Sub_small; unfold measurable, min_int64, max_int64 in *; lia).
    rewrite Z.leb_antisym. destruct (count e <? limit l); simpl; [by destruct (Hins (mkEntry (started e) (count e + 1)) He) |].
    rewrite Hs. split; [done |]. split; [done |]. split; [done |]. split; [by split |]. split; [exact Hk | intros; apply Hm].
  - by destruct (Hins _ Hnew).
Qed.

(** The history of a key is that of its own counter. *)
Lemma limiter_run_key k t0 calls : forall l,
  limiter_wf t0 l -> Forall (measurable t0) (snd <$> calls) ->
  for_key k (limiter_run l calls) = ticked_run (limit l) (window l) k (entries l !! k) calls.
Proof.
  induction calls as [|[key now] calls IH]; intros l Hwf Ht; [done |].
  rewrite fmap_cons in Ht. apply list.Forall_cons in Ht as [Hnow Ht].
  pose proof (allow_spec (map_to_list (entries l)) key now t0 l Hwf Hnow (reflexivity _)) as Hspec.
  cbn [limiter_run ticked_run]. unfold allow. destruct (allow_in _ key now l) as [r l'].
  destruct (counter_step _ _ _ now) as [r' e'] eqn:Hc.
  destruct Hspec as (-> & Hlim & Hwin & Hwf' & Hkey & Hoth). specialize (IH l' Hwf' Ht). rewrite Hlim, Hwin in IH.
  unfold for_key in *. rewrite filter_cons. cbn [fst]. destruct (decide (key = k)) as [->|Hne].
  - rewrite Hc, fmap_cons, IH, Hkey. done.
  - by rewrite IH, Hoth by done.
Qed.

(** A sweep is not seen by a counter that is asked later. *)
Lemma counter_step_swept lim w o now now' :
  now <= now' -> counter_step lim w (swept w now o) now' = counter_step lim w o now'.
Proof.
  intros Hn. destruct o as [e|]; [|done]. cbn [swept]. destruct (Z.leb_spec w (now - started e)); [|done].
  cbn [counter_step]. unfold expired. rewrite (proj2 (Z.leb_le w (now' - started e))) by lia. by rewrite orb_true_r.
Qed.

Lemma ticked_swept lim w k calls : forall o now, clocked now (snd <$> calls) ->
  ticked_run lim w k (swept w now o) calls = ticked_run lim w k o calls.
Proof.
  induction calls as [|[key now'] calls IH]; intros o now; [done |]. cbn [fmap list_fmap snd clocked ticked_run].
  intros [Hn Hc]. assert (Hss : swept w now' (swept w now o) = swept w now' o).
  { destruct o as [e|]; [|done]. cbn [swept]. destruct (Z.leb_spec w (now - started e)); [|done].
    cbn [swept]. by rewrite (proj2 (Z.leb_le w (now' - started e))) by lia. }
  by rewrite Hss.
Qed.

(** With readings in order the calls of the other keys are not seen at all. *)
Lemma ticked_clocked lim w k calls : forall t o, clocked t (snd <$> calls) ->
  ticked_run lim w k o calls = counter_run lim w o (for_key k calls).
Proof.
  induction calls as [|[key now] calls IH]; intros t o; [done |]. cbn [fmap list_fmap snd clocked ticked_run].
  intros [_ Hc]. unfold for_key. rewrite filter_cons. cbn [fst]. destruct (decide (key = k)).
  - rewrite counter_step_swept by done. cbn [fmap list_fmap snd counter_run].
    destruct (counter_step lim w o now) as [r e']. f_equal. by apply (IH now).
  - rewrite ticked_swept by done. by apply (IH now).
Qed.

Lemma allow_any_order order key now l :
  order ≡ₚ map_to_list (entries l) -> allow_in order key now l = allow key now l.
Proof.
  intros Hp. unfold allow, allow_in.
  replace (sweep_in (map_to_list (entries l)) now (window l) (entries l))
    with (sweep_in order now (window l) (entries l)); [done |].
  apply map_eq. intros k. by rewrite !sweep_spec.
Qed.

(** ** How many calls a counter lets through *)

(** How many of the times [h] are at or after [t]. *)
Definition since (t : Z) (h : list Z) : Z := zlen (filter (fun x => t <= x) h).

Lemma since_nonneg t h : 0 <= since t h.
Proof. apply zlen_nonneg. Qed.

Lemma since_snoc t h x : since t (h ++ [x]) = since t h + (if decide (t <= x) then 1 else 0).
Proof.
  unfold since. rewrite list.filter_app, zlen_app. f_equal. rewrite filter_cons.
  by destruct (decide (t <= x)).
Qed.

(** The times of the calls that were let through. *)
Definition allowed (rs : list (Z * (bool * Z))) : list Z := fst <$> filter (fun p => p.2.1 = true) rs.

(** [h] are the calls let through so far, [s] the start of the last window and [c]
    how many of them it let through; [d] bounds the skew. *)
Definition burst_inv (lim w d s c : Z) (h : list Z) : Prop :=
  0 < s /\ 1 <= c <= lim
  /\ (forall t, since t h - since (t + (w - 3 * d)) h <= 2 * lim - 1)
  /\ (forall t, s + w <= t -> since t h = 0)
  /\ (forall t, s + d <= t -> s < t -> since t h <= c - 1)
  /\ (forall t, s - w + 2 * d <= t -> s - w + d < t -> since t h <= lim - 1 + c).

(** The table against the last window: it is there, or a sweep has dropped it. *)
Definition burst_at (lim w d latest : Z) (h : list Z) (o : option publicRateEntry) : Prop :=
  h = [] /\ o = None
  \/ exists s c, burst_inv lim w d s c h /\ s <= latest /\ (o = Some (mkEntry s c) \/ o = None /\ s + w <= latest).

Section burst.
Context (lim w d : Z) (Hlim : 1 <= lim) (Hd : 0 <= d) (Hw : 3 * d < w).

Lemma burst_first now : 0 < now -> burst_inv lim w d now 1 [now].
Proof.
  intros Hn. unfold burst_inv.
  assert (H1 : forall t, since t [now] = if decide (t <= now) then 1 else 0) by (intros t; apply (since_snoc t [] now)).
  split_and!; try lia; intros t; rewrite ?H1; intros; repeat case_decide; lia.
Qed.

(** A call counted in the current window. *)
Lemma burst_more s c h now :
  burst_inv lim w d s c h -> c < lim -> s - d <= now < s + w -> burst_inv lim w d s (c + 1) (h ++ [now]).
Proof.
  intros (Hs & Hc & Hb & H0 & H1 & H2) Hlt Hn. unfold burst_inv.
  split_and!; try lia; intros t; rewrite ?since_snoc; intros.
  - specialize (Hb t). pose proof (since_nonneg (t + (w - 3 * d)) h).
    destruct (decide (t <= now)), (decide (t + (w - 3 * d) <= now)); try lia. specialize (H2 t). lia.
  - rewrite H0 by done. case_decide; lia.
  - specialize (H1 t). case_decide; lia.
  - specialize (H2 t). case_decide; lia.
Qed.

(** A call that starts the next window. *)
Lemma burst_next s c h now :
  burst_inv lim w d s c h -> s + w - d <= now -> burst_inv lim w d now 1 (h ++ [now]).
Proof.
  intros (Hs & Hc & Hb & H0 & H1 & H2) Hn. unfold burst_inv.
  split_and!; try lia; intros t; rewrite ?since_snoc; intros.
  - specialize (Hb t). pose proof (since_nonneg (t + (w - 3 * d)) h).
    destruct (decide (t <= now)), (decide (t + (w - 3 * d) <= now)); try lia. specialize (H1 t). lia.
  - rewrite H0 by lia. case_decide; lia.
  - rewrite H0 by lia. case_decide; lia.
  - specialize (H1 t). case_decide; lia.
Qed.

(** The sweep of any call. *)
Lemma burst_swept latest h o now :
  latest - d <= now -> burst_at lim w d latest h o -> burst_at lim w d (Z.max latest now) h (swept w now o).
Proof.
  intros Hn [[-> ->] | (s & c & Hinv & Hs & Ho)]; [by left |]. right. exists s, c. split_and!; [done | lia |].
  destruct Ho as [-> | [-> Hx]]; [|right; split; [done | lia]]. cbn [swept started].
  destruct (Z.leb_spec w (now - s)); [right; split; [done | lia] | by left].
Qed.

Lemma burst_step latest h o now :
  0 < now -> latest - d <= now -> burst_at lim w d latest h o ->
  let '((ok, _), e') := counter_step lim w (swept w now o) now in
  burst_at lim w d (Z.max latest now) (if ok : bool then h ++ [now] else h) (Some e').
Proof.
  intros Hn Hl Hat. apply (burst_swept _ _ _ now) in Hat as [[-> Ho] | (s & c & Hinv & Hs & Ho)]; [| |done].
  { rewrite Ho. right. exists now, 1. split_and!; [by apply burst_first | lia | by left]. }
  assert (Hs0 : 0 < s) by apply Hinv. destruct Ho as [Ho | [Ho Hx]]; rewrite Ho.
  - assert (Hlive : now - s < w).
    { destruct o as [e|]; [|done]. cbn [swept] in Ho. destruct (Z.leb_spec w (now - started e)); [done |]. by simplify_eq. }
    assert (Hsl : s <= latest \/ s <= now) by lia.
    cbn [counter_step]. unfold expired. cbn [started count].
    replace (IsZero s) with false by (symmetry; apply Z.eqb_neq; lia).
    rewrite (proj2 (Z.leb_gt w (now - s))) by lia. cbn [orb].
    destruct (Z.ltb_spec c lim); right; [exists s, (c + 1) | exists s, c]; (split_and!; [|lia | by left]); [|done].
    apply burst_more; [done | lia | lia].
  - right. exists now, 1. split_and!; [|lia | by left]. eapply burst_next; [done |]. lia.
Qed.

Lemma ticked_burst k calls : forall latest o h,
  d < latest -> skewed d latest (snd <$> calls) -> burst_at lim w d latest h o ->
  forall u, since u (h ++ allowed (ticked_run lim w k o calls))
            - since (u + (w - 3 * d)) (h ++ allowed (ticked_run lim w k o calls)) <= 2 * lim - 1.
Proof.
  induction calls as [|[key now] calls IH]; intros latest o h Hl Hsk Hat u; cbn [ticked_run].
  { unfold allowed. cbn. rewrite app_nil_r. destruct Hat as [[-> _] | (s & c & (_ & _ & Hb & _) & _)]; [|apply Hb].
    unfold since. rewrite !filter_nil. unfold zlen. cbn. lia. }
  destruct Hsk as [Hn Hsk]. cbn [snd] in Hn, Hsk. destruct (decide (key = k)).
  - pose proof (burst_step latest h o now ltac:(lia) Hn Hat) as Hstep.
    destruct (counter_step lim w (swept w now o) now) as [[ok r] e'].
    specialize (IH (Z.max latest now) (Some e') _ ltac:(lia) Hsk Hstep u).
    unfold allowed in *. rewrite filter_cons. cbn [fst snd]. destruct ok; cbn in *; [by rewrite <- app_assoc in IH | exact IH].
  - apply (IH (Z.max latest now)); [lia | done | by apply burst_swept].
Qed.
End burst.

Lemma counter_step_started lim w e now :
  (forall e', e = Some e' -> started e' <= now) ->
  started (counter_step lim w e now).2 <= now.
Proof.
  intros H. destruct e as [e|]; simpl; [|lia]. specialize (H e eq_refl). repeat case_match; simpl; lia.
Qed.

(** After a refusal the counter keeps refusing until the announced delay is
    over. *)
Lemma counter_run_refusing lim w s c nows p1 t1 r p2 :
  0 < s -> lim <= c ->
  counter_run lim w (Some (mkEntry s c)) nows = p1 ++ (t1, r) :: p2 ->
  Forall (fun p => p.1 < s + w) p1 -> (r.1 = true <-> s + w <= t1).
Proof.
  intros Hs Hc. revert nows. induction p1 as [|[t r0] p1 IH]; intros [|now nows] Hrun Hp; try done.
  - simpl in Hrun. unfold expired in Hrun. simpl in Hrun.
    replace (IsZero s) with false in Hrun by (symmetry; apply Z.eqb_neq; lia). simpl in Hrun.
    destruct (Z.leb_spec w (now - s)); simpl in Hrun.
    + injection Hrun as -> <- _. simpl. split; [lia | done].
    + replace (c <? lim) with false in Hrun by (symmetry; apply Z.ltb_ge; lia).
      injection Hrun as -> <- _. simpl. split; [done | lia].
  - apply list.Forall_cons in Hp as [Ht Hp]. simpl in Ht. simpl in Hrun. unfold expired in Hrun. simpl in Hrun.
    replace (IsZero s) with false in Hrun by (symmetry; apply Z.eqb_neq; lia). simpl in Hrun.
    destruct (Z.leb_spec w (now - s)); simpl in Hrun; [injection Hrun as -> _ _; lia |].
    replace (c <? lim) with false in Hrun by (symmetry; apply Z.ltb_ge; lia).
    injection Hrun as _ _ Hrun. by apply (IH nows).
Qed.

(** The state behind a refusal. *)
Lemma counter_run_refused lim w nows : forall t e p0 t0 d post,
  0 < t -> clocked t nows -> (forall e', e = Some e' -> 0 < started e' <= t) ->
  counter_run lim w e nows = p0 ++ (t0, (false, d)) :: post ->
  exists s c nows', 0 < s <= t0 /\ lim <= c /\ d = w - (t0 - s) /\ t0 - s < w
    /\ post = counter_run lim w (Some (mkEntry s c)) nows'.
Proof.
  induction nows as [|now nows IH]; intros t e p0 t0 d post Ht Hclk He Hrun; [by destruct p0 |].
  destruct Hclk as [Hnow Hclk]. simpl in Hrun.
  assert (He1 : forall e', e = Some e' -> started e' <= now) by (intros e' He'; specialize (He e' He'); lia).
  pose proof (counter_step_started lim w e now He1) as Hst.
  destruct p0 as [|p p0]; simpl in Hrun.
  - destruct e as [[s c]|]; simpl in Hrun; [|done].
    destruct (expired w now (mkEntry s c)) eqn:Hx; [done |].
    destruct (c <? lim) eqn:Hc; [done |]. injection Hrun as -> <- <-.
    unfold expired in Hx. simpl in Hx. prop_guards. specialize (He _ eq_refl). simpl in He.
    exists s, c, nows. split_and!; (done || lia).
  - destruct (counter_step lim w e now) as [r e'] eqn:Hs. simpl in *.
    injection Hrun as _ Hrun. apply (IH now (Some e')) in Hrun; try done; [lia |].
    intros e0 [= <-]. split; [|done].
    destruct e as [[s c]|]; simpl in Hs.
    + specialize (He _ eq_refl). simpl in He. repeat case_match; simplify_eq; simpl; lia.
    + injection Hs as _ <-. simpl. lia.
Qed.

(** ** Properties *)

(** The limiter of a fresh handler, with its history replayed. *)
Definition history (lim w : Z) (calls : list (gostring * Z)) : list (gostring * (Z * (bool * Z))) :=
  limiter_run (newPublicRateLimiter lim w) calls.

Lemma history_ticked lim w t0 calls k :
  0 < w <= max_int64 -> Forall (measurable t0) (snd <$> calls) ->
  for_key k (history lim w calls) = ticked_run lim w k None calls.
Proof. intros Hw Ht. apply (limiter_run_key k t0 calls (newPublicRateLimiter lim w)); [|done]. by split. Qed.

Lemma history_key lim w t0 calls k :
  0 < w <= max_int64 -> Forall (measurable t0) (snd <$> calls) -> clocked 1 (snd <$> calls) ->
  for_key k (history lim w calls) = counter_run lim w None (for_key k calls).
Proof. intros Hw Ht Hc. rewrite (history_ticked lim w t0) by done. by apply (ticked_clocked lim w k calls 1). Qed.

Lemma clocked_for_key k (calls : list (gostring * Z)) : forall t,
  clocked t (snd <$> calls) -> clocked t (for_key k calls).
Proof.
  assert (Hweak : forall nows t t', t <= t' -> clocked t' nows -> clocked t nows).
  { intros [|now nows] t t' Ht; [done |]. simpl. intros [? ?]. split; [lia | done]. }
  unfold for_key. induction calls as [|[key now] calls IH]; intros t; [done |]. simpl. intros [Ht Hclk].
  rewrite filter_cons. simpl. case_decide; simpl; [split; [done | by apply IH] |].
  eapply Hweak; [done | by apply IH].
Qed.


Definition sample_calls : list (gostring * Z) :=
  [($"a", 5); ($"b", 6); ($"a", 7); ($"a", 8); ($"b", 14); ($"a", 15); ($"a", 16)].


(** C33 (bounds).  When no call takes the mutex with a reading of the clock more than
    [d] older than one used before it, then no key gets more than [2 * limit - 1]
    requests through in any time span of one window less [3 * d], whatever the other
    keys do; with readings in order ([d = 0]) that is a full window. *)
Theorem limiter_burst_bound (lim w t0 d : Z) (calls : list (gostring * Z)) (k : gostring) (t : Z) :
  0 < w <= max_int64 -> 1 <= lim -> 0 <= d -> 3 * d < w ->
  Forall (measurable t0) (snd <$> calls) -> skewed d (1 + d) (snd <$> calls) ->
  let h := allowed (for_key k (history lim w calls)) in
  since t h - since (t + (w - 3 * d)) h <= 2 * lim - 1.
Proof.
  intros Hw Hl Hd H3 Ht Hsk. cbv zeta. rewrite (history_ticked lim w t0) by done.
  apply (ticked_burst lim w d Hl Hd H3 k calls (1 + d) None []); [lia | done | by left].
Qed.

(** A reading that is late at the lock: the window of [k], started at 5, is dropped by
    the sweep of another key's call at 16, and the call of [k] that read 14 starts a new
    one, so that two calls pass in less than a window where one was to. *)
Lemma late_reading_passes :
  let calls := [($"k", 5); ($"j", 16); ($"k", 14)] in
  for_key ($"k") (history 1 10 calls) = [(5, (true, 0)); (14, (true, 0))]
  /\ counter_run 1 10 None (for_key ($"k") calls) = [(5, (true, 0)); (14, (false, 1))].
Proof. by vm_compute. Qed.

(** One request at the start of a window, the rest of the budget at its end, and
    a full budget right after it: within one minute 239 requests pass. *)
Definition edge_calls : list (gostring * Z) :=
  ($"k", 1) :: replicate 119 ($"k", Minute) ++ replicate 120 ($"k", Minute + 1).

Lemma limiter_burst_bound_witness :
  (let h := allowed (for_key ($"k") (history publicRateLimit publicRateWindow edge_calls)) in
   since Minute h - since (Minute + (publicRateWindow - 3 * 0)) h <= 239)
  /\ (let h := allowed (for_key ($"k") (history 1 10 [($"k", 5); ($"j", 16); ($"k", 14)])) in
      since 5 h - since (5 + (10 - 3 * 2)) h <= 1).
Proof.
  split.
  - apply (limiter_burst_bound publicRateLimit publicRateWindow 1 0 edge_calls ($"k") Minute).
    + unfold publicRateWindow, Minute, Second, max_int64. lia.
    + unfold publicRateLimit. lia.
    + lia.
    + unfold publicRateWindow, Minute, Second. lia.
    + apply (bool_decide_eq_true_1 (Forall (fun t => (0 < 1 /\ 1 <= t) /\ t <= 1 + max_int64) (snd <$> edge_calls))). by vm_compute.
    + vm_compute. repeat split; discriminate.
  - apply (limiter_burst_bound 1 10 5 2 [($"k", 5); ($"j", 16); ($"k", 14)] ($"k") 5); try done.
    repeat (constructor; [split; done |]). constructor.
Defined.

(** The bound is reached: a client that times its requests around the end of a
    window gets 239 of them through in less than a minute. *)
Lemma public_limit_burst :
  let h := allowed (for_key ($"k") (history publicRateLimit publicRateWindow edge_calls)) in
  since Minute h - since (Minute + publicRateWindow) h = 239.
Proof. vm_compute. reflexivity. Qed.

(** With readings in order a refusal announces the exact delay: it is positive and at
    most one window, every further call of the key before it has elapsed is
    refused, and the first call at or after it is let through. *)
Theorem limiter_retry_after (lim w epoch : Z) (calls : list (gostring * Z)) (k : gostring)
    (p0 : list (Z * (bool * Z))) (t0 d : Z) (p1 : list (Z * (bool * Z))) (t1 : Z) (r : bool * Z)
    (p2 : list (Z * (bool * Z))) :
  0 < w <= max_int64 -> Forall (measurable epoch) (snd <$> calls) -> clocked 1 (snd <$> calls) ->
  for_key k (history lim w calls) = p0 ++ (t0, (false, d)) :: p1 ++ (t1, r) :: p2 ->
  Forall (fun p => p.1 < t0 + d) p1 ->
  0 < d <= w /\ (r.1 = true <-> t0 + d <= t1).
Proof.
  intros Hw Hm Hclk Hrun Hp. rewrite (history_key lim w epoch) in Hrun by done.
  apply (counter_run_refused lim w _ 1) in Hrun as (s & c & nows & Hs & Hc & -> & Hlt & Hpost);
    [|lia|by apply clocked_for_key|done].
  split; [lia |]. replace (t0 + (w - (t0 - s))) with (s + w) in * by lia.
  eapply counter_run_refusing; [|done|symmetry; exact Hpost|done]. lia.
Qed.

Lemma limiter_retry_after_witness : 0 < 7 <= 10 /\ (true = true <-> 8 + 7 <= 15).
Proof.
  apply (limiter_retry_after 2 10 5 sample_calls ($"a") [(5, (true, 0)); (7, (true, 0))] 8 7 [] 15
           (true, 0) [(16, (true, 0))]); try done. repeat (constructor; [split; done |]). constructor.
Defined.

(** The table does not grow with keys that went quiet: after any
    call, made at [now], every window it holds started less than one window
    before [now]. *)
Theorem limiter_table_live (order : list (gostring * publicRateEntry)) (key : gostring) (now : Z)
    (l : publicRateLimiter) (k : gostring) (e : publicRateEntry) :
  0 < window l <= max_int64 -> order ≡ₚ map_to_list (entries l) ->
  entries (allow_in order key now l).2 !! k = Some e -> now - started e < window l.
Proof.
  intros Hw Hp. unfold allow_in. set (m := sweep_in order now (window l) (entries l)).
  assert (Hm : forall k e, m !! k = Some e -> now - started e < window l).
  { intros k0 e0. subst m. rewrite (sweep_spec _ _ _ _ _ Hp).
    destruct (entries l !! k0) as [e1|]; [|done]. destruct (_ <=? _) eqn:Hx; [done | intros [= <-]].
    prop_guards. apply Z.lt_nge. rewrite <- Sub_ge_iff by (unfold min_int64; lia). lia. }
  assert (Hi : forall e0, now - started e0 < window l -> <[key := e0]> m !! k = Some e ->
               now - started e < window l).
  { intros e0 He0 [[_ <-] | [_ Hk]]%lookup_insert_Some; [done | by eapply Hm]. }
  destruct (IsZero _ || _) eqn:Hx; simpl; [apply Hi; simpl; lia |].
  destruct (limit l <=? _); simpl; [apply Hm | apply Hi]. simpl. prop_guards.
  apply Z.lt_nge. rewrite <- Sub_ge_iff by (unfold min_int64; lia). lia.
Qed.

Lemma limiter_table_live_witness :
  let l := (allow ($"a") 5 (newPublicRateLimiter 2 10)).2 in
  entries (allow_in (map_to_list (entries l)) ($"b") 6 l).2 !! $"a" = Some (mkEntry 5 1) /\ 6 - 5 < 10.
Proof.
  cbv zeta. split; [reflexivity |].
  apply (limiter_table_live (map_to_list (entries (allow ($"a") 5 (newPublicRateLimiter 2 10)).2))
           ($"b") 6 (allow ($"a") 5 (newPublicRateLimiter 2 10)).2 ($"a") (mkEntry 5 1));
    [done | done | reflexivity].
Defined.

(** ** The auth limiter *)

Definition auth_entry (e : rateWindow) : publicRateEntry := mkEntry (rw_started e) (rw_count e).

(** The auth limiter, seen as a public one. *)
Definition auth_view (l : authRateLimiter) : publicRateLimiter :=
  mkLimiter (auth_limit l) (auth_window l) (auth_entry <$> auth_entries l).

Lemma auth_sweep_view order now w m :
  auth_entry <$> foldl (fun m '(currentKey, entry) =>
                          if w <=? Sub now (rw_started entry) then delete currentKey m else m) m order
  = sweep_in (prod_map id auth_entry <$> order) now w (auth_entry <$> m).
Proof.
  unfold sweep_in. revert m. induction order as [|[k e] order IH]; intros m; [done |].
  cbn [foldl fmap list_fmap prod_map]. rewrite IH. f_equal. simpl.
  destruct (w <=? _); [by rewrite fmap_delete | done].
Qed.

(** The limiter of the auth endpoints is the limiter of the
    public ingress: on every state it gives the same answer and reaches the same
    state, so the guarantees above hold of it with its own limit and window. *)
Theorem auth_limiter_equiv (key : gostring) (now : Z) (l : authRateLimiter) :
  (auth_allow key now l).1 = (allow key now (auth_view l)).1
  /\ auth_view (auth_allow key now l).2 = (allow key now (auth_view l)).2.
Proof.
  rewrite <- (allow_any_order (prod_map id auth_entry <$> map_to_list (auth_entries l)))
    by (cbn [auth_view entries]; by rewrite map_to_list_fmap).
  unfold allow_in, auth_allow. cbn [auth_view entries window limit].
  rewrite <- auth_sweep_view. set (m := foldl _ (auth_entries l) _).
  assert (Hd : default zeroEntry ((auth_entry <$> m) !! key)
               = auth_entry (default (mkRateWindow 0 0) (m !! key))).
  { rewrite lookup_fmap. by destruct (m !! key). }
  rewrite Hd. set (e := default _ (m !! key)). cbn [auth_entry started count].
  destruct (IsZero _ || _); [|destruct (_ <=? _)]; unfold auth_view; simpl; by rewrite ?fmap_insert.
Qed.
