(* ===== verification/Subdomain.v ===== *)
(** * Random subdomains

    [GenerateSubdomain] of backend/internal/tunnels/subdomain.go.  The bytes
    [crypto/rand] returns are an input of the model: a list whose elements are
    the outcomes of successive one-byte reads, [None] being a failed read. *)

From S2P Require Import Prelude GoStrings.

(** ** Data and operations *)

Definition subdomainLength : nat := 10.
Definition alphabet : gostring := $"abcdefghijklmnopqrstuvwxyz0123456789".

(** [byte(256 - (256 % len(alphabet)))]. *)
Definition acceptLimit : Z := (256 - 256 mod zlen alphabet) mod 256.

Definition randomSource := list (option byte).

(** The inner loop: reads until a byte below the limit.  [None] when the source
    ends first, which is the loop still waiting for its next byte. *)
Fixpoint nextChar (src : randomSource) : option (result unit byte * randomSource) :=
  match src with
  | [] => None
  | None :: src => Some (Err tt, src)
  | Some b :: src =>
      if byte_to_Z b <? acceptLimit
      then Some (Ok (byte_at alphabet (Z.to_nat (byte_to_Z b mod zlen alphabet))), src)
      else nextChar src
  end.

(** The outer loop over the positions of the result. *)
Fixpoint generate_loop (n : nat) (src : randomSource) : option (result unit gostring * randomSource) :=
  match n with
  | O => Some (Ok [], src)
  | S n =>
      match nextChar src with
      | None => None
      | Some (Err e, src) => Some (Err e, src)
      | Some (Ok c, src) =>
          match generate_loop n src with
          | Some (Ok s, src) => Some (Ok (c :: s), src)
          | r => r
          end
      end
  end.

Definition GenerateSubdomain (src : randomSource) : option (result unit gostring * randomSource) :=
  generate_loop subdomainLength src.

(** ** Lemmas *)

(** The bytes of the source the rejection loop keeps. *)
Definition accepted (b : byte) : bool := byte_to_Z b <? acceptLimit.
Definition char_of (b : byte) : byte := byte_at alphabet (Z.to_nat (byte_to_Z b mod zlen alphabet)).

Lemma char_of_alphabet b : char_of b ∈ alphabet.
Proof.
  unfold char_of, byte_at.
  assert (Hlt : (Z.to_nat (byte_to_Z b mod zlen alphabet) < length alphabet)%nat).
  { pose proof (Z.mod_pos_bound (byte_to_Z b) (zlen alphabet) ltac:(reflexivity)). unfold zlen in *. lia. }
  destruct (lookup_lt_is_Some_2 _ _ Hlt) as [c Hc]. rewrite Hc. simpl.
  by eapply list_elem_of_lookup_2.
Qed.

(** On a source without failures the loop yields the characters of the first
    [n] accepted bytes, as soon as there are that many. *)
Lemma generate_loop_accepted n : forall bs,
  (n <= length (List.filter accepted bs))%nat ->
  exists rest, generate_loop n (Some <$> bs)
               = Some (Ok (char_of <$> take n (List.filter accepted bs)), rest).
Proof.
  assert (Hnext : forall bs b kept, List.filter accepted bs = b :: kept ->
            exists bs', nextChar (Some <$> bs) = Some (Ok (char_of b), Some <$> bs')
                        /\ List.filter accepted bs' = kept).
  { induction bs as [|c bs IH]; intros b kept Hf; [done |]. simpl in *. fold (accepted c).
    destruct (accepted c) eqn:Hc; [|by apply IH]. injection Hf as <- <-. by exists bs. }
  induction n as [|n IH]; intros bs Hlen; [by eexists |].
  destruct (List.filter accepted bs) as [|b kept] eqn:Hf; [simpl in Hlen; lia |].
  destruct (Hnext bs b kept Hf) as (bs' & Hn & Hk). simpl in Hlen |- *. rewrite Hn.
  destruct (IH bs') as [rest Hr]; [rewrite Hk; lia |]. rewrite Hr, Hk. by eexists.
Qed.

(** Every result is a word of the alphabet of the right length. *)
Lemma generate_loop_word n : forall src s rest,
  generate_loop n src = Some (Ok s, rest) -> length s = n /\ Forall (fun c => c ∈ alphabet) s.
Proof.
  induction n as [|n IH]; intros src s rest Hg; simpl in Hg; [by injection Hg as <- _ |].
  destruct (nextChar src) as [[[c|e] src']|] eqn:Hn; try done.
  destruct (generate_loop n src') as [[[s'|e] rest']|] eqn:Hl; try done.
  injection Hg as <- _. destruct (IH _ _ _ Hl) as [Hlen Hall].
  split; [simpl; lia |]. constructor; [|done].
  clear -Hn. revert Hn. induction src as [|[b|] src IH]; simpl; try done.
  destruct (_ <? _); [|done]. intros [= <- _]. apply char_of_alphabet.
Qed.

Definition all_bytes : list byte := (fun n => byte_of_Z (Z.of_nat n)) <$> seq 0 256.

(** ** Properties *)

(** Once the random source has yielded ten bytes below the
    rejection limit, and no read failed, [GenerateSubdomain] returns: the ten
    characters those bytes select. *)
Theorem generate_subdomain_returns (bs : list byte) :
  (subdomainLength <= length (List.filter accepted bs))%nat ->
  exists rest, GenerateSubdomain (Some <$> bs)
               = Some (Ok (char_of <$> take subdomainLength (List.filter accepted bs)), rest).
Proof. apply generate_loop_accepted. Qed.

Lemma generate_subdomain_returns_witness :
  exists rest, GenerateSubdomain (Some <$> [Byte.x00; Byte.xff; Byte.x01; Byte.x24; Byte.x1a; Byte.xfb;
                 Byte.x05; Byte.x06; Byte.xfc; Byte.x07; Byte.x08; Byte.x09; Byte.x0a])
               = Some (Ok ($"aba09fghij"), rest).
Proof.
  apply (generate_subdomain_returns [Byte.x00; Byte.xff; Byte.x01; Byte.x24; Byte.x1a; Byte.xfb;
           Byte.x05; Byte.x06; Byte.xfc; Byte.x07; Byte.x08; Byte.x09; Byte.x0a]).
  vm_compute. lia.
Defined.

(** A generated subdomain is a DNS label: ten characters, all
    lower-case letters or digits; and the rejection limit removes the bias of
    the modulus: each character is selected by exactly seven byte values. *)
Theorem generate_subdomain_label (src rest : randomSource) (s : gostring) :
  GenerateSubdomain src = Some (Ok s, rest) ->
  length s = 10%nat /\ forallb (fun c => is_lower c || is_digit c) s = true
  /\ (forall c, c ∈ alphabet ->
        length (List.filter (fun b => accepted b && bool_decide (char_of b = c)) all_bytes) = 7%nat).
Proof.
  intros Hg. apply generate_loop_word in Hg as [Hlen Hall]. split_and!; [done | |].
  - apply forallb_forall. intros c Hc%list_elem_of_In.
    rewrite list.Forall_forall in Hall. specialize (Hall c Hc).
    assert (Ha : forallb (fun c => is_lower c || is_digit c) alphabet = true) by reflexivity.
    rewrite forallb_forall in Ha. by apply Ha, list_elem_of_In.
  - assert (Ha : forallb (fun c => Nat.eqb (length (List.filter (fun b => accepted b && bool_decide (char_of b = c))
                              all_bytes)) 7) alphabet = true) by (vm_compute; reflexivity).
    intros c Hc. rewrite forallb_forall in Ha. apply Nat.eqb_eq, Ha. by apply list_elem_of_In.
Qed.

Lemma generate_subdomain_label_witness :
  exists rest, GenerateSubdomain (replicate 12 (Some Byte.x0a)) = Some (Ok ($"kkkkkkkkkk"), rest)
  /\ length ($"kkkkkkkkkk") = 10%nat.
Proof.
  eexists. split; [reflexivity |].
  apply (generate_subdomain_label (replicate 12 (Some Byte.x0a)) (replicate 2 (Some Byte.x0a))).
  reflexivity.
Defined.
