(* ===== verification/PublicHost.v ===== *)
(** * Public host routing

    [ParsePublicHost] and [normalizeHost] of
    backend/internal/tunnels/public_host.go: from an HTTP Host header to a tunnel
    subdomain.  [lower] is [unicode.ToLower] on non-ASCII runes. *)

From S2P Require Import Prelude GoStrings Subdomain.

Definition dot : byte := Byte.x2e.

Section PublicHost.
Context (lower : Z -> Z).

(** ** Operations *)

Definition normalizeHost (host : gostring) : gostring :=
  let host := ToLower lower (TrimSuffix (TrimSpace host) [dot]) in
  match SplitHostPort host with
  | Ok (value, _) => value
  | Err _ => host
  end.

Definition label_rune (char : Z) : bool :=
  (97 <=? char) && (char <=? 122) || (48 <=? char) && (char <=? 57) || (char =? 45).

(** [None] is the [("", false)] of every early return. *)
Definition ParsePublicHost (host baseDomain : gostring) : option gostring :=
  let host := normalizeHost host in
  let baseDomain := ToLower lower (TrimSuffix (TrimSpace baseDomain) [dot]) in
  if bool_decide (host = []) || bool_decide (baseDomain = []) then None
  else
    let suffix := dot :: baseDomain in
    if negb (HasSuffix host suffix) then None
    else
      let subdomain := TrimSuffix host suffix in
      if bool_decide (subdomain = []) || contains_byte subdomain dot then None
      else if forallb label_rune (runes subdomain) then Some subdomain
      else None.

(** ** Lemmas *)

(** The bytes of a DNS label in lower case. *)
Definition label_byte (b : byte) : bool := is_lower b || is_digit b || bool_decide (b = Byte.x2d).

Lemma label_rune_byte b : label_rune (byte_to_Z b) = label_byte b.
Proof. by destruct b. Qed.

Lemma DecodeRune_high b s : is_ascii b = false -> 128 <= (DecodeRune (b :: s)).1.
Proof.
  unfold is_ascii. intros Hb. unfold DecodeRune. rewrite Hb.
  repeat match goal with
         | |- context [if ?c then _ else _] => destruct c eqn:?
         | |- context [match ?l with [] => _ | _ :: _ => _ end] => destruct l
         end; simpl; unfold RuneError; try lia;
  unfold cont_byte, byte_in in *; prop_guards; lia.
Qed.

(** [range] meets a byte outside the label alphabet exactly when there is
    one. *)
Lemma runes_label s : forallb label_rune (runes s) = forallb label_byte s.
Proof.
  unfold runes. assert (H : forall n s, (length s <= n)%nat ->
    forallb label_rune (runes_fuel n s) = forallb label_byte s); [|by apply H].
  induction n as [|n IH]; intros [|b t] Hlen; try done; [simpl in Hlen; lia |].
  cbn [runes_fuel]. destruct (is_ascii b) eqn:Hb.
  - rewrite DecodeRune_ascii by (by apply Z.ltb_lt). cbn [forallb]. rewrite label_rune_byte. f_equal.
    apply IH. simpl in *. lia.
  - pose proof (DecodeRune_high b t Hb) as Hr. destruct (DecodeRune (b :: t)) as [r w].
    cbn [forallb fst] in *. replace (label_rune r) with false.
    + replace (label_byte b) with false; [done |]. symmetry. clear -Hb. by destruct b.
    + symmetry. unfold label_rune. rewrite !orb_false_iff, !andb_false_iff, !Z.leb_gt, Z.eqb_neq. lia.
Qed.

Lemma label_no_dot s : forallb label_byte s = true -> dot ∉ s.
Proof.
  rewrite forallb_forall. intros H Hd. apply list_elem_of_In in Hd. specialize (H _ Hd). done.
Qed.

(** What the parser accepts, exactly. *)
Lemma parse_iff host baseDomain sub :
  let base := ToLower lower (TrimSuffix (TrimSpace baseDomain) [dot]) in
  ParsePublicHost host baseDomain = Some sub
  <-> base <> [] /\ normalizeHost host = sub ++ dot :: base
      /\ sub <> [] /\ forallb label_byte sub = true.
Proof.
  cbv zeta. unfold ParsePublicHost. set (base := ToLower lower _). set (h := normalizeHost host).
  destruct (bool_decide (h = []) || _) eqn:He.
  { split; [done |]. intros (Hb & Hh & _).
    apply orb_true_iff in He as [He%bool_decide_eq_true | He%bool_decide_eq_true]; [|done].
    rewrite Hh in He. by destruct sub. }
  prop_guards. destruct (HasSuffix h (dot :: base)) eqn:Hs; simpl.
  2: { split; [done |]. intros (_ & Hh & _). by rewrite Hh, HasSuffix_app in Hs. }
  apply HasSuffix_iff in Hs as [a Ha]. rewrite Ha, TrimSuffix_app.
  rewrite runes_label. destruct (bool_decide (a = []) || _) eqn:Hg.
  { split; [done |]. intros (_ & Heq & Hne & Hl). apply app_inv_tail in Heq as <-.
    apply orb_true_iff in Hg as [Hg%bool_decide_eq_true | Hg%bool_decide_eq_true]; [done |].
    by apply label_no_dot in Hl. }
  prop_guards. destruct (forallb label_byte a) eqn:Hl.
  - split; [intros [= <-]; done | intros (_ & Heq & _)]. by apply app_inv_tail in Heq as <-.
  - split; [done |]. intros (_ & Heq & _ & Hl'). apply app_inv_tail in Heq as <-. congruence.
Qed.

(** Host names made of letters, digits, hyphens and dots. *)
Definition host_byte (b : byte) : bool := is_alpha b || is_digit b || bool_decide (b = Byte.x2d) || bool_decide (b = dot).

Lemma host_byte_facts b :
  host_byte b = true ->
  plain b = true /\ is_ascii b = true /\ b <> colon /\ b <> lbracket /\ b <> rbracket.
Proof. destruct b; by vm_compute. Qed.

Lemma host_bytes_forall (P : byte -> Prop) s :
  (forall b, host_byte b = true -> P b) -> forallb host_byte s = true -> Forall P s.
Proof. intros HP H. apply list.Forall_forall. intros b Hb. apply HP.
  rewrite forallb_forall in H. by apply H, list_elem_of_In. Qed.

Lemma host_byte_lower b : host_byte (to_lower_byte b) = host_byte b.
Proof. by destruct b. Qed.

Lemma host_bytes_lower s : forallb host_byte (to_lower_byte <$> s) = forallb host_byte s.
Proof. induction s as [|b s IH]; [done |].
  cbn [fmap list_fmap forallb]. by rewrite host_byte_lower, <- IH. Qed.

(** An optional port. *)
Definition port_suffix (p : gostring) : Prop :=
  p = [] \/ exists ds, p = colon :: ds /\ forallb is_digit ds = true.

Lemma port_bytes p : port_suffix p ->
  Forall (fun b => plain b = true /\ is_ascii b = true /\ to_lower_byte b = b /\ b <> dot) p.
Proof.
  intros [->|(ds & -> & Hd)]; [constructor |]. constructor; [done |].
  apply list.Forall_forall. intros b Hb. rewrite forallb_forall in Hd.
  specialize (Hd b (proj1 (list_elem_of_In _ _) Hb)). clear -Hd. by destruct b.
Qed.

Lemma forallb_Forall {A} (f : A -> bool) l : forallb f l = true <-> Forall (fun x => f x = true) l.
Proof.
  rewrite forallb_forall, list.Forall_forall. split; intros H x Hx; apply H; by apply list_elem_of_In.
Qed.

Lemma ToLower_ascii s : forallb is_ascii s = true -> ToLower lower s = to_lower_byte <$> s.
Proof. unfold ToLower, all_ascii. by intros ->. Qed.

(** The common part of normalising a host or a base domain. *)
Lemma trim_lower s :
  Forall (fun b => plain b = true /\ is_ascii b = true) s -> list.last s <> Some dot ->
  ToLower lower (TrimSuffix (TrimSpace s) [dot]) = to_lower_byte <$> s.
Proof.
  intros Hs Hl. rewrite TrimSpace_plain.
  2: { apply forallb_Forall. eapply list.Forall_impl; [exact Hs |]. by intros b [? _]. }
  rewrite TrimSuffix_no by (by apply no_suffix_byte). apply ToLower_ascii, forallb_Forall.
  eapply list.Forall_impl; [exact Hs |]. by intros b [_ ?].
Qed.

Lemma host_plain_ascii s :
  forallb host_byte s = true -> Forall (fun b => plain b = true /\ is_ascii b = true) s.
Proof. apply host_bytes_forall. intros b Hb. by destruct (host_byte_facts b Hb) as (? & ? & _). Qed.

Lemma host_not_elem c s :
  (forall b, host_byte b = true -> b <> c) -> forallb host_byte s = true -> c ∉ s.
Proof.
  intros Hc Hs Hin. apply (host_bytes_forall (fun b => b <> c)) in Hs; [|done].
  rewrite list.Forall_forall in Hs. by apply (Hs c Hin).
Qed.

(** A host name with an optional port normalises to the lower-case name. *)
Lemma normalize_host_port h p :
  forallb host_byte h = true -> list.last h <> Some dot -> port_suffix p ->
  normalizeHost (h ++ p) = to_lower_byte <$> h.
Proof.
  intros Hh Hl Hp. unfold normalizeHost. pose proof (port_bytes p Hp) as Hpb. rewrite trim_lower.
  2: { apply Forall_app_2; [by apply host_plain_ascii |].
       eapply list.Forall_impl; [exact Hpb |]. by intros b (? & ? & _). }
  2: { destruct p as [|c p] using rev_ind; [by rewrite app_nil_r |]. rewrite app_assoc, list.last_snoc.
       intros [= ->]. apply list.Forall_app in Hpb as [_ Hpb].
       apply list.Forall_cons in Hpb as [(_ & _ & _ & ?) _]. done. }
  rewrite fmap_app. set (h' := to_lower_byte <$> h).
  assert (Hh' : forallb host_byte h' = true) by (subst h'; by rewrite host_bytes_lower).
  destruct Hp as [->|(ds & -> & Hd)].
  - rewrite app_nil_r, SplitHostPort_no_colon; [done |].
    apply host_not_elem; [|done]. intros b Hb. by destruct (host_byte_facts b Hb) as (_ & _ & ? & _).
  - assert (Hds : Forall (fun b => b <> colon /\ b <> lbracket /\ b <> rbracket) (to_lower_byte <$> ds)).
    { apply Forall_fmap, list.Forall_forall. intros b Hb. rewrite forallb_forall in Hd.
      specialize (Hd b (proj1 (list_elem_of_In _ _) Hb)). clear -Hd. by destruct b. }
    cbn [fmap list_fmap]. change (to_lower_byte colon) with colon. rewrite list.Forall_forall in Hds.
    rewrite SplitHostPort_plain; [done | | | | by intros [? _]%Hds | by intros (_ & ? & _)%Hds
      | by intros (_ & _ & ?)%Hds];
      (apply host_not_elem; [|done]); intros b Hb; by destruct (host_byte_facts b Hb) as (_ & _ & ? & ? & ?).
Qed.

Lemma label_host s : forallb label_byte s = true -> forallb host_byte s = true.
Proof.
  rewrite !forallb_forall. intros H b Hb. specialize (H b Hb). clear -H. by destruct b.
Qed.

(** ** Properties *)

(** A base domain as the configuration supplies it: a lower-case host name
    with no trailing dot. *)
Definition base_ok (base : gostring) : Prop :=
  base <> [] /\ forallb host_byte base = true /\ to_lower_byte <$> base = base
  /\ list.last base <> Some dot.

Lemma base_normal base : base_ok base -> ToLower lower (TrimSuffix (TrimSpace base) [dot]) = base.
Proof.
  intros (Hne & Hb & Hlow & Hl). rewrite trim_lower; [done | by apply host_plain_ascii | done].
Qed.
End PublicHost.

(** The parser accepts exactly the hosts that, normalised,
    are one non-empty label of lower-case letters, digits and hyphens in front
    of the normalised base domain, and it returns that label: the bare base
    domain, nested labels and other characters are rejected. *)
Theorem parse_public_host_exact (lower : Z -> Z) (host baseDomain sub : gostring) :
  let base := ToLower lower (TrimSuffix (TrimSpace baseDomain) [dot]) in
  ParsePublicHost lower host baseDomain = Some sub
  <-> base <> [] /\ normalizeHost lower host = sub ++ dot :: base
      /\ sub <> [] /\ forallb label_byte sub = true.
Proof. apply parse_iff. Qed.

(** A Host header that spells [<label>.<base>] in any letter case, with or without
    a port, is parsed to the label. *)
Lemma label_routes (lower : Z -> Z) (sub base h port : gostring) :
  sub <> [] -> forallb label_byte sub = true -> base_ok base ->
  to_lower_byte <$> h = sub ++ dot :: base -> port_suffix port ->
  ParsePublicHost lower (h ++ port) base = Some sub.
Proof.
  intros Hsub Hlab Hbase Hh Hp.
  pose proof (base_normal lower base Hbase) as Hbn. destruct Hbase as (Hne & Hb & Hlow & Hl).
  assert (Hhost : forallb host_byte h = true).
  { rewrite <- host_bytes_lower, Hh, forallb_app. simpl. by rewrite label_host, Hb. }
  assert (Hlast : list.last h <> Some dot).
  { destruct h as [|c h _] using rev_ind; [done |]. rewrite list.last_snoc. intros [= ->].
    rewrite fmap_app in Hh. destruct base as [|c base _] using rev_ind; [done |].
    rewrite list.last_snoc in Hl. change (dot :: base ++ [c]) with ((dot :: base) ++ [c]) in Hh.
    rewrite app_assoc in Hh. apply app_inj_tail in Hh as [_ Heq]. apply Hl. by rewrite <- Heq. }
  apply parse_iff. cbv zeta. rewrite Hbn, normalize_host_port, Hh by done.
  split_and!; done.
Qed.

(** A generated subdomain is a label. *)
Lemma generated_label src rest sub :
  GenerateSubdomain src = Some (Ok sub, rest) -> sub <> [] /\ forallb label_byte sub = true.
Proof.
  intros [Hlen Hall]%generate_loop_word. split; [by destruct sub |].
  apply forallb_Forall. eapply list.Forall_impl; [exact Hall |]. intros b Hin.
  assert (Ha : forallb label_byte alphabet = true) by reflexivity.
  rewrite forallb_forall in Ha. by apply Ha, list_elem_of_In.
Qed.

(** The public address of a generated subdomain leads back to
    it: for every base domain of the configuration, a Host header that spells
    [<subdomain>.<base>] in any letter case, with or without a port, is parsed to
    the subdomain. *)
Theorem generated_host_routes (lower : Z -> Z) (src rest : randomSource) (sub base h port : gostring) :
  GenerateSubdomain src = Some (Ok sub, rest) -> base_ok base ->
  to_lower_byte <$> h = sub ++ dot :: base -> port_suffix port ->
  ParsePublicHost lower (h ++ port) base = Some sub.
Proof.
  intros [Hne Hlab]%generated_label Hbase Hh Hp. by apply label_routes.
Qed.

Lemma generated_host_routes_witness :
  ParsePublicHost (fun r => r) ($"KKkkkkkkkk.Tunnel.Example.test" ++ $":8080") ($"tunnel.example.test")
  = Some ($"kkkkkkkkkk").
Proof.
  apply (generated_host_routes _ (replicate 12 (Some Byte.x0a)) (replicate 2 (Some Byte.x0a)));
    [reflexivity | repeat split; done | reflexivity |].
  right. exists ($"8080"). split; reflexivity.
Defined.

(** A trailing dot is stripped before the port is split off, so an absolute host
    name is routed without a port and rejected with one. *)
Lemma absolute_host_with_port :
  ParsePublicHost (fun r => r) ($"demo.tunnel.example.test.") ($"tunnel.example.test") = Some ($"demo")
  /\ ParsePublicHost (fun r => r) ($"demo.tunnel.example.test.:8080") ($"tunnel.example.test") = None.
Proof. split; reflexivity. Qed.
