(* ===== verification/Headers.v ===== *)
(** * HTTP header filtering

    [withoutHopByHopHeaders] (the same function in
    backend/internal/tunnels/public_handler.go and in
    agent/internal/gatewayclient/local_http.go), [publicRequestHeaders] and
    [requestClientIP].  A header map is a finite map from names, spelled as they
    are stored, to the list of their values. *)

From S2P Require Import Prelude GoStrings.

(** ** [net/http.Header] *)

Abbreviation Header := (gmap gostring (list gostring)).

Definition h_Values (key : gostring) (h : Header) : list gostring := default [] (h !! CanonicalKey key).
Definition h_Get (key : gostring) (h : Header) : gostring := default [] (head (h_Values key h)).
Definition h_Set (key value : gostring) (h : Header) : Header := <[CanonicalKey key := [value]]> h.
Definition h_Add (key value : gostring) (h : Header) : Header :=
  <[CanonicalKey key := default [] (h !! CanonicalKey key) ++ [value]]> h.
Definition h_Del (key : gostring) (h : Header) : Header := delete (CanonicalKey key) h.

(** ** Hop-by-hop headers *)

Definition comma : byte := Byte.x2c.

Definition hopByHop : list gostring :=
  [$"Connection"; $"Proxy-Connection"; $"Keep-Alive"; $"Proxy-Authenticate";
   $"Proxy-Authorization"; $"TE"; $"Trailer"; $"Transfer-Encoding"; $"Upgrade"].

(** The gateway's function.  [headers.Clone()] is the map itself: the model's
    maps are values. *)
Definition withoutHopByHopHeaders (headers : Header) : Header :=
  let filtered := headers in
  let filtered :=
    foldl (fun f value =>
             foldl (fun f name => h_Del (TrimSpace name) f) f (split_byte comma value))
          filtered (h_Values ($"Connection") filtered) in
  foldl (fun f name => h_Del name f) filtered hopByHop.

(** The agent's copy of it. *)
Definition agent_withoutHopByHopHeaders (headers : Header) : Header :=
  let filtered := headers in
  let filtered :=
    foldl (fun f value =>
             foldl (fun f name => h_Del (TrimSpace name) f) f (split_byte comma value))
          filtered (h_Values ($"Connection") filtered) in
  foldl (fun f name => h_Del name f) filtered hopByHop.

(** ** The public request *)

(** The fields of [*http.Request] the handler reads. *)
Record http_request := mkRequest {
  r_Method : gostring;
  r_Host : gostring;
  r_RequestURI : gostring;        (* r.URL.RequestURI() *)
  r_Header : Header;
  r_ContentLength : Z;            (* int64, -1 when unknown *)
  r_RemoteAddr : gostring;
  r_TLS : bool                    (* r.TLS != nil *)
}.

Definition requestClientIP (r : http_request) : gostring :=
  let clientIP := match SplitHostPort (r_RemoteAddr r) with
                  | Ok (ip, _) => ip
                  | Err _ => r_RemoteAddr r
                  end in
  if bool_decide (clientIP = []) then $"unknown" else clientIP.

(** [strings.EqualFold] with an ASCII name that has neither [k] nor [s], the
    only ASCII letters with non-ASCII case variants. *)
Definition EqualFold_ascii (s t : gostring) : bool :=
  bool_decide (to_lower_byte <$> s = to_lower_byte <$> t).

Definition is_forwarded (lower : Z -> Z) (name : gostring) : bool :=
  HasPrefix (ToLower lower name) ($"x-forwarded-") || EqualFold_ascii name ($"Forwarded").

Definition publicRequestHeaders (lower : Z -> Z) (r : http_request) (requestID : gostring) : Header :=
  let headers := withoutHopByHopHeaders (r_Header r) in
  let headers := filter (fun p => is_forwarded lower p.1 = false) headers in
  let clientIP := requestClientIP r in
  let headers := if bool_decide (clientIP ≠ [])
                 then h_Set ($"X-Forwarded-For") clientIP headers else headers in
  let headers := h_Set ($"X-Forwarded-Host") (r_Host r) headers in
  let headers := if r_TLS r then h_Set ($"X-Forwarded-Proto") ($"https") headers
                 else h_Set ($"X-Forwarded-Proto") ($"http") headers in
  h_Set ($"X-Tunnel-Request-ID") requestID headers.

(** ** Lemmas *)

(** The names a [Connection] header nominates, in canonical spelling. *)
Definition nominated (h : Header) : list gostring :=
  (fun name => CanonicalKey (TrimSpace name)) <$> concat (split_byte comma <$> h_Values ($"Connection") h).

Lemma foldl_del_lookup (names : list gostring) (h : Header) k :
  foldl (fun f name => h_Del name f) h names !! k
  = if bool_decide (k ∈ CanonicalKey <$> names) then None else h !! k.
Proof.
  revert h. induction names as [|n names IH]; intros h; [done |].
  cbn [foldl fmap list_fmap]. rewrite IH. unfold h_Del.
  destruct (decide (k ∈ CanonicalKey <$> names)) as [Hin|Hin].
  - rewrite !bool_decide_eq_true_2; [done | by right | done].
  - rewrite (bool_decide_eq_false_2 _ Hin). destruct (decide (k = CanonicalKey n)) as [->|Hne].
    + rewrite bool_decide_eq_true_2 by left. apply lookup_delete_eq.
    + rewrite bool_decide_eq_false_2 by (rewrite elem_of_cons; tauto). by rewrite lookup_delete_ne.
Qed.

Lemma foldl_nested {A B C} (f : A -> C -> A) (g : B -> list C) (l : list B) a :
  foldl (fun a x => foldl f a (g x)) a l = foldl f a (concat (g <$> l)).
Proof.
  revert a. induction l as [|x l IH]; intros a; [done |].
  cbn [foldl fmap list_fmap concat]. by rewrite IH, foldl_app.
Qed.

Lemma foldl_fmap {A B C} (f : A -> C -> A) (g : B -> C) (l : list B) a :
  foldl (fun a x => f a (g x)) a l = foldl f a (g <$> l).
Proof. revert a. induction l as [|x l IH]; intros a; [done |]. apply IH. Qed.

(** The filter removes the nominated and the fixed names, and nothing else. *)
Lemma withoutHopByHop_lookup h k :
  withoutHopByHopHeaders h !! k
  = if bool_decide (k ∈ nominated h) || bool_decide (k ∈ CanonicalKey <$> hopByHop)
    then None else h !! k.
Proof.
  unfold withoutHopByHopHeaders. rewrite foldl_del_lookup.
  rewrite foldl_nested, (foldl_fmap (fun f name => h_Del name f) TrimSpace), foldl_del_lookup.
  unfold nominated. rewrite <- list_fmap_compose.
  destruct (bool_decide (k ∈ _ <$> hopByHop)); [by rewrite orb_true_r | by rewrite orb_false_r].
Qed.

Lemma h_Set_lookup key v h k :
  h_Set key v h !! k = if bool_decide (k = CanonicalKey key) then Some [v] else h !! k.
Proof.
  unfold h_Set. case_bool_decide as Hk; [subst; apply lookup_insert_eq | by apply lookup_insert_ne].
Qed.

Lemma Connection_dropped h : withoutHopByHopHeaders h !! $"Connection" = None.
Proof.
  rewrite withoutHopByHop_lookup. replace (bool_decide (_ ∈ CanonicalKey <$> hopByHop)) with true by reflexivity.
  by rewrite orb_true_r.
Qed.

(** ** Properties *)

(** The filter removes exactly the nine hop-by-hop fields and
    every field a [Connection] value names (split at commas, trimmed,
    canonicalised); every other field keeps all its values in order; filtering
    again, as the two ends do, changes nothing; and the agent's copy of the
    function is the same function. *)
Theorem hop_by_hop_exact (h : Header) :
  (forall k, withoutHopByHopHeaders h !! k
             = if bool_decide (k ∈ nominated h) || bool_decide (k ∈ CanonicalKey <$> hopByHop)
               then None else h !! k)
  /\ withoutHopByHopHeaders (withoutHopByHopHeaders h) = withoutHopByHopHeaders h
  /\ agent_withoutHopByHopHeaders h = withoutHopByHopHeaders h.
Proof.
  split_and!; [apply withoutHopByHop_lookup | | reflexivity].
  apply map_eq. intros k. rewrite withoutHopByHop_lookup.
  assert (Hn : nominated (withoutHopByHopHeaders h) = []).
  { unfold nominated, h_Values. change (CanonicalKey ($"Connection")) with ($"Connection").
    by rewrite Connection_dropped. }
  rewrite Hn, (bool_decide_eq_false_2 (k ∈ [])) by apply not_elem_of_nil. simpl.
  case_bool_decide as Hk; [|done]. rewrite withoutHopByHop_lookup, (bool_decide_eq_true_2 _ Hk).
  by rewrite orb_true_r.
Qed.

(** The four fields the gateway sets itself. *)
Definition trusted (r : http_request) (requestID k : gostring) : option (list gostring) :=
  if bool_decide (k = $"X-Tunnel-Request-Id") then Some [requestID]
  else if bool_decide (k = $"X-Forwarded-Proto") then Some [if r_TLS r then $"https" else $"http"]
  else if bool_decide (k = $"X-Forwarded-Host") then Some [r_Host r]
  else if bool_decide (k = $"X-Forwarded-For") then Some [requestClientIP r]
  else None.

Lemma requestClientIP_nonempty r : requestClientIP r <> [].
Proof. unfold requestClientIP. by destruct (bool_decide (_ = [])) eqn:E; prop_guards. Qed.

(** The fields of a forwarded request, one by one. *)
Lemma publicRequestHeaders_lookup (lower : Z -> Z) (r : http_request) (requestID k : gostring) :
  publicRequestHeaders lower r requestID !! k
  = match trusted r requestID k with
    | Some v => Some v
    | None => if is_forwarded lower k then None else withoutHopByHopHeaders (r_Header r) !! k
    end.
Proof.
  unfold publicRequestHeaders. rewrite bool_decide_eq_true_2 by apply requestClientIP_nonempty.
  set (base := filter _ _).
  assert (Hb : base !! k = if is_forwarded lower k then None else withoutHopByHopHeaders (r_Header r) !! k).
  { subst base. rewrite map_lookup_filter. destruct (withoutHopByHopHeaders _ !! k) as [v|]; simpl.
    - destruct (is_forwarded lower k) eqn:E; simpl; by rewrite ?E.
    - by destruct (is_forwarded lower k). }
  rewrite h_Set_lookup. change (CanonicalKey ($"X-Tunnel-Request-ID")) with ($"X-Tunnel-Request-Id").
  replace ((if r_TLS r then h_Set ($"X-Forwarded-Proto") ($"https") (h_Set ($"X-Forwarded-Host") (r_Host r)
            (h_Set ($"X-Forwarded-For") (requestClientIP r) base))
            else h_Set ($"X-Forwarded-Proto") ($"http") (h_Set ($"X-Forwarded-Host") (r_Host r)
            (h_Set ($"X-Forwarded-For") (requestClientIP r) base))))
    with (h_Set ($"X-Forwarded-Proto") (if r_TLS r then $"https" else $"http")
            (h_Set ($"X-Forwarded-Host") (r_Host r) (h_Set ($"X-Forwarded-For") (requestClientIP r) base)))
    by (by destruct (r_TLS r)).
  rewrite !h_Set_lookup. change (CanonicalKey ($"X-Forwarded-Proto")) with ($"X-Forwarded-Proto").
  change (CanonicalKey ($"X-Forwarded-Host")) with ($"X-Forwarded-Host").
  change (CanonicalKey ($"X-Forwarded-For")) with ($"X-Forwarded-For"). rewrite Hb. unfold trusted.
  by repeat case_bool_decide.
Qed.

(** What the agent receives never carries a forwarding field the
    public client chose: the four trusted fields have exactly the gateway's
    value, every other [X-Forwarded-*] or [Forwarded] field is gone whatever its
    spelling, and the remaining end-to-end fields are unchanged. *)
Theorem forwarded_headers_trusted (lower : Z -> Z) (r : http_request) (requestID k : gostring) :
  publicRequestHeaders lower r requestID !! k
  = match trusted r requestID k with
    | Some v => Some v
    | None => if is_forwarded lower k then None else withoutHopByHopHeaders (r_Header r) !! k
    end.
Proof. apply publicRequestHeaders_lookup. Qed.
