(* ===== verification/Json.v ===== *)
(** * [encoding/json] as the two programs use it

    Control messages travel as JSON text.  This file models what the sources use
    of the standard library: the text [json.Marshal] writes for a value and the
    syntax [json.Unmarshal] accepts, at the level of bytes, with Go's escapes,
    its replacement of invalid UTF-8 and its nesting limit; and the rules by which
    a parsed value is stored into Go structs. *)

From S2P Require Import Prelude GoStrings.

(** ** Values *)

Inductive json :=
| JNull
| JBool (b : bool)
| JNum (lexeme : gostring)
| JStr (s : gostring)
| JArr (l : list json)
| JObj (fields : list (gostring * json)).

(** ** Strings *)

Definition quote : byte := Byte.x22.
Definition backslash : byte := Byte.x5c.

Definition hex_digit (n : Z) : byte := byte_of_Z (if n <? 10 then 48 + n else 87 + n).

(** The short escapes and the bytes they stand for. *)
Definition short_escapes : list (byte * byte) :=
  [(quote, quote); (backslash, backslash); (Byte.x2f, Byte.x2f); (Byte.x62, Byte.x08); (Byte.x66, Byte.x0c);
   (Byte.x6e, Byte.x0a); (Byte.x72, Byte.x0d); (Byte.x74, Byte.x09)].

(** An ASCII byte of a string, with HTML escaping on. *)
Definition quote_ascii (b : byte) : list byte :=
  match b with
  | Byte.x22 | Byte.x5c => [backslash; b]
  | Byte.x08 => $"\b" | Byte.x0c => $"\f" | Byte.x0a => $"\n" | Byte.x0d => $"\r" | Byte.x09 => $"\t"
  | Byte.x3c | Byte.x3e | Byte.x26 =>
      $"\u00" ++ [hex_digit (byte_to_Z b / 16); hex_digit (byte_to_Z b mod 16)]
  | _ => if byte_to_Z b <? 32
         then $"\u00" ++ [hex_digit (byte_to_Z b / 16); hex_digit (byte_to_Z b mod 16)]
         else [b]
  end.

(** [appendString], between the quotes; [fuel] bounds the bytes left. *)
Fixpoint quote_body (fuel : nat) (s : gostring) : list byte :=
  match fuel, s with
  | S fuel, b :: t =>
      if byte_to_Z b <? 128 then quote_ascii b ++ quote_body fuel t
      else
        let '(r, n) := DecodeRune s in
        if (r =? RuneError) && Nat.eqb n 1 then $"\ufffd" ++ quote_body fuel t
        else if (r =? 8232) || (r =? 8233) then $"\u202" ++ [hex_digit (r mod 16)] ++ quote_body fuel (drop n s)
        else take n s ++ quote_body fuel (drop n s)
  | _, _ => []
  end.

Definition quote_string (s : gostring) : list byte := quote :: quote_body (length s) s ++ [quote].

Definition hex_val (b : byte) : option Z :=
  let x := byte_to_Z b in
  if (48 <=? x) && (x <=? 57) then Some (x - 48)
  else if (97 <=? x) && (x <=? 102) then Some (x - 87)
  else if (65 <=? x) && (x <=? 70) then Some (x - 55)
  else None.

(** Four hexadecimal digits. *)
Definition hex4 (s : list byte) : option (Z * list byte) :=
  match s with
  | a :: b :: c :: d :: t =>
      a ← hex_val a; b ← hex_val b; c ← hex_val c; d ← hex_val d;
      Some (4096 * a + 256 * b + 16 * c + d, t)
  | _ => None
  end.

(** [utf16.DecodeRune]; [None] for an invalid pair. *)
Definition surrogate_pair (r1 r2 : Z) : option Z :=
  if (55296 <=? r1) && (r1 <? 56320) && (56320 <=? r2) && (r2 <? 57344)
  then Some ((r1 - 55296) * 1024 + (r2 - 56320) + 65536) else None.

(** The second half of a surrogate pair, when there is one. *)
Definition low_surrogate (r1 : Z) (s : list byte) : option (Z * list byte) :=
  match s with
  | b :: u :: t =>
      if bool_decide (b = backslash) && bool_decide (u = Byte.x75)
      then '(r2, t) ← hex4 t; r ← surrogate_pair r1 r2; Some (r, t)
      else None
  | _ => None
  end.

(** An escape sequence, after the backslash. *)
Definition unescape (s : list byte) : option (gostring * list byte) :=
  match s with
  | [] => None
  | e :: t =>
      match list_find (fun p => p.1 = e) short_escapes with
      | Some (_, (_, c)) => Some ([c], t)
      | None =>
          if bool_decide (e = Byte.x75) then
            '(r, t) ← hex4 t;
            if (55296 <=? r) && (r <? 57344)
            then match low_surrogate r t with
                 | Some (r, t) => Some (EncodeRune r, t)
                 | None => Some (EncodeRune RuneError, t)
                 end
            else Some (EncodeRune r, t)
          else None
      end
  end.

(** [unquote]: the string after its opening quote, and the text after its closing
    quote. *)
Fixpoint unquote (fuel : nat) (s : list byte) : option (gostring * list byte) :=
  match fuel, s with
  | S fuel, b :: t =>
      if bool_decide (b = quote) then Some ([], t)
      else if bool_decide (b = backslash) then
        '(c, t) ← unescape t; '(u, rest) ← unquote fuel t; Some (c ++ u, rest)
      else if byte_to_Z b <? 32 then None
      else if byte_to_Z b <? 128 then '(u, rest) ← unquote fuel t; Some (b :: u, rest)
      else let '(r, n) := DecodeRune s in
           '(u, rest) ← unquote fuel (drop n s); Some (EncodeRune r ++ u, rest)
  | _, _ => None
  end.

(** What a string becomes on the wire: every invalid byte is replaced. *)
Definition coerce (s : gostring) : gostring := concat (EncodeRune <$> runes s).
Definition valid_utf8 (s : gostring) : Prop := coerce s = s.

(** ** Numbers *)

Fixpoint span_digits (s : list byte) : list byte * list byte :=
  match s with
  | b :: t => if is_digit b then let '(d, rest) := span_digits t in (b :: d, rest) else ([], s)
  | [] => ([], [])
  end.

(** One or more digits after an optional prefix byte that must be present for
    the group to be there. *)
Definition lex_frac (s : list byte) : option (list byte * list byte) :=
  match s with
  | b :: t => if bool_decide (b = Byte.x2e)
              then match span_digits t with ([], _) => None | (d, rest) => Some (b :: d, rest) end
              else Some ([], s)
  | [] => Some ([], [])
  end.

Definition lex_exp (s : list byte) : option (list byte * list byte) :=
  match s with
  | b :: t =>
      if bool_decide (b = Byte.x65) || bool_decide (b = Byte.x45) then
        let '(sign, t) := match t with
                          | c :: t' => if bool_decide (c = Byte.x2b) || bool_decide (c = Byte.x2d)
                                       then ([c], t') else ([], t)
                          | [] => ([], t)
                          end in
        match span_digits t with ([], _) => None | (d, rest) => Some (b :: sign ++ d, rest) end
      else Some ([], s)
  | [] => Some ([], [])
  end.

Definition lex_int (s : list byte) : option (list byte * list byte) :=
  match s with
  | b :: t => if bool_decide (b = Byte.x30) then Some ([b], t)
              else if is_digit b then let '(d, rest) := span_digits t in Some (b :: d, rest)
              else None
  | [] => None
  end.

Definition lex_number (s : list byte) : option (list byte * list byte) :=
  let '(sign, t) := match s with
                    | b :: t => if bool_decide (b = Byte.x2d) then ([b], t) else ([], s)
                    | [] => ([], s)
                    end in
  '(i, t) ← lex_int t; '(f, t) ← lex_frac t; '(e, t) ← lex_exp t;
  Some (sign ++ i ++ f ++ e, t).

(** ** Text *)

Definition comma : byte := Byte.x2c.
Definition colon_ : byte := Byte.x3a.
Definition lbrace : byte := Byte.x7b.
Definition rbrace : byte := Byte.x7d.
Definition lbrack : byte := Byte.x5b.
Definition rbrack : byte := Byte.x5d.

Definition sep_by (l : list (list byte)) : list byte :=
  match l with
  | [] => []
  | x :: l => x ++ concat ((fun y => comma :: y) <$> l)
  end.

(** The compact text of a value. *)
Fixpoint encode (j : json) : list byte :=
  match j with
  | JNull => $"null"
  | JBool true => $"true"
  | JBool false => $"false"
  | JNum l => l
  | JStr s => quote_string s
  | JArr l => lbrack :: sep_by (map encode l) ++ [rbrack]
  | JObj fs => lbrace :: sep_by (map (fun f => quote_string f.1 ++ colon_ :: encode f.2) fs) ++ [rbrace]
  end.

Definition is_ws (b : byte) : bool :=
  match b with Byte.x20 | Byte.x09 | Byte.x0d | Byte.x0a => true | _ => false end.

Fixpoint skip_ws (s : list byte) : list byte :=
  match s with b :: t => if is_ws b then skip_ws t else s | [] => [] end.

Definition strip (p s : list byte) : option (list byte) :=
  if HasPrefix s p then Some (drop (length p) s) else None.

Definition maxNestingDepth : Z := 10000.

(** The scanner and decoder on one value; [depth] counts the open brackets. *)
Fixpoint parse_value (fuel : nat) (depth : Z) (s : list byte) : option (json * list byte) :=
  match fuel with
  | O => None
  | S fuel =>
      match skip_ws s with
      | [] => None
      | b :: t =>
          if bool_decide (b = lbrace) then
            if maxNestingDepth <? depth + 1 then None
            else match skip_ws t with
                 | c :: t' => if bool_decide (c = rbrace) then Some (JObj [], t')
                              else '(fs, rest) ← parse_members fuel (depth + 1) t; Some (JObj fs, rest)
                 | [] => None
                 end
          else if bool_decide (b = lbrack) then
            if maxNestingDepth <? depth + 1 then None
            else match skip_ws t with
                 | c :: t' => if bool_decide (c = rbrack) then Some (JArr [], t')
                              else '(l, rest) ← parse_elements fuel (depth + 1) t; Some (JArr l, rest)
                 | [] => None
                 end
          else if bool_decide (b = quote) then '(u, rest) ← unquote (S (length t)) t; Some (JStr u, rest)
          else if bool_decide (b = Byte.x6e) then rest ← strip ($"null") (b :: t); Some (JNull, rest)
          else if bool_decide (b = Byte.x74) then rest ← strip ($"true") (b :: t); Some (JBool true, rest)
          else if bool_decide (b = Byte.x66) then rest ← strip ($"false") (b :: t); Some (JBool false, rest)
          else '(l, rest) ← lex_number (b :: t); Some (JNum l, rest)
      end
  end
with parse_members (fuel : nat) (depth : Z) (s : list byte) : option (list (gostring * json) * list byte) :=
  match fuel with
  | O => None
  | S fuel =>
      match skip_ws s with
      | b :: t =>
          if bool_decide (b = quote) then
            '(k, rest) ← unquote (S (length t)) t;
            match skip_ws rest with
            | c :: rest =>
                if bool_decide (c = colon_) then
                  '(v, rest) ← parse_value fuel depth rest;
                  match skip_ws rest with
                  | d :: rest =>
                      if bool_decide (d = comma)
                      then '(fs, rest) ← parse_members fuel depth rest; Some ((k, v) :: fs, rest)
                      else if bool_decide (d = rbrace) then Some ([(k, v)], rest)
                      else None
                  | [] => None
                  end
                else None
            | [] => None
            end
          else None
      | [] => None
      end
  end
with parse_elements (fuel : nat) (depth : Z) (s : list byte) : option (list json * list byte) :=
  match fuel with
  | O => None
  | S fuel =>
      '(v, rest) ← parse_value fuel depth s;
      match skip_ws rest with
      | d :: rest =>
          if bool_decide (d = comma)
          then '(l, rest) ← parse_elements fuel depth rest; Some (v :: l, rest)
          else if bool_decide (d = rbrack) then Some ([v], rest)
          else None
      | [] => None
      end
  end.

(** A whole text: one value between white space.  Every call consumes a byte
    between two calls, so twice the length is fuel enough. *)
Definition parse (s : list byte) : option json :=
  match parse_value (S (2 * length s)) 0 s with
  | Some (j, rest) => if bool_decide (skip_ws rest = []) then Some j else None
  | None => None
  end.

(** ** Integers *)

Fixpoint digits (fuel : nat) (n : Z) : list byte :=
  match fuel with
  | O => []
  | S fuel => if n <? 10 then [byte_of_Z (48 + n)] else digits fuel (n / 10) ++ [byte_of_Z (48 + n mod 10)]
  end.

(** [strconv.AppendInt(b, z, 10)]; twenty digits hold any 64-bit integer. *)
Definition print_int (z : Z) : list byte :=
  if z <? 0 then Byte.x2d :: digits 20 (- z) else digits 20 z.

Definition digits_val (ds : list byte) : Z := foldl (fun acc b => 10 * acc + (byte_to_Z b - 48)) 0 ds.

(** [strconv.ParseInt(s, 10, 64)] on the lexeme of a JSON number. *)
Definition parse_int64 (l : list byte) : option Z :=
  let '(neg, ds) := match l with
                    | b :: t => if bool_decide (b = Byte.x2d) then (true, t) else (false, l)
                    | [] => (false, l)
                    end in
  if forallb is_digit ds && negb (bool_decide (ds = [])) then
    let z := if (neg : bool) then - digits_val ds else digits_val ds in
    if (min_int64 <=? z) && (z <=? max_int64) then Some z else None
  else None.

(** ** Strings round trip *)

Lemma unquote_ascii b f t :
  byte_to_Z b < 128 ->
  unquote (S f) (quote_ascii b ++ t) = ('(u, rest) ← unquote f t; Some (b :: u, rest)).
Proof. intros H. destruct b; try reflexivity; exfalso; revert H; vm_compute; discriminate. Qed.

Lemma quote_ascii_length b : (1 <= length (quote_ascii b))%nat.
Proof. unfold quote_ascii. repeat case_match; simpl; lia. Qed.

Lemma runes_fuel_enough n m s : (length s <= n)%nat -> (length s <= m)%nat -> runes_fuel n s = runes_fuel m s.
Proof.
  revert m s. induction n as [|n IH]; intros m s Hn Hm.
  - destruct s; [|simpl in Hn; lia]. by destruct m.
  - destruct s as [|b s]; [by destruct m |]. destruct m as [|m]; [simpl in Hm; lia |].
    cbn [runes_fuel]. destruct (DecodeRune (b :: s)) as [r w] eqn:Hd. f_equal.
    assert (0 < w)%nat.
    { destruct (DecodeRune_cases _ _ _ _ Hd) as [(_ & -> & _)|(e & t & _ & _ & ? & _)]; lia. }
    simpl in Hn, Hm. apply IH; rewrite length_drop; simpl; lia.
Qed.

Lemma coerce_cons b s r w :
  DecodeRune (b :: s) = (r, w) -> (0 < w)%nat -> coerce (b :: s) = EncodeRune r ++ coerce (drop w (b :: s)).
Proof.
  intros Hd Hw. unfold coerce, runes. cbn [length runes_fuel]. rewrite Hd. cbn [fmap list_fmap concat].
  do 3 f_equal. apply runes_fuel_enough; rewrite length_drop; simpl; lia.
Qed.

Lemma coerce_ascii b s : byte_to_Z b < 128 -> coerce (b :: s) = b :: coerce s.
Proof.
  intros H. rewrite (coerce_cons _ _ _ _ (DecodeRune_ascii b s H)) by lia.
  by rewrite EncodeRune_ascii.
Qed.

Lemma unquote_line_separator f r t :
  r = 8232 \/ r = 8233 ->
  unquote (S f) ($"\u202" ++ [hex_digit (r mod 16)] ++ t)
  = ('(u, rest) ← unquote f t; Some (EncodeRune r ++ u, rest)).
Proof. by intros [-> | ->]. Qed.

Lemma unquote_multibyte f s r n t :
  decodes_as s r n -> (forall b s', s = b :: s' -> 128 <= byte_to_Z b) ->
  unquote (S f) (take n s ++ t) = ('(u, rest) ← unquote f t; Some (EncodeRune r ++ u, rest)).
Proof.
  intros (e & t0 & -> & Hl & Hn & He & Hd) Hb. rewrite take_app_length' by done.
  specialize (Hd t). destruct e as [|b e]; [simpl in Hl; lia |].
  specialize (Hb b (e ++ t0) eq_refl). cbn [app unquote] in *.
  rewrite bool_decide_eq_false_2 by (intros ->; by vm_compute in Hb).
  rewrite bool_decide_eq_false_2 by (intros ->; by vm_compute in Hb).
  rewrite (proj2 (Z.ltb_ge _ _)), (proj2 (Z.ltb_ge _ _)) by lia. rewrite Hd.
  change (b :: e ++ t) with ((b :: e) ++ t). by rewrite drop_app_length'.
Qed.

Lemma unquote_quote n : forall s f rest,
  (length s <= n)%nat -> (length (quote_body n s) < f)%nat ->
  unquote f (quote_body n s ++ quote :: rest) = Some (coerce s, rest).
Proof.
  induction n as [|n IH]; intros [|b s] f rest Hn Hf; try (simpl in Hn; lia);
    (destruct f as [|f]; [lia |]); try reflexivity.
  cbn [quote_body] in *. simpl in Hn. destruct (byte_to_Z b <? 128) eqn:Ha; prop_guards.
  - rewrite <- app_assoc, unquote_ascii by done. pose proof (quote_ascii_length b).
    rewrite length_app in Hf. rewrite IH by lia. cbn [mbind option_bind]. by rewrite coerce_ascii.
  - destruct (DecodeRune (b :: s)) as [r w] eqn:Hd.
    destruct ((r =? RuneError) && Nat.eqb w 1) eqn:Hbad.
    + apply andb_true_iff in Hbad as [->%Z.eqb_eq ->%Nat.eqb_eq].
      change ($"\ufffd" ++ quote_body n s) with (backslash :: $"ufffd" ++ quote_body n s) in *.
      rewrite length_cons, length_app in Hf. cbn [app unquote]. rewrite <- app_assoc.
      change (unescape ($"ufffd" ++ quote_body n s ++ quote :: rest))
        with (Some (EncodeRune RuneError, quote_body n s ++ quote :: rest)).
      cbn [mbind option_bind]. rewrite bool_decide_eq_false_2, bool_decide_eq_true_2 by done.
      cbn [mbind option_bind]. rewrite IH by lia. cbn [mbind option_bind].
      by rewrite (coerce_cons _ _ _ _ Hd) by lia.
    + destruct (DecodeRune_cases _ _ _ _ Hd) as [(-> & -> & _)|Hgood]; [done |].
      assert (Hw : (0 < w)%nat) by (destruct Hgood as (? & ? & _ & _ & ? & _); done).
      assert (Hlen : (length (drop w (b :: s)) <= n)%nat) by (rewrite length_drop; simpl; lia).
      rewrite (coerce_cons _ _ _ _ Hd Hw).
      destruct ((r =? 8232) || (r =? 8233)) eqn:Hsep.
      * rewrite <- !app_assoc, unquote_line_separator by lia. rewrite !length_app in Hf. simpl in Hf.
        by rewrite IH by lia.
      * assert (1 <= length (take w (b :: s)))%nat by (rewrite length_take; simpl; lia).
        rewrite <- app_assoc, (unquote_multibyte f (b :: s) r w); [|done | by intros ? ? [= <- <-]].
        rewrite length_app in Hf. by rewrite IH by lia.
Qed.

Lemma unquote_string s f rest :
  (length (quote_body (length s) s) < f)%nat ->
  unquote f (quote_body (length s) s ++ [quote] ++ rest) = Some (coerce s, rest).
Proof. intros Hf. by apply unquote_quote. Qed.

(** ** Integers round trip *)

Lemma digit_byte d : 0 <= d < 10 -> is_digit (byte_of_Z (48 + d)) = true /\ byte_to_Z (byte_of_Z (48 + d)) = 48 + d.
Proof.
  intros H. unfold is_digit, byte_in. rewrite byte_to_of_Z, Z.mod_small by lia. split; lia.
Qed.

Lemma digits_val_snoc ds b : digits_val (ds ++ [b]) = 10 * digits_val ds + (byte_to_Z b - 48).
Proof. unfold digits_val. by rewrite foldl_app. Qed.

Lemma digits_spec fuel n :
  0 <= n < 10 ^ Z.of_nat fuel -> (0 < fuel)%nat ->
  forallb is_digit (digits fuel n) = true /\ digits_val (digits fuel n) = n
  /\ exists b t, digits fuel n = b :: t /\ (b = Byte.x30 -> t = []).
Proof.
  revert n. induction fuel as [|fuel IH]; intros n Hn Hf; [lia |]. cbn [digits].
  destruct (n <? 10) eqn:H10; prop_guards.
  - destruct (digit_byte n) as [Hd Hv]; [lia |]. split_and!; [by cbn; rewrite Hd | cbn -[byte_of_Z]; lia | eauto].
  - rewrite Nat2Z.inj_succ, Z.pow_succ_r in Hn by lia.
    assert (Hq : 1 <= n / 10 < 10 ^ Z.of_nat fuel)
      by (split; [apply Z.div_le_lower_bound | apply Z.div_lt_upper_bound]; lia).
    assert (0 < fuel)%nat by (destruct fuel; [simpl in Hq |]; lia).
    destruct (IH (n / 10)) as (Ha & Hv & b & t & Hbt & Hz); [lia | done |].
    destruct (digit_byte (n mod 10)) as [Hd Hdv]; [apply Z.mod_pos_bound; lia |]. split_and!.
    + rewrite forallb_app, Ha. cbn -[byte_of_Z]. by rewrite Hd.
    + rewrite digits_val_snoc, Hv, Hdv. pose proof (Z.div_mod n 10). lia.
    + exists b, (t ++ [byte_of_Z (48 + n mod 10)]). split; [by rewrite Hbt |]. intros ->. exfalso.
      rewrite Hbt, Hz in Hv by done. cbn in Hv. lia.
Qed.

Lemma digit_not_minus b : is_digit b = true -> b <> Byte.x2d.
Proof. intros H ->. by vm_compute in H. Qed.

Lemma print_int_digits z :
  min_int64 <= z <= max_int64 ->
  exists ds b t, print_int z = (if z <? 0 then [Byte.x2d] else []) ++ ds
    /\ ds = b :: t /\ (b = Byte.x30 -> t = []) /\ forallb is_digit ds = true /\ digits_val ds = Z.abs z.
Proof.
  unfold min_int64, max_int64, print_int. intros Hz.
  destruct (digits_spec 20 (Z.abs z)) as (Ha & Hv & b & t & Hbt & H0); [lia | lia |].
  exists (digits 20 (Z.abs z)), b, t. split_and!; auto.
  destruct (z <? 0) eqn:E; prop_guards; [rewrite Z.abs_neq by lia | rewrite Z.abs_eq by lia]; done.
Qed.

Lemma parse_print_int z : min_int64 <= z <= max_int64 -> parse_int64 (print_int z) = Some z.
Proof.
  intros Hz. destruct (print_int_digits z Hz) as (ds & b & t & -> & Hds & _ & Ha & Hv).
  assert (Hb : is_digit b = true) by (rewrite Hds in Ha; by apply andb_true_iff in Ha as [? _]).
  assert (Hne : ds <> []) by (by subst ds).
  unfold parse_int64. destruct (z <? 0) eqn:E; prop_guards; cbn [app].
  - change (bool_decide (Byte.x2d = Byte.x2d)) with true. cbv beta iota zeta. rewrite Ha, (bool_decide_eq_false_2 _ Hne), Hv. cbn [negb andb].
    replace (- Z.abs z) with z by lia.
    by replace ((min_int64 <=? z) && (z <=? max_int64)) with true by lia.
  - subst ds. rewrite bool_decide_eq_false_2 by (by apply digit_not_minus).
    rewrite Ha, (bool_decide_eq_false_2 _ Hne), Hv. cbn [negb andb]. rewrite Z.abs_eq by lia.
    by replace ((min_int64 <=? z) && (z <=? max_int64)) with true by lia.
Qed.

(** The text after a number does not continue it. *)
Definition delim (rest : list byte) : bool :=
  match rest with
  | b :: _ => negb (is_digit b || bool_decide (b ∈ [Byte.x2e; Byte.x65; Byte.x45]))
  | [] => true
  end.

Lemma span_digits_app ds rest :
  forallb is_digit ds = true -> delim rest = true -> span_digits (ds ++ rest) = (ds, rest).
Proof.
  intros Ha Hd. induction ds as [|b ds IH]; cbn [app span_digits].
  - destruct rest as [|b rest]; [done |]. cbn [delim] in Hd. prop_guards. cbn [span_digits].
    by rewrite H.
  - cbn in Ha. prop_guards. by rewrite H, IH.
Qed.

(** The lexemes the encoders write. *)
Definition is_int_lexeme (l : list byte) : Prop := exists z, min_int64 <= z <= max_int64 /\ l = print_int z.

Lemma lex_print_int l rest :
  is_int_lexeme l -> delim rest = true ->
  lex_number (l ++ rest) = Some (l, rest)
  /\ exists b t, l = b :: t /\ (b = Byte.x2d \/ is_digit b = true).
Proof.
  intros (z & Hz & ->) Hd. destruct (print_int_digits z Hz) as (ds & b & t & -> & Hds & H0 & Ha & _).
  assert (Hb : is_digit b = true /\ forallb is_digit t = true) by (rewrite Hds in Ha; by apply andb_true_iff in Ha).
  destruct Hb as [Hb Ht].
  assert (Hi : lex_int (ds ++ rest) = Some (ds, rest)).
  { subst ds. cbn [app lex_int]. case_bool_decide as Hz0; [by rewrite (H0 Hz0) |].
    by rewrite Hb, span_digits_app. }
  assert (Hf : lex_frac rest = Some ([], rest) /\ lex_exp rest = Some ([], rest)).
  { destruct rest as [|c rest]; [done |]. cbn [delim lex_frac lex_exp] in *. prop_guards.
    rewrite !bool_decide_eq_false_2 by (intros ->; set_solver). done. }
  destruct Hf as [Hf He].
  assert (Hl : forall sign, ('(i, t) ← lex_int (ds ++ rest); '(f, t) ← lex_frac t; '(e, t) ← lex_exp t;
                             Some (sign ++ i ++ f ++ e, t)) = Some (sign ++ ds, rest)).
  { intros sign. rewrite Hi. cbn [mbind option_bind]. rewrite Hf. cbn [mbind option_bind].
    rewrite He. cbn [mbind option_bind]. by rewrite !app_nil_r. }
  split.
  - unfold lex_number. destruct (z <? 0) eqn:E; cbn [app].
    + change (bool_decide (Byte.x2d = Byte.x2d)) with true. apply (Hl [Byte.x2d]).
    + subst ds. cbn [app]. rewrite bool_decide_eq_false_2 by (by apply digit_not_minus). apply (Hl []).
  - destruct (z <? 0); cbn; [eauto | subst ds; eauto].
Qed.

(** ** Values round trip *)

Section json_rect.
Variable P : json -> Prop.
Hypothesis Hnull : P JNull.
Hypothesis Hbool : forall b, P (JBool b).
Hypothesis Hnum : forall l, P (JNum l).
Hypothesis Hstr : forall s, P (JStr s).
Hypothesis Harr : forall l, Forall P l -> P (JArr l).
Hypothesis Hobj : forall fs, Forall (fun f => P f.2) fs -> P (JObj fs).

Fixpoint json_nested_ind (j : json) : P j :=
  match j with
  | JNull => Hnull
  | JBool b => Hbool b
  | JNum l => Hnum l
  | JStr s => Hstr s
  | JArr l => Harr l ((fix go l := match l return Forall P l with
                                   | [] => Forall_nil_2 _
                                   | x :: l => Forall_cons_2 _ _ _ (json_nested_ind x) (go l)
                                   end) l)
  | JObj fs => Hobj fs ((fix go l := match l return Forall (fun f => P f.2) l with
                                     | [] => Forall_nil_2 _
                                     | x :: l => Forall_cons_2 _ _ _ (json_nested_ind x.2) (go l)
                                     end) fs)
  end.
End json_rect.

(** What a value becomes on the wire. *)
Fixpoint coerce_json (j : json) : json :=
  match j with
  | JStr s => JStr (coerce s)
  | JArr l => JArr (map coerce_json l)
  | JObj fs => JObj (map (fun f => (coerce f.1, coerce_json f.2)) fs)
  | _ => j
  end.

Definition max_list (l : list Z) : Z := foldr Z.max 0 l.

Fixpoint depth_of (j : json) : Z :=
  match j with
  | JArr l => 1 + max_list (map depth_of l)
  | JObj fs => 1 + max_list (map (fun f => depth_of f.2) fs)
  | _ => 0
  end.

(** Numbers are those the encoders write. *)
Fixpoint printable (j : json) : Prop :=
  match j with
  | JNum l => is_int_lexeme l
  | JArr l => foldr and True (map printable l)
  | JObj fs => foldr and True (map (fun f => printable f.2) fs)
  | _ => True
  end.

Lemma max_list_cons x l : max_list (x :: l) = Z.max x (max_list l).
Proof. done. Qed.

Lemma sep_by_cons x y l : sep_by (x :: y :: l) = x ++ comma :: sep_by (y :: l).
Proof. done. Qed.

Lemma skip_ws_nows b t : is_ws b = false -> skip_ws (b :: t) = b :: t.
Proof. intros H. cbn. by rewrite H. Qed.

(** The round trip of one value, in any context that ends it. *)
Definition value_ok (j : json) : Prop :=
  printable j -> forall fuel depth rest,
  (2 * length (encode j) <= fuel)%nat -> depth + depth_of j <= maxNestingDepth -> delim rest = true ->
  parse_value fuel depth (encode j ++ rest) = Some (coerce_json j, rest).

Lemma encode_length j : printable j -> (1 <= length (encode j))%nat.
Proof.
  destruct j as [|[]|l|s|l|fs]; cbn [encode length]; try lia.
  - simpl. lia.
  - simpl. lia.
  - simpl. lia.
  - intros (b & t & -> & _)%(fun H => proj2 (lex_print_int l [] H eq_refl)). simpl. lia.
  - cbn. lia.
Qed.

Lemma parse_elements_ok l : forall v fuel depth rest,
  Forall value_ok (v :: l) -> foldr and True (map printable (v :: l)) ->
  (2 * length (sep_by (map encode (v :: l))) < fuel)%nat ->
  depth + max_list (map depth_of (v :: l)) <= maxNestingDepth ->
  parse_elements fuel depth (sep_by (map encode (v :: l)) ++ rbrack :: rest)
  = Some (map coerce_json (v :: l), rest).
Proof.
  induction l as [|v' l IH]; intros v fuel depth rest [Hv Hl]%list.Forall_cons [Hp Hps] Hf Hd;
    (destruct fuel as [|fuel]; [lia |]); pose proof (encode_length v Hp); cbn [parse_elements].
  - cbn [map sep_by fmap list_fmap concat] in *. rewrite app_nil_r in *. rewrite max_list_cons in Hd.
    rewrite Hv by (done || lia). reflexivity.
  - cbn [map] in *. rewrite sep_by_cons, length_app, length_cons in Hf. rewrite sep_by_cons, <- app_assoc.
    cbn [app]. rewrite max_list_cons in Hd. rewrite Hv by (done || lia).
    cbn [mbind option_bind skip_ws is_ws comma]. rewrite (IH v') by (done || lia). reflexivity.
Qed.

Definition encode_field (f : gostring * json) : list byte := quote_string f.1 ++ colon_ :: encode f.2.
Definition coerce_field (f : gostring * json) : gostring * json := (coerce f.1, coerce_json f.2).

Lemma parse_members_ok fs : forall f fuel depth rest,
  Forall (fun f => value_ok f.2) (f :: fs) -> foldr and True (map (fun f => printable f.2) (f :: fs)) ->
  (2 * length (sep_by (map encode_field (f :: fs))) < fuel)%nat ->
  depth + max_list (map (fun f => depth_of f.2) (f :: fs)) <= maxNestingDepth ->
  parse_members fuel depth (sep_by (map encode_field (f :: fs)) ++ rbrace :: rest)
  = Some (map coerce_field (f :: fs), rest).
Proof.
  assert (Hkey : forall f fuel depth rest, value_ok f.2 -> printable f.2 ->
    (2 * length (encode_field f) <= fuel)%nat -> depth + depth_of f.2 <= maxNestingDepth -> delim rest = true ->
    exists t, skip_ws (encode_field f ++ rest) = quote :: t
      /\ unquote (S (length t)) t = Some (coerce f.1, colon_ :: encode f.2 ++ rest)
      /\ parse_value fuel depth (encode f.2 ++ rest) = Some (coerce_json f.2, rest)).
  { intros f fuel depth rest Hv Hp Hf Hd Hr. unfold encode_field in *.
    rewrite length_app, length_cons in Hf. cbn [quote_string app skip_ws is_ws quote].
    eexists. split; [reflexivity |]. rewrite <- !app_assoc. split; [|apply Hv; done || lia].
    apply unquote_string. rewrite !length_app. lia. }
  induction fs as [|f' fs IH]; intros f fuel depth rest [Hv Hl]%list.Forall_cons [Hp Hps] Hf Hd;
    (destruct fuel as [|fuel]; [lia |]); cbn [parse_members].
  - cbn [map sep_by fmap list_fmap concat] in *. rewrite app_nil_r in *. rewrite max_list_cons in Hd.
    destruct (Hkey f fuel depth (rbrace :: rest)) as (t & -> & Hu & Hval); [done.. | lia | lia | done |].
    change (bool_decide (quote = quote)) with true. cbv iota. rewrite Hu. cbn [mbind option_bind].
    cbn [skip_ws is_ws colon_]. change (bool_decide (Byte.x3a = Byte.x3a)) with true. cbv iota.
    rewrite Hval. reflexivity.
  - cbn [map] in *. rewrite sep_by_cons, length_app, length_cons in Hf. rewrite sep_by_cons, <- app_assoc.
    rewrite max_list_cons in Hd. cbn [app].
    destruct (Hkey f fuel depth (comma :: sep_by (encode_field f' :: map encode_field fs) ++ rbrace :: rest))
      as (t & -> & Hu & Hval); [done.. | lia | lia | done |].
    change (bool_decide (quote = quote)) with true. cbv iota. rewrite Hu. cbn [mbind option_bind].
    cbn [skip_ws is_ws colon_]. change (bool_decide (Byte.x3a = Byte.x3a)) with true. cbv iota.
    rewrite Hval. cbn [mbind option_bind skip_ws is_ws comma].
    rewrite (IH f') by (done || lia). reflexivity.
Qed.

Lemma first_byte_other b :
  b = Byte.x2d \/ is_digit b = true ->
  is_ws b = false /\ b ∉ [lbrace; lbrack; quote; Byte.x6e; Byte.x74; Byte.x66].
Proof. intros [->|H]; [split; [done | set_solver] |]. destruct b; try discriminate H; split; (done || set_solver). Qed.

Lemma encode_head j :
  printable j -> exists b t, encode j = b :: t /\ is_ws b = false /\ b <> rbrack.
Proof.
  intros Hp. destruct j as [|[]|l|s|l|fs]; try (eexists _, _; split; [reflexivity | split; done]).
  destruct (lex_print_int l [] Hp eq_refl) as (_ & b & t & -> & Hb). exists b, t.
  destruct (first_byte_other b Hb) as [Hw _]. split_and!; auto.
  intros ->. by destruct Hb.
Qed.

Lemma max_list_nonneg l : 0 <= max_list l.
Proof. induction l as [|x l IH]; [done |]. rewrite max_list_cons. lia. Qed.

Lemma parse_array_ok l fuel depth rest :
  Forall value_ok l -> printable (JArr l) -> (2 * length (encode (JArr l)) <= S fuel)%nat ->
  depth + depth_of (JArr l) <= maxNestingDepth ->
  parse_value (S fuel) depth (encode (JArr l) ++ rest) = Some (coerce_json (JArr l), rest).
Proof.
  intros Hl Hp Hf Hd. cbn [depth_of] in Hd. pose proof (max_list_nonneg (map depth_of l)).
  cbn [encode app parse_value]. rewrite skip_ws_nows by done.
  change (bool_decide (lbrack = lbrace)) with false. change (bool_decide (lbrack = lbrack)) with true.
  replace (maxNestingDepth <? depth + 1) with false by lia. cbv iota. rewrite <- app_assoc.
  destruct l as [|v l]; [reflexivity |].
  destruct (encode_head v) as (b & t & Hv & Hws & Hnb); [apply Hp |].
  assert (Hs : exists t', sep_by (map encode (v :: l)) ++ rbrack :: rest = b :: t')
    by (cbn [map sep_by]; rewrite Hv; eexists; reflexivity).
  destruct Hs as [t' Ht']. cbn [app]. rewrite Ht' at 1. rewrite skip_ws_nows by done.
  rewrite bool_decide_eq_false_2 by done. cbn [encode] in Hf. rewrite length_cons, length_app in Hf.
  rewrite parse_elements_ok; [reflexivity | done | done | simpl in Hf |- *; lia | lia].
Qed.

Lemma parse_object_ok fs fuel depth rest :
  Forall (fun f => value_ok f.2) fs -> printable (JObj fs) -> (2 * length (encode (JObj fs)) <= S fuel)%nat ->
  depth + depth_of (JObj fs) <= maxNestingDepth ->
  parse_value (S fuel) depth (encode (JObj fs) ++ rest) = Some (coerce_json (JObj fs), rest).
Proof.
  intros Hl Hp Hf Hd. cbn [depth_of] in Hd. pose proof (max_list_nonneg (map (fun f => depth_of f.2) fs)).
  cbn [encode app parse_value]. rewrite skip_ws_nows by done.
  change (bool_decide (lbrace = lbrace)) with true.
  replace (maxNestingDepth <? depth + 1) with false by lia. cbv iota. rewrite <- app_assoc.
  destruct fs as [|f fs]; [reflexivity |]. fold encode_field in *.
  assert (Hs : exists t', sep_by (map encode_field (f :: fs)) ++ rbrace :: rest = quote :: t')
    by (eexists; reflexivity).
  destruct Hs as [t' Ht']. cbn [app]. rewrite Ht' at 1. rewrite skip_ws_nows by done.
  change (bool_decide (quote = rbrace)) with false. cbv iota.
  cbn [encode] in Hf. fold encode_field in Hf. rewrite length_cons, length_app in Hf.
  rewrite parse_members_ok; [reflexivity | done | done | simpl in Hf |- *; lia | lia].
Qed.

Lemma value_ok_all j : value_ok j.
Proof.
  induction j as [|b|l|s|l IH|fs IH] using json_nested_ind; intros Hp fuel depth rest Hf Hd Hr;
    (destruct fuel as [|fuel]; [pose proof (encode_length _ Hp); lia |]).
  - reflexivity.
  - destruct b; reflexivity.
  - destruct (lex_print_int l rest Hp Hr) as (Hl & b & t & -> & Hb). apply first_byte_other in Hb as [Hws Hb].
    cbn [encode app] in *. cbn [parse_value]. rewrite skip_ws_nows by done.
    rewrite !bool_decide_eq_false_2 by (intros ->; apply Hb; repeat constructor). by rewrite Hl.
  - cbn [encode quote_string app parse_value]. rewrite skip_ws_nows by done. rewrite <- app_assoc.
    change (bool_decide (quote = lbrace)) with false. change (bool_decide (quote = lbrack)) with false.
    change (bool_decide (quote = quote)) with true. cbv iota.
    rewrite unquote_string; [done |]. rewrite !length_app. lia.
  - by apply parse_array_ok.
  - by apply parse_object_ok.
Qed.

(** What [json.Marshal] writes, [json.Unmarshal] reads back. *)
Lemma parse_encode j :
  printable j -> depth_of j <= maxNestingDepth -> parse (encode j) = Some (coerce_json j).
Proof.
  intros Hp Hd. unfold parse. pose proof (value_ok_all j Hp (S (2 * length (encode j))) 0 []) as H.
  rewrite app_nil_r in H. rewrite H by (done || lia). by rewrite bool_decide_eq_true_2.
Qed.

(** ** The fuel is enough for every text *)

Lemma skip_ws_length s : (length (skip_ws s) <= length s)%nat.
Proof. induction s as [|b s IH]; cbn; [lia |]. case_match; cbn; lia. Qed.

Lemma hex4_length s r t : hex4 s = Some (r, t) -> (length t < length s)%nat.
Proof.
  destruct s as [|a [|b [|c [|d s]]]]; try done. cbn [hex4].
  destruct (hex_val a), (hex_val b), (hex_val c), (hex_val d); try done. cbn. intros [= _ <-]. lia.
Qed.

Lemma unescape_length s c t : unescape s = Some (c, t) -> (length t < length s)%nat.
Proof.
  destruct s as [|e s]; [done |]. cbn [unescape length]. destruct (list_find _ _) as [[? [? ?]]|].
  { intros [= _ <-]. lia. }
  case_bool_decide; [|done]. destruct (hex4 s) as [[r t1]|] eqn:Hh; cbn; [|done]. apply hex4_length in Hh.
  case_match; [|intros [= _ <-]; lia]. destruct (low_surrogate r t1) as [[r2 t2]|] eqn:Hl.
  - intros [= _ <-]. unfold low_surrogate in Hl. destruct t1 as [|b [|u t1]]; try done.
    case_match; [|done]. destruct (hex4 t1) as [[r3 t3]|] eqn:Hh2; [|done]. cbn in Hl.
    destruct (surrogate_pair r r3); [|done]. injection Hl as _ <-. apply hex4_length in Hh2. cbn in *. lia.
  - intros [= _ <-]. lia.
Qed.

Lemma unquote_length f : forall s u t, unquote f s = Some (u, t) -> (length t < length s)%nat.
Proof.
  induction f as [|f IH]; intros [|b s] u t; try done. cbn [unquote].
  case_bool_decide; [intros [= _ <-]; cbn; lia |]. case_bool_decide.
  { destruct (unescape s) as [[c t1]|] eqn:He; [|done]. cbn [mbind option_bind].
    destruct (unquote f t1) as [[u1 t2]|] eqn:Hu; [|done]. intros [= _ <-].
    apply unescape_length in He. apply IH in Hu. cbn. lia. }
  case_match; [done |]. case_match.
  { destruct (unquote f s) as [[u1 t2]|] eqn:Hu; [|done]. intros [= _ <-]. apply IH in Hu. cbn. lia. }
  destruct (DecodeRune (b :: s)) as [r n]. destruct (unquote f (drop n (b :: s))) as [[u1 t2]|] eqn:Hu; [|done].
  intros [= _ <-]. apply IH in Hu. rewrite length_drop in Hu. lia.
Qed.

Lemma span_digits_length s d t : span_digits s = (d, t) -> (length t <= length s)%nat.
Proof.
  revert d t. induction s as [|b s IH]; intros d t; cbn; [intros [= _ <-]; done |].
  case_match; [|intros [= _ <-]; done]. destruct (span_digits s) as [d' t'] eqn:E. intros [= _ <-].
  specialize (IH _ _ eq_refl). lia.
Qed.

Lemma lex_number_length s l t : lex_number s = Some (l, t) -> (length t < length s)%nat.
Proof.
  unfold lex_number.
  assert (Hi : forall s i t, lex_int s = Some (i, t) -> (length t < length s)%nat).
  { intros [|b s'] i t'; cbn; [done |]. case_bool_decide; [intros [= _ <-]; lia |]. case_match; [|done].
    destruct (span_digits s') eqn:E. intros [= _ <-]. apply span_digits_length in E. lia. }
  assert (Hf : forall s i t, lex_frac s = Some (i, t) -> (length t <= length s)%nat).
  { intros [|b s'] i t'; cbn; [intros [= _ <-]; done |]. case_bool_decide; [|intros [= _ <-]; done].
    destruct (span_digits s') as [[|] ?] eqn:E; [done |]. intros [= _ <-]. apply span_digits_length in E. lia. }
  assert (He : forall s i t, lex_exp s = Some (i, t) -> (length t <= length s)%nat).
  { intros [|b s'] i t'; cbn; [intros [= _ <-]; done |]. case_match; [|intros [= _ <-]; done].
    assert (Hs : forall q, (length q <= length s')%nat -> forall sg,
      match span_digits q with ([], _) => None | (d, rest) => Some (b :: sg ++ d, rest) end = Some (i, t') ->
      (length t' <= S (length s'))%nat).
    { intros q Hq sg. destruct (span_digits q) as [[|] ?] eqn:E; [done |]. intros [= _ <-].
      apply span_digits_length in E. lia. }
    destruct s' as [|c s']; [by apply Hs |].
    destruct (bool_decide (c = Byte.x2b) || bool_decide (c = Byte.x2d)); apply Hs; cbn; lia. }
  assert (Hl : forall q sg, (length q <= length s)%nat ->
    ('(i, t) ← lex_int q; '(f, t) ← lex_frac t; '(e, t) ← lex_exp t; Some (sg ++ i ++ f ++ e, t)) = Some (l, t) ->
    (length t < length s)%nat).
  { intros q sg Hq. destruct (lex_int q) as [[i t1]|] eqn:E1; [|done]. cbn [mbind option_bind].
    destruct (lex_frac t1) as [[f t2]|] eqn:E2; [|done]. cbn [mbind option_bind].
    destruct (lex_exp t2) as [[e t3]|] eqn:E3; [|done]. cbn [mbind option_bind]. intros [= _ <-].
    apply Hi in E1. apply Hf in E2. apply He in E3. lia. }
  destruct s as [|b s]; [by apply Hl |]. case_bool_decide; apply Hl; cbn; lia.
Qed.

Lemma strip_length p s t : strip p s = Some t -> (0 < length p)%nat -> (0 < length s)%nat -> (length t < length s)%nat.
Proof. unfold strip. case_match; [|done]. intros [= <-]. rewrite length_drop. lia. Qed.

(** Unfolds one bind of the option monad in a hypothesis. *)
Ltac inv_bind H x t E :=
  match type of H with
  | mbind _ ?m = Some _ => destruct m as [[x t]|] eqn:E; [cbn [mbind option_bind] in H | discriminate H]
  end.

Definition shrinks {A} (p : Z -> list byte -> option (A * list byte)) : Prop :=
  forall d s a t, p d s = Some (a, t) -> (length t < length s)%nat.

Lemma shrinks_strip {A} (a : A) p s b t :
  (rest ← strip p s; Some (a, rest)) = Some (b, t) -> (0 < length p)%nat -> (0 < length s)%nat ->
  (length t < length s)%nat.
Proof. destruct (strip p s) eqn:E; [|done]. cbn. intros [= _ <-]. by apply strip_length. Qed.

Lemma parse_value_shrinks f : shrinks (parse_members f) -> shrinks (parse_elements f) -> shrinks (parse_value (S f)).
Proof.
  intros Hm He d s a t. cbn [parse_value]. pose proof (skip_ws_length s) as Hs.
  destruct (skip_ws s) as [|b s']; [done |]. rewrite length_cons in Hs.
  case_bool_decide; [|case_bool_decide; [|case_bool_decide; [|case_bool_decide; [|case_bool_decide; [|case_bool_decide]]]]].
  - case_match; [done |]. pose proof (skip_ws_length s') as Hs'. destruct (skip_ws s') as [|c s2] eqn:E2; [done |].
    rewrite length_cons in Hs'. case_bool_decide; [intros [= _ <-]; lia |]. intros Hx.
    inv_bind Hx fs t2 E3. injection Hx as _ <-. apply Hm in E3. lia.
  - case_match; [done |]. pose proof (skip_ws_length s') as Hs'. destruct (skip_ws s') as [|c s2] eqn:E2; [done |].
    rewrite length_cons in Hs'. case_bool_decide; [intros [= _ <-]; lia |]. intros Hx.
    inv_bind Hx fs t2 E3. injection Hx as _ <-. apply He in E3. lia.
  - intros Hx. inv_bind Hx u t2 E3. injection Hx as _ <-. apply unquote_length in E3. lia.
  - intros Hx. apply shrinks_strip in Hx; cbn in *; lia.
  - intros Hx. apply shrinks_strip in Hx; cbn in *; lia.
  - intros Hx. apply shrinks_strip in Hx; cbn in *; lia.
  - intros Hx. inv_bind Hx l t2 E3. injection Hx as _ <-. apply lex_number_length in E3. rewrite length_cons in E3. lia.
Qed.

Lemma parse_elements_shrinks f : shrinks (parse_value f) -> shrinks (parse_elements f) -> shrinks (parse_elements (S f)).
Proof.
  intros Hv He d s a t. cbn [parse_elements]. intros Hx. inv_bind Hx v t1 E1. apply Hv in E1.
  pose proof (skip_ws_length t1) as Hs. destruct (skip_ws t1) as [|c t2]; [done |]. rewrite length_cons in Hs.
  revert Hx. case_bool_decide; [|case_bool_decide; [intros [= _ <-]; lia | done]].
  intros Hx. inv_bind Hx l t3 E3. injection Hx as _ <-. apply He in E3. lia.
Qed.

Lemma parse_members_shrinks f : shrinks (parse_value f) -> shrinks (parse_members f) -> shrinks (parse_members (S f)).
Proof.
  intros Hv Hm d s a t. cbn [parse_members]. pose proof (skip_ws_length s) as Hs.
  destruct (skip_ws s) as [|b s']; [done |]. rewrite length_cons in Hs. case_bool_decide; [|done].
  intros H1. inv_bind H1 k t1 E1. apply unquote_length in E1. revert H1.
  pose proof (skip_ws_length t1) as Hs1. destruct (skip_ws t1) as [|c t2]; [done |]. rewrite length_cons in Hs1.
  case_bool_decide; [|done]. intros H2. inv_bind H2 v t3 E3. apply Hv in E3. revert H2.
  pose proof (skip_ws_length t3) as Hs3. destruct (skip_ws t3) as [|e t4]; [done |]. rewrite length_cons in Hs3.
  case_bool_decide; [|case_bool_decide; [intros [= _ <-]; lia | done]].
  intros H4. inv_bind H4 l t5 E5. injection H4 as _ <-. apply Hm in E5. lia.
Qed.

Lemma parse_shrinks f : shrinks (parse_value f) /\ shrinks (parse_members f) /\ shrinks (parse_elements f).
Proof.
  induction f as [|f (Hv & Hm & He)]; [by split_and!; intros d s a t |].
  split_and!; auto using parse_value_shrinks, parse_members_shrinks, parse_elements_shrinks.
Qed.

(** Two amounts of fuel above [k] bytes per byte of text give the same result. *)
Definition agree {A} (k f f' : nat) (p : nat -> Z -> list byte -> option (A * list byte)) : Prop :=
  forall d s, (2 * length s + k <= f)%nat -> (2 * length s + k <= f')%nat -> p f d s = p f' d s.

Lemma parse_fuel f : forall f',
  agree 1 f f' parse_value /\ agree 2 f f' parse_members /\ agree 2 f f' parse_elements.
Proof.
  induction f as [|f IH]; intros f'; [by split_and!; intros d s; lia |].
  destruct f' as [|f']; [by split_and!; intros d s; lia |].
  destruct (IH f') as (Hv & Hm & He). split_and!; intros d s Hf Hf'.
  - cbn [parse_value]. pose proof (skip_ws_length s) as Hs. destruct (skip_ws s) as [|b t]; [done |].
    rewrite length_cons in Hs. rewrite Hm, He by lia. done.
  - cbn [parse_members]. pose proof (skip_ws_length s) as Hs. destruct (skip_ws s) as [|b t]; [done |].
    rewrite length_cons in Hs. destruct (bool_decide (b = quote)); [|done].
    destruct (unquote (S (length t)) t) as [[k t1]|] eqn:Hu; [|done]. apply unquote_length in Hu.
    cbn [mbind option_bind]. pose proof (skip_ws_length t1) as Hs1. destruct (skip_ws t1) as [|c t2]; [done |].
    rewrite length_cons in Hs1. rewrite Hv by lia. destruct (bool_decide (c = colon_)); [|done].
    destruct (parse_value f' d t2) as [[v t3]|] eqn:Hp; [|done]. apply (proj1 (parse_shrinks f')) in Hp.
    cbn [mbind option_bind]. pose proof (skip_ws_length t3) as Hs3. destruct (skip_ws t3) as [|e t4]; [done |].
    rewrite length_cons in Hs3. by rewrite Hm by lia.
  - cbn [parse_elements]. rewrite Hv by lia. destruct (parse_value f' d s) as [[v t]|] eqn:Hp; [|done].
    apply (proj1 (parse_shrinks f')) in Hp. cbn [mbind option_bind].
    pose proof (skip_ws_length t) as Hs. destruct (skip_ws t) as [|c t2]; [done |]. rewrite length_cons in Hs.
    by rewrite He by lia.
Qed.

(** More fuel than [parse] takes never changes its result. *)
Lemma parse_fuel_enough s f d :
  (2 * length s < f)%nat -> parse_value f d s = parse_value (S (2 * length s)) d s.
Proof. intros Hf. apply (proj1 (parse_fuel f (S (2 * length s)))); lia. Qed.

Example parse_demo :
  parse (encode (JObj [($"a<", JArr [JNum ($"-1"); JNull]); ($"b", JStr [Byte.xff; Byte.x0a])]))
  = Some (JObj [($"a<", JArr [JNum ($"-1"); JNull]); ($"b", JStr [Byte.xef; Byte.xbf; Byte.xbd; Byte.x0a])]).
Proof. vm_compute. reflexivity. Qed.
