(* ===== verification/Messages.v ===== *)
(** * The control messages

    The structs of backend/internal/protocol/messages.go and of the agent's
    gatewayclient/protocol.go and client.go, the JSON [json.Marshal] writes for
    them and the way [json.Unmarshal] fills them.  The last part proves that what
    one side writes the other side reads. *)

From stdpp Require Import sorting.
From S2P Require Import Prelude GoStrings Headers Json.

(** ** Storing a JSON value into Go data *)

(** Simple case folding, exact on the runes that fold to ASCII. *)
Definition foldRune (r : Z) : Z :=
  if (97 <=? r) && (r <=? 122) then r - 32
  else if r =? 8490 then 75 else if r =? 383 then 83 else r.
Definition foldName (s : gostring) : list Z := foldRune <$> runes s.

(** The struct field a key selects: by exact name, else by folded name. *)
Definition match_field (names : list gostring) (key : gostring) : option gostring :=
  if bool_decide (key ∈ names) then Some key
  else snd <$> list_find (fun n => foldName n = foldName key) names.

Section store.
Context {X : Type} (names : list gostring) (store : gostring -> json -> X -> option X).

Fixpoint store_fields (fs : list (gostring * json)) (x : X) : option X :=
  match fs with
  | [] => Some x
  | (k, v) :: fs =>
      match match_field names k with
      | Some n => x ← store n v x; store_fields fs x
      | None => store_fields fs x
      end
  end.

(** A struct: [null] leaves it alone, an object updates it field by field. *)
Definition store_struct (j : json) (x : X) : option X :=
  match j with
  | JNull => Some x
  | JObj fs => store_fields fs x
  | _ => None
  end.
End store.

Definition store_string (j : json) (cur : gostring) : option gostring :=
  match j with JStr s => Some s | JNull => Some cur | _ => None end.

Definition store_int (j : json) (cur : Z) : option Z :=
  match j with JNum l => parse_int64 l | JNull => Some cur | _ => None end.

Definition store_strings (j : json) : option (list gostring) :=
  match j with
  | JArr l => mapM (fun j => store_string j []) l
  | JNull => Some []
  | _ => None
  end.

Fixpoint store_entries (fs : list (gostring * json)) (h : Header) : option Header :=
  match fs with
  | [] => Some h
  | (k, v) :: fs => vs ← store_strings v; store_entries fs (<[k := vs]> h)
  end.

(** A [map[string][]string]; [None] is the nil map. *)
Definition store_headers (j : json) (cur : option Header) : option (option Header) :=
  match j with
  | JNull => Some None
  | JObj fs => h ← store_entries fs (default ∅ cur); Some (Some h)
  | _ => None
  end.

(** ** Writing headers: keys in increasing order *)

Fixpoint bytes_leb (s t : gostring) : bool :=
  match s, t with
  | [], _ => true
  | _ :: _, [] => false
  | a :: s, b :: t =>
      if byte_to_Z a <? byte_to_Z b then true
      else if byte_to_Z b <? byte_to_Z a then false else bytes_leb s t
  end.

Definition entry_le (e f : gostring * list gostring) : Prop := bytes_leb e.1 f.1 = true.
#[global] Instance entry_le_dec : RelDecision entry_le := fun e f => decide (_ = _).

Definition enc_headers (h : option Header) : json :=
  match h with
  | None => JNull
  | Some h => JObj ((fun e => (e.1, JArr (JStr <$> e.2))) <$> merge_sort entry_le (map_to_list h))
  end.

(** ** The gateway's messages *)

Definition Version : Z := 1.
Definition ClientHello : gostring := $"client_hello".
Definition ServerHello : gostring := $"server_hello".
Definition Ping : gostring := $"ping".
Definition Pong : gostring := $"pong".
Definition OpenTunnel : gostring := $"open_tunnel".
Definition TunnelOpened : gostring := $"tunnel_opened".
Definition CloseTunnel : gostring := $"close_tunnel".
Definition HTTPRequestStart : gostring := $"http_request_start".
Definition HTTPRequestEnd : gostring := $"http_request_end".
Definition HTTPResponseStart : gostring := $"http_response_start".
Definition HTTPResponseEnd : gostring := $"http_response_end".
Definition CancelRequest : gostring := $"cancel_request".

(** [json.Marshal(Envelope{Type, Payload})]; a nil payload is omitted. *)
Definition Envelope (type : gostring) (payload : option json) : list byte :=
  encode (JObj (($"type", JStr type) :: match payload with Some p => [($"payload", p)] | None => [] end)).

Record HTTPRequestPayload := mkHTTPRequest {
  hq_RequestID : gostring; hq_Method : gostring; hq_Path : gostring;
  hq_Headers : option Header; hq_ContentLength : Z
}.

Definition enc_HTTPRequestPayload (p : HTTPRequestPayload) : json :=
  JObj [($"requestId", JStr (hq_RequestID p)); ($"method", JStr (hq_Method p)); ($"path", JStr (hq_Path p));
        ($"headers", enc_headers (hq_Headers p)); ($"contentLength", JNum (print_int (hq_ContentLength p)))].

(** The payloads that hold a request ID only. *)
Definition enc_requestID (requestID : gostring) : json := JObj [($"requestId", JStr requestID)].
Definition HTTPRequestEndPayload : gostring -> json := enc_requestID.
Definition CancelRequestPayload : gostring -> json := enc_requestID.

Record ServerHelloPayload := mkServerHello {
  sh_ProtocolVersion : Z; sh_SessionID : gostring; sh_HeartbeatIntervalSeconds : Z
}.
Definition enc_ServerHelloPayload (p : ServerHelloPayload) : json :=
  JObj [($"protocolVersion", JNum (print_int (sh_ProtocolVersion p))); ($"sessionId", JStr (sh_SessionID p));
        ($"heartbeatIntervalSeconds", JNum (print_int (sh_HeartbeatIntervalSeconds p)))].

Record TunnelOpenedPayload := mkTunnelOpened {
  to_RequestID : gostring; to_TunnelID : gostring; to_Subdomain : gostring; to_PublicURL : gostring
}.
Definition enc_TunnelOpenedPayload (p : TunnelOpenedPayload) : json :=
  JObj [($"requestId", JStr (to_RequestID p)); ($"tunnelId", JStr (to_TunnelID p));
        ($"subdomain", JStr (to_Subdomain p)); ($"publicUrl", JStr (to_PublicURL p))].

Record ClientHelloPayload := mkClientHello {
  ch_ProtocolVersion : Z; ch_AgentVersion : gostring; ch_InstanceID : gostring;
  ch_Hostname : gostring; ch_OS : gostring; ch_Arch : gostring
}.
Definition zero_ClientHello : ClientHelloPayload := mkClientHello 0 [] [] [] [] [].

Definition dec_ClientHelloPayload : json -> ClientHelloPayload -> option ClientHelloPayload :=
  store_struct [$"protocolVersion"; $"agentVersion"; $"instanceId"; $"hostname"; $"os"; $"arch"]
    (fun n v p =>
       let '(mkClientHello pv av ii hn os ar) := p in
       if bool_decide (n = $"protocolVersion") then x ← store_int v pv; Some (mkClientHello x av ii hn os ar)
       else if bool_decide (n = $"agentVersion") then x ← store_string v av; Some (mkClientHello pv x ii hn os ar)
       else if bool_decide (n = $"instanceId") then x ← store_string v ii; Some (mkClientHello pv av x hn os ar)
       else if bool_decide (n = $"hostname") then x ← store_string v hn; Some (mkClientHello pv av ii x os ar)
       else if bool_decide (n = $"os") then x ← store_string v os; Some (mkClientHello pv av ii hn x ar)
       else x ← store_string v ar; Some (mkClientHello pv av ii hn os x)).

Record OpenTunnelPayload := mkOpenTunnel { ot_RequestID : gostring; ot_LocalAddress : gostring }.
Definition dec_OpenTunnelPayload : json -> OpenTunnelPayload -> option OpenTunnelPayload :=
  store_struct [$"requestId"; $"localAddress"]
    (fun n v p =>
       if bool_decide (n = $"requestId") then x ← store_string v (ot_RequestID p); Some (mkOpenTunnel x (ot_LocalAddress p))
       else x ← store_string v (ot_LocalAddress p); Some (mkOpenTunnel (ot_RequestID p) x)).

Record HTTPResponsePayload := mkHTTPResponse {
  hr_RequestID : gostring; hr_StatusCode : Z; hr_Headers : option Header; hr_ContentLength : Z; hr_Error : gostring
}.
Definition zero_HTTPResponse : HTTPResponsePayload := mkHTTPResponse [] 0 None 0 [].

Definition dec_HTTPResponsePayload : json -> HTTPResponsePayload -> option HTTPResponsePayload :=
  store_struct [$"requestId"; $"statusCode"; $"headers"; $"contentLength"; $"error"]
    (fun n v p =>
       let '(mkHTTPResponse id sc hs cl er) := p in
       if bool_decide (n = $"requestId") then x ← store_string v id; Some (mkHTTPResponse x sc hs cl er)
       else if bool_decide (n = $"statusCode") then x ← store_int v sc; Some (mkHTTPResponse id x hs cl er)
       else if bool_decide (n = $"headers") then x ← store_headers v hs; Some (mkHTTPResponse id sc x cl er)
       else if bool_decide (n = $"contentLength") then x ← store_int v cl; Some (mkHTTPResponse id sc hs x er)
       else x ← store_string v er; Some (mkHTTPResponse id sc hs cl x)).

(** The payloads that hold a request ID only, decoded. *)
Definition dec_requestID : json -> gostring -> option gostring :=
  store_struct [$"requestId"] (fun _ v cur => store_string v cur).
Definition HTTPResponseEndPayload : json -> gostring -> option gostring := dec_requestID.

(** The two shapes of envelope the programs decode into: a payload struct, or a
    raw payload kept for a second [Unmarshal]. *)
Definition dec_Envelope {P} (dec : json -> P -> option P) : json -> gostring * P -> option (gostring * P) :=
  store_struct [$"type"; $"payload"]
    (fun n v p => if bool_decide (n = $"type") then x ← store_string v p.1; Some (x, p.2)
                  else x ← dec v p.2; Some (p.1, x)).
Definition dec_RawMessage (j : json) (_ : option json) : option (option json) := Some (Some j).
(** The envelope whose [type] is not looked at. *)
Definition dec_PayloadOnly {P} (dec : json -> P -> option P) : json -> P -> option P :=
  store_struct [$"payload"] (fun _ v p => dec v p).

(** [json.Unmarshal(data, &x)] for a fresh [x]. *)
Definition Unmarshal {X} (dec : json -> X -> option X) (zero : X) (data : list byte) : option X :=
  j ← parse data; dec j zero.

(** ** The agent's messages *)

(** The agent's own copies of the names of the messages. *)
Definition openTunnelType : gostring := $"open_tunnel".
Definition cancelRequestType : gostring := $"cancel_request".
Definition httpRequestStartType : gostring := $"http_request_start".
Definition httpRequestEndType : gostring := $"http_request_end".
Definition httpResponseStartType : gostring := $"http_response_start".
Definition httpResponseEndType : gostring := $"http_response_end".

Record httpRequestPayload := mkhttpRequest {
  aq_RequestID : gostring; aq_Method : gostring; aq_Path : gostring;
  aq_Headers : option Header; aq_ContentLength : Z
}.
Definition zero_httpRequest : httpRequestPayload := mkhttpRequest [] [] [] None 0.

Definition dec_httpRequestPayload : json -> httpRequestPayload -> option httpRequestPayload :=
  store_struct [$"requestId"; $"method"; $"path"; $"headers"; $"contentLength"]
    (fun n v p =>
       let '(mkhttpRequest id m pa hs cl) := p in
       if bool_decide (n = $"requestId") then x ← store_string v id; Some (mkhttpRequest x m pa hs cl)
       else if bool_decide (n = $"method") then x ← store_string v m; Some (mkhttpRequest id x pa hs cl)
       else if bool_decide (n = $"path") then x ← store_string v pa; Some (mkhttpRequest id m x hs cl)
       else if bool_decide (n = $"headers") then x ← store_headers v hs; Some (mkhttpRequest id m pa x cl)
       else x ← store_int v cl; Some (mkhttpRequest id m pa hs x)).

Definition httpRequestEndPayload : json -> gostring -> option gostring := dec_requestID.

Record httpResponsePayload := mkhttpResponse {
  ar_RequestID : gostring; ar_StatusCode : Z; ar_Headers : option Header; ar_ContentLength : Z; ar_Error : gostring
}.
(** [Error] is omitted when empty. *)
Definition enc_httpResponsePayload (p : httpResponsePayload) : json :=
  JObj ([($"requestId", JStr (ar_RequestID p)); ($"statusCode", JNum (print_int (ar_StatusCode p)));
         ($"headers", enc_headers (ar_Headers p)); ($"contentLength", JNum (print_int (ar_ContentLength p)))]
        ++ if bool_decide (ar_Error p = []) then [] else [($"error", JStr (ar_Error p))]).

Definition httpResponseEndPayload : gostring -> json := enc_requestID.

Definition enc_openTunnelPayload (requestID localAddress : gostring) : json :=
  JObj [($"requestId", JStr requestID); ($"localAddress", JStr localAddress)].

Record clientHello := mkclientHello {
  ac_ProtocolVersion : Z; ac_AgentVersion : gostring; ac_InstanceID : gostring;
  ac_Hostname : gostring; ac_OS : gostring; ac_Arch : gostring
}.
Definition enc_clientHello (p : clientHello) : json :=
  JObj [($"protocolVersion", JNum (print_int (ac_ProtocolVersion p))); ($"agentVersion", JStr (ac_AgentVersion p));
        ($"instanceId", JStr (ac_InstanceID p)); ($"hostname", JStr (ac_Hostname p));
        ($"os", JStr (ac_OS p)); ($"arch", JStr (ac_Arch p))].

Record serverHello := mkserverHello { as_ProtocolVersion : Z; as_SessionID : gostring }.
Definition zero_serverHello : serverHello := mkserverHello 0 [].
Definition dec_serverHello : json -> serverHello -> option serverHello :=
  store_struct [$"protocolVersion"; $"sessionId"]
    (fun n v p => if bool_decide (n = $"protocolVersion")
                  then x ← store_int v (as_ProtocolVersion p); Some (mkserverHello x (as_SessionID p))
                  else x ← store_string v (as_SessionID p); Some (mkserverHello (as_ProtocolVersion p) x)).

(** The agent's [envelope] is the gateway's. *)
Definition envelope : gostring -> option json -> list byte := Envelope.

(** ** Headers round trip *)

(** What a header becomes on the wire. *)
Definition coerce_header (h : Header) : Header := fmap (M := gmap gostring) (fmap (M := list) coerce) h.
Definition valid_keys (h : Header) : Prop := forall k, is_Some (h !! k) -> valid_utf8 k.

Definition wire_entry (e : gostring * list gostring) : gostring * json :=
  (coerce e.1, coerce_json (JArr (JStr <$> e.2))).

Lemma store_strings_wire vs : store_strings (coerce_json (JArr (JStr <$> vs))) = Some (coerce <$> vs).
Proof. induction vs as [|v vs IH]; [done |]. cbn in *. by rewrite IH. Qed.

Lemma store_entries_wire (l : list (gostring * list gostring)) (h : Header) :
  (forall e, e ∈ l -> valid_utf8 e.1) ->
  store_entries (wire_entry <$> l) h = Some (foldl (fun h e => <[e.1 := coerce <$> e.2]> h) h l).
Proof.
  revert h. induction l as [|[k vs] l IH]; intros h Hv; [done |].
  cbn [fmap list_fmap wire_entry store_entries foldl fst snd]. rewrite store_strings_wire.
  cbn [mbind option_bind]. rewrite (Hv (k, vs)) by left. apply IH. intros e He. apply Hv. by right.
Qed.

Lemma foldl_insert_union (l : list (gostring * list gostring)) (h : Header) :
  NoDup l.*1 ->
  foldl (fun h e => <[e.1 := coerce <$> e.2]> h) h l
  = (list_to_map (prod_map id (fmap (M := list) coerce) <$> l) : Header) ∪ h.
Proof.
  revert h. induction l as [|[k vs] l IH]; intros h; [by cbn; rewrite (left_id_L ∅ (∪)) |].
  cbn [fmap list_fmap fst foldl]. intros [Hk Hnd]%list.NoDup_cons. rewrite IH by done. cbn.
  rewrite <- insert_union_r; [by rewrite insert_union_l |].
  apply not_elem_of_list_to_map_1. by rewrite <- list_fmap_compose.
Qed.

Lemma store_headers_wire h :
  default True (valid_keys <$> h) ->
  store_headers (coerce_json (enc_headers h)) None = Some (coerce_header <$> h).
Proof.
  destruct h as [h|]; [|done]. intros Hk. cbn in Hk. cbn [enc_headers coerce_json store_headers default].
  set (l := merge_sort entry_le (map_to_list h)).
  assert (Hp : l ≡ₚ map_to_list h) by apply merge_sort_Permutation.
  change (map _ _) with ((fun f => (coerce f.1, coerce_json f.2)) <$>
                         ((fun e : gostring * list gostring => (e.1, JArr (JStr <$> e.2))) <$> l)).
  rewrite <- list_fmap_compose. change (_ ∘ _) with wire_entry.
  rewrite store_entries_wire.
  - cbn [mbind option_bind fmap option_fmap option_map]. do 2 f_equal.
    rewrite foldl_insert_union by (rewrite Hp; apply NoDup_fst_map_to_list).
    rewrite (right_id_L ∅ (∪)). unfold coerce_header. rewrite <- (list_to_map_to_list (fmap (M := gmap gostring) (fmap (M := list) coerce) h)).
    apply list_to_map_proper.
    + rewrite <- list_fmap_compose, Hp. apply NoDup_fst_map_to_list.
    + by rewrite Hp, map_to_list_fmap.
  - intros [k vs] He. rewrite Hp in He. apply elem_of_map_to_list in He. apply Hk. cbn. by eauto.
Qed.

Lemma printable_strings vs : printable (JArr (JStr <$> vs)).
Proof. induction vs; by cbn. Qed.

Lemma printable_headers h : printable (enc_headers h).
Proof.
  destruct h as [h|]; [|done]. cbn. generalize (merge_sort entry_le (map_to_list h)).
  intros l. induction l as [|e l IH]; [done |]. split; [apply printable_strings | apply IH].
Qed.

Lemma depth_strings vs : depth_of (JArr (JStr <$> vs)) = 1.
Proof. cbn [depth_of]. induction vs as [|v vs IH]; [done |]. cbn [fmap list_fmap map]. rewrite max_list_cons. cbn. lia. Qed.

Lemma depth_headers h : depth_of (enc_headers h) <= 2.
Proof.
  destruct h as [h|]; [|done]. cbn [enc_headers depth_of]. generalize (merge_sort entry_le (map_to_list h)).
  intros l. assert (H : max_list (map (fun f => depth_of f.2) ((fun e => (e.1, JArr (JStr <$> e.2))) <$> l)) <= 1); [|lia].
  induction l as [|e l IH]; [done |]. cbn [fmap list_fmap map snd]. rewrite max_list_cons, depth_strings. lia.
Qed.

Lemma printable_int z : min_int64 <= z <= max_int64 -> is_int_lexeme (print_int z).
Proof. by exists z. Qed.

(** ** Messages round trip *)

(** Evaluates the keys and field tables of a decoder. *)
Ltac cbn_store :=
  cbn [coerce_json map fst snd store_struct store_fields store_string store_int app mbind option_bind].
Ltac run_store :=
  repeat (cbn_store;
    match goal with
    | |- context [coerce (lit ?s)] => change (coerce (lit s)) with (lit s)
    | |- context [match_field ?n (lit ?s)] => change (match_field n (lit s)) with (Some (lit s))
    | |- context [bool_decide (lit ?a = lit ?b)] =>
        let r := eval vm_compute in (bool_decide (lit a = lit b)) in
        change (bool_decide (lit a = lit b)) with r
    end); cbn_store.

Lemma Unmarshal_Envelope {X} (dec : json -> X -> option X) zero type payload :
  printable payload -> depth_of payload < maxNestingDepth ->
  Unmarshal dec zero (Envelope type (Some payload))
  = dec (JObj [($"type", JStr (coerce type)); ($"payload", coerce_json payload)]) zero.
Proof.
  intros Hp Hd. unfold Unmarshal, Envelope. rewrite parse_encode.
  - reflexivity.
  - by cbn.
  - cbn [depth_of map snd]. rewrite !max_list_cons. cbn [depth_of max_list foldr]. unfold maxNestingDepth in *. lia.
Qed.

Lemma printable_request p :
  min_int64 <= hq_ContentLength p <= max_int64 ->
  printable (enc_HTTPRequestPayload p) /\ depth_of (enc_HTTPRequestPayload p) < maxNestingDepth.
Proof.
  intros Hc. split.
  - cbn. split_and!; auto using printable_int, printable_headers.
  - cbn [enc_HTTPRequestPayload depth_of map snd]. pose proof (depth_headers (hq_Headers p)).
    rewrite !max_list_cons. cbn [depth_of max_list foldr]. unfold maxNestingDepth. lia.
Qed.

Definition request_on_wire (p : HTTPRequestPayload) : httpRequestPayload :=
  mkhttpRequest (coerce (hq_RequestID p)) (coerce (hq_Method p)) (coerce (hq_Path p))
    (coerce_header <$> hq_Headers p) (hq_ContentLength p).

Definition request_sendable (p : HTTPRequestPayload) : Prop :=
  min_int64 <= hq_ContentLength p <= max_int64 /\ default True (valid_keys <$> hq_Headers p).

Lemma request_start_wire p :
  request_sendable p ->
  Unmarshal (dec_Envelope dec_httpRequestPayload) ([], zero_httpRequest)
    (Envelope HTTPRequestStart (Some (enc_HTTPRequestPayload p)))
  = Some (HTTPRequestStart, request_on_wire p).
Proof.
  intros [Hc Hk]. destruct (printable_request p Hc) as [Hp Hd]. rewrite Unmarshal_Envelope by done.
  unfold dec_Envelope, dec_httpRequestPayload, enc_HTTPRequestPayload, HTTPRequestStart, zero_httpRequest.
  run_store. rewrite store_headers_wire by done. run_store. rewrite parse_print_int by done. reflexivity.
Qed.

(** The agent reads the messages that carry a request ID only both as a request
    and as an end of request. *)
Lemma request_id_wire type id :
  Unmarshal (dec_Envelope dec_httpRequestPayload) ([], zero_httpRequest) (Envelope type (Some (enc_requestID id)))
  = Some (coerce type, mkhttpRequest (coerce id) [] [] None 0)
  /\ Unmarshal (dec_PayloadOnly dec_requestID) [] (Envelope type (Some (enc_requestID id))) = Some (coerce id).
Proof.
  rewrite !Unmarshal_Envelope by done.
  unfold dec_Envelope, dec_PayloadOnly, dec_httpRequestPayload, dec_requestID, enc_requestID, zero_httpRequest.
  split; [run_store; reflexivity |]. cbn [store_struct store_fields].
  change (match_field [$"payload"] ($"type")) with (@None gostring). run_store. reflexivity.
Qed.

Definition response_on_wire (p : httpResponsePayload) : HTTPResponsePayload :=
  mkHTTPResponse (coerce (ar_RequestID p)) (ar_StatusCode p) (coerce_header <$> ar_Headers p) (ar_ContentLength p)
    (coerce (ar_Error p)).

Definition response_sendable (p : httpResponsePayload) : Prop :=
  min_int64 <= ar_StatusCode p <= max_int64 /\ min_int64 <= ar_ContentLength p <= max_int64
  /\ default True (valid_keys <$> ar_Headers p).

Lemma printable_response p :
  response_sendable p ->
  printable (enc_httpResponsePayload p) /\ depth_of (enc_httpResponsePayload p) < maxNestingDepth.
Proof.
  intros (Hs & Hc & _). pose proof (depth_headers (ar_Headers p)).
  unfold enc_httpResponsePayload. destruct (bool_decide (ar_Error p = [])); cbn [app]; split;
    try (cbn; split_and!; auto using printable_int, printable_headers; fail);
    cbn [depth_of map snd]; rewrite !max_list_cons; cbn [depth_of max_list foldr]; unfold maxNestingDepth; lia.
Qed.

(** The gateway reads a response start in two passes, through the raw payload. *)
Lemma response_start_wire p :
  response_sendable p ->
  exists raw,
    Unmarshal (dec_Envelope dec_RawMessage) ([], None) (envelope httpResponseStartType (Some (enc_httpResponsePayload p)))
    = Some (HTTPResponseStart, Some raw)
    /\ dec_HTTPResponsePayload raw zero_HTTPResponse = Some (response_on_wire p).
Proof.
  intros Hs. destruct (printable_response p Hs) as [Hp Hd]. destruct Hs as (Hs & Hc & Hk).
  exists (coerce_json (enc_httpResponsePayload p)). split.
  - unfold envelope. rewrite Unmarshal_Envelope by done. unfold dec_Envelope, httpResponseStartType, HTTPResponseStart. run_store. reflexivity.
  - unfold dec_HTTPResponsePayload, enc_httpResponsePayload, zero_HTTPResponse, response_on_wire.
    destruct (bool_decide (ar_Error p = [])) eqn:He; prop_guards; cbn [app]; run_store;
      rewrite (parse_print_int (ar_StatusCode p)), (parse_print_int (ar_ContentLength p)) by done;
      run_store; rewrite store_headers_wire by done; run_store; [rewrite He |]; reflexivity.
Qed.

Lemma response_end_wire type id :
  exists raw, Unmarshal (dec_Envelope dec_RawMessage) ([], None) (envelope type (Some (enc_requestID id)))
              = Some (coerce type, raw)
  /\ Unmarshal (dec_PayloadOnly HTTPResponseEndPayload) [] (envelope type (Some (enc_requestID id))) = Some (coerce id).
Proof.
  eexists. split; [|apply request_id_wire]. unfold envelope. rewrite Unmarshal_Envelope by done.
  unfold dec_Envelope. run_store. reflexivity.
Qed.
