(* ===== verification/Migrate.v ===== *)
(** * Migrations

    [Migrate] of backend/internal/database/database.go over the list of
    backend/migrations/migrations.go: any number of processes that start at once
    apply the migrations one after the other under an advisory lock, each in a
    transaction together with its row in [schema_migrations]. *)

From S2P Require Import Prelude GoStrings Effects.

(** ** The list *)

(** [UpSQL] is the text of an embedded file. *)
Record Migration := mkMigration { Version : gostring; UpSQL : gostring }.

Section list_of_migrations.
Context (enablePGCrypto createAuth createAgentTokens createAgents createTunnels createTrafficTotals : gostring).

Definition All : list Migration :=
  [mkMigration ($"001_enable_pgcrypto") enablePGCrypto;
   mkMigration ($"002_create_auth") createAuth;
   mkMigration ($"003_create_agent_tokens") createAgentTokens;
   mkMigration ($"004_create_agents") createAgents;
   mkMigration ($"005_create_tunnels") createTunnels;
   mkMigration ($"006_create_traffic_totals") createTrafficTotals].
End list_of_migrations.

(** ** The database as the migrations see it *)

(** [md_lock]: the connection that holds the advisory lock.  [md_versions]: the rows
    of [schema_migrations], once the table exists.  [md_scripts]: the scripts that
    were executed and committed, in order. *)
Record mdb := mkMdb { md_lock : option nat; md_versions : option (list gostring); md_scripts : list gostring }.

Definition set_lock (l : option nat) (d : mdb) : mdb := mkMdb l (md_versions d) (md_scripts d).

Inductive migrate_error :=
| AcquireConnection | AcquireLock | CreateTable | CheckMigration (version : gostring) | BeginMigration (version : gostring)
| ApplyMigration (version : gostring) | CommitMigration (version : gostring).

(** Whether a statement is executed, and whether its reply arrives. *)
Definition is_executed (a : answer) : bool := match a_fault a with Some (NotExecuted _) => false | _ => true end.
Definition is_answered (a : answer) : bool := match a_fault a with None => true | Some _ => false end.

(** A statement without an effect of its own. *)
Definition request : prog mdb bool := action (fun a d => (is_answered a, d)).

(** [SELECT pg_advisory_lock]: it waits as long as another connection holds the
    lock; [polls] is how often it looks before the context ends.  A lock whose
    confirmation is lost goes with its connection. *)
Fixpoint advisory_lock (me polls : nat) : prog mdb bool :=
  match polls with
  | O => mret false
  | S polls =>
      got ← action (fun a d => match md_lock d with
                               | None => if is_answered a then (Some true, set_lock (Some me) d) else (Some false, d)
                               | Some _ => (if is_answered a then None else Some false, d)
                               end);
      match got with Some ok => mret ok | None => advisory_lock me polls end
  end.

(** The deferred unlock; when the statement fails the connection is gone, and the
    lock with it. *)
Definition advisory_unlock (me : nat) : prog mdb unit :=
  action (fun _ d => (tt, if bool_decide (md_lock d = Some me) then set_lock None d else d)).

(** [CREATE TABLE IF NOT EXISTS schema_migrations]. *)
Definition create_table : prog mdb bool :=
  action (fun a d => (is_answered a,
    if is_executed a then mkMdb (md_lock d) (Some (default [] (md_versions d))) (md_scripts d) else d)).

(** [SELECT EXISTS]; without the table it fails. *)
Definition version_exists (version : gostring) : prog mdb (option bool) :=
  action (fun a d =>
    (match md_versions d with
     | Some vs => if is_answered a then Some (bool_decide (version ∈ vs)) else None
     | None => None
     end, d)).

(** [INSERT INTO schema_migrations], seen by this transaction. *)
Definition insert_version (version : gostring) : prog mdb bool :=
  action (fun a d => (is_answered a && match md_versions d with Some vs => bool_decide (version ∉ vs) | None => false end, d)).

(** [tx.Commit] publishes the script and the row together. *)
Definition commit (m : Migration) : prog mdb bool :=
  action (fun a d => (is_answered a,
    if is_executed a then mkMdb (md_lock d) (match md_versions d with Some vs => Some (vs ++ [Version m]) | None => None end) (md_scripts d ++ [UpSQL m]) else d)).

(** ** [Migrate] *)

Definition migrate_one (m : Migration) : prog mdb (result migrate_error unit) :=
  e ← version_exists (Version m);
  match e with
  | None => mret (Err (CheckMigration (Version m)))
  | Some true => mret (Ok tt)
  | Some false =>
      begun ← request;
      if negb begun then mret (Err (BeginMigration (Version m)))
      else
        ok ← request;
        ok ← (if (ok : bool) then insert_version (Version m) else mret false);
        if negb ok then _ ← request; mret (Err (ApplyMigration (Version m)))
        else
          ok ← commit m;
          mret (if (ok : bool) then Ok tt else Err (CommitMigration (Version m)))
  end.

Fixpoint migrate_all (ms : list Migration) : prog mdb (result migrate_error unit) :=
  match ms with
  | [] => mret (Ok tt)
  | m :: ms =>
      r ← migrate_one m;
      match r with Err e => mret (Err e) | Ok _ => migrate_all ms end
  end.

Definition Migrate (ms : list Migration) (me polls : nat) : prog mdb (result migrate_error unit) :=
  conn ← request;
  if negb conn then mret (Err AcquireConnection)
  else
    locked ← advisory_lock me polls;
    if negb locked then mret (Err AcquireLock)
    else
      created ← create_table;
      r ← (if (created : bool) then migrate_all ms else mret (Err CreateTable));
      _ ← advisory_unlock me;
      mret r.

(** ** Rely and guarantee under the lock *)

Section lock.
Context (ms : list Migration).

(** The committed scripts are the first ones of the list, and the rows say so. *)
Record migrations_ok (d : mdb) : Prop := {
  mo_scripts : exists k, md_scripts d = take k (UpSQL <$> ms) /\ default [] (md_versions d) = take k (Version <$> ms);
  mo_length : length (default [] (md_versions d)) = length (md_scripts d)
}.

(** Nothing happens to the database of the holder of the lock behind its back. *)
Definition rely (me : nat) (d d' : mdb) : Prop :=
  (md_lock d = Some me -> d' = d) /\ md_scripts d `prefix_of` md_scripts d'.
(** Only the holder of the lock changes anything; the lock is taken when free. *)
Definition guarantee (me : nat) (d d' : mdb) : Prop :=
  (d' = d \/ md_lock d = Some me \/ d' = set_lock (Some me) d /\ md_lock d = None) /\ md_scripts d `prefix_of` md_scripts d'.

Lemma guarantee_rely i j d d' : i <> j -> guarantee j d d' -> rely i d d'.
Proof. intros Hij [[->|[Hl|[-> Hl]]] Hp]; split; try done; congruence. Qed.

#[local] Instance rely_po me : PreOrder (rely me).
Proof.
  split; [by intros d |]. intros d1 d2 d3 [H1 H1'] [H2 H2']. split; [|by etrans].
  intros Hl. specialize (H1 Hl). subst d2. by apply H2.
Qed.

(** [lg me post d m]: every action of [m] keeps the invariant and the guarantee, and
    the result satisfies [post], whatever others do meanwhile. *)
Fixpoint lg {A} (me : nat) (post : A -> mdb -> Prop) (d0 : mdb) (m : prog mdb A) : Prop :=
  match m with
  | Ret a => forall d, migrations_ok d -> rely me d0 d -> post a d
  | Do f k => forall a d, migrations_ok d -> rely me d0 d ->
                let '(b, d') := f a d in migrations_ok d' /\ guarantee me d d' /\ lg me post d' (k b)
  end.

Lemma lg_later {A} me (post : A -> mdb -> Prop) d0 d1 m : rely me d0 d1 -> lg me post d0 m -> lg me post d1 m.
Proof.
  destruct m as [x|B f k]; intros Hr Hm; cbn in *.
  - intros d Hd Hr'. apply Hm; [done | by etrans].
  - intros a d Hd Hr'. apply Hm; [done | by etrans].
Qed.

Lemma lg_bind {A B} me (post : B -> mdb -> Prop) (mid : A -> mdb -> Prop) d0 (m : prog mdb A) (g : A -> prog mdb B) :
  lg me mid d0 m -> migrations_ok d0 -> (forall a d, migrations_ok d -> mid a d -> lg me post d (g a)) -> lg me post d0 (m ≫= g).
Proof.
  revert d0. induction m as [x|T f k IH]; intros d0 Hm Hd0 Hg.
  - cbn in *. apply Hg; [done |]. apply Hm; [done | reflexivity].
  - intros a d Hd Hr. cbn. specialize (Hm a d Hd Hr). destruct (f a d) as [b d']. destruct Hm as (H1 & H2 & H3).
    split_and!; [done | done |]. by apply IH.
Qed.

Lemma lg_action {B : Set} me (post : B -> mdb -> Prop) d0 (f : answer -> mdb -> B * mdb) :
  (forall a d, migrations_ok d -> rely me d0 d ->
     migrations_ok (f a d).2 /\ guarantee me d (f a d).2
     /\ forall d', migrations_ok d' -> rely me (f a d).2 d' -> post (f a d).1 d') -> lg me post d0 (action f).
Proof. intros Hf a d Hd Hr. specialize (Hf a d Hd Hr). cbn. by destruct (f a d). Qed.

(** An action of the holder that keeps the lock. *)
Lemma lg_held {B : Set} me (post : B -> mdb -> Prop) d0 (f : answer -> mdb -> B * mdb) :
  md_lock d0 = Some me ->
  (forall a, migrations_ok (f a d0).2 /\ md_scripts d0 `prefix_of` md_scripts (f a d0).2
     /\ md_lock (f a d0).2 = Some me /\ post (f a d0).1 (f a d0).2) -> lg me post d0 (action f).
Proof.
  intros Hl Hf. apply lg_action. intros a d Hd [Hr _]. rewrite (Hr Hl). destruct (Hf a) as (H1 & H2 & H3 & H4).
  split_and!; [done | split; [by right; left | done] |]. intros d' _ [Hr' _]. by rewrite (Hr' H3).
Qed.

Lemma lg_ret_held {A} me (post : A -> mdb -> Prop) d0 a : md_lock d0 = Some me -> post a d0 -> lg me post d0 (mret a).
Proof. intros Hl Hp d _ [Hr _]. by rewrite (Hr Hl). Qed.

Lemma lg_request me d0 : md_lock d0 = Some me -> migrations_ok d0 -> lg me (fun _ d => d = d0) d0 request.
Proof. intros Hl Hd. by apply lg_held. Qed.

(** A statement whose result does not matter. *)
Lemma lg_request_any {A} me (post : A -> mdb -> Prop) d0 (g : bool -> prog mdb A) :
  md_lock d0 = Some me -> migrations_ok d0 -> (forall ok, lg me post d0 (g ok)) -> lg me post d0 (request ≫= g).
Proof. intros Hl Hd Hg. eapply lg_bind; [by apply lg_request | done |]. intros ok d _ ->. apply Hg. Qed.

(** *** The critical section *)

Context (Hms : NoDup (Version <$> ms)).

(** In the critical section, with at least the first [n] migrations applied. *)
Definition holding (me n : nat) (d : mdb) : Prop :=
  md_lock d = Some me /\ is_Some (md_versions d) /\ (n <= length (md_scripts d))%nat.

Lemma applied_iff d vs pre m rest :
  migrations_ok d -> md_versions d = Some vs -> ms = pre ++ m :: rest ->
  Version m ∈ vs <-> (S (length pre) <= length (md_scripts d))%nat.
Proof.
  intros [[k [Hs Hv]] _] Hvs Heq. rewrite Hvs in Hv. cbn in Hv. rewrite Hs, length_take, length_fmap, Hv, Heq. rewrite length_app. cbn [length].
  rewrite Heq, fmap_app in Hms. cbn [fmap list_fmap] in Hms. apply list.NoDup_app in Hms as (_ & Hdisj & Hrest).
  apply list.NoDup_cons in Hrest as [Hrest _]. rewrite fmap_app. cbn [fmap list_fmap]. split.
  - intros Hin. destruct (decide (S (length pre) <= k)%nat) as [|Hk]; [lia |]. exfalso.
    rewrite take_app_le in Hin by (rewrite length_fmap; lia). apply (Hdisj (Version m)); [|left].
    rewrite <- (take_drop k (Version <$> pre)). apply elem_of_app. by left.
  - intros Hk. rewrite take_app_ge by (rewrite length_fmap; lia). apply elem_of_app. right. rewrite length_fmap.
    destruct (k - length pre)%nat eqn:Hd; [lia |]. left.
Qed.

Lemma commit_ok d vs pre m rest :
  migrations_ok d -> md_versions d = Some vs -> ms = pre ++ m :: rest -> length (md_scripts d) = length pre ->
  migrations_ok (mkMdb (md_lock d) (Some (vs ++ [Version m])) (md_scripts d ++ [UpSQL m])).
Proof.
  intros [[k [Hs Hv]] Hl] Hvs Heq Hlen. rewrite Hvs in Hv, Hl. cbn in Hv, Hl.
  split; cbn; [|rewrite !length_app; cbn; lia]. exists (S (length pre)).
  assert (Hk : forall {X} (f : Migration -> X), take k (f <$> ms) = f <$> pre).
  { intros X f. assert (Hlk : (Nat.min k (length ms) = length pre)%nat) by (rewrite <- Hlen, Hs, length_take, length_fmap; done).
    rewrite Heq in Hlk |- *. rewrite length_app in Hlk. cbn in Hlk. rewrite fmap_app. assert (k = length pre) as -> by lia.
    rewrite <- (length_fmap f pre). apply take_app_length. }
  assert (Hnext : forall {X} (f : Migration -> X), take (S (length pre)) (f <$> ms) = (f <$> pre) ++ [f m]).
  { intros X f. rewrite Heq, fmap_app. cbn [fmap list_fmap]. rewrite take_app_ge by (rewrite length_fmap; lia).
    rewrite length_fmap, Nat.sub_succ_l, Nat.sub_diag by lia. cbn [take]. done. }
  by rewrite Hs, Hv, !Hk, !Hnext.
Qed.

Definition after_one (me n : nat) (r : result migrate_error unit) (d : mdb) : Prop :=
  match r with Ok _ => holding me n d | Err _ => md_lock d = Some me end.

Lemma migrate_one_lg me d0 pre m rest :
  migrations_ok d0 -> holding me (length pre) d0 -> ms = pre ++ m :: rest ->
  lg me (after_one me (S (length pre))) d0 (migrate_one m).
Proof.
  intros Hd (Hl & [vs Hvs] & Hn) Heq. pose proof (applied_iff d0 vs pre m rest Hd Hvs Heq) as Hiff.
  unfold migrate_one. eapply (lg_bind me _ (fun e d => d = d0 /\ (e = None \/ e = Some (bool_decide (Version m ∈ vs))))).
  { apply lg_held; [done |]. intros a. cbn. rewrite Hvs. split_and!; try done. destruct (is_answered a); auto. }
  { done. }
  intros e d _ [-> He]. destruct e as [[]|]; [| |by apply lg_ret_held].
  - apply lg_ret_held; [done |]. destruct He as [|[= He]]; [done |]. symmetry in He. apply bool_decide_eq_true in He.
    split_and!; [done | by eexists | by apply Hiff].
  - destruct He as [|[= He]]; [done |]. symmetry in He. apply bool_decide_eq_false in He.
    assert (Hlen : length (md_scripts d0) = length pre) by (rewrite Hiff in He; lia).
    apply lg_request_any; [done | done |]. intros begun. destruct begun; cbn [negb]; [|by apply lg_ret_held].
    apply lg_request_any; [done | done |]. intros ok.
    eapply (lg_bind me _ (fun _ d => d = d0)); [|done |].
    { destruct ok; [apply lg_held | apply lg_ret_held]; done. }
    intros ok' d _ ->. destruct ok'; cbn [negb].
    + eapply (lg_bind me _ (fun ok d => md_lock d = Some me /\ (ok = true -> holding me (S (length pre)) d))).
      * apply lg_held; [done |]. intros a. unfold is_executed, is_answered. cbn. rewrite Hvs.
        pose proof (commit_ok d0 vs pre m rest Hd Hvs Heq Hlen) as Hok.
        assert (Hgrow : md_scripts d0 `prefix_of` md_scripts d0 ++ [UpSQL m]) by (by eexists).
        assert (Hh : holding me (S (length pre)) (mkMdb (md_lock d0) (Some (vs ++ [Version m])) (md_scripts d0 ++ [UpSQL m]))).
        { split_and!; cbn; [done | by eexists | rewrite length_app; cbn; lia]. }
        destruct (a_fault a) as [[]|]; split_and!; try done.
      * done.
      * intros [] d' _ [Hl' Hh]; apply lg_ret_held; [done | by apply Hh | done | done].
    + apply lg_request_any; [done | done |]. intros _. by apply lg_ret_held.
Qed.

Lemma migrate_all_lg me rest : forall d0 pre,
  migrations_ok d0 -> holding me (length pre) d0 -> ms = pre ++ rest ->
  lg me (after_one me (length ms)) d0 (migrate_all rest).
Proof.
  induction rest as [|m rest IH]; intros d0 pre Hd Hh Heq; cbn [migrate_all].
  - apply lg_ret_held; [apply Hh |]. rewrite Heq, app_nil_r. exact Hh.
  - eapply lg_bind; [by eapply migrate_one_lg | done |]. intros [u|e] d Hd' Hr; [|by apply lg_ret_held].
    apply (IH d (pre ++ [m])); [done | | by rewrite <- app_assoc]. rewrite length_app, Nat.add_comm. exact Hr.
Qed.

Lemma advisory_lock_lg me polls d0 : migrations_ok d0 ->
  lg me (fun ok d => ok = true -> md_lock d = Some me) d0 (advisory_lock me polls).
Proof.
  revert d0. induction polls as [|polls IH]; intros d0 Hd0; cbn [advisory_lock]; [by intros d _ _ |].
  eapply (lg_bind me _ (fun got d => got = Some true -> md_lock d = Some me)).
  - apply lg_action. intros a d Hd _. destruct (md_lock d) as [h|] eqn:Hl; destruct (is_answered a); cbn.
    + split_and!; [done | split; [by left | done] | done].
    + split_and!; [done | split; [by left | done] | done].
    + split_and!; [by destruct Hd | split; [by right; right | done] |]. intros d' _ [Hr _] _. by rewrite (Hr eq_refl).
    + split_and!; [done | split; [by left | done] | done].
  - done.
  - intros [[]|] d Hd Hg; [|by intros d' _ _ | by apply IH]. apply lg_ret_held; by auto.
Qed.

(** A call that returned nil left every migration applied. *)
Definition complete (r : result migrate_error unit) (d : mdb) : Prop :=
  match r with Ok _ => (length ms <= length (md_scripts d))%nat | Err _ => True end.

Lemma Migrate_lg me polls d0 : migrations_ok d0 -> lg me complete d0 (Migrate ms me polls).
Proof.
  intros Hd0. unfold Migrate. eapply (lg_bind me _ (fun _ _ => True)); [|done |].
  { apply lg_action. intros a d Hd _. split_and!; [done | split; [by left | done] | done]. }
  intros [] d1 Hd1 _; cbn [negb]; [|by intros d _ _]. eapply lg_bind; [by apply advisory_lock_lg | done |].
  intros [] d2 Hd2 Hl; cbn [negb]; [|by intros d _ _]. specialize (Hl eq_refl).
  eapply (lg_bind me _ (fun ok d => md_lock d = Some me /\ (ok = true -> holding me 0 d))); [|done |].
  { apply lg_held; [done |]. intros a. unfold is_executed, is_answered. cbn.
    assert (Hok : migrations_ok (mkMdb (md_lock d2) (Some (default [] (md_versions d2))) (md_scripts d2))) by (by destruct Hd2).
    destruct (a_fault a) as [[]|]; split_and!; try done. intros _. split_and!; [done | by eexists | cbn; lia]. }
  intros created d3 Hd3 [Hl3 Hh3]. eapply (lg_bind me _ (after_one me (length ms))); [|done |].
  { destruct created; [apply (migrate_all_lg me ms d3 []); by auto | by apply lg_ret_held]. }
  intros r d4 Hd4 Hr. assert (Hl4 : md_lock d4 = Some me) by (destruct r; [apply Hr | done]).
  eapply (lg_bind me _ (fun _ d => complete r d)); [|done |].
  - apply lg_action. intros a d Hd [Hrely _]. rewrite (Hrely Hl4). cbn. rewrite bool_decide_eq_true_2 by done.
    split_and!; [by destruct Hd4 | split; [by right; left | done] |].
    intros d' _ [_ Hp]. destruct r as [u|e]; [|done]. cbn in *. apply prefix_length in Hp. destruct Hr as (_ & _ & Hn). lia.
  - intros _ d _ Hc d' _ [_ Hp]. destruct r as [u|e]; [|done]. cbn in *. apply prefix_length in Hp. lia.
Qed.
End lock.

(** ** Processes that start together *)

Section processes.
Context {R : Type}.
Abbreviation process := (prog mdb R).

(** One action of one of them. *)
Inductive mstep : mdb * list process -> mdb * list process -> Prop :=
| mstep_action d d' ps1 ps2 (B : Set) (f : answer -> mdb -> B * mdb) (k : B -> process) a b :
    f a d = (b, d') -> mstep (d, ps1 ++ Do f k :: ps2) (d', ps1 ++ k b :: ps2).

Lemma mstep_lg ms post d ps d' ps' :
  mstep (d, ps) (d', ps') -> migrations_ok ms d -> (forall i p, ps !! i = Some p -> lg ms i post d p) ->
  migrations_ok ms d' /\ forall i p, ps' !! i = Some p -> lg ms i post d' p.
Proof.
  intros Hs Hd Hps. inversion Hs as [? ? ps1 ps2 B f k a b Hf]; subst.
  pose proof (Hps (length ps1) (Do f k) ltac:(by apply list_lookup_middle)) as Hdo.
  specialize (Hdo a d Hd ltac:(by split)). rewrite Hf in Hdo. destruct Hdo as (Hd' & Hg & Hk). split; [done |].
  intros i p Hi. destruct (decide (i = length ps1)) as [->|Hne].
  - rewrite list_lookup_middle in Hi by done. injection Hi as <-. exact Hk.
  - eapply lg_later; [eapply guarantee_rely; [exact Hne | exact Hg] |]. apply Hps.
    assert (Hother : forall x : process, (ps1 ++ x :: ps2) !! i = (ps1 ++ ps2) !! (if decide (i < length ps1)%nat then i else Nat.pred i)).
    { intros x. destruct (decide _) as [Hlt|Hge].
      - by rewrite !lookup_app_l by lia.
      - rewrite !lookup_app_r by lia. destruct (i - length ps1)%nat eqn:Hi'; [lia |]. cbn. f_equal. lia. }
    rewrite Hother in Hi |- *. exact Hi.
Qed.

Lemma msteps_lg ms post c c' :
  rtc mstep c c' -> migrations_ok ms c.1 -> (forall i p, c.2 !! i = Some p -> lg ms i post c.1 p) ->
  migrations_ok ms c'.1 /\ forall i p, c'.2 !! i = Some p -> lg ms i post c'.1 p.
Proof.
  induction 1 as [c|[d ps] [d' ps'] c' Hs _ IH]; intros Hd Hps; [done |].
  destruct (mstep_lg ms post d ps d' ps' Hs Hd Hps) as [H1 H2]. by apply IH.
Qed.

End processes.

(** A database no migration was applied to. *)
Definition fresh_database : mdb := mkMdb None None [].

(** With as many scripts committed as there are migrations, all are recorded. *)
Lemma all_applied ms d : ms <> [] -> migrations_ok ms d -> (length ms <= length (md_scripts d))%nat ->
  md_scripts d = UpSQL <$> ms /\ md_versions d = Some (Version <$> ms).
Proof.
  intros Hne [[k [Hk Hv]] Hlen] Hge.
  assert (Hle : (length ms <= k)%nat) by (rewrite Hk, length_take, length_fmap in Hge; lia).
  rewrite !take_ge in Hk, Hv by (rewrite length_fmap; lia). split; [done |].
  destruct (md_versions d) as [vs|]; [cbn in Hv; by rewrite Hv |].
  cbn in Hlen. rewrite <- Hlen in Hge. destruct ms; [done | cbn in Hge; lia].
Qed.

(** One process run alone. *)
Lemma run_msteps {R} env n (m : prog mdb R) d ps1 ps2 :
  rtc mstep (d, ps1 ++ m :: ps2) ((run env n m d).1.2, ps1 ++ Ret (run env n m d).1.1 :: ps2).
Proof.
  revert n d. induction m as [a|T f k IH]; intros n d; [apply rtc_refl |].
  cbn [run]. destruct (f (env n) d) as [b d'] eqn:Hf. eapply rtc_l; [by eapply mstep_action | apply IH].
Qed.
