(* ===== verification/Config.v ===== *)
(** * Configuration

    [Load] of backend/internal/config/config.go: the environment variables with
    their defaults and checks, and the parts of [time] and [log/slog] that parse
    durations and log levels. *)

From Stdlib Require Import Floats.SpecFloat.
From S2P Require Import Prelude GoStrings Headers Json.

(** ** [time.ParseDuration] *)

Definition two63 : Z := 2 ^ 63.

(** The value of the leading digits; [None] when it exceeds [1<<63]. *)
Fixpoint leadingInt (x : Z) (s : gostring) : option (Z * gostring) :=
  match s with
  | c :: t =>
      if is_digit c then
        if two63 / 10 <? x then None
        else
          let x := x * 10 + (byte_to_Z c - 48) in
          if two63 <? x then None else leadingInt x t
      else Some (x, s)
  | [] => Some (x, [])
  end.

(** The digits after the point as an integer, and the number of them that count. *)
Fixpoint leadingFraction (overflow : bool) (x : Z) (scale : nat) (s : gostring) : Z * nat * gostring :=
  match s with
  | c :: t =>
      if is_digit c then
        if overflow then leadingFraction true x scale t
        else if max_int64 / 10 <? x then leadingFraction true x scale t
        else
          let y := x * 10 + (byte_to_Z c - 48) in
          if two63 <? y then leadingFraction true x scale t else leadingFraction false y (S scale) t
      else (x, scale, s)
  | [] => (x, scale, [])
  end.

Definition Microsecond : Z := 1000.
Definition Millisecond : Z := 10 ^ 6.
Definition Hour : Z := 60 * Minute.

Definition unitMap (u : gostring) : option Z :=
  snd <$> (snd <$> list_find (fun p => p.1 = u)
    [($"ns", 1); ($"us", Microsecond); (EncodeRune 181 ++ $"s", Microsecond); (EncodeRune 956 ++ $"s", Microsecond);
     ($"ms", Millisecond); ($"s", Second); ($"m", Minute); ($"h", Hour)]).

Definition f64 (z : Z) : spec_float := binary_normalize 53 1024 z 0 false.

(** [scale *= 10], once for each digit. *)
Fixpoint scale_float (n : nat) : spec_float :=
  match n with O => f64 1 | S n => SFmul 53 1024 (scale_float n) (f64 10) end.

(** [uint64(x)] of a float that is not negative. *)
Definition truncate (x : spec_float) : Z :=
  match x with
  | S754_finite _ m e => if 0 <=? e then u64 (Z.pos m * 2 ^ e) else Z.pos m / 2 ^ (- e)
  | _ => 0
  end.

Definition point : byte := Byte.x2e.
Definition number_byte (c : byte) : bool := bool_decide (c = point) || is_digit c.

Fixpoint span_unit (s : gostring) : gostring * gostring :=
  match s with
  | c :: t => if number_byte c then ([], s) else let '(u, rest) := span_unit t in (c :: u, rest)
  | [] => ([], [])
  end.

(** One number with its unit, in nanoseconds, and the rest. *)
Definition duration_item (s : gostring) : option (Z * gostring) :=
  match s with
  | [] => None
  | c :: _ =>
      if negb (number_byte c) then None
      else
        '(v, s1) ← leadingInt 0 s;
        let pre := negb (Nat.eqb (length s1) (length s)) in
        let '(f, scale, post, s2) :=
          match s1 with
          | c :: t => if bool_decide (c = point) then
                        let '(f, scale, s2) := leadingFraction false 0 0 t in
                        (f, scale, negb (Nat.eqb (length s2) (length t)), s2)
                      else (0, O, false, s1)
          | [] => (0, O, false, s1)
          end in
        if negb pre && negb post then None
        else
          let '(u, rest) := span_unit s2 in
          if bool_decide (u = []) then None
          else
            unit ← unitMap u;
            if two63 / unit <? v then None
            else
              let v := v * unit in
              if 0 <? f then
                let v := u64 (v + truncate (SFmul 53 1024 (f64 f) (SFdiv 53 1024 (f64 unit) (scale_float scale)))) in
                if two63 <? v then None else Some (v, rest)
              else Some (v, rest)
  end.

(** The loop; every item takes at least a byte, so the length of the text is enough
    fuel. *)
Fixpoint duration_items (fuel : nat) (d : Z) (s : gostring) : option Z :=
  match s, fuel with
  | [], _ => Some d
  | _, O => None
  | _, S fuel =>
      '(v, rest) ← duration_item s;
      let d := u64 (d + v) in
      if two63 <? d then None else duration_items fuel d rest
  end.

Definition ParseDuration (s : gostring) : option Z :=
  let '(neg, t) :=
    match s with
    | c :: t => if bool_decide (c = Byte.x2d) then (true, t) else if bool_decide (c = Byte.x2b) then (false, t) else (false, s)
    | [] => (false, s)
    end in
  if bool_decide (t = $"0") then Some 0
  else if bool_decide (t = []) then None
  else
    d ← duration_items (length t) 0 t;
    if (neg : bool) then Some (- d) else if max_int64 <? d then None else Some d.

(** ** Log levels *)

Definition ToUpper (upper : Z -> Z) (s : gostring) : gostring :=
  if all_ascii s then to_upper_byte <$> s
  else concat ((fun r => EncodeRune (if r <? 128 then byte_to_Z (to_upper_byte (byte_of_Z r)) else upper r)) <$> runes s).

(** [strconv.Atoi] of a text that starts with a sign. *)
Definition Atoi_signed (s : gostring) : option Z :=
  match s with
  | sign :: ds =>
      if negb (forallb is_digit ds) || bool_decide (ds = []) then None
      else
        let z := if bool_decide (sign = Byte.x2d) then - digits_val ds else digits_val ds in
        if (min_int64 <=? z) && (z <=? max_int64) then Some z else None
  | [] => None
  end.

Fixpoint index_sign (s : gostring) : option nat :=
  match s with
  | [] => None
  | c :: s => if bool_decide (c = Byte.x2b) || bool_decide (c = Byte.x2d) then Some O else S <$> index_sign s
  end.

Definition level_name (name : gostring) : option Z :=
  if bool_decide (name = $"DEBUG") then Some (-4)
  else if bool_decide (name = $"INFO") then Some 0
  else if bool_decide (name = $"WARN") then Some 4
  else if bool_decide (name = $"ERROR") then Some 8 else None.

(** [Level.UnmarshalText]. *)
Definition parseLogLevel (upper : Z -> Z) (raw : gostring) : option Z :=
  '(name, offset) ← match index_sign raw with
                    | Some i => offset ← Atoi_signed (drop i raw); Some (take i raw, offset)
                    | None => Some (raw, 0)
                    end;
  base ← level_name (ToUpper upper name);
  Some (wrapu 64 (base + offset + two63) - two63).

(** ** [Load] *)

Record AuthConfig := mkAuthConfig {
  AccessSecret : gostring; RefreshSecret : gostring; AccessTokenTTL : Z; RefreshTokenTTL : Z
}.
Record Config := mkConfig {
  Environment : gostring; HTTPAddr : gostring; PublicBaseDomain : gostring; DatabaseURL : gostring; LogLevel : Z;
  CORSAllowedOrigins : list gostring; cf_Auth : AuthConfig; TunnelRequestTimeout : Z
}.

Inductive config_error := EmptyVariable (name : gostring) | InvalidVariable (name : gostring).

(** [os.Getenv]; an unset variable is empty. *)
Abbreviation environment := (gostring -> gostring).

Definition value (getenv : environment) (key fallback : gostring) : gostring :=
  let v := TrimSpace (getenv key) in if bool_decide (v <> []) then v else fallback.

Definition commaSeparated (raw : gostring) : list gostring :=
  filter (fun item => item <> []) (TrimSpace <$> split_byte Headers.comma raw).

(** A duration that must be positive. *)
Definition positive_duration (getenv : environment) (key fallback : gostring) : result config_error Z :=
  match ParseDuration (value getenv key fallback) with
  | None => Err (InvalidVariable key)
  | Some d => if d <=? 0 then Err (InvalidVariable key) else Ok d
  end.

Definition developmentOrigins : list gostring := [$"http://localhost:5173"; $"http://127.0.0.1:5173"].

Definition Load (upper : Z -> Z) (getenv : environment) : result config_error Config :=
  let environment_ := value getenv ($"APP_ENV") ($"development") in
  let httpAddr := value getenv ($"HTTP_ADDR") ($":8080") in
  let publicBaseDomain := value getenv ($"PUBLIC_BASE_DOMAIN") ($"tunnel.example.test") in
  let databaseURL := TrimSpace (getenv ($"DATABASE_URL")) in
  let accessSecret := value getenv ($"JWT_ACCESS_SECRET") ($"development-access-secret-change-me") in
  let refreshSecret := value getenv ($"JWT_REFRESH_SECRET") ($"development-refresh-secret-change-me") in
  if bool_decide (httpAddr = []) then Err (EmptyVariable ($"HTTP_ADDR"))
  else if bool_decide (publicBaseDomain = []) then Err (EmptyVariable ($"PUBLIC_BASE_DOMAIN"))
  else match parseLogLevel upper (value getenv ($"LOG_LEVEL") ($"info")) with
  | None => Err (InvalidVariable ($"LOG_LEVEL"))
  | Some level =>
      let origins := commaSeparated (getenv ($"CORS_ALLOWED_ORIGINS")) in
      let origins := if bool_decide (origins = []) && bool_decide (environment_ = $"development") then developmentOrigins else origins in
      accessTTL ← positive_duration getenv ($"ACCESS_TOKEN_TTL") ($"15m");
      refreshTTL ← positive_duration getenv ($"REFRESH_TOKEN_TTL") ($"720h");
      timeout ← positive_duration getenv ($"TUNNEL_REQUEST_TIMEOUT") ($"30s");
      Ok (mkConfig environment_ httpAddr publicBaseDomain databaseURL level origins
            (mkAuthConfig accessSecret refreshSecret accessTTL refreshTTL) timeout)
  end.

(** ** Properties *)

Lemma ParseDuration_upper s d : ParseDuration s = Some d -> d <= max_int64.
Proof.
  unfold ParseDuration. assert (Hpos : forall fuel x t d, 0 <= x -> duration_items fuel x t = Some d -> 0 <= d).
  { induction fuel as [|fuel IH]; intros x [|c t] d0 Hx; cbn [duration_items]; [by intros [= <-] | done | by intros [= <-] |].
    destruct (duration_item (c :: t)) as [[v rest]|]; [|done]. cbn. destruct (two63 <? _); [done |]. apply IH.
    pose proof (wrapu_fits 64 (x + v) ltac:(lia)) as [? _]. done. }
  destruct (match s with [] => _ | _ => _ end) as [neg t]. case_bool_decide; [intros [= <-]; vm_compute; discriminate |].
  case_bool_decide; [done |]. destruct (duration_items (length t) 0 t) as [d0|] eqn:Hd; [|done]. cbn. apply Hpos in Hd; [|done].
  destruct neg; [intros [= <-]; unfold max_int64; lia |]. destruct (max_int64 <? d0) eqn:Hm; [done |]. intros [= <-]. by apply Z.ltb_ge.
Qed.

Lemma value_nonempty getenv key fallback : fallback <> [] -> value getenv key fallback <> [].
Proof. intros Hf. unfold value. cbv zeta. by case_bool_decide. Qed.

Lemma value_unset getenv key fallback : TrimSpace (getenv key) = [] -> value getenv key fallback = fallback.
Proof. intros H. unfold value. cbv zeta. rewrite H. by rewrite bool_decide_eq_false_2 by auto. Qed.

Lemma positive_duration_cases getenv key fallback :
  (exists d, ParseDuration fallback = Some d /\ 0 < d) ->
  match positive_duration getenv key fallback with
  | Ok d => 0 < d <= max_int64 /\ ParseDuration (value getenv key fallback) = Some d
  | Err e => e = InvalidVariable key /\ TrimSpace (getenv key) <> []
      /\ forall d, ParseDuration (TrimSpace (getenv key)) = Some d -> d <= 0
  end.
Proof.
  intros (d0 & Hd0 & Hpos). unfold positive_duration.
  assert (Hset : forall k, value getenv key fallback <> k -> k = fallback -> TrimSpace (getenv key) <> [] /\ value getenv key fallback = TrimSpace (getenv key)).
  { intros k Hne ->. unfold value in *. cbv zeta in *. case_bool_decide; done. }
  destruct (ParseDuration (value getenv key fallback)) as [d|] eqn:Hd.
  - destruct (d <=? 0) eqn:Hle.
    + destruct (Hset fallback) as [H1 H2]; [intros Heq; rewrite Heq in Hd; simplify_eq; lia | done |].
      split_and!; [done | done |]. rewrite <- H2, Hd. intros d1 [= <-]. lia.
    + apply ParseDuration_upper in Hd as Hu. split; [lia | done].
  - destruct (Hset fallback) as [H1 H2]; [congruence | done |]. split_and!; [done | done |]. by rewrite <- H2, Hd.
Qed.

Lemma default_durations :
  (exists d, ParseDuration ($"15m") = Some d /\ 0 < d) /\ (exists d, ParseDuration ($"720h") = Some d /\ 0 < d)
  /\ (exists d, ParseDuration ($"30s") = Some d /\ 0 < d).
Proof. split_and!; eexists; (split; [vm_compute; reflexivity | reflexivity]). Qed.

#[local] Arguments ParseDuration : simpl never.
#[local] Opaque ParseDuration.

Definition parsed_variables : list gostring := [$"LOG_LEVEL"; $"ACCESS_TOKEN_TTL"; $"REFRESH_TOKEN_TTL"; $"TUNNEL_REQUEST_TIMEOUT"].

Lemma origins_nonempty raw (b : bool) : [] ∉ (if b then developmentOrigins else commaSeparated raw).
Proof.
  destruct b; [by apply (bool_decide_unpack ([] ∉ developmentOrigins)) |]. unfold commaSeparated. intros [H _]%list_elem_of_filter. done.
Qed.

Lemma level_default upper getenv : parseLogLevel upper (value getenv ($"LOG_LEVEL") ($"info")) = None ->
  TrimSpace (getenv ($"LOG_LEVEL")) <> [] /\ parseLogLevel upper (TrimSpace (getenv ($"LOG_LEVEL"))) = None.
Proof. unfold value. cbv zeta. case_bool_decide as H; [done |]. intros Hn. discriminate Hn. Qed.

(** The configuration is accepted or the variable at fault is named: a
    configuration that is returned has an address, a base domain and secrets that are
    not empty, positive durations that fit, and origins that are not empty; an error
    names one of the four variables that are parsed, which is then set, to a value
    that does not parse or, for a duration, is not positive.  The checks for an empty
    address or domain never fail, and nothing else is required: with those four unset,
    the configuration is accepted in every environment, with the secrets of
    development when none are set. *)
Theorem load_checked (upper : Z -> Z) (getenv : environment) :
  match Load upper getenv with
  | Ok cfg =>
      HTTPAddr cfg <> [] /\ PublicBaseDomain cfg <> [] /\ AccessSecret (cf_Auth cfg) <> [] /\ RefreshSecret (cf_Auth cfg) <> []
      /\ 0 < AccessTokenTTL (cf_Auth cfg) <= max_int64 /\ 0 < RefreshTokenTTL (cf_Auth cfg) <= max_int64
      /\ 0 < TunnelRequestTimeout cfg <= max_int64 /\ [] ∉ CORSAllowedOrigins cfg
  | Err (InvalidVariable name) =>
      name ∈ parsed_variables /\ TrimSpace (getenv name) <> []
      /\ (if bool_decide (name = $"LOG_LEVEL") then parseLogLevel upper (TrimSpace (getenv name)) = None
          else forall d, ParseDuration (TrimSpace (getenv name)) = Some d -> d <= 0)
  | Err (EmptyVariable _) => False
  end
  /\ ((forall name, name ∈ parsed_variables -> TrimSpace (getenv name) = []) ->
      exists cfg, Load upper getenv = Ok cfg
        /\ Environment cfg = value getenv ($"APP_ENV") ($"development")
        /\ AccessSecret (cf_Auth cfg) = value getenv ($"JWT_ACCESS_SECRET") ($"development-access-secret-change-me")
        /\ RefreshSecret (cf_Auth cfg) = value getenv ($"JWT_REFRESH_SECRET") ($"development-refresh-secret-change-me")).
Proof.
  split.
  - unfold Load. cbv zeta. rewrite !(bool_decide_eq_false_2 (value _ _ _ = [])) by (by apply value_nonempty).
    destruct (parseLogLevel _ _) as [level|] eqn:Hlevel.
    2:{ apply level_default in Hlevel as [H1 H2]. split_and!; [left | done | by rewrite bool_decide_eq_true_2]. }
    destruct default_durations as (D1 & D2 & D3).
    pose proof (positive_duration_cases getenv ($"ACCESS_TOKEN_TTL") ($"15m") D1) as H1.
    pose proof (positive_duration_cases getenv ($"REFRESH_TOKEN_TTL") ($"720h") D2) as H2.
    pose proof (positive_duration_cases getenv ($"TUNNEL_REQUEST_TIMEOUT") ($"30s") D3) as H3.
    destruct (positive_duration getenv ($"ACCESS_TOKEN_TTL") _) as [d1|e1]; cbn [mbind result_bind].
    2:{ destruct H1 as (-> & H & H'). split_and!; [right; left | done | by rewrite bool_decide_eq_false_2]. }
    destruct (positive_duration getenv ($"REFRESH_TOKEN_TTL") _) as [d2|e2]; cbn [mbind result_bind].
    2:{ destruct H2 as (-> & H & H'). split_and!; [do 2 right; left | done | by rewrite bool_decide_eq_false_2]. }
    destruct (positive_duration getenv ($"TUNNEL_REQUEST_TIMEOUT") _) as [d3|e3]; cbn [mbind result_bind].
    2:{ destruct H3 as (-> & H & H'). split_and!; [do 3 right; left | done | by rewrite bool_decide_eq_false_2]. }
    cbn. destruct H1 as [H1 _], H2 as [H2 _], H3 as [H3 _].
    split_and!; try (by apply value_nonempty); try lia. apply origins_nonempty.
  - intros Hunset. unfold Load. cbv zeta. rewrite !(bool_decide_eq_false_2 (value _ _ _ = [])) by (by apply value_nonempty).
    rewrite (value_unset getenv ($"LOG_LEVEL")) by (apply Hunset; left). unfold positive_duration.
    rewrite (value_unset getenv ($"ACCESS_TOKEN_TTL")) by (apply Hunset; right; left).
    rewrite (value_unset getenv ($"REFRESH_TOKEN_TTL")) by (apply Hunset; do 2 right; left).
    rewrite (value_unset getenv ($"TUNNEL_REQUEST_TIMEOUT")) by (apply Hunset; do 3 right; left).
    destruct default_durations as ((d1 & H1 & H1') & (d2 & H2 & H2') & (d3 & H3 & H3')). rewrite H1, H2, H3.
    rewrite !(proj2 (Z.leb_gt _ _)) by lia. change (parseLogLevel upper ($"info")) with (Some 0). cbn [mbind result_bind].
    eexists. split; [reflexivity | split_and!; reflexivity].
Qed.
