(* ===== verification/Tables.v ===== *)
(** * The gateway's tables

    The schema of backend/migrations/002_create_auth.up.sql to
    006_create_traffic_totals.up.sql as finite maps from primary keys to rows,
    the effect of a statement sent through the connection pool, and the
    well-formedness that the declared constraints ensure.  A statement is atomic:
    it returns its result with the new tables or fails and leaves them alone. *)

From stdpp Require Import sorting.
From S2P Require Import Prelude GoStrings Json Effects.
From S2P Require PublicHost.

(** ** Column types *)

(** The server's reading of a [uuid] and of an [inet] value from text. *)
Class Postgres := {
  uuid_in : gostring -> option gostring;
  inet_in : gostring -> option gostring
}.

(** The text of a [uuid] column is not empty and a fixed point: [id::text] sent
    back as a parameter selects the same row. *)
Class PostgresLaws `{Postgres} : Prop := {
  uuid_canonical s u : uuid_in s = Some u -> uuid_in u = Some u;
  uuid_text s u : uuid_in s = Some u -> u <> [] /\ valid_utf8 u
}.

(** [TEXT]: UTF-8 without the zero byte. *)
Definition pg_text (s : gostring) : bool := bool_decide (valid_utf8 s) && negb (contains_byte s Byte.x00).

(** [VARCHAR(n)]: at most [n] characters, excess spaces cut off. *)
Definition varchar_in (n : nat) (s : gostring) : option gostring :=
  if negb (pg_text s) then None
  else if (length (runes s) <=? n)%nat then Some s
  else if forallb (fun r => r =? 32) (drop n (runes s)) then Some (concat (EncodeRune <$> take n (runes s)))
  else None.

(** [TIMESTAMPTZ] has microseconds; [NOW()] is the time the statement started. *)
Definition timestamptz (t : Z) : Z := t / 1000 * 1000.
Definition NOW (a : answer) : Z := timestamptz (a_now a).

(** [gen_random_uuid()], as the text of the column. *)
Definition new_id `{Postgres} (a : answer) : option gostring := uuid_in (a_uuid a).

(** ** Rows *)

Record user_row := mkUserRow {
  u_email : gostring; u_password_hash : gostring; u_status : gostring;
  u_created_at : Z; u_updated_at : Z; u_last_login_at : option Z
}.

Record refresh_row := mkRefreshRow {
  rt_user_id : gostring; rt_token_hash : gostring; rt_expires_at : Z; rt_revoked_at : option Z;
  rt_created_at : Z; rt_user_agent : option gostring; rt_ip_address : option gostring
}.

Record agent_token_row := mkAgentTokenRow {
  at_user_id : gostring; at_name : gostring; at_token_prefix : gostring; at_token_hash : gostring;
  at_created_at : Z; at_last_used_at : option Z; at_expires_at : option Z; at_revoked_at : option Z
}.

Record agent_row := mkAgentRow {
  ag_user_id : gostring; ag_agent_token_id : gostring; ag_instance_id : gostring; ag_hostname : gostring;
  ag_os : gostring; ag_arch : gostring; ag_agent_version : gostring; ag_connected : bool;
  ag_connected_at : option Z; ag_disconnected_at : option Z; ag_last_seen_at : option Z;
  ag_created_at : Z; ag_updated_at : Z
}.

Record tunnel_row := mkTunnelRow {
  tn_user_id : gostring; tn_agent_id : gostring; tn_subdomain : gostring; tn_local_address : gostring;
  tn_protocol : gostring; tn_status : gostring; tn_opened_at : option Z; tn_closed_at : option Z;
  tn_created_at : Z; tn_updated_at : Z
}.

Record traffic_row := mkTrafficRow {
  tr_requests_total : Z; tr_request_bytes : Z; tr_response_bytes : Z; tr_updated_at : Z
}.

Abbreviation table R := (gmap gostring R).

Record database := mkDatabase {
  users : table user_row;
  refresh_tokens : table refresh_row;
  agent_tokens : table agent_token_row;
  agents : table agent_row;
  tunnels : table tunnel_row;
  traffic_totals : table traffic_row
}.

Definition empty_database : database := mkDatabase ∅ ∅ ∅ ∅ ∅ ∅.

Definition set_users (t : table user_row) (d : database) : database :=
  mkDatabase t (refresh_tokens d) (agent_tokens d) (agents d) (tunnels d) (traffic_totals d).
Definition set_refresh_tokens (t : table refresh_row) (d : database) : database :=
  mkDatabase (users d) t (agent_tokens d) (agents d) (tunnels d) (traffic_totals d).
Definition set_agent_tokens (t : table agent_token_row) (d : database) : database :=
  mkDatabase (users d) (refresh_tokens d) t (agents d) (tunnels d) (traffic_totals d).
Definition set_agents (t : table agent_row) (d : database) : database :=
  mkDatabase (users d) (refresh_tokens d) (agent_tokens d) t (tunnels d) (traffic_totals d).
Definition set_tunnels (t : table tunnel_row) (d : database) : database :=
  mkDatabase (users d) (refresh_tokens d) (agent_tokens d) (agents d) t (traffic_totals d).
Definition set_traffic_totals (t : table traffic_row) (d : database) : database :=
  mkDatabase (users d) (refresh_tokens d) (agent_tokens d) (agents d) (tunnels d) t.

(** ** Statements *)

(** [pgx.ErrNoRows], or any other error with its text. *)
Inductive dberr :=
| NoRows
| PgError (text : gostring).

Definition dq : gostring := [Byte.x22].
Definition unique_violation (constraint : gostring) : dberr :=
  PgError ($"ERROR: duplicate key value violates unique constraint " ++ dq ++ constraint ++ dq
           ++ $" (SQLSTATE 23505)").
Definition foreign_key_violation (tbl constraint : gostring) : dberr :=
  PgError ($"ERROR: insert or update on table " ++ dq ++ tbl ++ dq
           ++ $" violates foreign key constraint " ++ dq ++ constraint ++ dq ++ $" (SQLSTATE 23503)").
Definition bad_text : dberr := PgError ($"ERROR: invalid byte sequence for encoding (SQLSTATE 22021)").
Definition too_long : dberr := PgError ($"ERROR: value too long for type character varying (SQLSTATE 22001)").
Definition bad_uuid : dberr := PgError ($"ERROR: invalid input syntax for type uuid (SQLSTATE 22P02)").
Definition bad_inet : dberr := PgError ($"ERROR: invalid input syntax for type inet (SQLSTATE 22P02)").
Definition out_of_range : dberr := PgError ($"ERROR: bigint out of range (SQLSTATE 22003)").

Definition or_else {A} (e : dberr) (o : option A) : result dberr A :=
  match o with Some x => Ok x | None => Err e end.
Definition check (b : bool) (e : dberr) : result dberr unit := if b then Ok tt else Err e.

Definition absent {A} (o : option A) : bool := match o with None => true | Some _ => false end.

(** A statement computes its result and the new tables from the answer. *)
Abbreviation stmt A := (answer -> database -> result dberr (A * database)).

Definition exec {A : Set} (f : stmt A) : prog database (result dberr A) :=
  action (fun a d =>
    match a_fault a with
    | Some (NotExecuted text) => (Err (PgError text), d)
    | Some (ReplyLost text) =>
        (Err (PgError text), match f a d with Ok (_, d') => d' | Err _ => d end)
    | None => match f a d with Ok (x, d') => (Ok x, d') | Err e => (Err e, d) end
    end).

Lemma run_exec {A : Set} env n (f : stmt A) d x d' :
  a_fault (env n) = None -> f (env n) d = Ok (x, d') -> run env n (exec f) d = (Ok x, d', S n).
Proof. intros Hf Hx. unfold exec. rewrite run_action. cbn beta. by rewrite Hf, Hx. Qed.

(** A statement that succeeded had no fault, took effect and gave its result. *)
Lemma run_exec_Ok {A : Set} env n (f : stmt A) d x d' n' :
  run env n (exec f) d = (Ok x, d', n') -> a_fault (env n) = None /\ f (env n) d = Ok (x, d') /\ n' = S n.
Proof.
  unfold exec. rewrite run_action. cbn beta.
  destruct (a_fault (env n)) as [[t|t]|]; [by intros [=] | by intros [=] |].
  destruct (f (env n) d) as [[y d1]|e]; intros [=]; by subst.
Qed.

(** A failed statement may still have taken effect. *)
Lemma run_exec_Err {A : Set} env n (f : stmt A) d e d' n' :
  run env n (exec f) d = (Err e, d', n') -> d' = d \/ exists x, f (env n) d = Ok (x, d').
Proof.
  unfold exec. rewrite run_action. cbn beta.
  destruct (a_fault (env n)) as [[t|t]|]; [by intros [=]; left | |];
    destruct (f (env n) d) as [[y d1]|e']; intros [=]; subst; eauto.
Qed.

Section rows.
Context {R : Type}.

(** [SELECT ... WHERE P]: the first row of the result; [P] is unique on every
    column the program selects by. *)
Definition find_row (P : R -> Prop) `{!forall r, Decision (P r)} (t : table R) : option (gostring * R) :=
  head (filter (fun p => P p.2) (map_to_list t)).

(** [UPDATE ... SET f WHERE P]. *)
Definition update_where (P : R -> Prop) `{!forall r, Decision (P r)} (f : R -> R) (t : table R) : table R :=
  (fun r => if decide (P r) then f r else r) <$> t.

(** [UPDATE ... SET f WHERE id = ...]. *)
Definition update_id (id : gostring) (P : R -> Prop) `{!forall r, Decision (P r)} (f : R -> R) (t : table R) : table R :=
  match t !! id with
  | Some r => if decide (P r) then <[id := f r]> t else t
  | None => t
  end.

(** [INSERT]: the primary key is checked here, the other constraints by the
    statement. *)
Definition insert_row (pkey : gostring) (id : gostring) (r : R) (t : table R) : result dberr (table R) :=
  match t !! id with
  | Some _ => Err (unique_violation pkey)
  | None => Ok (<[id := r]> t)
  end.

(** [SELECT ... WHERE P ORDER BY key DESC]; rows with equal keys come in no
    particular order. *)
Definition later (key : R -> option Z) (x y : gostring * R) : Prop :=
  match key x.2, key y.2 with
  | Some a, Some b => b <= a
  | None, Some _ => False
  | _, None => True
  end.
#[global] Instance later_dec key : RelDecision (later key).
Proof. intros x y. unfold later. destruct (key x.2), (key y.2); apply _. Defined.

Definition select_desc (P : R -> Prop) `{!forall r, Decision (P r)} (key : R -> option Z) (t : table R) :
    list (gostring * R) :=
  merge_sort (later key) (filter (fun p => P p.2) (map_to_list t)).

(** *** What they do *)

Context (P : R -> Prop) {dec_P : forall r, Decision (P r)}.

Lemma find_row_Some t id r : find_row P t = Some (id, r) -> t !! id = Some r /\ P r.
Proof.
  unfold find_row. intros H%head_Some_elem_of. apply list_elem_of_filter in H as [HP Hin].
  apply elem_of_map_to_list in Hin. auto.
Qed.

Lemma find_row_None t : find_row P t = None <-> forall id r, t !! id = Some r -> ~ P r.
Proof.
  unfold find_row. rewrite head_None. split.
  - intros H id r Hr HP. assert (Hin : (id, r) ∈ filter (fun p => P p.2) (map_to_list t)).
    { apply list_elem_of_filter. split; [done | by apply elem_of_map_to_list]. }
    rewrite H in Hin. by apply elem_of_nil in Hin.
  - intros H. apply elem_of_nil_inv. intros [id r] [HP Hin]%list_elem_of_filter.
    apply elem_of_map_to_list in Hin. by eapply H.
Qed.

(** The row a unique column selects. *)
Lemma find_row_unique t id r :
  t !! id = Some r -> P r -> (forall id' r', t !! id' = Some r' -> P r' -> id' = id) ->
  find_row P t = Some (id, r).
Proof.
  intros Hr HP Hu. destruct (find_row P t) as [[id' r']|] eqn:Hf.
  - apply find_row_Some in Hf as [Hr' HP']. assert (id' = id) as -> by eauto. congruence.
  - by destruct (proj1 (find_row_None t) Hf id r Hr HP).
Qed.

Lemma lookup_update_where f t id :
  update_where P f t !! id = (fun r => if decide (P r) then f r else r) <$> t !! id.
Proof. unfold update_where. by rewrite lookup_fmap. Qed.

Lemma lookup_update_id id f t id' :
  update_id id P f t !! id'
  = (fun r => if decide (id' = id /\ P r) then f r else r) <$> t !! id'.
Proof.
  unfold update_id. destruct (t !! id) as [r|] eqn:Hr.
  - destruct (decide (P r)) as [HP|HP].
    + destruct (decide (id' = id)) as [->|Hne].
      * rewrite lookup_insert_eq, Hr. cbn. by rewrite decide_True.
      * rewrite lookup_insert_ne by done. destruct (t !! id'); [|done]. cbn. rewrite decide_False by tauto. done.
    + destruct (t !! id') as [r'|] eqn:Hr'; [|done]. cbn. rewrite decide_False; [done |]. intros [-> ?]. congruence.
  - destruct (t !! id') as [r'|] eqn:Hr'; [|done]. cbn. rewrite decide_False; [done |]. intros [-> ?]. congruence.
Qed.

Lemma insert_row_Ok pkey id r t t' : insert_row pkey id r t = Ok t' <-> t !! id = None /\ t' = <[id := r]> t.
Proof. unfold insert_row. destruct (t !! id); split; intros; simplify_eq; try done; naive_solver. Qed.

#[global] Instance later_total key : Total (later key).
Proof. intros x y. unfold later. destruct (key x.2), (key y.2); auto. lia. Qed.
#[global] Instance later_trans key : Transitive (later key).
Proof. intros x y z. unfold later. destruct (key x.2), (key y.2), (key z.2); try done. lia. Qed.

Lemma select_desc_elem key t id r : (id, r) ∈ select_desc P key t <-> t !! id = Some r /\ P r.
Proof.
  unfold select_desc. rewrite merge_sort_Permutation, list_elem_of_filter, elem_of_map_to_list. naive_solver.
Qed.

Lemma select_desc_NoDup key t : NoDup (select_desc P key t).*1.
Proof.
  unfold select_desc. rewrite merge_sort_Permutation. eapply sublist_NoDup; [apply (NoDup_fst_map_to_list t) |].
  apply fmap_sublist, sublist_filter.
Qed.

Lemma select_desc_sorted key t : Sorted (later key) (select_desc P key t).
Proof. apply Sorted_merge_sort, _. Qed.

(** The row with the largest key comes first. *)
Lemma select_desc_head key t id r :
  t !! id = Some r -> P r ->
  (forall id' r', t !! id' = Some r' -> P r' -> id' <> id -> ~ later key (id', r') (id, r)) ->
  head (select_desc P key t) = Some (id, r).
Proof.
  intros Hr HP Hmax. pose proof (proj2 (select_desc_elem key t id r) (conj Hr HP)) as Hin.
  assert (Hs : StronglySorted (later key) (select_desc P key t)) by (apply Sorted_StronglySorted, select_desc_sorted; apply _).
  destruct (select_desc P key t) as [|[id' r'] l] eqn:Hl; [by apply elem_of_nil in Hin |]. cbn.
  assert (Hr' : t !! id' = Some r' /\ P r') by (apply (select_desc_elem key); rewrite Hl; left).
  destruct Hr' as [Hr' HP']. destruct (decide (id' = id)) as [->|Hne]; [congruence |]. exfalso.
  apply (Hmax _ _ Hr' HP' Hne). apply elem_of_cons in Hin as [Heq|Hin]; [congruence |].
  inversion Hs as [|? ? _ Hall]; subst. by eapply list.Forall_forall in Hall.
Qed.
End rows.

(** ** Constraints *)

Definition unique_on {R K : Type} (f : R -> K) (t : table R) : Prop :=
  forall i j r s, t !! i = Some r -> t !! j = Some s -> f r = f s -> i = j.
Definition refers {R Q : Type} (f : R -> gostring) (t : table R) (u : table Q) : Prop :=
  forall i r, t !! i = Some r -> is_Some (u !! f r).
Definition all_rows {R : Type} (P : R -> Prop) (t : table R) : Prop := forall i r, t !! i = Some r -> P r.

Definition bigint (z : Z) : Prop := min_int64 <= z <= max_int64.
#[global] Instance bigint_dec z : Decision (bigint z).
Proof. unfold bigint. apply _. Defined.

Definition user_statuses : list gostring := [$"active"; $"disabled"; $"deleted"].
Definition tunnel_statuses : list gostring := [$"open"; $"closed"].

(** The primary keys are texts of [uuid]s. *)
Definition canonical_ids `{Postgres} {R : Type} (t : table R) : Prop := forall i r, t !! i = Some r -> uuid_in i = Some i.

Definition is_label (s : gostring) : Prop := s <> [] /\ forallb PublicHost.label_byte s = true.

(** The declared constraints, and the facts the statements add: an agent was
    registered with a token of its user, a tunnel belongs to the user of its agent,
    and its subdomain is a host label. *)
Record schema_ok `{Postgres} (d : database) : Prop := {
  ok_user_ids : canonical_ids (users d);
  ok_token_ids : canonical_ids (agent_tokens d);
  ok_agent_ids : canonical_ids (agents d);
  ok_email : unique_on u_email (users d);
  ok_user_status : all_rows (fun r => u_status r ∈ user_statuses) (users d);
  ok_refresh_hash : unique_on rt_token_hash (refresh_tokens d);
  ok_refresh_user : refers rt_user_id (refresh_tokens d) (users d);
  ok_token_hash : unique_on at_token_hash (agent_tokens d);
  ok_token_user : refers at_user_id (agent_tokens d) (users d);
  ok_agent_instance : unique_on (fun r => (ag_user_id r, ag_instance_id r)) (agents d);
  ok_agent_token : all_rows (fun r => at_user_id <$> agent_tokens d !! ag_agent_token_id r = Some (ag_user_id r)) (agents d);
  ok_agent_user : refers ag_user_id (agents d) (users d);
  ok_subdomain : unique_on tn_subdomain (tunnels d);
  ok_label : all_rows (fun r => is_label (tn_subdomain r)) (tunnels d);
  ok_tunnel_agent : all_rows (fun r => ag_user_id <$> agents d !! tn_agent_id r = Some (tn_user_id r)) (tunnels d);
  ok_tunnel_user : refers tn_user_id (tunnels d) (users d);
  ok_tunnel_status : all_rows (fun r => tn_status r ∈ tunnel_statuses) (tunnels d);
  ok_traffic_user : forall i, is_Some (traffic_totals d !! i) -> is_Some (users d !! i);
  ok_traffic_range : all_rows (fun r => bigint (tr_requests_total r) /\ bigint (tr_request_bytes r)
                                        /\ bigint (tr_response_bytes r)) (traffic_totals d)
}.

Lemma empty_schema_ok `{Postgres} : schema_ok empty_database.
Proof. split; intros i; intros; unfold is_Some in *; cbn in *; destruct_and?; try done; naive_solver. Qed.

(** *** Constraints under inserts and updates *)

Lemma canonical_insert `{Postgres} `{!PostgresLaws} {R : Type} (t : table R) (a : answer) (id : gostring) (r : R) :
  canonical_ids t -> new_id a = Some id -> canonical_ids (<[id := r]> t).
Proof. intros Ht Hid i s [[<- _]|[_ Hs]]%lookup_insert_Some; [by eapply uuid_canonical | by eapply Ht]. Qed.

Lemma canonical_map `{Postgres} {R : Type} (t t' : table R) :
  canonical_ids t -> (forall i, is_Some (t' !! i) -> is_Some (t !! i)) -> canonical_ids t'.
Proof. intros Ht Hm i r Hr. destruct (Hm i) as [r0 Hr0]; [by eexists | by eapply Ht]. Qed.

Lemma unique_on_insert {R K : Type} (f : R -> K) t id r :
  unique_on f t -> (forall i s, t !! i = Some s -> f s <> f r) -> unique_on f (<[id := r]> t).
Proof.
  intros Hu Hf i j a b Hi Hj Heq. apply lookup_insert_Some in Hi as [[<- <-]|[Hi1 Hi2]], Hj as [[<- <-]|[Hj1 Hj2]];
    [done | | | by eapply Hu]; exfalso; [eapply (Hf j b) | eapply (Hf i a)]; congruence.
Qed.

Lemma unique_on_map {R K : Type} (f : R -> K) t t' :
  unique_on f t -> (forall i r, t' !! i = Some r -> exists s, t !! i = Some s /\ f s = f r) -> unique_on f t'.
Proof.
  intros Hu Ht i j r s Hr Hs Heq. destruct (Ht _ _ Hr) as (r0 & Hr0 & Hfr), (Ht _ _ Hs) as (s0 & Hs0 & Hfs).
  eapply Hu; [exact Hr0 | exact Hs0 | congruence].
Qed.

Lemma refers_insert {R Q : Type} (f : R -> gostring) (t : table R) (u : table Q) id r :
  refers f t u -> is_Some (u !! f r) -> refers f (<[id := r]> t) u.
Proof. intros H Hr i s [[<- <-]|[_ Hs]]%lookup_insert_Some; [done | by eapply H]. Qed.

Lemma refers_grow {R Q : Type} (f : R -> gostring) (t : table R) (u u' : table Q) :
  refers f t u -> (forall i, is_Some (u !! i) -> is_Some (u' !! i)) -> refers f t u'.
Proof. intros H Hu i r Hr. eauto. Qed.

Lemma all_rows_insert {R : Type} (P : R -> Prop) t id r : all_rows P t -> P r -> all_rows P (<[id := r]> t).
Proof. intros H Hr i s [[<- <-]|[_ Hs]]%lookup_insert_Some; [done | by eapply H]. Qed.

Lemma all_rows_map {R : Type} (P : R -> Prop) t t' :
  all_rows P t -> (forall i r, t' !! i = Some r -> exists s, t !! i = Some s /\ (P s -> P r)) -> all_rows P t'.
Proof. intros H Ht i r Hr. destruct (Ht _ _ Hr) as (s & Hs & HP). eauto. Qed.

Lemma update_where_inv {R : Type} (P : R -> Prop) `{!forall r, Decision (P r)} (f : R -> R) (t : table R) i r :
  update_where P f t !! i = Some r -> exists s, t !! i = Some s /\ (r = s \/ (P s /\ r = f s)).
Proof.
  rewrite lookup_update_where. destruct (t !! i) as [s|]; [|done]. cbn. intros [= <-]. exists s.
  split; [done |]. case_decide; auto.
Qed.

Lemma update_id_inv {R : Type} (P : R -> Prop) `{!forall r, Decision (P r)} (id : gostring) (f : R -> R) (t : table R) i r :
  update_id id P f t !! i = Some r -> exists s, t !! i = Some s /\ (r = s \/ (i = id /\ P s /\ r = f s)).
Proof.
  rewrite lookup_update_id. destruct (t !! i) as [s|]; [|done]. cbn. intros [= <-]. exists s.
  split; [done |]. case_decide; naive_solver.
Qed.

(** ** How the tables evolve

    No statement of the program deletes a row or changes who owns it; what is
    revoked stays revoked. *)

Definition persists {R : Type} (rel : R -> R -> Prop) (t t' : table R) : Prop :=
  forall i r, t !! i = Some r -> exists r', t' !! i = Some r' /\ rel r r'.

Definition user_evolves (r r' : user_row) : Prop :=
  u_email r' = u_email r /\ u_password_hash r' = u_password_hash r /\ u_status r' = u_status r.
Definition refresh_evolves (r r' : refresh_row) : Prop :=
  rt_user_id r' = rt_user_id r /\ rt_token_hash r' = rt_token_hash r /\ rt_expires_at r' = rt_expires_at r
  /\ (is_Some (rt_revoked_at r) -> is_Some (rt_revoked_at r')).
Definition token_evolves (r r' : agent_token_row) : Prop :=
  at_user_id r' = at_user_id r /\ at_name r' = at_name r /\ at_token_hash r' = at_token_hash r
  /\ at_expires_at r' = at_expires_at r /\ (is_Some (at_revoked_at r) -> is_Some (at_revoked_at r')).
Definition agent_evolves (r r' : agent_row) : Prop :=
  ag_user_id r' = ag_user_id r /\ ag_instance_id r' = ag_instance_id r.
Definition tunnel_evolves (r r' : tunnel_row) : Prop :=
  tn_user_id r' = tn_user_id r /\ tn_agent_id r' = tn_agent_id r /\ tn_subdomain r' = tn_subdomain r
  /\ tn_local_address r' = tn_local_address r.
Definition traffic_evolves (r r' : traffic_row) : Prop :=
  tr_requests_total r <= tr_requests_total r' /\ tr_request_bytes r <= tr_request_bytes r'
  /\ tr_response_bytes r <= tr_response_bytes r'.

#[global] Instance user_evolves_po : PreOrder user_evolves.
Proof. unfold user_evolves. split; [by intros r | intros r s t; intuition congruence]. Qed.
#[global] Instance refresh_evolves_po : PreOrder refresh_evolves.
Proof. unfold refresh_evolves. split; [by intros r | intros r s t; intuition congruence]. Qed.
#[global] Instance token_evolves_po : PreOrder token_evolves.
Proof. unfold token_evolves. split; [by intros r | intros r s t; intuition congruence]. Qed.
#[global] Instance agent_evolves_po : PreOrder agent_evolves.
Proof. unfold agent_evolves. split; [by intros r | intros r s t; intuition congruence]. Qed.
#[global] Instance tunnel_evolves_po : PreOrder tunnel_evolves.
Proof. unfold tunnel_evolves. split; [by intros r | intros r s t; intuition congruence]. Qed.
#[global] Instance traffic_evolves_po : PreOrder traffic_evolves.
Proof. unfold traffic_evolves. split; [intros r; lia | intros r s t; lia]. Qed.

#[global] Instance persists_po {R : Type} (rel : R -> R -> Prop) : PreOrder rel -> PreOrder (persists rel).
Proof.
  intros Hpo. split.
  - intros t i r Hr. exists r. split; [done | reflexivity].
  - intros t1 t2 t3 H12 H23 i r Hr. destruct (H12 _ _ Hr) as (r2 & Hr2 & H1). destruct (H23 _ _ Hr2) as (r3 & Hr3 & H2).
    exists r3. split; [done | by etrans].
Qed.

Record evolves (d d' : database) : Prop := {
  ev_users : persists user_evolves (users d) (users d');
  ev_refresh : persists refresh_evolves (refresh_tokens d) (refresh_tokens d');
  ev_tokens : persists token_evolves (agent_tokens d) (agent_tokens d');
  ev_agents : persists agent_evolves (agents d) (agents d');
  ev_tunnels : persists tunnel_evolves (tunnels d) (tunnels d');
  ev_traffic : persists traffic_evolves (traffic_totals d) (traffic_totals d')
}.

#[global] Instance evolves_po : PreOrder evolves.
Proof. split; [intros d; by split | intros d1 d2 d3 [] []; split; by etrans]. Qed.

Lemma persists_insert {R : Type} (rel : R -> R -> Prop) `{!PreOrder rel} (t : table R) (id : gostring) (r : R) :
  t !! id = None -> persists rel t (<[id := r]> t).
Proof.
  intros Hn i s Hs. exists s. split; [|reflexivity]. rewrite lookup_insert_ne; [done |]. intros ->. congruence.
Qed.

Lemma persists_update_where {R : Type} (rel : R -> R -> Prop) `{!PreOrder rel}
    (P : R -> Prop) `{!forall r, Decision (P r)} (f : R -> R) (t : table R) :
  (forall r, P r -> rel r (f r)) -> persists rel t (update_where P f t).
Proof.
  intros Hf i r Hr. rewrite lookup_update_where, Hr. cbn. eexists. split; [done |]. case_decide; [by apply Hf | reflexivity].
Qed.

Lemma persists_update_id {R : Type} (rel : R -> R -> Prop) `{!PreOrder rel}
    (P : R -> Prop) `{!forall r, Decision (P r)} (id : gostring) (f : R -> R) (t : table R) :
  (forall r, P r -> rel r (f r)) -> persists rel t (update_id id P f t).
Proof.
  intros Hf i r Hr. rewrite lookup_update_id, Hr. cbn. eexists. split; [done |].
  case_decide as Hd; [by apply Hf, Hd | reflexivity].
Qed.

Lemma persists_lookup {R : Type} (rel : R -> R -> Prop) (t t' : table R) i :
  persists rel t t' -> is_Some (t !! i) -> is_Some (t' !! i).
Proof. intros H [r Hr]. destruct (H _ _ Hr) as (r' & Hr' & _). by eexists. Qed.

(** *** Changes of one table *)

Section advance.
Context `{PG : Postgres}.

(** A step between well-formed tables. *)
Definition advances (d d' : database) : Prop := schema_ok d' /\ evolves d d'.

Lemma advances_refl d : schema_ok d -> advances d d.
Proof. by split. Qed.

Lemma advance_users d t :
  schema_ok d -> canonical_ids t -> unique_on u_email t -> all_rows (fun r => u_status r ∈ user_statuses) t ->
  persists user_evolves (users d) t -> advances d (set_users t d).
Proof.
  intros [] Hc Hu Hs Hp. split; [|by split]. assert (forall i, is_Some (users d !! i) -> is_Some (t !! i)) by
    (intros i; by apply (persists_lookup user_evolves)).
  split; cbn; eauto using refers_grow.
Qed.

Lemma advance_refresh_tokens d t :
  schema_ok d -> unique_on rt_token_hash t -> refers rt_user_id t (users d) ->
  persists refresh_evolves (refresh_tokens d) t -> advances d (set_refresh_tokens t d).
Proof. intros [] Hu Hr Hp. split; split; cbn; done. Qed.

Lemma advance_agent_tokens d t :
  schema_ok d -> canonical_ids t -> unique_on at_token_hash t -> refers at_user_id t (users d) ->
  persists token_evolves (agent_tokens d) t -> advances d (set_agent_tokens t d).
Proof.
  intros [] Hc Hu Hr Hp. split; [|by split]. split; cbn; try done. intros i r Hi.
  pose proof (ok_agent_token0 _ _ Hi) as Ht. cbn beta in Ht.
  destruct (agent_tokens d !! ag_agent_token_id r) as [tk|] eqn:Htk; [|done].
  destruct (Hp _ _ Htk) as (tk' & -> & Heq & _). cbn in Ht |- *. by rewrite Heq.
Qed.

Lemma advance_agents d t :
  schema_ok d -> canonical_ids t -> unique_on (fun r => (ag_user_id r, ag_instance_id r)) t ->
  all_rows (fun r => at_user_id <$> agent_tokens d !! ag_agent_token_id r = Some (ag_user_id r)) t ->
  refers ag_user_id t (users d) ->
  persists agent_evolves (agents d) t -> advances d (set_agents t d).
Proof.
  intros [] Hc Hu Ht Hr Hp. split; [|by split]. split; cbn; try done. intros i r Hi.
  pose proof (ok_tunnel_agent0 _ _ Hi) as Ha. cbn beta in Ha.
  destruct (agents d !! tn_agent_id r) as [ag|] eqn:Hag; [|done].
  destruct (Hp _ _ Hag) as (ag' & -> & Heq & _). cbn in Ha |- *. by rewrite Heq.
Qed.

Lemma advance_tunnels d t :
  schema_ok d -> unique_on tn_subdomain t -> all_rows (fun r => is_label (tn_subdomain r)) t ->
  all_rows (fun r => ag_user_id <$> agents d !! tn_agent_id r = Some (tn_user_id r)) t ->
  refers tn_user_id t (users d) -> all_rows (fun r => tn_status r ∈ tunnel_statuses) t ->
  persists tunnel_evolves (tunnels d) t -> advances d (set_tunnels t d).
Proof. intros [] Hu Hl Ha Hr Hs Hp. split; split; cbn; done. Qed.

Lemma advance_traffic_totals d t :
  schema_ok d -> (forall i, is_Some (t !! i) -> is_Some (users d !! i)) ->
  all_rows (fun r => bigint (tr_requests_total r) /\ bigint (tr_request_bytes r) /\ bigint (tr_response_bytes r)) t ->
  persists traffic_evolves (traffic_totals d) t -> advances d (set_traffic_totals t d).
Proof. intros [] Hu Hr Hp. split; split; cbn; done. Qed.

(** ** Programs on the tables *)

Abbreviation db_rg := (rg schema_ok evolves).

(** A statement between other threads' statements. *)
Lemma rg_exec {A : Set} (f : stmt A) (post : result dberr A -> database -> Prop) d0 :
  (forall a d x d', schema_ok d -> evolves d0 d -> f a d = Ok (x, d') ->
     advances d d' /\ post (Ok x) d' /\ forall e, post (Err e) d') ->
  (forall d e, schema_ok d -> evolves d0 d -> post (Err e) d) ->
  db_rg post d0 (exec f).
Proof.
  intros Hok Herr a d Hd He. cbn. destruct (a_fault a) as [[t|t]|].
  - split_and!; [done | reflexivity | by apply Herr].
  - destruct (f a d) as [[x d']|e] eqn:Hf; [|split_and!; [done | reflexivity | by apply Herr]].
    destruct (Hok _ _ _ _ Hd He Hf) as ([H1 H2] & _ & H3). split_and!; auto.
  - destruct (f a d) as [[x d']|e] eqn:Hf; [|split_and!; [done | reflexivity | by apply Herr]].
    destruct (Hok _ _ _ _ Hd He Hf) as ([H1 H2] & H3 & _). split_and!; auto.
Qed.

(** A program every action of which, in every interleaving, takes well-formed
    tables to well-formed tables they evolve into. *)
Definition well_behaved {A} (m : prog database A) : Prop :=
  forall d0, schema_ok d0 -> db_rg (fun _ _ => True) d0 m.

Lemma well_behaved_exec {A : Set} (f : stmt A) :
  (forall a d x d', schema_ok d -> f a d = Ok (x, d') -> advances d d') -> well_behaved (exec f).
Proof. intros H d0 _. apply rg_exec; [|done]. intros a d x d' Hd _ Hf. split; [by eapply H | done]. Qed.

Lemma well_behaved_pure {B : Set} (g : answer -> database -> B) : well_behaved (action (fun a d => (g a d, d))).
Proof. intros d0 _ a d Hd He. by split_and!. Qed.

Lemma well_behaved_ret {A} (a : A) : well_behaved (Ret a).
Proof. done. Qed.

Lemma well_behaved_bind {A B} (m : prog database A) (k : A -> prog database B) :
  well_behaved m -> (forall a, well_behaved (k a)) -> well_behaved (m ≫= k).
Proof.
  intros Hm Hk d0 Hd. apply rg_bind. eapply (rg_weaken _ _); [done | by apply Hm |].
  intros a d Hd' _ _. by apply Hk.
Qed.

(** A query that changes nothing. *)
Lemma select_advances {A : Set} (f : stmt A) a d x d' :
  (forall a d x d', f a d = Ok (x, d') -> d' = d) -> schema_ok d -> f a d = Ok (x, d') -> advances d d'.
Proof. intros Hf Hd H. rewrite (Hf _ _ _ _ H). by apply advances_refl. Qed.

(** A well-behaved program run alone. *)
Lemma run_advances {A} env n (m : prog database A) d : well_behaved m -> schema_ok d -> advances d (run env n m d).1.2.
Proof.
  intros Hm Hd. destruct (run env n m d) as [[a d'] n'] eqn:Hrun.
  destruct (rg_run _ _ _ _ _ _ _ _ _ _ Hd (Hm d Hd) Hrun) as (H1 & H2 & _). by split.
Qed.
End advance.

(** Walks through a program, leaving its statements. *)
Ltac well_behaved_walk :=
  repeat lazymatch goal with
  | |- well_behaved (mret _) => apply well_behaved_ret
  | |- well_behaved (Ret _) => apply well_behaved_ret
  | |- well_behaved (mbind _ _) => apply well_behaved_bind; [|intros ?]
  | |- well_behaved (action _) => apply well_behaved_pure
  | |- well_behaved Now => apply well_behaved_pure
  | |- well_behaved (rand_Read _) => apply well_behaved_pure
  | |- well_behaved (exec _) => fail
  | _ => first [progress cbv zeta | case_match]
  end.

(** *** Reading the outcome of a statement *)

Lemma bind_Ok {E A B} (m : result E A) (k : A -> result E B) y :
  m ≫= k = Ok y <-> exists x, m = Ok x /\ k x = Ok y.
Proof. destruct m; cbn; naive_solver. Qed.
Lemma or_else_Ok {A} e (o : option A) x : or_else e o = Ok x <-> o = Some x.
Proof. destruct o; cbn; naive_solver. Qed.
Lemma check_Ok b e u : check b e = Ok u <-> b = true.
Proof. destruct b, u; cbn; naive_solver. Qed.

Lemma absent_find {R : Type} (P : R -> Prop) {dec_P : forall r, Decision (P r)} (t : table R) :
  absent (find_row P t) = true <-> forall id r, t !! id = Some r -> ~ P r.
Proof.
  split; intros Ha; [apply (find_row_None P); by destruct (find_row P t) | apply (find_row_None P) in Ha; by rewrite Ha].
Qed.
Lemma present_iff {A} (o : option A) : negb (absent o) = true <-> is_Some o.
Proof. destruct o; cbn; split; [eauto | done | done | by intros [? ?]]. Qed.

(** Takes apart a statement that succeeded. *)
Ltac stmt_inv :=
  repeat match goal with
  | H : mbind _ _ = Ok _ |- _ => apply bind_Ok in H as (? & ? & H)
  | H : or_else _ _ = Ok _ |- _ => apply or_else_Ok in H
  | H : check _ _ = Ok _ |- _ => apply check_Ok in H
  | H : negb (absent _) = true |- _ => apply present_iff in H
  | H : absent (find_row _ _) = true |- _ => rewrite absent_find in H
  | H : insert_row _ _ _ _ = Ok _ |- _ => apply insert_row_Ok in H as [? ->]
  | H : find_row _ _ = Some (_, _) |- _ => apply find_row_Some in H as [? ?]
  | H : (let '(_, _) := ?p in _) = Ok _ |- _ => destruct p
  | H : Ok _ = Ok _ |- _ => injection H as H; subst
  | H : Some _ = Some _ |- _ => injection H as H; subst
  | H : (_, _) = (_, _) |- _ => injection H as ? ?; subst
  end.
