(* ===== verification/AuthService.v ===== *)
(** * Accounts, access tokens and refresh tokens

    [Service] of backend/internal/auth/service.go.  Each query is a statement on
    the tables; an operation is the program of its queries, clock readings and
    random bytes. *)

From S2P Require Import Prelude GoStrings Crypto Effects Json Messages Tables.

(** [golang.org/x/crypto/bcrypt]: hashing takes random bytes for the salt and can
    fail. *)
Class Bcrypt := {
  GenerateFromPassword : option (list byte) -> list byte -> option gostring;
  CompareHashAndPassword : gostring -> list byte -> bool
}.

(** A hash is plain text and accepts the password it was made from. *)
Class BcryptLaws `{Bcrypt} : Prop := {
  bcrypt_accepts salt password hash :
    GenerateFromPassword salt password = Some hash -> CompareHashAndPassword hash password = true;
  bcrypt_text salt password hash :
    GenerateFromPassword salt password = Some hash -> pg_text hash = true
}.

Inductive auth_error :=
| ErrInvalidCredentials
| ErrEmailTaken
| ErrUnauthorized
| InvalidRegistration
| HashPassword
| CreateUser (e : dberr)
| UpdateLogin (e : dberr)
| RevokeUsedToken (e : dberr)
| LogoutFailed (e : dberr)
| LoadCurrentUser (e : dberr)
| RandomFailed
| StoreRefreshToken (e : dberr).

Record User := mkUser { ID : gostring; Email : gostring }.
Record Tokens := mkTokens { AccessToken : gostring; RefreshToken : gostring; RefreshExpiresAt : Z }.
Record Service := mkService {
  accessSecret : list byte; refreshSecret : list byte; accessTTL : Z; refreshTTL : Z
}.

Definition NewService (accessSecret refreshSecret : gostring) (accessTTL refreshTTL : Z) : Service :=
  mkService accessSecret refreshSecret accessTTL refreshTTL.

(** ** Strings *)

Definition at_sign : byte := Byte.x40.
Definition dot : byte := Byte.x2e.

(** [strings.Count(s, sep)] for a separator of one byte. *)
Definition count_byte (sep : byte) (s : gostring) : nat := length (filter (fun b => b = sep) s).

(** [strings.Contains]. *)
Fixpoint Contains (s substr : gostring) : bool :=
  HasPrefix s substr || match s with [] => false | _ :: t => Contains t substr end.

Definition validEmail (email : gostring) : bool :=
  (zlen email <=? 320) && (Z.of_nat (count_byte at_sign email) =? 1)
  && negb (HasPrefix email [at_sign]) && negb (HasSuffix email [at_sign]).

(** ** Tokens *)

Definition hashToken (raw : gostring) (secret : list byte) : gostring := base64url_encode (hmac_sha256 secret raw).

Definition randomToken {S} : prog S (option gostring) :=
  b ← rand_Read 32; mret (match b with Some b => Some (base64url_encode b) | None => None end).

Record claims := mkClaims { Subject : gostring; Type_ : gostring; IssuedAt : Z; ExpiresAt : Z }.
Definition zero_claims : claims := mkClaims [] [] 0 0.

Definition enc_claims (c : claims) : json :=
  JObj [($"sub", JStr (Subject c)); ($"type", JStr (Type_ c));
        ($"iat", JNum (print_int (IssuedAt c))); ($"exp", JNum (print_int (ExpiresAt c)))].

Definition dec_claims : json -> claims -> option claims :=
  store_struct [$"sub"; $"type"; $"iat"; $"exp"]
    (fun n v c =>
       let '(mkClaims s t i e) := c in
       if bool_decide (n = $"sub") then x ← store_string v s; Some (mkClaims x t i e)
       else if bool_decide (n = $"type") then x ← store_string v t; Some (mkClaims s x i e)
       else if bool_decide (n = $"iat") then x ← store_int v i; Some (mkClaims s t x e)
       else x ← store_int v e; Some (mkClaims s t i x)).

(** The bytes of the fixed JOSE header, with the quotes as bytes. *)
Definition jwt_header : gostring :=
  encode (JObj [($"alg", JStr ($"HS256")); ($"typ", JStr ($"JWT"))]).

Definition signJWT (c : claims) (secret : list byte) : gostring :=
  let header := base64url_encode jwt_header in
  let payload := encode (enc_claims c) in
  let encoded := header ++ [dot] ++ base64url_encode payload in
  encoded ++ [dot] ++ base64url_encode (hmac_sha256 secret encoded).

Definition verifyJWT (raw : gostring) (secret : list byte) : result auth_error claims :=
  match split_byte dot raw with
  | [header; payload; signature] =>
      match base64url_decode signature with
      | None => Err ErrUnauthorized
      | Some sig =>
          if negb (bool_decide (hmac_sha256 secret (header ++ [dot] ++ payload) = sig)) then Err ErrUnauthorized
          else match base64url_decode payload with
          | None => Err ErrUnauthorized
          | Some data =>
              match Unmarshal dec_claims zero_claims data with
              | None => Err ErrUnauthorized
              | Some c => Ok c
              end
          end
      end
  | _ => Err ErrUnauthorized
  end.

#[global] Arguments jwt_header : simpl never.
#[global] Arguments signJWT : simpl never.
#[global] Arguments hashToken : simpl never.

(** Seconds since 1970. *)
Definition Unix (t : Z) : Z := t / Second - 62135596800.

(** ** Statements *)

Section service.
Context `{PG : Postgres} `{BC : Bcrypt} (lower : Z -> Z) (s : Service).

Definition normalizeEmail (email : gostring) : gostring := ToLower lower (TrimSpace email).

Definition insert_user (email hash : gostring) : stmt User := fun a d =>
  email ← or_else too_long (varchar_in 320 email);
  _ ← check (pg_text hash) bad_text;
  _ ← check (absent (find_row (fun r => u_email r = email) (users d))) (unique_violation ($"users_email_key"));
  id ← or_else bad_uuid (new_id a);
  t ← insert_row ($"users_pkey") id (mkUserRow email hash ($"active") (NOW a) (NOW a) None) (users d);
  Ok (mkUser id email, set_users t d).

Definition select_user_by_email (email : gostring) : stmt (gostring * user_row) := fun a d =>
  _ ← check (pg_text email) bad_text;
  row ← or_else NoRows (find_row (fun r => u_email r = email) (users d));
  Ok (row, d).

Definition update_last_login (id : gostring) : stmt unit := fun a d =>
  id ← or_else bad_uuid (uuid_in id);
  Ok (tt, set_users (update_id id (fun _ => True)
        (fun r => mkUserRow (u_email r) (u_password_hash r) (u_status r) (u_created_at r) (NOW a) (Some (NOW a)))
        (users d)) d).

(** The rows [Refresh] accepts. *)
Definition refreshable (now : Z) (hash : gostring) (d : database) (r : refresh_row) : Prop :=
  rt_token_hash r = hash /\ rt_revoked_at r = None /\ now < rt_expires_at r
  /\ u_status <$> users d !! rt_user_id r = Some ($"active").
#[global] Instance refreshable_dec now hash d r : Decision (refreshable now hash d r).
Proof. unfold refreshable. apply _. Defined.

Definition select_refresh_user (hash : gostring) : stmt User := fun a d =>
  '(_, r) ← or_else NoRows (find_row (refreshable (NOW a) hash d) (refresh_tokens d));
  u ← or_else NoRows (users d !! rt_user_id r);
  Ok (mkUser (rt_user_id r) (u_email u), d).

Definition revoked (at_ : Z) (r : refresh_row) : refresh_row :=
  mkRefreshRow (rt_user_id r) (rt_token_hash r) (rt_expires_at r) (Some at_)
    (rt_created_at r) (rt_user_agent r) (rt_ip_address r).

Definition revoke_used (hash : gostring) : stmt unit := fun a d =>
  Ok (tt, set_refresh_tokens (update_where (fun r => rt_token_hash r = hash) (revoked (NOW a)) (refresh_tokens d)) d).

Definition revoke_live (hash : gostring) : stmt unit := fun a d =>
  Ok (tt, set_refresh_tokens
        (update_where (fun r => rt_token_hash r = hash /\ rt_revoked_at r = None) (revoked (NOW a)) (refresh_tokens d)) d).

Definition select_active_user (id : gostring) : stmt User := fun a d =>
  id ← or_else bad_uuid (uuid_in id);
  u ← or_else NoRows (users d !! id);
  _ ← check (bool_decide (u_status u = $"active")) NoRows;
  Ok (mkUser id (u_email u), d).

Definition insert_refresh_token (userID hash : gostring) (expires : Z) (userAgent ip : gostring) : stmt unit := fun a d =>
  userID ← or_else bad_uuid (uuid_in userID);
  _ ← check (pg_text hash && pg_text userAgent && pg_text ip) bad_text;
  addr ← (if bool_decide (ip = []) then Ok None
          else match inet_in ip with Some x => Ok (Some x) | None => Err bad_inet end);
  _ ← check (negb (absent (users d !! userID)))
        (foreign_key_violation ($"refresh_tokens") ($"refresh_tokens_user_id_fkey"));
  _ ← check (absent (find_row (fun r => rt_token_hash r = hash) (refresh_tokens d)))
        (unique_violation ($"refresh_tokens_token_hash_key"));
  id ← or_else bad_uuid (new_id a);
  t ← insert_row ($"refresh_tokens_pkey") id
        (mkRefreshRow userID hash (timestamptz expires) None (NOW a) (Some userAgent) addr) (refresh_tokens d);
  Ok (tt, set_refresh_tokens t d).

(** ** Operations *)

Definition Register (email : gostring) (password : list byte) : prog database (result auth_error User) :=
  let email := normalizeEmail email in
  if negb (validEmail email) || (zlen password <? 10) then mret (Err InvalidRegistration)
  else
    generated ← action (fun a d => (GenerateFromPassword (a_random a) password, d));
    match generated with
    | None => mret (Err HashPassword)
    | Some hash =>
        r ← exec (insert_user email hash);
        mret (match r with
              | Ok user => Ok user
              | Err NoRows => Err (CreateUser NoRows)
              | Err (PgError text) => if Contains text ($"users_email_key") then Err ErrEmailTaken
                                      else Err (CreateUser (PgError text))
              end)
    end.

Definition issue (userID userAgent ip : gostring) : prog database (result auth_error Tokens) :=
  issued ← Now;
  expiry ← Now;
  let access := signJWT (mkClaims userID ($"access") (Unix issued) (Unix (expiry + accessTTL s))) (accessSecret s) in
  raw ← randomToken;
  match raw with
  | None => mret (Err RandomFailed)
  | Some refreshRaw =>
      now ← Now;
      let expires := now + refreshTTL s in
      r ← exec (insert_refresh_token userID (hashToken refreshRaw (refreshSecret s)) expires userAgent ip);
      mret (match r with
            | Err e => Err (StoreRefreshToken e)
            | Ok _ => Ok (mkTokens access refreshRaw expires)
            end)
  end.

Definition Login (email : gostring) (password : list byte) (userAgent ip : gostring) :
    prog database (result auth_error (User * Tokens)) :=
  let email := normalizeEmail email in
  found ← exec (select_user_by_email email);
  match found with
  | Err _ => mret (Err ErrInvalidCredentials)
  | Ok (id, row) =>
      if negb (bool_decide (u_status row = $"active")) || negb (CompareHashAndPassword (u_password_hash row) password)
      then mret (Err ErrInvalidCredentials)
      else
        updated ← exec (update_last_login id);
        match updated with
        | Err e => mret (Err (UpdateLogin e))
        | Ok _ =>
            tokens ← issue id userAgent ip;
            mret (match tokens with
                  | Err e => Err e
                  | Ok tokens => Ok (mkUser id (u_email row), tokens)
                  end)
        end
  end.

Definition Refresh (raw userAgent ip : gostring) : prog database (result auth_error (User * Tokens)) :=
  if bool_decide (raw = []) then mret (Err ErrUnauthorized)
  else
    let hash := hashToken raw (refreshSecret s) in
    found ← exec (select_refresh_user hash);
    match found with
    | Err _ => mret (Err ErrUnauthorized)
    | Ok user =>
        revoked ← exec (revoke_used hash);
        match revoked with
        | Err e => mret (Err (RevokeUsedToken e))
        | Ok _ =>
            tokens ← issue (ID user) userAgent ip;
            mret (match tokens with Err e => Err e | Ok tokens => Ok (user, tokens) end)
        end
    end.

Definition Logout (raw : gostring) : prog database (result auth_error unit) :=
  if bool_decide (raw = []) then mret (Ok tt)
  else
    r ← exec (revoke_live (hashToken raw (refreshSecret s)));
    mret (match r with Err e => Err (LogoutFailed e) | Ok _ => Ok tt end).

Definition UserFromAccessToken (token : gostring) : prog database (result auth_error User) :=
  match verifyJWT token (accessSecret s) with
  | Err _ => mret (Err ErrUnauthorized)
  | Ok c =>
      if negb (bool_decide (Type_ c = $"access")) || bool_decide (Subject c = []) then mret (Err ErrUnauthorized)
      else
        now ← Now;
        if ExpiresAt c <? Unix now then mret (Err ErrUnauthorized)
        else
          r ← exec (select_active_user (Subject c));
          mret (match r with
                | Err NoRows => Err ErrUnauthorized
                | Err e => Err (LoadCurrentUser e)
                | Ok user => Ok user
                end)
  end.
End service.

(** ** Access tokens *)

Lemma split_byte_app sep a t : sep ∉ a -> split_byte sep (a ++ sep :: t) = a :: split_byte sep t.
Proof.
  induction a as [|b a IH]; intros Hn; cbn.
  - by rewrite bool_decide_eq_true_2.
  - rewrite bool_decide_eq_false_2 by set_solver. rewrite IH by set_solver. done.
Qed.

Lemma split_byte_whole sep a : sep ∉ a -> split_byte sep a = [a].
Proof.
  induction a as [|b a IH]; intros Hn; [done |]. cbn.
  rewrite bool_decide_eq_false_2 by set_solver. rewrite IH by set_solver. done.
Qed.

Lemma claims_roundtrip c :
  valid_utf8 (Subject c) -> valid_utf8 (Type_ c) ->
  bigint (IssuedAt c) -> bigint (ExpiresAt c) ->
  Unmarshal dec_claims zero_claims (encode (enc_claims c)) = Some c.
Proof.
  intros Hs Ht Hi He. unfold Unmarshal. rewrite parse_encode.
  - cbn [mbind option_bind]. unfold dec_claims, enc_claims, zero_claims. run_store.
    rewrite Hs, Ht, !parse_print_int by done. by destruct c.
  - cbn. repeat split; try done; by apply printable_int.
  - cbn [depth_of enc_claims map snd]. rewrite !max_list_cons. cbn. unfold maxNestingDepth. lia.
Qed.

Lemma verify_sign c secret :
  valid_utf8 (Subject c) -> valid_utf8 (Type_ c) -> bigint (IssuedAt c) -> bigint (ExpiresAt c) ->
  verifyJWT (signJWT c secret) secret = Ok c.
Proof.
  intros Hs Ht Hi He. unfold verifyJWT, signJWT.
  set (header := base64url_encode jwt_header). set (payload := base64url_encode (encode (enc_claims c))).
  rewrite <- !app_assoc. cbn [app].
  rewrite !split_byte_app, split_byte_whole by apply base64url_no_dot.
  rewrite base64url_roundtrip, bool_decide_eq_true_2 by done. cbn [negb].
  subst payload. rewrite base64url_roundtrip. by rewrite claims_roundtrip.
Qed.

(** ** The tables stay well-formed *)

Section invariants.
Context `{PG : Postgres} `{PGL : !PostgresLaws} (s : Service).

Lemma insert_user_advances email hash a d x d' :
  schema_ok d -> insert_user email hash a d = Ok (x, d') -> advances d d'.
Proof.
  intros Hd H. unfold insert_user in H. stmt_inv.
  apply advance_users; [done | eapply canonical_insert | apply unique_on_insert | apply all_rows_insert | by apply persists_insert; try apply _].
  - apply (ok_user_ids _ Hd).
  - done.
  - apply (ok_email _ Hd).
  - assumption.
  - apply (ok_user_status _ Hd).
  - cbn. left.
Qed.

Lemma update_last_login_advances id a d x d' :
  schema_ok d -> update_last_login id a d = Ok (x, d') -> advances d d'.
Proof.
  intros Hd H. unfold update_last_login in H. stmt_inv.
  apply advance_users; [done | eapply canonical_map | eapply unique_on_map | eapply all_rows_map | apply persists_update_id; [apply _ | by repeat split]].
  - apply (ok_user_ids _ Hd).
  - intros i [r (r0 & Hr0 & _)%update_id_inv]. by eexists.
  - apply (ok_email _ Hd).
  - intros i r (r0 & Hr0 & Hr)%update_id_inv. exists r0. naive_solver.
  - apply (ok_user_status _ Hd).
  - intros i r (r0 & Hr0 & Hr)%update_id_inv. exists r0. naive_solver.
Qed.

Lemma revoke_advances (P : refresh_row -> Prop) `{!forall r, Decision (P r)} at_ d :
  schema_ok d -> advances d (set_refresh_tokens (update_where P (revoked at_) (refresh_tokens d)) d).
Proof.
  intros Hd. apply advance_refresh_tokens; [done | eapply unique_on_map | |].
  - apply (ok_refresh_hash _ Hd).
  - intros i r (r0 & Hr0 & Hr)%update_where_inv. exists r0. naive_solver.
  - intros i r (r0 & Hr0 & Hr)%update_where_inv. pose proof (ok_refresh_user _ Hd _ _ Hr0). naive_solver.
  - apply persists_update_where; [apply _ |]. intros r _. by split_and!.
Qed.

Lemma insert_refresh_token_advances userID hash expires userAgent ip a d x d' :
  schema_ok d -> insert_refresh_token userID hash expires userAgent ip a d = Ok (x, d') -> advances d d'.
Proof.
  intros Hd H. unfold insert_refresh_token in H. stmt_inv.
  apply advance_refresh_tokens; [done | apply unique_on_insert | apply refers_insert | by apply persists_insert; try apply _].
  - apply (ok_refresh_hash _ Hd).
  - assumption.
  - apply (ok_refresh_user _ Hd).
  - done.
Qed.

Lemma Register_well_behaved `{BC : Bcrypt} (lower : Z -> Z) email password : well_behaved (Register lower email password).
Proof.
  unfold Register. well_behaved_walk. apply well_behaved_exec. intros. by eapply insert_user_advances.
Qed.

Lemma issue_well_behaved userID userAgent ip : well_behaved (issue s userID userAgent ip).
Proof.
  unfold issue, randomToken. well_behaved_walk.
  apply well_behaved_exec. intros. by eapply insert_refresh_token_advances.
Qed.

Lemma Login_well_behaved `{BC : Bcrypt} (lower : Z -> Z) email password userAgent ip : well_behaved (Login lower s email password userAgent ip).
Proof.
  unfold Login. well_behaved_walk; [| |apply issue_well_behaved]; apply well_behaved_exec; intros.
  - eapply select_advances; [|done..]. clear. intros ? ? ? ? Hx. unfold select_user_by_email in Hx. by stmt_inv.
  - by eapply update_last_login_advances.
Qed.

Lemma Refresh_well_behaved raw userAgent ip : well_behaved (Refresh s raw userAgent ip).
Proof.
  unfold Refresh. well_behaved_walk; [| |apply issue_well_behaved]; apply well_behaved_exec; intros ? d ? ? Hd Hx.
  - eapply select_advances; [|done..]. clear. intros ? ? ? ? Hx. unfold select_refresh_user in Hx. by stmt_inv.
  - unfold revoke_used in Hx. stmt_inv. by apply revoke_advances.
Qed.

Lemma Logout_well_behaved raw : well_behaved (Logout s raw).
Proof.
  unfold Logout. well_behaved_walk. apply well_behaved_exec. intros ? d ? ? Hd Hx.
  unfold revoke_live in Hx. stmt_inv. by apply revoke_advances.
Qed.

Lemma UserFromAccessToken_well_behaved token : well_behaved (UserFromAccessToken s token).
Proof.
  unfold UserFromAccessToken. well_behaved_walk. apply well_behaved_exec. intros.
  eapply select_advances; [|done..]. clear. intros ? ? ? ? Hx. unfold select_active_user in Hx. by stmt_inv.
Qed.
End invariants.

(** ** Sessions *)

Section sessions.
Context `{PG : Postgres} `{PGL : !PostgresLaws} (s : Service).

(** The raw refresh token made from the random bytes [b]. *)
Definition raw_token (b : list byte) : gostring := base64url_encode (take 32 (b ++ make_bytes 32)).

(** What [issue] needs of its five answers and of the tables. *)
Record can_issue (env : nat -> answer) (n : nat) (d : database) (userID userAgent ip : gostring) (b : list byte) : Prop := {
  ci_random : a_random (env (n + 2)%nat) = Some b;
  ci_fault : a_fault (env (n + 4)%nat) = None;
  ci_user : is_Some (users d !! userID);
  ci_uuid : uuid_in userID = Some userID;
  ci_text : pg_text userAgent = true /\ pg_text ip = true;
  ci_ip : ip = [] \/ is_Some (inet_in ip);
  ci_hash : absent (find_row (fun r => rt_token_hash r = hashToken (raw_token b) (refreshSecret s)) (refresh_tokens d)) = true;
  ci_id : exists id, new_id (env (n + 4)%nat) = Some id /\ refresh_tokens d !! id = None
}.

Definition access_claims (env : nat -> answer) (n : nat) (userID : gostring) : claims :=
  mkClaims userID ($"access") (Unix (a_now (env n))) (Unix (a_now (env (S n)) + accessTTL s)).

Definition issued_tokens (env : nat -> answer) (n : nat) (userID : gostring) (b : list byte) : Tokens :=
  mkTokens (signJWT (access_claims env n userID) (accessSecret s)) (raw_token b) (a_now (env (n + 3)%nat) + refreshTTL s).

Lemma pg_text_ascii t : forallb (fun b => is_ascii b && negb (bool_decide (b = Byte.x00))) t = true -> pg_text t = true.
Proof.
  intros Ht. unfold pg_text. apply andb_true_iff. split.
  - apply bool_decide_eq_true. induction t as [|b t IH]; [done |].
    apply andb_true_iff in Ht as [[Hb _]%andb_true_iff Ht]. unfold is_ascii in Hb. unfold valid_utf8.
    rewrite coerce_ascii by lia. f_equal. by apply IH.
  - apply negb_true_iff, contains_byte_false. intros Hin.
    rewrite forallb_forall in Ht. specialize (Ht Byte.x00). rewrite <- list_elem_of_In in Ht. by specialize (Ht Hin).
Qed.

Lemma base64url_text data : pg_text (base64url_encode data) = true.
Proof.
  apply pg_text_ascii, forallb_forall. intros b Hb%list_elem_of_In.
  pose proof (base64url_ascii data) as Ha. pose proof (base64url_plain data) as Hp.
  rewrite forallb_forall in Ha. rewrite Ha by (by apply list_elem_of_In). cbn [andb].
  case_bool_decide as Hz; [|done]. subst b. exfalso.
  pose proof (base64url_encode_all (fun b => b <> Byte.x00) data) as Hn. rewrite list.Forall_forall in Hn.
  eapply Hn; [|exact Hb | done]. intros n Hr Heq. pose proof (sextet_char n Hr) as (Hv & _). by rewrite Heq in Hv.
Qed.

Lemma hashToken_text raw secret : pg_text (hashToken raw secret) = true.
Proof. apply base64url_text. Qed.

Lemma run_issue env n d userID userAgent ip b :
  can_issue env n d userID userAgent ip b ->
  exists d', run env n (issue s userID userAgent ip) d = (Ok (issued_tokens env n userID b), d', (n + 5)%nat).
Proof.
  intros []. unfold issue, Now, randomToken, rand_Read. cbn [mbind prog_mbind prog_bind action mret prog_ret run].
  replace (S (S n)) with (n + 2)%nat by lia. rewrite ci_random0. cbn [run prog_bind mbind prog_mbind action].
  replace (S (n + 2)) with (n + 3)%nat by lia.
  rewrite run_bind. replace (S (n + 3)) with (n + 4)%nat by lia.
  fold (raw_token b). set (hash := hashToken (raw_token b) (refreshSecret s)) in *.
  destruct (users d !! userID) as [u|] eqn:Hu; [|by destruct ci_user0].
  assert (Haddr : exists addr, (if bool_decide (ip = []) then Ok None
          else match inet_in ip with Some x => Ok (Some x) | None => Err bad_inet end) = Ok addr).
  { case_bool_decide; [eauto |]. destruct ci_ip0 as [?|[x Hx]]; [done |]. rewrite Hx. eauto. }
  destruct Haddr as [addr Haddr]. destruct ci_id0 as (id & Hnew & Hid).
  eassert (Hins : insert_refresh_token userID hash (a_now (env (n + 3)%nat) + refreshTTL s) userAgent ip (env (n + 4)%nat) d
                  = Ok (tt, _)).
  { unfold insert_refresh_token. rewrite ci_uuid0. cbn [or_else mbind result_bind].
    subst hash. rewrite hashToken_text. destruct ci_text0 as [-> ->].
    cbn [andb check mbind result_bind]. rewrite Haddr, Hu. cbn [check absent negb mbind result_bind].
    rewrite ci_hash0. cbn [check mbind result_bind]. rewrite Hnew. cbn [or_else mbind result_bind].
    unfold insert_row. rewrite Hid. reflexivity. }
  rewrite (run_exec _ _ _ _ _ _ ci_fault0 Hins). cbn [mret prog_ret run].
  replace (S (n + 4)) with (n + 5)%nat by lia. eexists. unfold issued_tokens, access_claims. reflexivity.
Qed.

(** The token with this hash has been used or revoked. *)
Definition spent (hash : gostring) (d : database) : Prop :=
  exists id r, refresh_tokens d !! id = Some r /\ rt_token_hash r = hash /\ is_Some (rt_revoked_at r).

Lemma spent_evolves hash d d' : spent hash d -> evolves d d' -> spent hash d'.
Proof.
  intros (id & r & Hr & Hh & Hrev) He. destruct (ev_refresh _ _ He _ _ Hr) as (r' & Hr' & _ & Hh' & _ & Hrev').
  exists id, r'. split_and!; [done | congruence | auto].
Qed.

(** A spent token is refused whatever the outside answers, and nothing changes. *)
Lemma spent_refused raw userAgent ip env n d :
  schema_ok d -> spent (hashToken raw (refreshSecret s)) d ->
  exists n', run env n (Refresh s raw userAgent ip) d = (Err ErrUnauthorized, d, n').
Proof.
  intros Hd (id & r & Hr & Hh & Hrev). unfold Refresh. case_bool_decide; [by eexists |]. rewrite run_bind.
  destruct (run env n (exec _) d) as [[[u|e] d1] n1] eqn:Hrun.
  - exfalso. apply run_exec_Ok in Hrun as (_ & Hq & _). unfold select_refresh_user in Hq. stmt_inv.
    match goal with H : refreshable _ _ _ ?r', H' : refresh_tokens _ !! ?i = Some ?r' |- _ =>
      destruct H as (Hh' & Hn & _); assert (i = id) as -> by (eapply (ok_refresh_hash _ Hd); [done | done | congruence])
    end. destruct Hrev as [t Ht]. congruence.
  - apply run_exec_Err in Hrun as [->|[x Hx]]; [by eexists |].
    unfold select_refresh_user in Hx. stmt_inv. by eexists.
Qed.

Lemma Refresh_spends raw userAgent ip env n d x d' n' :
  schema_ok d -> run env n (Refresh s raw userAgent ip) d = (Ok x, d', n') ->
  spent (hashToken raw (refreshSecret s)) d' /\ advances d d'.
Proof.
  intros Hd Hrun. split; [|].
  2: { pose proof (run_advances env n _ d (Refresh_well_behaved s raw userAgent ip) Hd) as H. by rewrite Hrun in H. }
  revert Hrun. unfold Refresh. case_bool_decide; [done |]. rewrite run_bind.
  destruct (run env n (exec _) d) as [[[u|e] d1] n1] eqn:Hsel; [|done].
  apply run_exec_Ok in Hsel as (_ & Hsel & ->). unfold select_refresh_user in Hsel. stmt_inv.
  rewrite run_bind. destruct (run env (S n) (exec _) d1) as [[[[]|e] d2] n2] eqn:Hrev; [|done].
  apply run_exec_Ok in Hrev as (_ & Hrev & ->). unfold revoke_used in Hrev. stmt_inv.
  rewrite run_bind. set (d2 := set_refresh_tokens _ d1).
  assert (Hd2 : schema_ok d2) by (by apply revoke_advances).
  assert (Hsp : spent (hashToken raw (refreshSecret s)) d2).
  { match goal with H : refresh_tokens d1 !! ?i = Some ?r, H' : refreshable _ _ _ _ |- _ =>
      exists i, (revoked (NOW (env (S n))) r); destruct H' as (Hh & _); split_and!; [|done | done];
      subst d2; cbn; rewrite lookup_update_where, H; cbn; by rewrite decide_True
    end. }
  match goal with |- context [run _ _ (issue s ?u _ _) d2] =>
    pose proof (run_advances env (S (S n)) _ d2 (issue_well_behaved s u userAgent ip) Hd2) as [_ Hev] end.
  destruct (run env (S (S n)) (issue _ _ _ _) d2) as [[[t|e] d3] n3] eqn:Hissue; [|done].
  cbn. intros [= <- <- <-]. eapply spent_evolves; [exact Hsp |]. exact Hev.
Qed.

(** *** Access tokens *)

(** What a request with an access token of these claims gets while the tables
    answer: the claims' user, until the second of expiry has passed. *)
Lemma access_token_run c token env n d u :
  verifyJWT token (accessSecret s) = Ok c -> Type_ c = $"access" -> uuid_in (Subject c) = Some (Subject c) ->
  Subject c <> [] -> users d !! Subject c = Some u -> u_status u = $"active" -> a_fault (env (S n)) = None ->
  exists n', run env n (UserFromAccessToken s token) d
  = (if ExpiresAt c <? Unix (a_now (env n)) then Err ErrUnauthorized else Ok (mkUser (Subject c) (u_email u)), d, n').
Proof.
  intros Hv Ht Hu Hne Hrow Hact Hf. unfold UserFromAccessToken. rewrite Hv, Ht.
  rewrite (bool_decide_eq_false_2 _ Hne), bool_decide_eq_true_2 by done. cbn [negb orb].
  rewrite run_bind. unfold Now. rewrite run_action.
  destruct (ExpiresAt c <? Unix (a_now (env n))); [by eexists |].
  rewrite run_bind, (run_exec _ _ _ _ (mkUser (Subject c) (u_email u)) d); [by eexists | done |].
  unfold select_active_user. rewrite Hu. cbn. rewrite Hrow. cbn. by rewrite bool_decide_eq_true_2.
Qed.

(** What [Login] does when it succeeds. *)
Lemma Login_Ok `{BC : Bcrypt} lower email password userAgent ip env n d u t d' n' :
  run env n (Login lower s email password userAgent ip) d = (Ok (u, t), d', n') ->
  exists row d1, users d !! ID u = Some row /\ u_email row = normalizeEmail lower email /\ Email u = u_email row
    /\ u_status row = $"active" /\ CompareHashAndPassword (u_password_hash row) password = true
    /\ update_last_login (ID u) (env (S n)) d = Ok (tt, d1)
    /\ run env (S (S n)) (issue s (ID u) userAgent ip) d1 = (Ok t, d', n').
Proof.
  unfold Login. rewrite run_bind.
  destruct (run env n (exec _) d) as [[[[id row]|e] d1] n1] eqn:Hsel; [|done].
  apply run_exec_Ok in Hsel as (_ & Hsel & ->). unfold select_user_by_email in Hsel. stmt_inv.
  case_match eqn:Hg; [done |]. apply orb_false_iff in Hg as [Hact%negb_false_iff%bool_decide_eq_true Hcmp%negb_false_iff].
  rewrite run_bind. destruct (run env (S n) (exec _) d1) as [[[[]|e] d2] n2] eqn:Hup; [|done].
  apply run_exec_Ok in Hup as (_ & Hup & ->). rewrite run_bind.
  destruct (run env (S (S n)) (issue _ _ _ _) d2) as [[[t'|e] d3] n3] eqn:Hissue; [|done].
  cbn. intros [= <- <- <- <-]. by eexists row, d2.
Qed.

Lemma issue_Ok userID userAgent ip env n d t d' n' :
  run env n (issue s userID userAgent ip) d = (Ok t, d', n') ->
  AccessToken t = signJWT (access_claims env n userID) (accessSecret s).
Proof.
  unfold issue, Now, randomToken, rand_Read. cbn [mbind prog_mbind prog_bind action mret prog_ret run].
  destruct (a_random _) as [b|]; [|done]. cbn [mbind prog_mbind prog_bind action run].
  rewrite run_bind. destruct (run _ _ (exec _) d) as [[[x|e] d1] n1]; [|done]. cbn [mret prog_ret run].
  by intros [= <- <- <-].
Qed.

End sessions.
