(* ===== verification/Reader.v ===== *)
(** * Request and response bodies

    Both programs copy a body from an [io.Reader] in buffers of 32 KiB: the gateway
    in [sendRequestBody], through [http.MaxBytesReader], and the agent in
    [StreamLocal].  This file models readers, the limit and the copying loop, and
    proves what the loop hands on. *)

From S2P Require Import Prelude.

(** ** Readers *)

(** Why a read ended the body. *)
Inductive readErr := EOF | MaxBytesError | ReadFailed (text : gostring).

#[global] Instance readErr_eq_dec : EqDecision readErr.
Proof. solve_decision. Defined.

(** A body as the peer sends it: the segments in which its bytes become
    available, each with the error that comes with it; after the last segment the
    body is at its end. *)
Abbreviation body_stream := (list (list byte * option readErr)).

(** [Read] with a buffer of [k] bytes. *)
Definition Read (k : nat) (r : body_stream) : list byte * option readErr * body_stream :=
  match r with
  | [] => ([], Some EOF, [])
  | (seg, e) :: r =>
      if Nat.leb (length seg) k then (seg, e, match e with Some x => [([], Some x)] | None => r end)
      else (take k seg, None, (drop k seg, e) :: r)
  end.

(** [http.MaxBytesReader]: the bytes still allowed and the error it stays with. *)
Record maxBytesReader := mkMax { mb_r : body_stream; mb_n : Z; mb_err : option readErr }.

Definition MaxBytesReader (r : body_stream) (n : Z) : maxBytesReader := mkMax r n None.

Definition max_Read (k : nat) (l : maxBytesReader) : list byte * option readErr * maxBytesReader :=
  match mb_err l with
  | Some e => ([], Some e, l)
  | None =>
      let k := if mb_n l <? Z.of_nat k - 1 then Z.to_nat (mb_n l + 1) else k in
      let '(p, err, r) := Read k (mb_r l) in
      if zlen p <=? mb_n l then (p, err, mkMax r (mb_n l - zlen p) err)
      else (take (Z.to_nat (mb_n l)) p, Some MaxBytesError, mkMax r 0 (Some MaxBytesError))
  end.

(** ** The copying loop *)

Inductive loop_end (E : Type) :=
| Copied
| ChunkError (e : E)
| BodyError (e : readErr)
| OutOfFuel.
Arguments Copied {E}.
Arguments ChunkError {E} e.
Arguments BodyError {E} e.
Arguments OutOfFuel {E}.

Section copy.
Context {R S E : Type} (read : R -> list byte * option readErr * R) (chunk : list byte -> S -> option E * S).

Fixpoint copy_loop (fuel : nat) (r : R) (s : S) : loop_end E * S :=
  match fuel with
  | O => (OutOfFuel, s)
  | Datatypes.S fuel =>
      let '(p, err, r) := read r in
      let '(ce, s) := if bool_decide (p = []) then (None, s) else chunk p s in
      match ce with
      | Some e => (ChunkError e, s)
      | None => match err with
                | None => copy_loop fuel r s
                | Some EOF => (Copied, s)
                | Some e => (BodyError e, s)
                end
      end
  end.

(** The reads up to the one that ends the body. *)
Inductive reads_to : R -> list (list byte) -> readErr -> Prop :=
| reads_more r p r' ps e : read r = (p, None, r') -> reads_to r' ps e -> reads_to r (p :: ps) e
| reads_end r p e r' : read r = (p, Some e, r') -> reads_to r [p] e.

(** Handing on the chunks one by one. *)
Fixpoint feed (ps : list (list byte)) (s : S) : option E * S :=
  match ps with
  | [] => (None, s)
  | p :: ps => match chunk p s with
               | (None, s) => feed ps s
               | r => r
               end
  end.

Definition end_of (e : readErr) : loop_end E :=
  match e with EOF => Copied | e => BodyError e end.

Lemma copy_loop_reads r ps e : reads_to r ps e -> forall fuel s, (length ps <= fuel)%nat ->
  copy_loop fuel r s
  = match feed (filter (fun p => p <> []) ps) s with
    | (Some ce, s) => (ChunkError ce, s)
    | (None, s) => (end_of e, s)
    end.
Proof.
  induction 1 as [r p r' ps e Hr _ IH|r p e r' Hr]; intros [|fuel] s Hf; try (cbn in Hf; lia); cbn [copy_loop];
    rewrite Hr, filter_cons; destruct (decide (p = [])) as [->|Hp].
  - rewrite decide_False by tauto. rewrite bool_decide_eq_true_2 by done. apply IH. cbn in Hf. lia.
  - rewrite decide_True, bool_decide_eq_false_2 by done. cbn [feed].
    destruct (chunk p s) as [[ce|] s']; [done |]. apply IH. cbn in Hf. lia.
  - rewrite decide_False by tauto. rewrite bool_decide_eq_true_2 by done. by destruct e.
  - rewrite decide_True, bool_decide_eq_false_2 by done. cbn [feed filter list_filter].
    destruct (chunk p s) as [[ce|] s']; [done |]. by destruct e.
Qed.
(** What every chunk keeps, the loop keeps, however it ends. *)
Lemma copy_loop_keeps (P : S -> Prop) (Hchunk : forall p s, P s -> P (chunk p s).2) fuel : forall r s,
  P s -> P (copy_loop fuel r s).2.
Proof.
  induction fuel as [|fuel IH]; intros r s Hs; cbn [copy_loop]; [done |].
  destruct (read r) as [[p err] r']. pose proof (Hchunk p s Hs) as Hp.
  assert (Hnext : forall ce s', P s' -> P (match ce with
            | Some e => (ChunkError e, s')
            | None => match err with None => copy_loop fuel r' s' | Some EOF => (Copied, s') | Some e => (BodyError e, s') end
            end).2) by (intros [ce|] s' Hs'; [done |]; destruct err as [[]|]; auto).
  case_bool_decide; [by apply (Hnext None) |]. destruct (chunk p s) as [ce s']. by apply Hnext.
Qed.
End copy.

(** ** What a body holds *)

(** The bytes up to the first error, and the error. *)
Fixpoint content (r : body_stream) : list byte * readErr :=
  match r with
  | [] => ([], EOF)
  | (seg, Some e) :: _ => (seg, e)
  | (seg, None) :: r => (seg ++ (content r).1, (content r).2)
  end.

Fixpoint stream_size (r : body_stream) : nat :=
  match r with [] => 1 | (seg, _) :: r => S (length seg) + stream_size r end.

Lemma Read_spec k r p err r' :
  (0 < k)%nat -> Read k r = (p, err, r') ->
  (length p <= k)%nat
  /\ match err with
     | None => (content r).1 = p ++ (content r').1 /\ (content r).2 = (content r').2
               /\ (stream_size r' < stream_size r)%nat
     | Some e => content r = (p, e)
     end.
Proof.
  intros Hk. destruct r as [|[seg e] r]; cbn [Read].
  { intros [= <- <- <-]. cbn. split; [lia | done]. }
  destruct (Nat.leb (length seg) k) eqn:Hl.
  - apply Nat.leb_le in Hl. destruct e as [e|]; intros [= <- <- <-]; cbn; split_and!; auto with lia.
  - apply Nat.leb_gt in Hl. intros [= <- <- <-]. rewrite length_take. split; [lia |].
    destruct e as [e|]; cbn [content fst snd stream_size]; rewrite ?app_assoc, take_drop, ?length_drop;
      split_and!; auto with lia.
Qed.

(** Reading a body to its end through a buffer of [k] bytes. *)
Lemma stream_reads k r :
  (0 < k)%nat ->
  exists ps, reads_to (Read k) r ps (content r).2 /\ concat ps = (content r).1
             /\ Forall (fun p => (length p <= k)%nat) ps /\ (length ps <= stream_size r)%nat.
Proof.
  intros Hk. remember (stream_size r) as n eqn:Hn. revert r Hn.
  induction n as [n IH] using lt_wf_ind; intros r ->.
  destruct (Read k r) as [[p err] r'] eqn:Hr. destruct (Read_spec k r p err r' Hk Hr) as [Hl Hs].
  destruct err as [e|].
  - exists [p]. rewrite Hs. cbn. rewrite app_nil_r. split_and!; auto.
    + by eapply reads_end.
    + by destruct r as [|[]]; cbn; lia.
  - destruct Hs as (H1 & H2 & H3). destruct (IH (stream_size r') H3 r' eq_refl) as (ps & Hp & Hc & Hf & Hz).
    exists (p :: ps). rewrite H1, H2. cbn [concat length]. rewrite Hc. split_and!; auto with lia.
    by eapply reads_more.
Qed.

(** ** What the limit lets through *)

Definition max_content (l : maxBytesReader) : list byte * readErr :=
  match mb_err l with
  | Some e => ([], e)
  | None => let '(d, e) := content (mb_r l) in
            if zlen d <=? mb_n l then (d, e) else (take (Z.to_nat (mb_n l)) d, MaxBytesError)
  end.

Lemma max_Read_spec k l p err l' :
  (0 < k)%nat -> 0 <= mb_n l -> max_Read k l = (p, err, l') ->
  (length p <= k)%nat
  /\ match err with
     | None => (max_content l).1 = p ++ (max_content l').1 /\ (max_content l).2 = (max_content l').2
               /\ (stream_size (mb_r l') < stream_size (mb_r l))%nat /\ 0 <= mb_n l'
     | Some e => max_content l = (p, e)
     end.
Proof.
  intros Hk Hn. unfold max_Read, max_content. destruct (mb_err l) as [e|]; [intros [= <- <- <-]; cbn; split; [lia | done] |].
  set (k' := if mb_n l <? Z.of_nat k - 1 then Z.to_nat (mb_n l + 1) else k).
  assert (Hk' : (0 < k' <= k)%nat /\ Z.of_nat k' <= mb_n l + 1) by (subst k'; destruct (_ <? _) eqn:E; lia).
  destruct (Read k' (mb_r l)) as [[q err'] r'] eqn:Hr. destruct (Read_spec k' _ _ _ _ ltac:(lia) Hr) as [Hl Hs].
  unfold zlen at 1. destruct (Z.of_nat (length q) <=? mb_n l) eqn:Hfit; intros [= <- <- <-]; prop_guards.
  - split; [lia |]. cbn [mb_err mb_r mb_n]. destruct err' as [e|].
    + rewrite Hs. unfold zlen. by rewrite (proj2 (Z.leb_le _ _)).
    + destruct Hs as (H1 & H2 & H3). destruct (content (mb_r l)) as [d e] eqn:Hd.
      destruct (content r') as [d' e'] eqn:Hd'. cbn in H1, H2. subst d e'. rewrite zlen_app.
      unfold zlen in *. destruct (Z.of_nat (length d') <=? mb_n l - Z.of_nat (length q)) eqn:Hd2; prop_guards.
      * rewrite (proj2 (Z.leb_le _ _)) by lia. cbn. split_and!; auto with lia.
      * rewrite (proj2 (Z.leb_gt _ _)) by lia. cbn. split_and!; auto with lia.
        rewrite take_app_ge by lia. do 2 f_equal. lia.
  - split; [rewrite length_take; lia |].
    assert (Hq : exists t e, content (mb_r l) = (q ++ t, e)).
    { destruct err' as [e|]; [exists [], e; by rewrite app_nil_r |]. destruct Hs as (H1 & _).
      destruct (content (mb_r l)) as [d e]. cbn in H1. subst d. eauto. }
    destruct Hq as (t & e & ->). rewrite zlen_app. pose proof (zlen_nonneg t).
    rewrite (proj2 (Z.leb_gt _ _)) by (unfold zlen in *; lia).
    rewrite take_app_le by lia. done.
Qed.

Lemma max_reads k l :
  (0 < k)%nat -> 0 <= mb_n l ->
  exists ps, reads_to (max_Read k) l ps (max_content l).2 /\ concat ps = (max_content l).1
             /\ Forall (fun p => (length p <= k)%nat) ps /\ (length ps <= stream_size (mb_r l))%nat.
Proof.
  intros Hk. remember (stream_size (mb_r l)) as n eqn:Hn. revert l Hn.
  induction n as [n IH] using lt_wf_ind; intros l -> H0.
  destruct (max_Read k l) as [[p err] l'] eqn:Hr. destruct (max_Read_spec k l p err l' Hk H0 Hr) as [Hl Hs].
  destruct err as [e|].
  - exists [p]. rewrite Hs. cbn. rewrite app_nil_r. split_and!; auto.
    + by eapply reads_end.
    + by destruct (mb_r l) as [|[]]; cbn; lia.
  - destruct Hs as (H1 & H2 & H3 & H4).
    destruct (IH (stream_size (mb_r l')) H3 l' eq_refl H4) as (ps & Hp & Hc & Hf & Hz).
    exists (p :: ps). rewrite H1, H2. cbn [concat length]. rewrite Hc. split_and!; auto with lia.
    by eapply reads_more.
Qed.

(** Dropping the empty reads loses nothing. *)
Lemma concat_nonempty (ps : list (list byte)) : concat (filter (fun p => p <> []) ps) = concat ps.
Proof.
  induction ps as [|p ps IH]; [done |]. rewrite filter_cons. destruct (decide (p = [])) as [->|Hp].
  - by rewrite decide_False by tauto.
  - rewrite decide_True by done. cbn. by rewrite IH.
Qed.

Lemma max_content_within stream n d :
  content stream = (d, EOF) -> zlen d <= n -> max_content (MaxBytesReader stream n) = (d, EOF).
Proof.
  intros Hc Hl. unfold max_content. cbn [MaxBytesReader mb_err mb_r mb_n]. rewrite Hc.
  by rewrite (proj2 (Z.leb_le _ _) Hl).
Qed.

Lemma max_content_over stream n :
  0 <= n < zlen (content stream).1 ->
  exists d rest, max_content (MaxBytesReader stream n) = (d, MaxBytesError)
                 /\ (content stream).1 = d ++ rest /\ zlen d = n.
Proof.
  intros Hl. unfold max_content. cbn [MaxBytesReader mb_err mb_r mb_n]. destruct (content stream) as [d e].
  cbn [fst] in *. rewrite (proj2 (Z.leb_gt _ _)) by lia. exists (take (Z.to_nat n) d), (drop (Z.to_nat n) d).
  rewrite take_drop. split_and!; auto. unfold zlen in *. rewrite length_take. lia.
Qed.

(** ** The interface of a body reader *)

(** What the copying loop promises its callers about a reader: with the fuel given,
    it hands on everything the reader holds, in pieces of at most [k] bytes, and
    ends the way the reader does. *)
Class BodyReader {R : Type} (k : nat) (read : R -> list byte * option readErr * R)
    (holds : R -> list byte * readErr) (fuel : R -> nat) (ok : R -> Prop) : Prop :=
  body_reads : forall r, ok r ->
    exists ps, reads_to read r ps (holds r).2 /\ concat ps = (holds r).1
               /\ Forall (fun p => (length p <= k)%nat) ps /\ (length ps <= fuel r)%nat.

#[global] Instance stream_reader k : BodyReader k (Read k) content stream_size (fun _ => (0 < k)%nat).
Proof. intros r Hk. by apply stream_reads. Qed.

#[global] Instance max_reader k :
  BodyReader k (max_Read k) max_content (fun l => stream_size (mb_r l)) (fun l => (0 < k)%nat /\ 0 <= mb_n l).
Proof. intros l [Hk Hn]. by apply max_reads. Qed.

(** The loop never runs out of fuel: it stops at a failing chunk or at the end. *)
Lemma copy_body {R S E} `{BodyReader R k read holds fuel ok} (chunk : list byte -> S -> option E * S) (r : R) (s : S) :
  ok r ->
  exists ps, Forall (fun p => (length p <= k)%nat) ps /\ concat ps = (holds r).1
    /\ copy_loop read chunk (fuel r) r s
       = match feed chunk ps s with
         | (Some ce, s) => (ChunkError ce, s)
         | (None, s) => (end_of (holds r).2, s)
         end.
Proof.
  intros Hok. destruct (body_reads r Hok) as (ps & Hr & Hc & Hf & Hz).
  exists (filter (fun p => p <> []) ps). split_and!; [|by rewrite concat_nonempty | by apply copy_loop_reads].
  apply list.Forall_forall. intros p [_ Hp]%list_elem_of_filter. by apply (proj1 (list.Forall_forall _ _) Hf).
Qed.
