(* ===== verification/Http.v ===== *)
(** * Requests and responses of the HTTP API

    The parts of net/http and encoding/json the API handlers use: the request
    fields they read, the response writer they fill, cookies, the decoding of a
    limited JSON body, and the [writeData] / [writeError] helpers every API package
    has a copy of. *)

From S2P Require Import Prelude GoStrings Headers Json Messages Reader.

(** ** Requests *)

(** [q_Cookies] are the name/value pairs of the [Cookie] headers, in order. *)
Record Request := mkReq {
  q_Method : gostring;
  q_Path : gostring;                       (* r.URL.Path *)
  q_Header : Header;
  q_RemoteAddr : gostring;
  q_Cookies : list (gostring * gostring);
  q_Body : body_stream;
  q_TLS : bool                             (* r.TLS != nil *)
}.

(** [r.Cookie(name)]. *)
Definition r_Cookie (name : gostring) (r : Request) : option gostring :=
  '(_, c) ← list_find (fun c => c.1 = name) (q_Cookies r); Some c.2.

Definition UserAgent (r : Request) : gostring := h_Get ($"User-Agent") (q_Header r).

Definition bearer (r : Request) : gostring :=
  TrimSpace (TrimPrefix (h_Get ($"Authorization") (q_Header r)) ($"Bearer ")).

(** ** Responses *)

Inductive SameSite := SameSiteDefault | SameSiteLax | SameSiteStrict | SameSiteNone.

Record Cookie := mkCookie {
  c_Name : gostring; c_Value : gostring; c_Path : gostring; c_HttpOnly : bool; c_Secure : bool;
  c_SameSite : SameSite;
  c_Expires : option Z;                    (* None for the zero Time *)
  c_MaxAge : Z                             (* 0: unspecified, negative: delete now *)
}.

(** [w_sent] is the status with the header fields and the cookies as they were when
    it was written; later changes of [w.Header()] do not reach the client. *)
Record ResponseWriter := mkWriter {
  w_Header : Header;
  w_Cookies : list Cookie;
  w_sent : option (Z * Header * list Cookie);
  w_Body : list byte
}.

Definition new_writer : ResponseWriter := mkWriter ∅ [] None [].

Definition w_Set (key value : gostring) (w : ResponseWriter) : ResponseWriter :=
  mkWriter (h_Set key value (w_Header w)) (w_Cookies w) (w_sent w) (w_Body w).
Definition w_Add (key value : gostring) (w : ResponseWriter) : ResponseWriter :=
  mkWriter (h_Add key value (w_Header w)) (w_Cookies w) (w_sent w) (w_Body w).

Definition WriteHeader (code : Z) (w : ResponseWriter) : ResponseWriter :=
  match w_sent w with
  | Some _ => w
  | None => mkWriter (w_Header w) (w_Cookies w) (Some (code, w_Header w, w_Cookies w)) (w_Body w)
  end.

(** [w.Write]: a 200 unless a status was written before. *)
Definition Write (data : list byte) (w : ResponseWriter) : ResponseWriter :=
  let w := WriteHeader 200 w in mkWriter (w_Header w) (w_Cookies w) (w_sent w) (w_Body w ++ data).

Definition SetCookie (c : Cookie) (w : ResponseWriter) : ResponseWriter :=
  mkWriter (w_Header w) (w_Cookies w ++ [c]) (w_sent w) (w_Body w).

(** What the client receives when the handler has returned. *)
Definition response (w : ResponseWriter) : Z * Header * list Cookie * list byte :=
  let w := WriteHeader 200 w in
  match w_sent w with Some p => (p, w_Body w) | None => ((200, w_Header w, w_Cookies w), w_Body w) end.
Definition status (w : ResponseWriter) : Z := (response w).1.1.1.

(** [json.NewEncoder(w).Encode(v)]. *)
Definition Encode (j : json) (w : ResponseWriter) : ResponseWriter := Write (encode j ++ [Byte.x0a]) w.

Definition writeData (code : Z) (data : json) (w : ResponseWriter) : ResponseWriter :=
  Encode (JObj [($"data", data)]) (WriteHeader code (w_Set ($"Content-Type") ($"application/json") w)).

Definition writeError (status : Z) (code message : gostring) (w : ResponseWriter) : ResponseWriter :=
  Encode (JObj [($"error", JObj [($"code", JStr code); ($"message", JStr message)])])
    (WriteHeader status (w_Set ($"Content-Type") ($"application/json") w)).

(** [http.Error]. *)
Definition w_Error (text : gostring) (code : Z) (w : ResponseWriter) : ResponseWriter :=
  let w := mkWriter (h_Del ($"Content-Length") (w_Header w)) (w_Cookies w) (w_sent w) (w_Body w) in
  let w := w_Set ($"X-Content-Type-Options") ($"nosniff") (w_Set ($"Content-Type") ($"text/plain; charset=utf-8") w) in
  Write (text ++ [Byte.x0a]) (WriteHeader code w).

(** ** JSON bodies *)

(** Objects and arrays end with their bracket; the end of any other value shows
    only in the byte after it or at the end of the input. *)
Definition self_delimited (j : json) : bool :=
  match j with JObj _ | JArr _ => true | _ => false end.

(** The first value of a text that ends the way [e] says, as a
    [json.Decoder] finds it; what follows the value is not looked at. *)
Definition first_value (data : list byte) (e : readErr) : option json :=
  match parse_value (S (2 * length data)) 0 data with
  | Some (j, rest) =>
      if self_delimited j || negb (bool_decide (rest = [])) || bool_decide (e = EOF) then Some j else None
  | None => None
  end.

Definition maxAPIBody : Z := Z.shiftl 16 10.

(** [json.NewDecoder(http.MaxBytesReader(w, r.Body, 16<<10)).Decode(&x)]. *)
Definition decode_body {X} (dec : json -> X -> option X) (zero : X) (r : Request) : option X :=
  let '(data, e) := max_content (MaxBytesReader (q_Body r) maxAPIBody) in
  j ← first_value data e; dec j zero.

(** ** Lemmas *)

Lemma writeError_status status code message w : w_sent w = None -> Http.status (writeError status code message w) = status.
Proof. destruct w as [h c sent b]. cbn. intros ->. reflexivity. Qed.

Lemma writeData_status code data w : w_sent w = None -> Http.status (writeData code data w) = code.
Proof. destruct w as [h c sent b]. cbn. intros ->. reflexivity. Qed.

(** A body that is one JSON value within the limit is decoded. *)
Lemma decode_body_value {X} (dec : json -> X -> option X) zero r j rest :
  parse_value (S (2 * length (content (q_Body r)).1)) 0 (content (q_Body r)).1 = Some (j, rest) ->
  (content (q_Body r)).2 = EOF -> zlen (content (q_Body r)).1 <= maxAPIBody ->
  decode_body dec zero r = dec j zero.
Proof.
  intros Hp He Hl. unfold decode_body. destruct (content (q_Body r)) as [data e] eqn:Hc. cbn [fst snd] in *. subst e.
  rewrite (max_content_within _ _ data) by done. unfold first_value. rewrite Hp.
  rewrite (bool_decide_eq_true_2 (EOF = EOF)) by done. by rewrite !orb_true_r.
Qed.
