(* ===== verification/Mux.v ===== *)
(** * Routing of the gateway's HTTP server

    The [http.ServeMux] that [NewHandler] of backend/internal/server/handler.go
    fills: patterns in a tree of path segments, the cleaning of paths, and the
    redirections it answers by itself. *)

From S2P Require Import Prelude GoStrings.

(** ** Clean paths *)

Definition slash_ : byte := Byte.x2f.
Definition dot_ : gostring := $".".
Definition dotdot : gostring := $"..".

(** The elements [path.Clean] keeps of a rooted path, last first. *)
Definition clean_step (acc : list gostring) (seg : gostring) : list gostring :=
  if bool_decide (seg = []) || bool_decide (seg = dot_) then acc
  else if bool_decide (seg = dotdot) then tail acc else seg :: acc.

(** [/a/b] from its elements. *)
Definition join (segs : list gostring) : gostring := concat ((fun s => slash_ :: s) <$> segs).

(** [path.Clean] of a path that starts with a slash. *)
Definition Clean (p : gostring) : gostring :=
  match reverse (foldl clean_step [] (split_byte slash_ p)) with
  | [] => [slash_]
  | segs => join segs
  end.

Definition ends_with_slash (p : gostring) : bool := bool_decide (list.last p = Some slash_).

(** [cleanPath] of net/http. *)
Definition cleanPath (p : gostring) : gostring :=
  match p with
  | [] => [slash_]
  | c :: _ =>
      let p := if bool_decide (c = slash_) then p else slash_ :: p in
      let np := Clean p in
      if ends_with_slash p && negb (bool_decide (np = [slash_])) then np ++ [slash_] else np
  end.

(** ** Patterns *)

(** Where [NewHandler] sends requests. *)
Inductive target :=
| Metrics_page | Health | Readiness | Auth | AgentTokens | AgentConnect | Agents | Tunnels | Traffic | Public.
#[global] Instance target_eq_dec : EqDecision target.
Proof. solve_decision. Defined.

(** A pattern that ends in a slash has a last segment that matches any rest. *)
Record pattern := mkPattern { pt_method : option gostring; pt_segs : list gostring; pt_multi : bool; pt_target : target }.

(** The patterns in the order of the calls. *)
Definition patterns : list pattern :=
  [mkPattern (Some ($"GET")) [$"metrics"] false Metrics_page;
   mkPattern (Some ($"GET")) [$"health"; $"live"] false Health;
   mkPattern (Some ($"GET")) [$"health"; $"ready"] false Readiness;
   mkPattern None [$"api"; $"v1"; $"auth"] true Auth;
   mkPattern None [$"api"; $"v1"; $"agent-tokens"] false AgentTokens;
   mkPattern None [$"api"; $"v1"; $"agent-tokens"] true AgentTokens;
   mkPattern None [$"api"; $"v1"; $"agent"; $"connect"] false AgentConnect;
   mkPattern None [$"api"; $"v1"; $"agents"] false Agents;
   mkPattern None [$"api"; $"v1"; $"tunnels"] false Tunnels;
   mkPattern None [$"api"; $"v1"; $"traffic"] false Traffic;
   mkPattern None [] true Public].

(** ** The routing tree *)

Inductive node := Node {
  nd_leaf : option pattern;
  nd_multi : option pattern;
  nd_children : list (gostring * node)
}.
Definition empty_node : node := Node None None [].

Definition findChild (seg : gostring) (n : node) : option node := snd <$> (snd <$> list_find (fun c => c.1 = seg) (nd_children n)).

Definition set_child (seg : gostring) (c n : node) : node :=
  Node (nd_leaf n) (nd_multi n) ((seg, c) :: filter (fun c => c.1 <> seg) (nd_children n)).

Fixpoint addSegments (segs : list gostring) (p : pattern) (n : node) : node :=
  match segs with
  | [] => if pt_multi p then Node (nd_leaf n) (Some p) (nd_children n) else Node (Some p) (nd_multi n) (nd_children n)
  | s :: segs => set_child s (addSegments segs p (default empty_node (findChild s n))) n
  end.

(** The patterns with the given method. *)
Definition tree_of (method : option gostring) : node :=
  foldl (fun n p => if bool_decide (pt_method p = method) then addSegments (pt_segs p) p n else n) empty_node patterns.

Definition hex_value (b : byte) : option Z :=
  if is_digit b then Some (byte_to_Z b - 48)
  else if byte_in 97 102 b then Some (byte_to_Z b - 87)
  else if byte_in 65 70 b then Some (byte_to_Z b - 55) else None.

(** [url.PathUnescape]. *)
Fixpoint PathUnescape (s : gostring) : option gostring :=
  match s with
  | [] => Some []
  | c :: t =>
      if bool_decide (c = Byte.x25) then
        match t with
        | h :: l :: t => x ← hex_value h; y ← hex_value l; t ← PathUnescape t; Some (byte_of_Z (16 * x + y) :: t)
        | _ => None
        end
      else t ← PathUnescape t; Some (c :: t)
  end.

(** [firstSegment] of a path that is not empty and starts with a slash. *)
Definition firstSegment (path : gostring) : gostring * gostring :=
  if bool_decide (path = [slash_]) then ([slash_], [])
  else
    let t := tail path in
    let i := default (length t) (IndexByte t slash_) in
    (default (take i t) (PathUnescape (take i t)), drop i t).

(** [matchPath]; every segment is at least its slash, so the length of the path is
    enough fuel. *)
Fixpoint matchPath (fuel : nat) (path : gostring) (n : node) : option pattern :=
  match fuel with
  | O => None
  | S fuel =>
      if bool_decide (path = []) then nd_leaf n
      else
        let '(seg, rest) := firstSegment path in
        match (c ← findChild seg n; matchPath fuel rest c) with
        | Some p => Some p
        | None => nd_multi n
        end
  end.

Definition match_in (path : gostring) (n : node) : option pattern := matchPath (S (length path)) path n.

Definition get_tree : node := Eval vm_compute in tree_of (Some ($"GET")).
Definition any_tree : node := Eval vm_compute in tree_of None.

(** [matchMethodAndPath]: the patterns with the method, for HEAD those with GET too,
    then those without. *)
Definition match_method (method path : gostring) : option pattern :=
  match (if bool_decide (method = $"GET") || bool_decide (method = $"HEAD") then match_in path get_tree else None) with
  | Some p => Some p
  | None => match_in path any_tree
  end.

Definition count_slashes (p : gostring) : nat := length (filter (fun b => b = slash_) p).

Definition exactMatch (p : option pattern) (path : gostring) : bool :=
  match p with
  | None => false
  | Some p =>
      if negb (pt_multi p) then true
      else if negb (ends_with_slash path) then false
      else bool_decide (S (length (pt_segs p)) = count_slashes path)
  end.

Inductive routed := Serve (t : target) | MovedPermanently (path : gostring) | NotFound | BadRequest.
#[global] Instance routed_eq_dec : EqDecision routed.
Proof. solve_decision. Defined.

Definition matched (p : option pattern) : routed := match p with Some p => Serve (pt_target p) | None => NotFound end.

(** [ServeMux.Handler] with [findHandler], on the method, [r.URL.EscapedPath()] and [r.URL.Path]. *)
Definition findHandler (method escapedPath urlPath : gostring) : routed :=
  if bool_decide (escapedPath = $"*") then BadRequest else
  let redirects path :=
    negb (exactMatch (match_method method path) path) && negb (ends_with_slash path)
    && exactMatch (match_method method (path ++ [slash_])) (path ++ [slash_]) in
  if bool_decide (method = $"CONNECT") then
    if redirects escapedPath then MovedPermanently (cleanPath urlPath ++ [slash_])
    else matched (match_method method escapedPath)
  else
    let path := cleanPath escapedPath in
    if redirects path then MovedPermanently (cleanPath urlPath ++ [slash_])
    else if negb (bool_decide (path = escapedPath)) then MovedPermanently path
    else matched (match_method method path).

(** ** Lemmas on clean paths *)

(** An element that [path.Clean] keeps. *)
Definition element (s : gostring) : Prop := s <> [] /\ s <> dot_ /\ s <> dotdot /\ slash_ ∉ s.

Lemma split_slash_free p : Forall (fun s => slash_ ∉ s) (split_byte slash_ p).
Proof.
  induction p as [|c p IH]; cbn; [repeat constructor; by apply not_elem_of_nil |]. case_bool_decide; [constructor; [apply not_elem_of_nil | done] |].
  destruct (split_byte slash_ p) as [|q ps]; [repeat constructor; set_solver |].
  inversion IH; subst. constructor; [set_solver | done].
Qed.

Lemma clean_fold segs acc :
  Forall (fun s => slash_ ∉ s) segs -> Forall element acc -> Forall element (foldl clean_step acc segs).
Proof.
  revert acc. induction segs as [|s segs IH]; intros acc Hs Ha; [done |]. inversion Hs; subst. cbn. apply IH; [done |].
  unfold clean_step. repeat case_bool_decide; cbn; try done.
  - destruct acc; [done |]. by inversion Ha.
  - constructor; [by repeat split | done].
Qed.

Lemma clean_elements segs acc : Forall element segs -> foldl clean_step acc segs = reverse segs ++ acc.
Proof.
  revert acc. induction segs as [|s segs IH]; intros acc Hs; [done |]. inversion Hs as [|? ? (H1 & H2 & H3 & _)]; subst. cbn [foldl].
  unfold clean_step at 2. rewrite !bool_decide_eq_false_2 by done. cbn [orb]. rewrite IH by done. rewrite reverse_cons, <- app_assoc. done.
Qed.

Lemma split_app_slash a t : slash_ ∉ a -> split_byte slash_ (a ++ slash_ :: t) = a :: split_byte slash_ t.
Proof.
  induction a as [|b a IH]; intros Hn; cbn.
  - by rewrite bool_decide_eq_true_2.
  - rewrite bool_decide_eq_false_2 by set_solver. rewrite IH by set_solver. done.
Qed.

Lemma split_free a : slash_ ∉ a -> split_byte slash_ a = [a].
Proof.
  induction a as [|b a IH]; intros Hn; cbn; [done |]. rewrite bool_decide_eq_false_2 by set_solver. by rewrite IH by set_solver.
Qed.

Lemma join_cons s segs : join (s :: segs) = slash_ :: s ++ join segs.
Proof. done. Qed.

Lemma split_joined segs : Forall (fun s => slash_ ∉ s) segs -> forall s, slash_ ∉ s -> split_byte slash_ (s ++ join segs) = s :: segs.
Proof.
  induction 1 as [|s' segs Hs' _ IH]; intros s Hs.
  - unfold join. cbn. by rewrite app_nil_r, split_free.
  - rewrite join_cons, split_app_slash by done. by rewrite IH.
Qed.

Lemma join_app s t : join (s ++ t) = join s ++ join t.
Proof. unfold join. by rewrite fmap_app, concat_app. Qed.

Lemma join_trailing segs : join segs ++ [slash_] = join (segs ++ [[]]).
Proof. by rewrite join_app. Qed.

Definition good_path (p : gostring) (segs : list gostring) (trailing : bool) : Prop :=
  Forall element segs /\ (trailing = true -> segs <> []) /\
  p = (if bool_decide (segs = []) then [slash_] else join (segs ++ if trailing then [[]] else [])).

Lemma Clean_elements p : Forall element (reverse (foldl clean_step [] (split_byte slash_ p))).
Proof. apply Forall_reverse, clean_fold; [apply split_slash_free | constructor]. Qed.

Lemma element_free segs : Forall element segs -> Forall (fun s => slash_ ∉ s) segs.
Proof. intros H. eapply list.Forall_impl; [exact H |]. by intros s (_ & _ & _ & ?). Qed.

Lemma cleanPath_good p : exists segs trailing, good_path (cleanPath p) segs trailing.
Proof.
  destruct p as [|c p]; [by exists [], false; repeat split |]. unfold cleanPath.
  set (q := if bool_decide (c = slash_) then _ else _). unfold Clean.
  pose proof (Clean_elements q) as He. destruct (reverse _) as [|s segs]; cbv zeta.
  { exists [], false. rewrite (bool_decide_eq_true_2 ([slash_] = [slash_])) by done. by rewrite andb_false_r. }
  exists (s :: segs), (ends_with_slash q). split_and!; [done | done |].
  rewrite (bool_decide_eq_false_2 (join (s :: segs) = [slash_])).
  2:{ rewrite join_cons. inversion He as [|? ? (Hne & _)]; subst. intros [= Hj]. by destruct s. }
  rewrite andb_true_r, (bool_decide_eq_false_2 (s :: segs = [])) by done.
  destruct (ends_with_slash q); [apply join_trailing | by rewrite app_nil_r].
Qed.

Lemma good_clean p segs trailing : good_path p segs trailing -> cleanPath p = p.
Proof.
  intros (He & Ht & ->). case_bool_decide as Hs; [reflexivity |]. destruct segs as [|s segs]; [done |].
  assert (Hf : Forall (fun s => slash_ ∉ s) ((s :: segs) ++ if trailing then [[]] else [])).
  { apply list.Forall_app. split; [by apply element_free | destruct trailing; repeat constructor; apply not_elem_of_nil]. }
  set (p := join _). assert (Hsplit : split_byte slash_ p = [] :: (s :: segs) ++ if trailing then [[]] else []).
  { apply (split_joined _ Hf []), not_elem_of_nil. }
  assert (Hclean : Clean p = join (s :: segs)).
  { unfold Clean. rewrite Hsplit. cbn [foldl]. change (clean_step [] []) with (@nil gostring).
    rewrite foldl_app, (clean_elements (s :: segs)), app_nil_r by done.
    assert (Hlast : foldl clean_step (reverse (s :: segs)) (if trailing then [[]] else []) = reverse (s :: segs)) by (by destruct trailing).
    by rewrite Hlast, reverse_involutive. }
  assert (Hp : exists t, p = slash_ :: t) by (by eexists). destruct Hp as [t Hp]. unfold cleanPath. rewrite Hp.
  rewrite (bool_decide_eq_true_2 (slash_ = slash_)) by done. rewrite <- Hp, Hclean. cbv zeta.
  assert (Hne : join (s :: segs) <> [slash_]).
  { rewrite join_cons. inversion He as [|? ? (Hne & _)]; subst. intros [= Hj]. by destruct s. }
  rewrite (bool_decide_eq_false_2 _ Hne), andb_true_r. subst p. destruct trailing.
  - rewrite <- join_trailing. unfold ends_with_slash. rewrite list.last_snoc. by rewrite bool_decide_eq_true_2.
  - rewrite app_nil_r. unfold ends_with_slash. rewrite bool_decide_eq_false_2; [done |].
    destruct (exists_last (l := s :: segs)) as (l & x & Hl); [done |]. rewrite Hl, join_app.
    rewrite Hl in He. apply list.Forall_app in He as [_ He]. inversion He as [|? ? (Hx & _ & _ & Hxs)]; subst.
    unfold join at 2. cbn. rewrite app_nil_r. destruct (exists_last Hx) as (y & z & ->).
    change (slash_ :: y ++ [z]) with ((slash_ :: y) ++ [z]). rewrite app_assoc, list.last_snoc. intros [= ->]. set_solver.
Qed.

Lemma cleanPath_idem p : cleanPath (cleanPath p) = cleanPath p.
Proof. destruct (cleanPath_good p) as (segs & trailing & Hg). by eapply good_clean. Qed.

(** ** Matching by segments *)

(** No slash and nothing to unescape. *)
Definition plain_segment (s : gostring) : Prop := (slash_ ∉ s) /\ (Byte.x25 ∉ s).

Fixpoint matchSegs (segs : list gostring) (n : node) : option pattern :=
  match segs with
  | [] => nd_leaf n
  | s :: segs =>
      let seg := if bool_decide ((s :: segs) = [[]]) then [slash_] else s in
      match (c ← findChild seg n; matchSegs segs c) with
      | Some p => Some p
      | None => nd_multi n
      end
  end.

Lemma PathUnescape_plain s : Byte.x25 ∉ s -> PathUnescape s = Some s.
Proof.
  induction s as [|c s IH]; intros Hn; [done |]. cbn [PathUnescape]. rewrite bool_decide_eq_false_2 by set_solver.
  by rewrite IH by set_solver.
Qed.

Lemma IndexByte_app s t : slash_ ∉ s -> IndexByte (s ++ slash_ :: t) slash_ = Some (length s).
Proof.
  induction s as [|c s IH]; intros Hn; cbn; [by rewrite bool_decide_eq_true_2 |].
  rewrite bool_decide_eq_false_2 by set_solver. by rewrite IH by set_solver.
Qed.
Lemma IndexByte_free s : slash_ ∉ s -> IndexByte s slash_ = None.
Proof.
  induction s as [|c s IH]; intros Hn; cbn; [done |]. rewrite bool_decide_eq_false_2 by set_solver. by rewrite IH by set_solver.
Qed.

Lemma firstSegment_join s segs : plain_segment s -> s :: segs <> [[]] -> firstSegment (join (s :: segs)) = (s, join segs).
Proof.
  intros [Hs Hp] Hne. rewrite join_cons. unfold firstSegment. rewrite bool_decide_eq_false_2.
  2:{ intros [= H]. apply app_eq_nil in H as [-> H]. destruct segs; [done | by rewrite join_cons in H]. }
  cbn [tail]. destruct segs as [|s' segs].
  - unfold join at 1 2 3 4 5. cbn. rewrite app_nil_r, IndexByte_free by done. cbn. rewrite take_ge, drop_ge by lia.
    by rewrite PathUnescape_plain.
  - rewrite join_cons, IndexByte_app by done. cbn. rewrite take_app_length, drop_app_length. by rewrite PathUnescape_plain.
Qed.

Lemma matchPath_join segs : Forall plain_segment segs -> forall fuel n, (length (join segs) < fuel)%nat ->
  matchPath fuel (join segs) n = matchSegs segs n.
Proof.
  induction 1 as [|s segs Hs Hsegs IH]; intros fuel n Hf; (destruct fuel as [|fuel]; [lia |]).
  - cbn. done.
  - cbn [matchPath matchSegs]. rewrite bool_decide_eq_false_2 by (by rewrite join_cons). case_bool_decide as Hlast.
    + injection Hlast as -> ->. change (firstSegment (join [[]])) with ([slash_], @nil byte). cbn -[findChild].
      destruct (findChild [slash_] n) as [c|]; [|done]. cbn. by destruct fuel; [cbn in Hf; lia |].
    + rewrite firstSegment_join by done. destruct (findChild s n) as [c|]; [|done]. cbn.
      rewrite join_cons in Hf. cbn in Hf. rewrite length_app in Hf. by rewrite IH by lia.
Qed.

Lemma match_in_join segs n : Forall plain_segment segs -> match_in (join segs) n = matchSegs segs n.
Proof. intros Hs. apply matchPath_join; [done | lia]. Qed.

(** ** The routing table *)

(** The path lies in the directory. *)
Definition under (dir segs : list gostring) : bool := bool_decide (take (length dir) segs = dir).

(** What the patterns without a method mean, for the elements of a path, the last of
    them empty when it ends in a slash. *)
Definition api_table (segs : list gostring) : target :=
  if under [$"api"; $"v1"; $"auth"] segs && negb (bool_decide (segs = [$"api"; $"v1"; $"auth"])) then Auth
  else if under [$"api"; $"v1"; $"agent-tokens"] segs then AgentTokens
  else if bool_decide (segs = [$"api"; $"v1"; $"agent"; $"connect"]) then AgentConnect
  else if bool_decide (segs = [$"api"; $"v1"; $"agents"]) then Agents
  else if bool_decide (segs = [$"api"; $"v1"; $"tunnels"]) then Tunnels
  else if bool_decide (segs = [$"api"; $"v1"; $"traffic"]) then Traffic
  else Public.

Definition route_table (method : gostring) (segs : list gostring) : target :=
  let get := bool_decide (method = $"GET") || bool_decide (method = $"HEAD") in
  if get && bool_decide (segs = [$"metrics"]) then Metrics_page
  else if get && bool_decide (segs = [$"health"; $"live"]) then Health
  else if get && bool_decide (segs = [$"health"; $"ready"]) then Readiness
  else api_table segs.

Lemma findChild_Node l m k c cs seg :
  findChild seg (Node l m ((k, c) :: cs)) = if decide (k = seg) then Some c else findChild seg (Node l m cs).
Proof.
  unfold findChild. cbn [nd_children list_find]. destruct (decide (k = seg)) as [Hk|Hk]; cbn [fst].
  - by rewrite decide_True.
  - rewrite decide_False by done. by destruct (list_find _ cs) as [[i x]|].
Qed.
Lemma findChild_nil l m seg : findChild seg (Node l m []) = None.
Proof. done. Qed.

Definition public_pattern : pattern := mkPattern None [] true Public.

(** The pattern without a method that a path matches, by its elements. *)
Definition v1_pattern (s : gostring) (rest : list gostring) : pattern :=
  let here multi := mkPattern None [$"api"; $"v1"; s] multi in
  if bool_decide (s = $"auth") then (if bool_decide (rest = []) then public_pattern else here true Auth)
  else if bool_decide (s = $"agent-tokens") then here (negb (bool_decide (rest = []))) AgentTokens
  else if bool_decide (s = $"agent") then
    if bool_decide (rest = [$"connect"]) then mkPattern None [$"api"; $"v1"; s; $"connect"] false AgentConnect else public_pattern
  else if bool_decide (s = $"agents") then (if bool_decide (rest = []) then here false Agents else public_pattern)
  else if bool_decide (s = $"tunnels") then (if bool_decide (rest = []) then here false Tunnels else public_pattern)
  else if bool_decide (s = $"traffic") then (if bool_decide (rest = []) then here false Traffic else public_pattern)
  else public_pattern.

Definition any_pattern (segs : list gostring) : pattern :=
  match segs with
  | a :: v :: s :: rest => if bool_decide (a = $"api" /\ v = $"v1") then v1_pattern s rest else public_pattern
  | _ => public_pattern
  end.

Definition v1_tree : node := Eval vm_compute in default empty_node (n ← findChild ($"api") any_tree; findChild ($"v1") n).

Lemma any_tree_api a : a <> $"api" -> findChild a any_tree = None.
Proof. intros Ha. unfold any_tree. rewrite findChild_Node, decide_False, findChild_nil by done. done. Qed.

Lemma findChild_other k c seg : k <> seg -> findChild seg (Node None None [(k, c)]) = None.
Proof. intros H. by rewrite findChild_Node, decide_False, findChild_nil by done. Qed.

Lemma matchSegs_childless l m x r : matchSegs (x :: r) (Node l m []) = m.
Proof. cbn [matchSegs]. cbv zeta. by rewrite findChild_nil. Qed.

Ltac leaf_node rest := destruct rest as [|? ?]; [reflexivity | cbn [mbind option_bind]; rewrite matchSegs_childless; reflexivity].

Lemma matchSegs_v1 s rest : (s :: rest) <> [[]] -> default public_pattern (matchSegs (s :: rest) v1_tree) = v1_pattern s rest.
Proof.
  intros Hne. cbn [matchSegs]. rewrite bool_decide_eq_false_2 by done. cbv zeta. unfold v1_tree at 1.
  rewrite !findChild_Node, findChild_nil. unfold v1_pattern. cbv zeta.
  case_decide as Hs; [subst s; leaf_node rest |]. case_decide as Hs1; [subst s; leaf_node rest |].
  case_decide as Hs2; [subst s; leaf_node rest |].
  case_decide as Hs3; [subst s|].
  { destruct rest as [|x r]; [reflexivity |]. cbn [mbind option_bind matchSegs]. cbv zeta.
    destruct (decide (x = $"connect")) as [->|Hx].
    - rewrite (bool_decide_eq_false_2 (_ = [[]])) by done. rewrite findChild_Node, decide_True by done.
      cbn [mbind option_bind]. leaf_node r.
    - rewrite findChild_Node, findChild_nil. rewrite decide_False.
      + rewrite (bool_decide_eq_false_2 (x :: r = [$"connect"])) by congruence. reflexivity.
      + case_bool_decide; [done | intros Heq; apply Hx; symmetry; exact Heq]. }
  case_decide as Hs4; [subst s; leaf_node rest |]. case_decide as Hs5; [subst s; leaf_node rest |].
  rewrite !bool_decide_eq_false_2; [reflexivity | ..]; intros ->; done.
Qed.

Lemma matchSegs_any segs : segs <> [] -> matchSegs segs any_tree = Some (any_pattern segs).
Proof.
  intros Hne. destruct segs as [|a segs]; [done |]. cbn [matchSegs]. cbv zeta. change (nd_multi any_tree) with (Some public_pattern).
  case_bool_decide as Hroot; [injection Hroot as -> ->; reflexivity |].
  destruct (decide (a = $"api")) as [->|Ha].
  2:{ rewrite any_tree_api by done. unfold any_pattern. destruct segs as [|v [|s rest]]; [done | done |].
      rewrite bool_decide_eq_false_2 by tauto. done. }
  change (findChild ($"api") any_tree) with (Some (Node None None [($"v1", v1_tree)])). cbn [mbind option_bind].
  destruct segs as [|v segs]; [done |]. cbn [matchSegs]. cbv zeta.
  destruct (decide (v = $"v1")) as [->|Hv].
  2:{ rewrite findChild_Node, decide_False, findChild_nil.
      - unfold any_pattern. destruct segs; [done |]. rewrite bool_decide_eq_false_2 by tauto. done.
      - case_bool_decide; [done | intros Heq; apply Hv; symmetry; exact Heq]. }
  rewrite (bool_decide_eq_false_2 (_ = [[]])) by done. rewrite findChild_Node, decide_True by done. cbn [mbind option_bind].
  destruct segs as [|s rest]; [reflexivity |]. unfold any_pattern. rewrite bool_decide_eq_true_2 by done.
  destruct (decide ((s :: rest) = [[]])) as [Hlast|Hlast]; [injection Hlast as -> ->; reflexivity |].
  rewrite <- (matchSegs_v1 s rest Hlast). by destruct (matchSegs (s :: rest) v1_tree).
Qed.

Definition get_pattern (segs : list gostring) : option pattern :=
  if bool_decide (segs = [$"metrics"]) then Some (mkPattern (Some ($"GET")) segs false Metrics_page)
  else if bool_decide (segs = [$"health"; $"live"]) then Some (mkPattern (Some ($"GET")) segs false Health)
  else if bool_decide (segs = [$"health"; $"ready"]) then Some (mkPattern (Some ($"GET")) segs false Readiness)
  else None.

Lemma not_root_seg (x : gostring) segs k : k <> [slash_] -> k <> x -> k <> (if bool_decide ((x :: segs) = [[]]) then [slash_] else x).
Proof. intros H1 H2. by case_bool_decide. Qed.

Lemma matchSegs_get segs : segs <> [] -> matchSegs segs get_tree = get_pattern segs.
Proof.
  intros Hne. destruct segs as [|a segs]; [done |]. cbn [matchSegs]. cbv zeta. change (nd_multi get_tree) with (@None pattern).
  unfold get_tree at 1. destruct (decide (a = $"metrics")) as [->|H1].
  { rewrite (bool_decide_eq_false_2 (_ = [[]])) by done. rewrite !findChild_Node, decide_False, decide_True by done.
    cbn [mbind option_bind]. leaf_node segs. }
  destruct (decide (a = $"health")) as [->|H2].
  2:{ rewrite !findChild_Node, findChild_nil. rewrite !decide_False by (apply not_root_seg; [done | intros Heq; by subst a]).
      unfold get_pattern. rewrite !bool_decide_eq_false_2 by (intros [= -> _]; done). done. }
  rewrite (bool_decide_eq_false_2 (_ = [[]])) by done. rewrite !findChild_Node, decide_True by done. cbn [mbind option_bind].
  destruct segs as [|x r]; [reflexivity |]. cbn [matchSegs]. cbv zeta.
  destruct (decide (x = $"live")) as [->|H3].
  { rewrite (bool_decide_eq_false_2 (_ = [[]])) by done. rewrite !findChild_Node, decide_False, decide_True by done.
    cbn [mbind option_bind]. leaf_node r. }
  destruct (decide (x = $"ready")) as [->|H4].
  { rewrite (bool_decide_eq_false_2 (_ = [[]])) by done. rewrite !findChild_Node, decide_True by done.
    cbn [mbind option_bind]. leaf_node r. }
  rewrite !findChild_Node, findChild_nil. rewrite !decide_False by (apply not_root_seg; [done | intros Heq; by subst x]).
  unfold get_pattern. rewrite !bool_decide_eq_false_2 by (intros [=]; by subst). done.
Qed.

Lemma bool_decide_cons (a b : gostring) l k : bool_decide ((a :: l) = (b :: k)) = bool_decide (a = b) && bool_decide (l = k).
Proof. repeat case_bool_decide; naive_solver. Qed.
Lemma bool_decide_nil_cons (b : gostring) k : bool_decide ([] = (b :: k)) = false.
Proof. done. Qed.
Lemma bool_decide_cons_nil (b : gostring) k : bool_decide ((b :: k) = []) = false.
Proof. done. Qed.

Ltac list_guards := rewrite ?bool_decide_cons, ?bool_decide_nil_cons, ?bool_decide_cons_nil, ?andb_false_r; cbn [andb negb].

(** The nested cases are the rows of the table. *)
Lemma api_table_v1 s rest : api_table ($"api" :: $"v1" :: s :: rest) = pt_target (v1_pattern s rest).
Proof.
  unfold api_table, under. cbn [take length]. rewrite !bool_decide_cons.
  rewrite !(bool_decide_eq_true_2 ($"api" = $"api")), !(bool_decide_eq_true_2 ($"v1" = $"v1")) by done.
  rewrite (bool_decide_eq_true_2 (@nil gostring = [])) by done. cbn [andb]. rewrite !andb_true_r. unfold v1_pattern. cbv zeta.
  destruct (decide (s = $"auth")) as [->|H1]; [by destruct rest |].
  rewrite !(bool_decide_eq_false_2 (s = $"auth")) by done. cbn [andb negb].
  destruct (decide (s = $"agent-tokens")) as [->|H2]; [done |]. rewrite !(bool_decide_eq_false_2 (s = $"agent-tokens")) by done.
  destruct (decide (s = $"agent")) as [->|H3]; [by destruct (bool_decide (rest = _)) |]. rewrite !(bool_decide_eq_false_2 (s = $"agent")) by done. cbn [andb].
  destruct (decide (s = $"agents")) as [->|H4]; [by destruct rest |]. rewrite !(bool_decide_eq_false_2 (s = $"agents")) by done. cbn [andb].
  destruct (decide (s = $"tunnels")) as [->|H5]; [by destruct rest |]. rewrite !(bool_decide_eq_false_2 (s = $"tunnels")) by done. cbn [andb].
  destruct (decide (s = $"traffic")) as [->|H6]; [by destruct rest |]. by rewrite !(bool_decide_eq_false_2 (s = $"traffic")) by done.
Qed.

Lemma api_table_pattern segs : api_table segs = pt_target (any_pattern segs).
Proof.
  destruct segs as [|a [|v [|s rest]]].
  - reflexivity.
  - unfold api_table, under. cbn [take length]. by list_guards.
  - unfold api_table, under. cbn [take length]. by list_guards.
  - unfold any_pattern. case_bool_decide as H; [destruct H as [-> ->]; apply api_table_v1 |].
    unfold api_table, under. cbn [take length]. rewrite !bool_decide_cons.
    destruct (decide (a = $"api")) as [Ha|Ha]; [|by rewrite !(bool_decide_eq_false_2 (a = _)) by done].
    rewrite !(bool_decide_eq_false_2 (v = _)) by tauto. cbn [andb]. rewrite !andb_false_r. done.
Qed.

Lemma route_table_pattern method segs :
  route_table method segs
  = match (if bool_decide (method = $"GET") || bool_decide (method = $"HEAD") then get_pattern segs else None) with
    | Some p => pt_target p
    | None => pt_target (any_pattern segs)
    end.
Proof.
  unfold route_table, get_pattern. rewrite api_table_pattern. cbv zeta. destruct (_ || _); cbn [andb]; [|done].
  by do 3 (case_bool_decide; [done |]).
Qed.

Definition match_segs (method : gostring) (segs : list gostring) : pattern :=
  match (if bool_decide (method = $"GET") || bool_decide (method = $"HEAD") then get_pattern segs else None) with
  | Some p => p
  | None => any_pattern segs
  end.

Lemma match_method_join method segs : segs <> [] -> Forall plain_segment segs ->
  match_method method (join segs) = Some (match_segs method segs).
Proof.
  intros Hne Hs. unfold match_method, match_segs. rewrite !match_in_join, matchSegs_get, matchSegs_any by done.
  destruct (_ || _); [|done]. by destruct (get_pattern segs).
Qed.

Lemma count_join segs : Forall plain_segment segs -> count_slashes (join segs) = length segs.
Proof.
  induction 1 as [|s segs [Hs _] _ IH]; [done |]. unfold count_slashes in *. rewrite join_cons, filter_cons_True by done.
  cbn [length]. rewrite list.filter_app, length_app, IH.
  assert (Hf : filter (fun b => b = slash_) s = []).
  { clear IH. induction s as [|c s IH]; [done |]. rewrite filter_cons_False by set_solver. apply IH. set_solver. }
  by rewrite Hf.
Qed.

Lemma ends_join segs : ends_with_slash (join (segs ++ [[]])) = true.
Proof. rewrite <- join_trailing. unfold ends_with_slash. rewrite list.last_snoc. by apply bool_decide_eq_true_2. Qed.

(** Adding a slash to a path gives a directory of the API, or the root. *)
Lemma exact_directory method l : Forall (fun s => s <> []) l -> Forall plain_segment l ->
  exactMatch (Some (match_segs method (l ++ [[]]))) (join (l ++ [[]])) = true ->
  l = [] \/ l = [$"api"; $"v1"; $"auth"] \/ l = [$"api"; $"v1"; $"agent-tokens"].
Proof.
  intros Hne Hpl. assert (Hpl' : Forall plain_segment (l ++ [[]])).
  { apply list.Forall_app. split; [done |]. repeat constructor; apply not_elem_of_nil. }
  assert (Hget : get_pattern (l ++ [[]]) = None).
  { unfold get_pattern. rewrite !bool_decide_eq_false_2; [done | ..]; destruct l as [|x [|y [|z l]]]; cbn; congruence. }
  assert (Hm : match_segs method (l ++ [[]]) = any_pattern (l ++ [[]])).
  { unfold match_segs. destruct (_ || _); [by rewrite Hget | done]. }
  rewrite Hm. unfold exactMatch. rewrite ends_join, count_join, length_app by done. cbn [negb length].
  destruct l as [|a [|v [|s rest]]]; [by left | | |]; cbn [app any_pattern].
  - intros Hx%bool_decide_eq_true. cbn in Hx. lia.
  - case_bool_decide as Hav; [|intros Hx%bool_decide_eq_true; cbn in Hx; lia].
    assert (Hv : v1_pattern [] [] = public_pattern) by reflexivity. rewrite Hv. intros Hx%bool_decide_eq_true. cbn in Hx. lia.
  - case_bool_decide as Hav; [|intros Hx%bool_decide_eq_true; cbn in Hx; lia]. destruct Hav as [-> ->]. unfold v1_pattern. cbv zeta.
    assert (Hrest : rest ++ [[]] <> []) by (by destruct rest).
    assert (Hcon : rest ++ [[]] <> [$"connect"]).
    { inversion Hne as [|? ? _ Hne1]; inversion Hne1 as [|? ? _ Hne2]; inversion Hne2; subst. destruct rest as [|x [|y r]]; cbn; congruence. }
    rewrite !(bool_decide_eq_false_2 (rest ++ [[]] = [])), (bool_decide_eq_false_2 (rest ++ [[]] = [$"connect"])) by done.
    repeat match goal with
    | |- context [bool_decide (s = ?x)] =>
        let Hs := fresh in
        destruct (decide (s = x)) as [Hs|Hs]; [rewrite !(bool_decide_eq_true_2 (s = x)) by exact Hs
                                              |rewrite !(bool_decide_eq_false_2 (s = x)) by exact Hs]
    end; cbn [pt_multi pt_segs negb public_pattern]; intros Hx; try (apply bool_decide_eq_true in Hx; cbn in Hx);
    first [lia | subst s; first [done | destruct rest; cbn in Hx; first [lia | by auto]]].
Qed.

(** ** Properties *)

(** C27 (equivalence).  The routing tree implements the routing table: a request
    whose clean path needs no unescaping is served by the handler the table names, on
    every host and whatever the method; only the path of the authentication API
    without its slash is redirected.  So every path that is not reserved reaches the
    public handler, and the reserved ones never reach a tunnel. *)
Theorem mux_follows_table (method : gostring) (segs : list gostring) (trailing : bool) :
  method <> $"CONNECT" -> Forall element segs -> Forall plain_segment segs -> (trailing = true -> segs <> []) ->
  let elements := if bool_decide (segs = []) then [[]] else segs ++ if trailing then [[]] else [] in
  findHandler method (join elements) (join elements)
  = if bool_decide (elements = [$"api"; $"v1"; $"auth"]) then MovedPermanently ($"/api/v1/auth/")
    else Serve (route_table method elements).
Proof.
  intros Hm He Hp Ht elements.
  assert (Hgood : good_path (join elements) segs trailing).
  { split_and!; [done | done |]. subst elements. by case_bool_decide. }
  assert (Hpl : Forall plain_segment elements).
  { subst elements. assert (Hnil : plain_segment []) by (split; apply not_elem_of_nil).
    assert (Hone : Forall plain_segment [[]]) by (constructor; [exact Hnil | constructor]).
    case_bool_decide; [exact Hone |]. apply list.Forall_app. split; [done |]. destruct trailing; [exact Hone | constructor]. }
  assert (Hne : elements <> []) by (subst elements; case_bool_decide; [done | by destruct segs]).
  pose proof (good_clean _ _ _ Hgood) as Hclean. unfold findHandler.
  rewrite (bool_decide_eq_false_2 (join elements = _)) by (destruct elements; [done | by rewrite join_cons]).
  rewrite (bool_decide_eq_false_2 (method = _)) by done. cbv zeta. rewrite Hclean, (bool_decide_eq_true_2 (join elements = join elements)) by done.
  rewrite match_method_join by done. cbn [negb matched].
  assert (Hserve : pt_target (match_segs method elements) = route_table method elements).
  { rewrite route_table_pattern. unfold match_segs. by destruct (if _ || _ then _ else _). }
  destruct (decide (segs = [] \/ trailing = true)) as [Hend|Hend].
  - assert (Hel : exists l, elements = l ++ [[]]).
    { subst elements. case_bool_decide; [by exists [] |]. destruct Hend as [|Hend]; [done |]. rewrite Hend. by exists segs. }
    destruct Hel as [l Hl]. assert (Hauth : elements <> [$"api"; $"v1"; $"auth"]).
    { rewrite Hl. intros Heq%(f_equal list.last). rewrite list.last_snoc in Heq. discriminate Heq. }
    rewrite (bool_decide_eq_false_2 _ Hauth), <- Hserve.
    assert (Hs : ends_with_slash (join elements) = true) by (rewrite Hl; apply ends_join).
    rewrite Hs. cbn [negb]. by rewrite andb_false_r.
  - assert (elements = segs) as Hel.
    { subst elements. rewrite bool_decide_eq_false_2 by tauto. destruct trailing; [tauto |]. apply app_nil_r. }
    rewrite Hel in *. destruct (decide (segs = [$"api"; $"v1"; $"auth"])) as [->|Hauth].
    { rewrite bool_decide_eq_true_2 by done. change (cleanPath _ ++ [slash_]) with ($"/api/v1/auth/").
      unfold match_segs, match_method. destruct (_ || _); reflexivity. }
    rewrite (bool_decide_eq_false_2 _ Hauth), <- Hserve, join_trailing.
    assert (Hpl1 : Forall plain_segment (segs ++ [[]])).
    { apply list.Forall_app. split; [done |]. constructor; [|constructor]. split; apply not_elem_of_nil. }
    rewrite match_method_join by (done || by destruct segs).
    destruct (exactMatch (Some (match_segs method (segs ++ [[]]))) _) eqn:Hex; [|by rewrite andb_false_r].
    apply exact_directory in Hex as [->|[->| ->]]; [done | done | | | done].
    + unfold match_segs. by destruct (_ || _).
    + eapply list.Forall_impl; [exact He |]. by intros x [Hx _].
Qed.

Lemma mux_follows_table_witness :
  findHandler ($"POST") ($"/api/v1/auth/login") ($"/api/v1/auth/login") = Serve Auth
  /\ findHandler ($"GET") ($"/shop/cart/") ($"/shop/cart/") = Serve Public.
Proof.
  assert (Hel : forall s, forallb (fun b => negb (bool_decide (b = slash_)) && negb (bool_decide (b = Byte.x25))) s = true ->
    s <> [] -> s <> dot_ -> s <> dotdot -> element s /\ plain_segment s).
  { intros s Hs H1 H2 H3. assert (Hall : forall b, b ∈ s -> b <> slash_ /\ b <> Byte.x25).
    { intros b Hb. rewrite forallb_forall in Hs. apply list_elem_of_In, Hs in Hb. apply andb_true_iff in Hb as [Ha Hb].
      apply negb_true_iff, bool_decide_eq_false in Ha, Hb. by split. }
    split; [split; [done | split; [done | split; [done |]]] | split]; intros Hin; by destruct (Hall _ Hin). }
  split.
  - refine (mux_follows_table ($"POST") [$"api"; $"v1"; $"auth"; $"login"] false _ _ _ _); try discriminate;
      repeat (constructor; [by apply Hel |]); constructor.
  - refine (mux_follows_table ($"GET") [$"shop"; $"cart"] true _ _ _ _); try discriminate;
      repeat (constructor; [by apply Hel |]); constructor.
Defined.

(** The root pattern catches every path. *)
Lemma match_method_some method path : path <> [] -> exists t, matched (match_method method path) = Serve t.
Proof.
  intros Hne. unfold match_method. destruct (if _ || _ then _ else _) as [p|]; [by eexists |].
  unfold match_in. cbn [matchPath]. rewrite bool_decide_eq_false_2 by done. destruct (firstSegment path) as [seg rest].
  destruct (findChild seg any_tree ≫= _) as [p|]; by eexists.
Qed.

Lemma good_path_slash p segs trailing : good_path p segs trailing -> exists t, p = slash_ :: t.
Proof.
  intros (_ & _ & ->). case_bool_decide; [by eexists |]. destruct segs as [|s segs]; [done |]. cbn [app]. rewrite join_cons. by eexists.
Qed.

(** A clean path that is not to be completed is served. *)
Lemma clean_served method p : method <> $"CONNECT" -> cleanPath p = p -> (exists t, p = slash_ :: t) ->
  negb (exactMatch (match_method method p) p) && negb (ends_with_slash p)
    && exactMatch (match_method method (p ++ [slash_])) (p ++ [slash_]) = false ->
  exists t, findHandler method p p = Serve t.
Proof.
  intros Hm Hc [t Hp] Hred. unfold findHandler. rewrite (bool_decide_eq_false_2 (p = _)) by (rewrite Hp; done).
  rewrite (bool_decide_eq_false_2 (method = _)) by done. cbv zeta. rewrite Hc, Hred, (bool_decide_eq_true_2 (p = p)) by done.
  apply match_method_some. by rewrite Hp.
Qed.

(** Redirections end: the path a request is redirected to is
    served at the next attempt, whatever the method. *)
Theorem redirect_is_served (method path location : gostring) :
  method <> $"CONNECT" -> findHandler method path path = MovedPermanently location ->
  exists t, findHandler method location location = Serve t.
Proof.
  intros Hm. unfold findHandler at 1. case_bool_decide as Hstar; [done |]. rewrite (bool_decide_eq_false_2 (method = _)) by done. cbv zeta.
  destruct (cleanPath_good path) as (segs & trailing & Hgood). pose proof (cleanPath_idem path) as Hidem.
  set (p := cleanPath path) in *. destruct (_ && _ && _) eqn:Hred.
  - intros [= <-]. apply andb_true_iff in Hred as [[_ Hend]%andb_true_iff _]. apply negb_true_iff in Hend.
    assert (Hg : good_path (p ++ [slash_]) segs true).
    { destruct Hgood as (He & Ht & Hp). case_bool_decide as Hs; [by rewrite Hp in Hend |]. split_and!; [done | done |].
      rewrite bool_decide_eq_false_2 by done. rewrite <- join_trailing. f_equal.
      destruct trailing; [by rewrite Hp, ends_join in Hend | by rewrite app_nil_r in Hp]. }
    apply clean_served; [done | by eapply good_clean | by eapply good_path_slash |].
    unfold ends_with_slash at 1. rewrite list.last_snoc, bool_decide_eq_true_2 by done. cbn [negb]. by rewrite andb_false_r.
  - case_bool_decide as Heq; cbn [negb].
    + destruct (match_method method p); intros [=].
    + intros [= <-]. apply clean_served; [done | done | by eapply good_path_slash | done].
Qed.

Lemma redirect_is_served_witness : exists t, findHandler ($"GET") ($"/a/b") ($"/a/b") = Serve t.
Proof. apply (redirect_is_served ($"GET") ($"/a//./b")); [discriminate | reflexivity]. Defined.
