(* ===== verification/Server.v ===== *)
(** * The gateway's HTTP server

    backend/internal/server: [NewHandler] with its chain of middlewares (request
    IDs, the request log, security headers, CORS, metrics) around the routes, the
    health checks and the metrics page. *)

From Stdlib Require Import Floats.SpecFloat.
From stdpp Require Import sorting.
From S2P Require Import Prelude GoStrings Effects Headers Json Reader Http Mux.

(** ** Metrics *)

(** Counters are [uint64], durations [int64] nanoseconds. *)
Record metricValue := mkMetric { mv_count : Z; mv_duration : Z; mv_inFlight : Z }.
Definition zeroMetric : metricValue := mkMetric 0 0 0.

(** Figures of the gateway and of the tunnels. *)
Record GatewayMetrics := mkGatewayMetrics {
  gm_ActiveSessions : Z; gm_PendingRequests : Z; gm_ConnectionsTotal : Z; gm_DisconnectionsTotal : Z
}.
Record TunnelTrafficMetrics := mkTunnelTraffic { tt_RequestsTotal : Z; tt_RequestBytes : Z; tt_ResponseBytes : Z }.

(** The map of the [Metrics] structure; the collectors are arguments. *)
Abbreviation metric_values := (gmap gostring metricValue).
Definition NewMetrics : metric_values := ∅.

(** [m.value(key)], for an update of the value it points to. *)
Definition on_value (key : gostring) (f : metricValue -> metricValue) (m : metric_values) : metric_values :=
  <[key := f (default zeroMetric (m !! key))]> m.

Definition int64_wrap (z : Z) : Z := wrapu 64 (z + 2 ^ 63) - 2 ^ 63.

Definition entered (v : metricValue) : metricValue := mkMetric (mv_count v) (mv_duration v) (u64 (mv_inFlight v + 1)).
Definition left_ (elapsed : Z) (v : metricValue) : metricValue :=
  mkMetric (u64 (mv_count v + 1)) (int64_wrap (mv_duration v + elapsed)) (u64 (mv_inFlight v - 1)).

Definition metricRoute (path : gostring) : gostring :=
  if HasPrefix path ($"/api/") then $"api" else if HasPrefix path ($"/health/") then $"health" else $"tunnel".

Definition metric_key (r : Request) : gostring := q_Method r ++ $":" ++ metricRoute (q_Path r).

(** *** The page *)

(** A [float64] from an integer, and [%.9f]: the exact binary value rounded half to
    even at the ninth decimal. *)
Definition float64_of (z : Z) : spec_float := binary_normalize 53 1024 z 0 false.

(** [num / den], rounded half to even. *)
Definition round_div (num den : Z) : Z :=
  let q := num / den in
  let r := 2 * (num mod den) in
  if r <? den then q else if den <? r then q + 1 else if Z.even q then q else q + 1.

Definition fixed9 (f : spec_float) : gostring :=
  let show (neg : bool) (n : Z) :=
    (if neg then $"-" else []) ++ print_int (n / 10 ^ 9) ++ $"." ++ drop 1 (print_int (10 ^ 9 + n mod 10 ^ 9)) in
  match f with
  | S754_zero neg => show neg 0
  | S754_finite neg m e => show neg (if 0 <=? e then Z.pos m * 2 ^ e * 10 ^ 9 else round_div (Z.pos m * 10 ^ 9) (2 ^ (- e)))
  | S754_infinity neg => if neg then $"-Inf" else $"+Inf"
  | S754_nan => $"NaN"
  end.

(** [d.Seconds()]. *)
Definition Seconds (d : Z) : spec_float :=
  SFadd 53 1024 (float64_of (Z.quot d Second)) (SFdiv 53 1024 (float64_of (Z.rem d Second)) (float64_of (10 ^ 9))).

(** [%q] of a method or of a route; both are tokens, in which nothing is escaped. *)
Definition quoted (s : gostring) : gostring := quote :: s ++ [quote].

Definition newline : byte := Byte.x0a.
Definition Fprintln (text : gostring) (w : ResponseWriter) : ResponseWriter := Write (text ++ [newline]) w.

(** [strings.Cut] of a key at its first colon. *)
Definition cut_key (key : gostring) : gostring * gostring :=
  match IndexByte key colon with
  | Some i => (take i key, drop (S i) key)
  | None => (key, [])
  end.

Definition labels (key : gostring) : gostring :=
  let '(method, route) := cut_key key in $"{method=" ++ quoted method ++ $",route=" ++ quoted route ++ $"} ".

Definition metric_lines (key : gostring) (v : metricValue) (w : ResponseWriter) : ResponseWriter :=
  let w := Fprintln ($"myngrok_http_requests_total" ++ labels key ++ print_int (mv_count v)) w in
  let w := Fprintln ($"myngrok_http_request_duration_seconds_total" ++ labels key ++ fixed9 (Seconds (mv_duration v))) w in
  Fprintln ($"myngrok_http_requests_in_flight" ++ labels key ++ print_int (mv_inFlight v)) w.

(** [sort.Strings] compares bytes. *)
Fixpoint bytes_le (s t : gostring) : bool :=
  match s, t with
  | [], _ => true
  | _ :: _, [] => false
  | a :: s, b :: t => if byte_to_Z a =? byte_to_Z b then bytes_le s t else byte_to_Z a <? byte_to_Z b
  end.
Definition not_after (s t : gostring) : Prop := bytes_le s t = true.
#[global] Instance not_after_dec : RelDecision not_after.
Proof. intros s t. unfold not_after. apply _. Defined.
Definition sortStrings : list gostring -> list gostring := merge_sort not_after.

(** HELP, TYPE and value of one figure. *)
Definition figure (name kind help : gostring) (n : Z) (w : ResponseWriter) : ResponseWriter :=
  let w := Fprintln ($"# HELP " ++ name ++ $" " ++ help) w in
  let w := Fprintln ($"# TYPE " ++ name ++ $" " ++ kind) w in
  Fprintln (name ++ $" " ++ print_int n) w.

Definition gateway_lines (g : GatewayMetrics) (w : ResponseWriter) : ResponseWriter :=
  let w := figure ($"myngrok_gateway_active_sessions") ($"gauge") ($"Current active agent sessions.") (gm_ActiveSessions g) w in
  let w := figure ($"myngrok_gateway_pending_requests") ($"gauge") ($"Current requests awaiting an agent response.") (gm_PendingRequests g) w in
  let w := figure ($"myngrok_gateway_connections_total") ($"counter") ($"Agent sessions registered since process start.") (gm_ConnectionsTotal g) w in
  figure ($"myngrok_gateway_disconnections_total") ($"counter") ($"Agent sessions disconnected since process start.") (gm_DisconnectionsTotal g) w.

Definition traffic_lines (t : TunnelTrafficMetrics) (w : ResponseWriter) : ResponseWriter :=
  let w := figure ($"myngrok_tunnel_traffic_requests_total") ($"counter") ($"Successfully completed public tunnel requests.") (tt_RequestsTotal t) w in
  let w := figure ($"myngrok_tunnel_traffic_request_bytes_total") ($"counter") ($"Public request body bytes forwarded to agents.") (tt_RequestBytes t) w in
  figure ($"myngrok_tunnel_traffic_response_bytes_total") ($"counter") ($"Agent response body bytes returned to public clients.") (tt_ResponseBytes t) w.

Definition metrics_head (w : ResponseWriter) : ResponseWriter :=
  let w := w_Set ($"Content-Type") ($"text/plain; version=0.0.4; charset=utf-8") w in
  let w := Fprintln ($"# HELP myngrok_http_requests_total Completed HTTP requests by method and route group.") w in
  let w := Fprintln ($"# TYPE myngrok_http_requests_total counter") w in
  let w := Fprintln ($"# HELP myngrok_http_request_duration_seconds_total Total HTTP request duration by method and route group.") w in
  let w := Fprintln ($"# TYPE myngrok_http_request_duration_seconds_total counter") w in
  let w := Fprintln ($"# HELP myngrok_http_requests_in_flight Current in-flight HTTP requests by method and route group.") w in
  Fprintln ($"# TYPE myngrok_http_requests_in_flight gauge") w.

Definition metrics_table (m : metric_values) (w : ResponseWriter) : ResponseWriter :=
  foldl (fun w key => metric_lines key (default zeroMetric (m !! key)) w) w (sortStrings (map_to_list m).*1).

(** ** Handlers *)

(** [None]: the handler panicked, which ends the request without running what
    follows in the middlewares around it; none of them defers anything. *)
Abbreviation handler S := (Request -> ResponseWriter -> prog S (option ResponseWriter)).

(** A handler that does not panic. *)
Definition total {S} (h : Request -> ResponseWriter -> prog S ResponseWriter) : handler S :=
  fun r w => w ← h r w; mret (Some w).

(** ** Request IDs *)

Definition requestIDHeader : gostring := $"X-Request-ID".

Definition id_rune (c : Z) : bool :=
  ((97 <=? c) && (c <=? 122)) || ((65 <=? c) && (c <=? 90)) || ((48 <=? c) && (c <=? 57)) || (c =? 45) || (c =? 95).

Definition validRequestID (id : gostring) : bool :=
  if (zlen id <? 8) || (128 <? zlen id) then false else forallb id_rune (runes id).

Definition newRequestID {S} : prog S gostring :=
  bytes ← rand_Read 12;
  mret (match bytes with
        | None => $"req_unavailable"
        | Some bytes => $"req_" ++ hex_encode bytes
        end).

(** ** The log *)

Record log_entry := mkEntry {
  le_request_id : gostring; le_method : gostring; le_path : gostring; le_remote_ip : gostring; le_duration_ms : Z
}.

Definition clientIP (remoteAddr : gostring) : gostring :=
  match LastIndexByte remoteAddr colon with
  | Some (S i) => take (S i) remoteAddr
  | _ => remoteAddr
  end.

Section server.
Context {St : Type} (metricsL : lens St metric_values) (logL : lens St (list log_entry)).

(** The context of the request carries the ID to [requestLog]. *)
Definition requestID (next : gostring -> handler St) : handler St := fun r w =>
  let id := h_Get requestIDHeader (q_Header r) in
  id ← (if validRequestID id then mret id else newRequestID);
  next id r (w_Set requestIDHeader id w).

Definition requestLog (next : handler St) (requestID : gostring) : handler St := fun r w =>
  started ← Now;
  x ← next r w;
  match x with
  | None => mret None
  | Some w =>
      _ ← action (fun a s => (tt, update logL (view logL s
            ++ [mkEntry requestID (q_Method r) (q_Path r) (clientIP (q_RemoteAddr r)) (Z.quot (Sub (a_now a) started) (10 ^ 6))]) s));
      mret (Some w)
  end.

(** ** Security headers *)

Definition control_plane (path : gostring) : bool :=
  HasPrefix path ($"/api/") || bool_decide (path = $"/health/live") || bool_decide (path = $"/health/ready").

Definition securityHeaders (next : handler St) : handler St := fun r w =>
  let w :=
    if control_plane (q_Path r) then
      let w := w_Set ($"X-Content-Type-Options") ($"nosniff") w in
      let w := w_Set ($"X-Frame-Options") ($"DENY") w in
      let w := w_Set ($"Referrer-Policy") ($"no-referrer") w in
      let w := w_Set ($"Permissions-Policy") ($"camera=(), geolocation=(), microphone=()") w in
      let w := w_Set ($"Content-Security-Policy")
                 ($"default-src 'none'; base-uri 'none'; frame-ancestors 'none'; form-action 'none'") w in
      let w := w_Set ($"Cache-Control") ($"no-store") w in
      if q_TLS r then w_Set ($"Strict-Transport-Security") ($"max-age=31536000") w else w
    else w in
  next r w.

(** ** Cross-origin requests *)

Definition cors (allowedOrigins : list gostring) (next : handler St) : handler St := fun r w =>
  if negb (HasPrefix (q_Path r) ($"/api/")) then next r w
  else
    let origin := h_Get ($"Origin") (q_Header r) in
    if bool_decide (origin = []) then next r w
    else if negb (bool_decide (origin ∈ allowedOrigins)) then
      if bool_decide (q_Method r = $"OPTIONS") then mret (Some (WriteHeader 403 w))
      else mret (Some (w_Error ($"origin is not allowed") 403 w))
    else
      let w := w_Set ($"Access-Control-Allow-Origin") origin w in
      let w := w_Set ($"Access-Control-Allow-Credentials") ($"true") w in
      let w := w_Add ($"Vary") ($"Origin") w in
      if bool_decide (q_Method r = $"OPTIONS") then
        let w := w_Set ($"Access-Control-Allow-Methods") ($"GET, POST, DELETE, OPTIONS") w in
        let w := w_Set ($"Access-Control-Allow-Headers") ($"Authorization, Content-Type") w in
        let w := w_Set ($"Access-Control-Max-Age") ($"600") w in
        mret (Some (WriteHeader 204 w))
      else next r w.

(** ** Counting requests *)

Definition on_metrics (f : answer -> metric_values -> metric_values) : prog St unit :=
  action (fun a s => (tt, update metricsL (f a (view metricsL s)) s)).

Definition Middleware (next : handler St) : handler St := fun r w =>
  if bool_decide (q_Path r = $"/metrics") then next r w
  else
    let key := metric_key r in
    _ ← on_metrics (fun _ => on_value key entered);
    started ← Now;
    x ← next r w;
    match x with
    | None => mret None
    | Some w =>
        _ ← on_metrics (fun a => on_value key (left_ (Sub (a_now a) started)));
        mret (Some w)
    end.

Context (gatewayCollector : option (St -> GatewayMetrics)) (trafficCollector : option (St -> TunnelTrafficMetrics)).

Definition metrics_ServeHTTP : handler St := fun _ w =>
  w ← action (fun _ s => (metrics_table (view metricsL s) (metrics_head w), s));
  w ← match gatewayCollector with Some f => action (fun _ s => (gateway_lines (f s) w, s)) | None => mret w end;
  w ← match trafficCollector with Some f => action (fun _ s => (traffic_lines (f s) w, s)) | None => mret w end;
  mret (Some w).

(** ** Health *)

Definition health (w : ResponseWriter) : ResponseWriter :=
  Encode (JObj [($"status", JStr ($"ok"))]) (w_Set ($"Content-Type") ($"application/json") w).

Definition readiness (ready : prog St bool) : handler St := fun _ w =>
  ok ← ready;
  mret (Some (if negb ok
              then Encode (JObj [($"status", JStr ($"not ready"))])
                     (WriteHeader 503 (w_Set ($"Content-Type") ($"application/json") w))
              else health w)).

(** ** The handler of the server *)

(** The handlers [NewHandler] is given; [redirect] and [refuse] are the mux's own
    responses. *)
Record services := mkServices {
  sv_ready : prog St bool;
  sv_auth : handler St; sv_agentTokens : handler St; sv_agentConnect : handler St; sv_agents : handler St;
  sv_tunnels : handler St; sv_traffic : handler St; sv_public : handler St;
  sv_redirect : gostring -> Request -> ResponseWriter -> ResponseWriter;
  sv_refuse : Z -> Request -> ResponseWriter -> ResponseWriter
}.

Definition serve (sv : services) (t : target) : handler St :=
  match t with
  | Metrics_page => metrics_ServeHTTP
  | Health => fun _ w => mret (Some (health w))
  | Readiness => readiness (sv_ready sv)
  | Auth => sv_auth sv
  | AgentTokens => sv_agentTokens sv
  | AgentConnect => sv_agentConnect sv
  | Agents => sv_agents sv
  | Tunnels => sv_tunnels sv
  | Traffic => sv_traffic sv
  | Public => sv_public sv
  end.

Definition mux (sv : services) (escapedPath : gostring) : handler St := fun r w =>
  match findHandler (q_Method r) escapedPath (q_Path r) with
  | Serve t => serve sv t r w
  | MovedPermanently path => mret (Some (sv_redirect sv path r w))
  | NotFound => mret (Some (sv_refuse sv 404 r w))
  | BadRequest => mret (Some (sv_refuse sv 400 r w))
  end.

(** The request and [r.URL.EscapedPath()]. *)
Definition NewHandler (sv : services) (corsAllowedOrigins : list gostring) (escapedPath : gostring) : handler St :=
  requestID (requestLog (securityHeaders (cors corsAllowedOrigins (Middleware (mux sv escapedPath))))).
End server.

(** ** Lemmas *)

Lemma runes_ascii s : all_ascii s = true -> runes s = byte_to_Z <$> s.
Proof.
  unfold runes. assert (H : forall n s, (length s <= n)%nat -> all_ascii s = true -> runes_fuel n s = byte_to_Z <$> s); [|by apply H].
  induction n as [|n IH]; intros [|b t] Hl Ha; cbn in Hl; try done; [lia |].
  cbn [all_ascii forallb] in Ha. apply andb_true_iff in Ha as [Hb Ht]. cbn [runes_fuel].
  rewrite DecodeRune_ascii by (by apply Z.ltb_lt). cbn [drop fmap list_fmap]. f_equal. apply IH; [lia | done].
Qed.

(** An identifier that is ASCII. *)
Definition id_byte (b : byte) : bool := is_ascii b && id_rune (byte_to_Z b).

Lemma id_bytes_valid s : forallb id_byte s = true -> 8 <= zlen s <= 128 -> validRequestID s = true.
Proof.
  intros Hs Hl. unfold validRequestID. rewrite (proj2 (Z.ltb_ge _ _)), (proj2 (Z.ltb_ge 128 _)) by lia. cbn [orb].
  rewrite forallb_forall in Hs. rewrite runes_ascii.
  - apply forallb_forall. intros c (b & -> & Hb)%list_elem_of_In%list_elem_of_fmap. apply list_elem_of_In, Hs, andb_true_iff in Hb. tauto.
  - apply forallb_forall. intros b Hb%Hs. apply andb_true_iff in Hb. tauto.
Qed.

Lemma hex_encode_bytes data : forallb id_byte (hex_encode data) = true /\ length (hex_encode data) = (2 * length data)%nat.
Proof.
  assert (Hd : forall n, 0 <= n < 16 -> id_byte (lowerhex n) = true).
  { intros n Hn. unfold lowerhex, id_byte, is_ascii, id_rune. rewrite byte_to_of_Z.
    destruct (n <? 10) eqn:?; rewrite Z.mod_small by lia; lia. }
  unfold hex_encode. induction data as [|b data [IH1 IH2]]; [done |]. pose proof (byte_to_Z_range b).
  cbn [mbind list_bind app forallb length]. rewrite !Hd by (Z.to_euclidean_division_equations; lia). rewrite IH1, IH2.
  split; [done | lia].
Qed.

Lemma newRequestID_valid (b : list byte) : validRequestID ($"req_" ++ hex_encode (take 12 (b ++ make_bytes 12))) = true.
Proof.
  destruct (hex_encode_bytes (take 12 (b ++ make_bytes 12))) as [Hb Hl]. apply id_bytes_valid.
  - rewrite forallb_app, Hb. reflexivity.
  - unfold zlen. rewrite length_app, Hl, length_take, length_app. unfold make_bytes. rewrite length_replicate.
    change (length ($"req_")) with 4%nat. replace (12 `min` (length b + 12))%nat with 12%nat by lia. lia.
Qed.

(** *** Counting *)

(** What requests do to the counters, in the order of the lock. *)
Inductive metric_event := Entered (key : gostring) | Left (key : gostring) (elapsed : Z).

Definition metric_step (m : metric_values) (e : metric_event) : metric_values :=
  match e with
  | Entered key => on_value key entered m
  | Left key elapsed => on_value key (left_ elapsed) m
  end.

Definition entered_of (key : gostring) (e : metric_event) : Z :=
  match e with Entered k => if bool_decide (k = key) then 1 else 0 | Left _ _ => 0 end.
Definition left_of (key : gostring) (e : metric_event) : Z :=
  match e with Left k _ => if bool_decide (k = key) then 1 else 0 | Entered _ => 0 end.
Definition elapsed_of (key : gostring) (e : metric_event) : Z :=
  match e with Left k d => if bool_decide (k = key) then d else 0 | Entered _ => 0 end.
Definition total_of (f : metric_event -> Z) (events : list metric_event) : Z := foldr (fun e acc => f e + acc) 0 events.

Lemma total_of_snoc f l e : total_of f (l ++ [e]) = total_of f l + f e.
Proof. unfold total_of. induction l as [|x l IH]; cbn; [|rewrite IH]; lia. Qed.

Lemma int64_wrap_add a b : int64_wrap (int64_wrap a + b) = int64_wrap (a + b).
Proof.
  unfold int64_wrap. f_equal. replace (wrapu 64 (a + 2 ^ 63) - 2 ^ 63 + b + 2 ^ 63) with (wrapu 64 (a + 2 ^ 63) + b) by lia.
  rewrite wrapu_add_l by lia. f_equal. lia.
Qed.

Lemma lookup_on_value key f m k :
  default zeroMetric (on_value key f m !! k)
  = (if bool_decide (key = k) then f (default zeroMetric (m !! k)) else default zeroMetric (m !! k)).
Proof. unfold on_value. case_bool_decide as Hk; [subst; by rewrite lookup_insert_eq | by rewrite lookup_insert_ne]. Qed.

Lemma metrics_counted events key :
  default zeroMetric (foldl metric_step NewMetrics events !! key)
  = mkMetric (u64 (total_of (left_of key) events)) (int64_wrap (total_of (elapsed_of key) events))
      (u64 (total_of (entered_of key) events - total_of (left_of key) events)).
Proof.
  induction events as [|e events IH] using rev_ind; [done |]. rewrite foldl_app, !total_of_snoc. cbn [foldl].
  destruct e as [k|k d]; cbn [metric_step entered_of left_of elapsed_of]; rewrite lookup_on_value; case_bool_decide; rewrite IH.
  - unfold entered. cbn [mv_count mv_duration mv_inFlight]. rewrite wrapu_add_l, !Z.add_0_r by lia. do 2 f_equal. lia.
  - by rewrite !Z.add_0_r.
  - unfold left_. cbn [mv_count mv_duration mv_inFlight]. rewrite int64_wrap_add, wrapu_add_l, Z.add_0_r by lia.
    f_equal. rewrite <- Z.add_opp_r, wrapu_add_l by lia. f_equal. lia.
  - by rewrite !Z.add_0_r.
Qed.

Section properties.
Context {St : Type} (metricsL : lens St metric_values) (logL : lens St (list log_entry)) `{!LensLaws logL} `{!LensLaws metricsL}.

(** The ID handed on is valid, and the client's own if that is valid. *)
Lemma requestID_run env n (next : gostring -> handler St) r w s :
  exists id n0, validRequestID id = true
    /\ (validRequestID (h_Get requestIDHeader (q_Header r)) = true -> id = h_Get requestIDHeader (q_Header r))
    /\ run env n (requestID next r w) s = run env n0 (next id r (w_Set requestIDHeader id w)) s.
Proof.
  unfold requestID. cbv zeta. rewrite run_bind. destruct (validRequestID _) eqn:Hv.
  - eexists _, n. split_and!; [exact Hv | done | done].
  - unfold newRequestID, rand_Read. rewrite run_bind, run_action. cbn [run mret prog_ret].
    refine (ex_intro _ _ (ex_intro _ _ (conj _ (conj _ eq_refl)))); [|intros [=]].
    destruct (a_random (env n)) as [b|]; [apply newRequestID_valid | reflexivity].
Qed.

(** The log gets an entry once the handler has returned. *)
Lemma requestLog_run env n (next : handler St) id r w s :
  run env n (requestLog logL next id r w) s
  = let '(x, s', n') := run env (S n) (next r w) s in
    match x with
    | None => (None, s', n')
    | Some w => (Some w, update logL (view logL s' ++ [mkEntry id (q_Method r) (q_Path r) (clientIP (q_RemoteAddr r))
                          (Z.quot (Sub (a_now (env n')) (a_now (env n))) (10 ^ 6))]) s', S n')
    end.
Proof.
  unfold requestLog, Now. rewrite run_bind, run_action, run_bind. cbn [fst snd].
  destruct (run env (S n) (next r w) s) as [[[w'|] s'] n']; [|done]. by rewrite run_bind, run_action.
Qed.

(** C29 (safety).  Paths below /api/ belong to the control plane on every host: a
    request for one that names an origin outside the allow list is answered 403 by the
    middleware, whatever its method and whether the path is routed to the API or to a
    tunnel; no handler runs, nothing but the log changes, and the entry carries a
    valid request ID, the client's own if that is valid. *)
Theorem foreign_origin_refused (gatewayCollector : option (St -> GatewayMetrics)) (trafficCollector : option (St -> TunnelTrafficMetrics))
    (sv : services) (allowed : list gostring) (escapedPath : gostring) (r : Request) (env : nat -> answer) (n : nat) (s : St) :
  HasPrefix (q_Path r) ($"/api/") = true -> h_Get ($"Origin") (q_Header r) <> [] -> h_Get ($"Origin") (q_Header r) ∉ allowed ->
  exists w id ms n',
    run env n (NewHandler metricsL logL gatewayCollector trafficCollector sv allowed escapedPath r new_writer) s
    = (Some w, update logL (view logL s ++ [mkEntry id (q_Method r) (q_Path r) (clientIP (q_RemoteAddr r)) ms]) s, n')
    /\ status w = 403 /\ validRequestID id = true
    /\ (validRequestID (h_Get requestIDHeader (q_Header r)) = true -> id = h_Get requestIDHeader (q_Header r)).
Proof.
  intros Hpath Horigin Hallowed. unfold NewHandler.
  destruct (requestID_run env n (requestLog logL (securityHeaders (cors allowed (Middleware metricsL (mux metricsL gatewayCollector
    trafficCollector sv escapedPath))))) r new_writer s) as (id & n0 & Hid & Hown & ->).
  rewrite requestLog_run. unfold securityHeaders, cors, control_plane. rewrite Hpath. cbn [negb orb]. cbv zeta.
  rewrite (bool_decide_eq_false_2 _ Horigin), (bool_decide_eq_false_2 _ Hallowed). cbn [negb].
  destruct (bool_decide (q_Method r = $"OPTIONS")), (q_TLS r); cbn [run mret prog_ret];
    (eexists _, id, _, _; split; [reflexivity | split; [reflexivity | split; [exact Hid | exact Hown]]]).
Qed.

(** C28 (invariant).  Requests are counted exactly: whatever requests have entered and
    left before, in whatever order, a request adds one entry and, when its handler
    returns, one completion of its method and route group; each group's counters are
    the number of completions, their total duration, and the number of requests that
    entered and have not left, at the width of the counters.  A request whose handler
    panics never leaves: it stays in flight for good. *)
Theorem requests_counted (next : handler St) (r : Request) (w : ResponseWriter) (events : list metric_event)
    (env : nat -> answer) (n n' : nat) (s s' : St) (x : option ResponseWriter) :
  q_Path r <> $"/metrics" -> (forall env n s, view metricsL (run env n (next r w) s).1.2 = view metricsL s) ->
  view metricsL s = foldl metric_step NewMetrics events ->
  run env n (Middleware metricsL next r w) s = (x, s', n') ->
  exists elapsed,
    let events' := events ++ Entered (metric_key r) :: match x with Some _ => [Left (metric_key r) elapsed] | None => [] end in
    view metricsL s' = foldl metric_step NewMetrics events'
    /\ forall key, default zeroMetric (view metricsL s' !! key)
         = mkMetric (u64 (total_of (left_of key) events')) (int64_wrap (total_of (elapsed_of key) events'))
             (u64 (total_of (entered_of key) events' - total_of (left_of key) events')).
Proof.
  intros Hpath Hnext Hs Hrun. unfold Middleware in Hrun. rewrite (bool_decide_eq_false_2 _ Hpath) in Hrun. cbv zeta in Hrun.
  unfold on_metrics, Now in Hrun. rewrite run_bind, run_action, run_bind, run_action, run_bind in Hrun. cbn [fst snd] in Hrun.
  set (s1 := update metricsL _ s) in Hrun. specialize (Hnext env (S (S n)) s1).
  destruct (run env (S (S n)) (next r w) s1) as [[[w'|] s2] n2]; cbn [fst snd] in Hnext.
  - rewrite run_bind, run_action in Hrun. cbn in Hrun. injection Hrun as <- <- <-.
    exists (Sub (a_now (env n2)) (a_now (env (S n)))). cbv zeta.
    assert (Hview : view metricsL (update metricsL (on_value (metric_key r) (left_ (Sub (a_now (env n2)) (a_now (env (S n)))))
      (view metricsL s2)) s2) = foldl metric_step NewMetrics (events ++ [Entered (metric_key r); Left (metric_key r)
        (Sub (a_now (env n2)) (a_now (env (S n))))])).
    { rewrite view_update, Hnext. subst s1. rewrite view_update, foldl_app, <- Hs. done. }
    split; [exact Hview |]. intros key. rewrite Hview. apply metrics_counted.
  - cbn in Hrun. injection Hrun as <- <- <-. exists 0. cbv zeta.
    assert (Hview : view metricsL s2 = foldl metric_step NewMetrics (events ++ [Entered (metric_key r)])).
    { rewrite Hnext. subst s1. rewrite view_update, foldl_app, <- Hs. done. }
    split; [exact Hview |]. intros key. rewrite Hview. apply metrics_counted.
Qed.
End properties.

(** ** The sample *)

Definition sample_values : lens (metric_values * list log_entry) metric_values := mkLens fst (fun m s => (m, s.2)).
Definition sample_log : lens (metric_values * list log_entry) (list log_entry) := mkLens snd (fun l s => (s.1, l)).
#[global] Instance sample_values_laws : LensLaws sample_values.
Proof. split; [done | by intros [] | done]. Qed.
#[global] Instance sample_log_laws : LensLaws sample_log.
Proof. split; [done | by intros [] | done]. Qed.

Definition quiet_env (n : nat) : answer := mkAnswer (Z.of_nat n * Second) [] None None.
Definition ok_handler : handler (metric_values * list log_entry) := fun _ w => mret (Some (Write ($"hello") w)).
Definition sample_services : services :=
  mkServices (mret true) ok_handler ok_handler ok_handler ok_handler ok_handler ok_handler ok_handler (fun _ _ w => w) (fun _ _ w => w).
Definition app_request : Request :=
  mkReq ($"POST") ($"/api/cart") {[ $"Origin" := [$"https://demo.tunnel.example.test"] ]} ($"192.0.2.7:4711") [] [] true.

Lemma foreign_origin_refused_witness :
  exists w id ms n', run quiet_env 0 (NewHandler sample_values sample_log None None sample_services
      [$"https://tunnel.example.test"] ($"/api/cart") app_request new_writer) (∅, [])
    = (Some w, (∅, [mkEntry id ($"POST") ($"/api/cart") ($"192.0.2.7") ms]), n') /\ status w = 403.
Proof.
  destruct (foreign_origin_refused sample_values sample_log None None sample_services [$"https://tunnel.example.test"] ($"/api/cart")
              app_request quiet_env 0 (∅, [])) as (w & id & ms & n' & Hrun & Hst & _).
  - reflexivity.
  - discriminate.
  - intros H. vm_compute in H. apply list_elem_of_singleton in H. discriminate H.
  - exists w, id, ms, n'. split; [exact Hrun | exact Hst].
Defined.

Lemma requests_counted_witness :
  exists elapsed, (run quiet_env 0 (Middleware sample_values ok_handler app_request new_writer) (∅, [])).1.2.1
    = foldl metric_step NewMetrics [Entered ($"POST:api"); Left ($"POST:api") elapsed].
Proof.
  destruct (requests_counted sample_values ok_handler app_request new_writer [] quiet_env 0 3 (∅, [])
              (run quiet_env 0 (Middleware sample_values ok_handler app_request new_writer) (∅, [])).1.2
              (Some (Write ($"hello") new_writer))) as (elapsed & H & _).
  - discriminate.
  - reflexivity.
  - reflexivity.
  - reflexivity.
  - exists elapsed. exact H.
Defined.

(** The response of a tunnel to a path below /api/ that the API does not use
    carries the headers of the control plane. *)
Lemma tunnel_api_response :
  let r := mkReq ($"GET") ($"/api/cart") ∅ ($"192.0.2.7:4711") [] [] true in
  findHandler ($"GET") ($"/api/cart") ($"/api/cart") = Serve Public
  /\ match (run quiet_env 0 (NewHandler sample_values sample_log None None sample_services [] ($"/api/cart") r new_writer) (∅, [])).1.1 with
     | Some w => let '(code, h, _, body) := response w in
                 code = 200 /\ body = $"hello" /\ h_Get ($"X-Frame-Options") h = $"DENY"
                 /\ h_Get ($"Cache-Control") h = $"no-store" /\ h_Get ($"Strict-Transport-Security") h = $"max-age=31536000"
     | None => False
     end.
Proof. split; [reflexivity |]. vm_compute. repeat split. Qed.

(** The method is part of the key as the client sends it, so every new method adds
    a row that is never removed. *)
Lemma methods_add_rows (methods : list gostring) :
  NoDup methods -> size (foldl metric_step NewMetrics ((fun m => Entered (m ++ $":tunnel")) <$> methods)) = length methods.
Proof.
  intros Hnd. assert (Hdom : forall l, dom (foldl metric_step NewMetrics (Entered <$> l)) = list_to_set (C := gset gostring) l).
  { induction l as [|k l IH] using rev_ind; [by apply dom_empty_L |]. rewrite fmap_app, foldl_app. cbn [fmap list_fmap foldl metric_step].
    unfold on_value. rewrite dom_insert_L, IH. set_solver. }
  rewrite <- (size_dom (D := gset gostring)). change (fun m => Entered (m ++ $":tunnel")) with (Entered ∘ (fun m => m ++ $":tunnel")).
  rewrite list_fmap_compose, Hdom, size_list_to_set.
  - apply length_fmap.
  - apply list.NoDup_fmap_2; [|done]. intros x y. apply app_inv_tail.
Qed.
