(* ===== verification/AuthHTTP.v ===== *)
(** * The authentication API

    [HTTPHandler] of backend/internal/auth/http.go: routing, the rate limit on the
    routes that take credentials, the cookie that carries the refresh token, and
    the mapping of the service's errors to responses.  The handler works on any
    state that holds the tables and the limiter. *)

From S2P Require Import Prelude GoStrings Crypto Effects Headers Json Messages Tables AuthService Reader Http.
From S2P Require Import RateLimiter.

Definition refreshCookieName : gostring := $"refresh_token".
Definition secureRefreshCookieName : gostring := $"__Host-refresh_token".

Record credentials := mkCredentials { cr_Email : gostring; cr_Password : gostring }.
Definition zero_credentials : credentials := mkCredentials [] [].
Definition dec_credentials : json -> credentials -> option credentials :=
  store_struct [$"email"; $"password"]
    (fun n v c => if bool_decide (n = $"email") then x ← store_string v (cr_Email c); Some (mkCredentials x (cr_Password c))
                  else x ← store_string v (cr_Password c); Some (mkCredentials (cr_Email c) x)).

Definition remoteIP (r : Request) : gostring :=
  match SplitHostPort (q_RemoteAddr r) with
  | Ok (host, _) => host
  | Err _ => []
  end.

Definition isRateLimitedRoute (r : Request) : bool :=
  bool_decide (q_Method r = $"POST")
  && (bool_decide (q_Path r = $"/api/v1/auth/register") || bool_decide (q_Path r = $"/api/v1/auth/login")
      || bool_decide (q_Path r = $"/api/v1/auth/refresh")).

(** [decode]: the target on success, else the 400 response. *)
Definition decode {X} (dec : json -> X -> option X) (zero : X) (r : Request) (w : ResponseWriter) : result ResponseWriter X :=
  match decode_body dec zero r with
  | None => Err (writeError 400 ($"INVALID_JSON") ($"Request body must be valid JSON") w)
  | Some x => Ok x
  end.

(** A [map[string]string] of a user, its keys sorted. *)
Definition enc_user (u : User) : json := JObj [($"email", JStr (Email u)); ($"id", JStr (ID u))].
Definition enc_session (u : User) (t : Tokens) : json :=
  JObj [($"accessToken", JStr (AccessToken t)); ($"user", enc_user u)].

Section handler.
Context {S : Type} (dbL : lens S database) (limL : lens S authRateLimiter).
Context `{PG : Postgres} `{BC : Bcrypt} (lower : Z -> Z) (service : Service) (secureCookies : bool).

Definition refreshCookie : gostring := if secureCookies then secureRefreshCookieName else refreshCookieName.

Definition setRefreshCookie (t : Tokens) (w : ResponseWriter) : ResponseWriter :=
  SetCookie (mkCookie refreshCookie (RefreshToken t) ($"/") true secureCookies SameSiteStrict
               (Some (RefreshExpiresAt t)) 0) w.

Definition clearRefreshCookie (w : ResponseWriter) : ResponseWriter :=
  foldl (fun w name => SetCookie (mkCookie name [] ($"/") true secureCookies SameSiteStrict None (-1)) w)
        w [refreshCookieName; secureRefreshCookieName].

Definition register (r : Request) (w : ResponseWriter) : prog S ResponseWriter :=
  match decode dec_credentials zero_credentials r w with
  | Err w => mret w
  | Ok c =>
      u ← lift dbL (Register lower (cr_Email c) (cr_Password c));
      mret (match u with
            | Err ErrEmailTaken => writeError 409 ($"EMAIL_TAKEN") ($"Email is already registered") w
            | Err _ => writeError 400 ($"INVALID_REGISTRATION") ($"Email or password is invalid") w
            | Ok user => writeData 201 (enc_user user) w
            end)
  end.

Definition login (r : Request) (w : ResponseWriter) : prog S ResponseWriter :=
  match decode dec_credentials zero_credentials r w with
  | Err w => mret w
  | Ok c =>
      x ← lift dbL (Login lower service (cr_Email c) (cr_Password c) (UserAgent r) (remoteIP r));
      mret (match x with
            | Err _ => writeError 401 ($"INVALID_CREDENTIALS") ($"Invalid email or password") w
            | Ok (user, tokens) => writeData 200 (enc_session user tokens) (setRefreshCookie tokens w)
            end)
  end.

Definition refresh (r : Request) (w : ResponseWriter) : prog S ResponseWriter :=
  let raw := default [] (r_Cookie refreshCookie r) in
  x ← lift dbL (Refresh service raw (UserAgent r) (remoteIP r));
  mret (match x with
        | Err _ => writeError 401 ($"UNAUTHORIZED") ($"Authentication required") (clearRefreshCookie w)
        | Ok (user, tokens) => writeData 200 (enc_session user tokens) (setRefreshCookie tokens w)
        end).

Definition logout (r : Request) (w : ResponseWriter) : prog S ResponseWriter :=
  _ ← match r_Cookie ($"refresh_token") r with
      | Some value => _ ← lift dbL (Logout service value); mret tt
      | None => mret tt
      end;
  mret (WriteHeader 204 (clearRefreshCookie w)).

Definition me (r : Request) (w : ResponseWriter) : prog S ResponseWriter :=
  u ← lift dbL (UserFromAccessToken service (bearer r));
  mret (match u with
        | Err _ => writeError 401 ($"UNAUTHORIZED") ($"Authentication required") w
        | Ok user => writeData 200 (enc_user user) w
        end).

Definition route (r : Request) (w : ResponseWriter) : prog S ResponseWriter :=
  let key := q_Method r ++ $" " ++ q_Path r in
  if bool_decide (key = $"POST /api/v1/auth/register") then register r w
  else if bool_decide (key = $"POST /api/v1/auth/login") then login r w
  else if bool_decide (key = $"POST /api/v1/auth/refresh") then refresh r w
  else if bool_decide (key = $"POST /api/v1/auth/logout") then logout r w
  else if bool_decide (key = $"GET /api/v1/auth/me") then me r w
  else mret (writeError 404 ($"NOT_FOUND") ($"Route not found") w).

(** [h.limiter.allow], under the limiter's mutex. *)
Definition limiter_allow (key : gostring) (now : Z) : prog S (bool * Z) :=
  action (fun _ s => let '(x, l) := auth_allow key now (view limL s) in (x, update limL l s)).

(** [int(d.Seconds())] for a duration below a minute, where the fraction never
    rounds up to a whole second. *)
Definition whole_seconds (d : Z) : Z := Z.quot d Second.

Definition auth_ServeHTTP (r : Request) (w : ResponseWriter) : prog S ResponseWriter :=
  if isRateLimitedRoute r then
    now ← Now;
    x ← limiter_allow (remoteIP r) now;
    if negb (x.1 : bool)
    then mret (writeError 429 ($"RATE_LIMITED") ($"Too many authentication attempts")
                 (w_Set ($"Retry-After") (print_int (Z.max 1 (whole_seconds x.2))) w))
    else route r w
  else route r w.
End handler.
