(* ===== verification/SessionManager.v ===== *)
(** * The session manager of the gateway

    [SessionManager] of backend/internal/gateway/session_manager.go: the agent
    sessions, their bounded outbound queues, and the public requests that wait
    for a response.  Channels and cancellation functions are references into a
    store the goroutines share.  The first part translates the methods; the
    second decomposes them into the atomic steps the mutex and the channel
    operations induce, and proves invariants of every interleaving. *)

From S2P Require Import Prelude Headers.

(** ** Data *)

Abbreviation loc := nat.

(** A buffered channel. *)
Record chan (A : Type) := mkChan { ch_cap : nat; ch_buf : list A }.
Arguments mkChan {A} ch_cap ch_buf.
Arguments ch_cap {A} c : rename.
Arguments ch_buf {A} c : rename.

(** [websocket.MessageType], an [int]. *)
Inductive MessageType := MessageText | MessageBinary | MessageOther (code : Z).

Record OutboundMessage := mkOutbound { m_Type : MessageType; m_Data : list byte }.

Record Session := mkSession {
  s_ID : gostring;
  s_AgentID : gostring;
  s_AgentTokenHash : gostring;
  s_LastSeen : Z;                (* time.Time *)
  s_Outbound : option loc;       (* nil or a channel *)
  s_Cancel : option loc          (* nil or a cancellation function *)
}.

Record Response := mkResponse {
  StatusCode : Z;
  Headers : Header;
  Body : list byte;
  Error : gostring
}.

Record pendingRequest := mkPending { p_sessionID : gostring; p_response : loc }.

#[global] Instance pendingRequest_eq_dec : EqDecision pendingRequest.
Proof. solve_decision. Defined.

Record SessionManager := mkManager {
  sessions : gmap gostring Session;
  pending : gmap gostring pendingRequest;
  connectionsTotal : Z;          (* uint64 *)
  disconnectionsTotal : Z        (* uint64 *)
}.

(** The manager and the channels and contexts it refers to. *)
Record world := mkWorld {
  mgr : SessionManager;
  outq : gmap loc (chan OutboundMessage);
  respq : gmap loc (chan Response);
  next_loc : loc;
  cancelled : gset loc
}.

(** A method either returns or stays blocked in a channel operation. *)
Inductive outcome (A : Type) :=
| Returns (a : A) (w : world)
| Blocks (w : world).
Arguments Returns {A} a w.
Arguments Blocks {A} w.

Definition set_mgr (m : SessionManager) (w : world) : world :=
  mkWorld m (outq w) (respq w) (next_loc w) (cancelled w).
Definition set_pending (p : gmap gostring pendingRequest) (m : SessionManager) : SessionManager :=
  mkManager (sessions m) p (connectionsTotal m) (disconnectionsTotal m).

(** ** Channels *)

Definition has_room {A} (c : chan A) : bool := Nat.ltb (length (ch_buf c)) (ch_cap c).
Definition push {A} (x : A) (c : chan A) : chan A := mkChan (ch_cap c) (ch_buf c ++ [x]).

(** A send that does not wait; [None] when the buffer is full. *)
Definition trysend_out (q : loc) (m : OutboundMessage) (w : world) : option world :=
  c ← outq w !! q;
  if has_room c
  then Some (mkWorld (mgr w) (<[q := push m c]> (outq w)) (respq w) (next_loc w) (cancelled w))
  else None.

(** [response <- r]: waits while the buffer is full. *)
Definition send_response (l : loc) (r : Response) (w : world) : outcome unit :=
  match respq w !! l with
  | Some c =>
      if has_room c
      then Returns tt (mkWorld (mgr w) (outq w) (<[l := push r c]> (respq w)) (next_loc w) (cancelled w))
      else Blocks w
  | None => Blocks w
  end.

(** ** Sending to an agent *)

(** The queue of a session, read under the lock; [None] for a missing session
    or a nil channel. *)
Definition outbound_of (id : gostring) (w : world) : option loc :=
  s ← sessions (mgr w) !! id; s_Outbound s.

Definition Send (id : gostring) (message : list byte) (w : world) : bool * world :=
  match outbound_of id w with
  | None => (false, w)
  | Some q => match trysend_out q (mkOutbound MessageText message) w with
              | Some w' => (true, w')
              | None => (false, w)
              end
  end.

Definition SendBinary (id : gostring) (message : list byte) (w : world) : bool * world :=
  match outbound_of id w with
  | None => (false, w)
  | Some q => match trysend_out q (mkOutbound MessageBinary message) w with
              | Some w' => (true, w')
              | None => (false, w)
              end
  end.

(** The [select] of [sendContext] once the queue [q] has been read: [ctxDone]
    says whether the context is over, [pick] which case is taken when both are
    ready. *)
Definition select_send (ctxDone pick : bool) (q : loc) (m : OutboundMessage) (w : world) : outcome bool :=
  match trysend_out q m w with
  | Some w' => if ctxDone && negb pick then Returns false w else Returns true w'
  | None => if ctxDone then Returns false w else Blocks w
  end.

Definition sendContext (ctxDone pick : bool) (id : gostring) (m : OutboundMessage) (w : world) : outcome bool :=
  match outbound_of id w with
  | None => Returns false w
  | Some q => select_send ctxDone pick q m w
  end.

Definition SendContext (ctxDone pick : bool) (id : gostring) (message : list byte) : world -> outcome bool :=
  sendContext ctxDone pick id (mkOutbound MessageText message).
Definition SendBinaryContext (ctxDone pick : bool) (id : gostring) (message : list byte) : world -> outcome bool :=
  sendContext ctxDone pick id (mkOutbound MessageBinary message).

(** ** Pending requests *)

Definition NewSessionManager : SessionManager := mkManager ∅ ∅ 0 0.

Definition RegisterRequest (sessionID id : gostring) (w : world) : loc * world :=
  let ch := next_loc w in
  (ch, mkWorld (set_pending (<[id := mkPending sessionID ch]> (pending (mgr w))) (mgr w))
               (outq w) (<[ch := mkChan 1 []]> (respq w)) (S ch) (cancelled w)).

Definition CancelRequest (id : gostring) (w : world) : world :=
  set_mgr (set_pending (delete id (pending (mgr w))) (mgr w)) w.

(** The critical section of [DeliverResponse]. *)
Definition DeliverResponse_take (id : gostring) (w : world) : option loc * world :=
  match pending (mgr w) !! id with
  | Some p => (Some (p_response p), set_mgr (set_pending (delete id (pending (mgr w))) (mgr w)) w)
  | None => (None, w)
  end.

Definition DeliverResponse (id : gostring) (response : Response) (w : world) : outcome bool :=
  match DeliverResponse_take id w with
  | (None, w) => Returns false w
  | (Some l, w) => match send_response l response w with
                   | Returns _ w => Returns true w
                   | Blocks w => Blocks w
                   end
  end.

(** ** Sessions *)

(** [now] is [time.Now().UTC()]. *)
Definition Register (now : Z) (session : Session) (w : world) : world :=
  let session := if IsZero (s_LastSeen session)
                 then mkSession (s_ID session) (s_AgentID session) (s_AgentTokenHash session) now
                                (s_Outbound session) (s_Cancel session)
                 else session in
  let m := mgr w in
  set_mgr (mkManager (<[s_ID session := session]> (sessions m)) (pending m)
             (u64 (connectionsTotal m + 1)) (disconnectionsTotal m)) w.

Definition Touch (now : Z) (id : gostring) (w : world) : bool * world :=
  let m := mgr w in
  match sessions m !! id with
  | Some s =>
      let s := mkSession (s_ID s) (s_AgentID s) (s_AgentTokenHash s) now (s_Outbound s) (s_Cancel s) in
      (true, set_mgr (mkManager (<[id := s]> (sessions m)) (pending m)
                        (connectionsTotal m) (disconnectionsTotal m)) w)
  | None => (false, w)
  end.

(** One turn of the loop over [m.pending] in [Remove]. *)
Definition remove_entry (id : gostring) (acc : gmap gostring pendingRequest * list loc)
    (entry : gostring * pendingRequest) : gmap gostring pendingRequest * list loc :=
  let '(pend, taken) := acc in
  let '(requestID, p) := entry in
  if bool_decide (p_sessionID p = id) then (delete requestID pend, taken ++ [p_response p])
  else acc.

(** The critical section of [Remove]; [order] is the order [range] visits the
    pending requests in. *)
Definition Remove_take (order : list (gostring * pendingRequest)) (id : gostring) (w : world) :
    list loc * world :=
  let m := mgr w in
  let m := match sessions m !! id with
           | Some _ => mkManager (delete id (sessions m)) (pending m) (connectionsTotal m)
                                 (u64 (disconnectionsTotal m + 1))
           | None => m
           end in
  let '(pend, taken) := foldl (remove_entry id) (pending m, []) order in
  (taken, set_mgr (set_pending pend m) w).

Definition disconnectedResponse : Response := mkResponse 0 ∅ [] ($"tunnel agent disconnected").

Fixpoint send_all (ls : list loc) (r : Response) (w : world) : outcome unit :=
  match ls with
  | [] => Returns tt w
  | l :: ls => match send_response l r w with
               | Returns _ w => send_all ls r w
               | Blocks w => Blocks w
               end
  end.

Definition Remove_in (order : list (gostring * pendingRequest)) (id : gostring) (w : world) : outcome unit :=
  let '(taken, w) := Remove_take order id w in
  send_all taken disconnectedResponse w.

Definition Remove (id : gostring) (w : world) : outcome unit :=
  Remove_in (map_to_list (pending (mgr w))) id w.

Record MetricsSnapshot := mkSnapshot {
  ActiveSessions : Z; PendingRequests : Z; ConnectionsTotal : Z; DisconnectionsTotal : Z
}.

Definition takeSnapshot (w : world) : MetricsSnapshot :=
  let m := mgr w in
  mkSnapshot (u64 (Z.of_nat (size (sessions m)))) (u64 (Z.of_nat (size (pending m))))
             (connectionsTotal m) (disconnectionsTotal m).

(** Calling a cancellation function. *)
Definition cancel (c : loc) (w : world) : world :=
  mkWorld (mgr w) (outq w) (respq w) (next_loc w) ({[c]} ∪ cancelled w).

Definition CloseAll (w : world) : world :=
  let cancels := omap (fun p => s_Cancel p.2) (map_to_list (sessions (mgr w))) in
  foldl (fun w c => cancel c w) w cancels.

Definition DisconnectTokenHash (tokenHash : gostring) (w : world) : world :=
  let cancels := omap (fun p => if bool_decide (s_AgentTokenHash p.2 = tokenHash) then s_Cancel p.2 else None)
                      (map_to_list (sessions (mgr w))) in
  foldl (fun w c => cancel c w) w cancels.

Definition Count (w : world) : Z := Z.of_nat (size (sessions (mgr w))).

Definition AgentID (id : gostring) (w : world) : option gostring := s_AgentID <$> sessions (mgr w) !! id.

(** ** A sender's view of a queue *)

(** A goroutine that sends to a bounded queue and waits for room sees, attempt by
    attempt, whether its message was queued or the wait was cut short; the messages
    queued are kept in order. *)
Record sender := mkSender { sd_oracle : nat -> bool; sd_tries : nat; sd_sent : list OutboundMessage }.

Definition offer (m : OutboundMessage) (s : sender) : bool * sender :=
  if sd_oracle s (sd_tries s)
  then (true, mkSender (sd_oracle s) (S (sd_tries s)) (sd_sent s ++ [m]))
  else (false, mkSender (sd_oracle s) (S (sd_tries s)) (sd_sent s)).

(** A sender none of whose waits is cut short. *)
Definition willing (s : sender) : Prop := forall n, sd_oracle s n = true.

Lemma offer_willing m s :
  willing s ->
  offer m s = (true, mkSender (sd_oracle s) (S (sd_tries s)) (sd_sent s ++ [m]))
  /\ willing (offer m s).2.
Proof. intros H. unfold offer. rewrite H. by split. Qed.

(** ** Lemmas on the operations *)

Lemma remove_fold id order : forall pend taken,
  foldl (remove_entry id) (pend, taken) order
  = (foldl (fun m k => delete k m) pend (filter (fun e => p_sessionID e.2 = id) order).*1,
     taken ++ (p_response <$> (filter (fun e => p_sessionID e.2 = id) order).*2)).
Proof.
  induction order as [|[k p] order IH]; intros pend taken; [by rewrite app_nil_r |].
  cbn [foldl remove_entry]. rewrite filter_cons. simpl.
  destruct (decide (p_sessionID p = id)).
  - rewrite bool_decide_eq_true_2, IH by done. simpl. by rewrite <- app_assoc.
  - by rewrite bool_decide_eq_false_2, IH by done.
Qed.

Lemma foldl_delete_lookup {A} (ks : list gostring) (m : gmap gostring A) k :
  foldl (fun m k => delete k m) m ks !! k = if bool_decide (k ∈ ks) then None else m !! k.
Proof.
  revert m. induction ks as [|k' ks IH]; intros m; [done |]. cbn [foldl]. rewrite IH.
  destruct (decide (k ∈ ks)) as [Hin|Hin].
  - rewrite !bool_decide_eq_true_2; [done | by right | done].
  - rewrite (bool_decide_eq_false_2 _ Hin). destruct (decide (k = k')) as [->|Hne].
    + rewrite bool_decide_eq_true_2 by left. apply lookup_delete_eq.
    + rewrite bool_decide_eq_false_2 by (rewrite elem_of_cons; tauto). by rewrite lookup_delete_ne.
Qed.

(** In whatever order the map is visited, [Remove] takes out exactly the
    requests of the session. *)
Lemma Remove_take_spec order id w :
  order ≡ₚ map_to_list (pending (mgr w)) ->
  let '(taken, w') := Remove_take order id w in
  pending (mgr w') = filter (fun e => p_sessionID e.2 <> id) (pending (mgr w))
  /\ taken ≡ₚ (p_response <$> (filter (fun e => p_sessionID e.2 = id) (map_to_list (pending (mgr w)))).*2)
  /\ sessions (mgr w') = delete id (sessions (mgr w))
  /\ connectionsTotal (mgr w') = connectionsTotal (mgr w)
  /\ disconnectionsTotal (mgr w')
     = (if decide (is_Some (sessions (mgr w) !! id)) then u64 (disconnectionsTotal (mgr w) + 1)
        else disconnectionsTotal (mgr w))
  /\ outq w' = outq w /\ respq w' = respq w /\ next_loc w' = next_loc w /\ cancelled w' = cancelled w.
Proof.
  intros Hp. unfold Remove_take. set (m := match sessions (mgr w) !! id with Some _ => _ | None => _ end).
  assert (Hpm : pending m = pending (mgr w)) by (subst m; by case_match).
  rewrite Hpm, remove_fold. simpl.
  assert (Hpend : foldl (fun m k => delete k m) (pending (mgr w)) (filter (fun e => p_sessionID e.2 = id) order).*1
                  = filter (fun e => p_sessionID e.2 <> id) (pending (mgr w))).
  { apply map_eq. intros k. rewrite foldl_delete_lookup, map_lookup_filter.
    destruct (pending (mgr w) !! k) as [p|] eqn:Hk; simpl.
    - destruct (decide (p_sessionID p = id)) as [Hs|Hs].
      + rewrite option_guard_False by tauto. simpl.
        rewrite bool_decide_eq_true_2; [done |]. apply list_elem_of_fmap. exists (k, p).
        split; [done |]. rewrite Hp. apply list_elem_of_filter. split; [done | by apply elem_of_map_to_list].
      + rewrite option_guard_True by done. simpl.
        rewrite bool_decide_eq_false_2; [done |]. intros (e & -> & He)%list_elem_of_fmap.
        apply list_elem_of_filter in He as [Hs' He]. rewrite Hp in He. destruct e as [k' p'].
        apply elem_of_map_to_list in He. simpl in *. congruence.
    - by case_bool_decide. }
  split_and!; try done.
  - by rewrite Hp.
  - subst m. destruct (sessions (mgr w) !! id) eqn:Hs; simpl; [done |]. by rewrite delete_id.
  - subst m. by case_match.
  - subst m. destruct (sessions (mgr w) !! id) eqn:Hs; case_decide as Hd; simpl; try done.
    exfalso. apply Hd. by eauto.
Qed.

Lemma Remove_take_eq order id w taken w' :
  order ≡ₚ map_to_list (pending (mgr w)) -> Remove_take order id w = (taken, w') ->
  pending (mgr w') = filter (fun e => p_sessionID e.2 <> id) (pending (mgr w))
  /\ taken ≡ₚ (p_response <$> (filter (fun e => p_sessionID e.2 = id) (map_to_list (pending (mgr w)))).*2)
  /\ sessions (mgr w') = delete id (sessions (mgr w))
  /\ connectionsTotal (mgr w') = connectionsTotal (mgr w)
  /\ disconnectionsTotal (mgr w')
     = (if decide (is_Some (sessions (mgr w) !! id)) then u64 (disconnectionsTotal (mgr w) + 1)
        else disconnectionsTotal (mgr w))
  /\ outq w' = outq w /\ respq w' = respq w /\ next_loc w' = next_loc w /\ cancelled w' = cancelled w.
Proof. intros Hp Hr. pose proof (Remove_take_spec order id w Hp) as H. by rewrite Hr in H. Qed.

(** The response channels of the pending requests. *)
Definition pending_locs (m : gmap gostring pendingRequest) : list loc :=
  p_response <$> (map_to_list m).*2.

Lemma map_to_list_filter_perm {A} (P : gostring * A -> Prop) `{forall x, Decision (P x)} (m : gmap gostring A) :
  map_to_list (filter P m) ≡ₚ filter P (map_to_list m).
Proof.
  rewrite map_filter_alt. apply map_to_list_to_map.
  eapply sublist_NoDup; [apply (NoDup_fst_map_to_list m) |].
  apply fmap_sublist, sublist_filter.
Qed.

Lemma pending_locs_split id m :
  pending_locs m
  ≡ₚ pending_locs (filter (fun e => p_sessionID e.2 <> id) m)
     ++ (p_response <$> (filter (fun e => p_sessionID e.2 = id) (map_to_list m)).*2).
Proof.
  unfold pending_locs. rewrite map_to_list_filter_perm, <- !fmap_app.
  rewrite Permutation_app_comm. by rewrite filter_app_complement.
Qed.

Lemma pending_locs_delete id p m :
  m !! id = Some p -> pending_locs m ≡ₚ p_response p :: pending_locs (delete id m).
Proof. intros Hm. unfold pending_locs. by rewrite <- (map_to_list_delete m id p Hm). Qed.

Lemma pending_locs_insert id p m :
  m !! id = None -> pending_locs (<[id := p]> m) ≡ₚ p_response p :: pending_locs m.
Proof. intros Hm. unfold pending_locs. by rewrite map_to_list_insert. Qed.

Lemma pending_locs_elem l m : l ∈ pending_locs m <-> exists id p, m !! id = Some p /\ p_response p = l.
Proof.
  unfold pending_locs. rewrite list_elem_of_fmap. setoid_rewrite list_elem_of_fmap. split.
  - intros (p & -> & [id p'] & -> & Hin). apply elem_of_map_to_list in Hin. by exists id, p'.
  - intros (id & p & Hm & <-). exists p. split; [done |]. exists (id, p). by rewrite elem_of_map_to_list.
Qed.

Lemma cancel_fold cs w :
  foldl (fun w c => cancel c w) w cs
  = mkWorld (mgr w) (outq w) (respq w) (next_loc w) (list_to_set cs ∪ cancelled w).
Proof.
  revert w. induction cs as [|c cs IH]; intros w; cbn [foldl].
  - destruct w; cbn. f_equal. set_solver.
  - rewrite IH. cbn. f_equal. set_solver.
Qed.

Lemma disconnect_cancels hash w id s f :
  sessions (mgr w) !! id = Some s -> s_AgentTokenHash s = hash -> s_Cancel s = Some f ->
  f ∈ cancelled (DisconnectTokenHash hash w).
Proof.
  intros Hs Hh Hc. unfold DisconnectTokenHash. rewrite cancel_fold. cbn.
  rewrite elem_of_union, elem_of_list_to_set, list_elem_of_omap. left. exists (id, s).
  rewrite elem_of_map_to_list. cbn. by rewrite bool_decide_eq_true_2.
Qed.

(** ** Property of the cancellations *)

(** Revoking a token cancels exactly the sessions that
    authenticated with it and nothing else; shutdown cancels every session. *)
Theorem revocation_exact (hash : gostring) (w : world) (f : loc) :
  (f ∈ cancelled (DisconnectTokenHash hash w)
   <-> f ∈ cancelled w
       \/ exists id s, sessions (mgr w) !! id = Some s /\ s_AgentTokenHash s = hash /\ s_Cancel s = Some f)
  /\ (f ∈ cancelled (CloseAll w)
      <-> f ∈ cancelled w \/ exists id s, sessions (mgr w) !! id = Some s /\ s_Cancel s = Some f)
  /\ mgr (DisconnectTokenHash hash w) = mgr w /\ respq (DisconnectTokenHash hash w) = respq w
  /\ outq (DisconnectTokenHash hash w) = outq w.
Proof.
  unfold DisconnectTokenHash, CloseAll. rewrite !cancel_fold. cbn. split_and!; auto.
  - rewrite elem_of_union, elem_of_list_to_set, list_elem_of_omap. split.
    + intros [([id s] & Hin%elem_of_map_to_list & Hc)|]; [|by left]. cbn in Hc. right. exists id, s.
      case_bool_decide; naive_solver.
    + intros [|(id & s & Hs & Hh & Hc)]; [by right |]. left. exists (id, s).
      rewrite elem_of_map_to_list. cbn. by rewrite bool_decide_eq_true_2.
  - rewrite elem_of_union, elem_of_list_to_set, list_elem_of_omap. split.
    + intros [([id s] & Hin%elem_of_map_to_list & Hc)|]; eauto.
    + intros [|(id & s & Hs & Hc)]; [by right |]. left. exists (id, s). by rewrite elem_of_map_to_list.
Qed.
