(* ===== verification/AgentTokens.v ===== *)
(** * Agent tokens

    [Service] and [HTTPHandler] of backend/internal/agenttokens: tokens that let an
    agent connect.  Only the hash of a token is stored; revoking one also
    disconnects the sessions opened with it. *)

From S2P Require Import Prelude GoStrings Crypto Effects Headers Json Messages Tables AuthService Reader Http.
From S2P Require Import SessionManager.

(** ** Tokens *)

(** [Token] has no model of its own: its fields are those of the row it is read
    from, with the key. *)
Record CreatedToken := mkCreatedToken {
  ct_ID : gostring; ct_Name : gostring; ct_Prefix : gostring; ct_CreatedAt : Z; ct_Plaintext : gostring
}.

Inductive token_error :=
| BadTokenName
| GenerateFailed
| CreateFailed (e : dberr)
| ListFailed (e : dberr)
| RevokeFailed (e : dberr).

(** The message of an error; [rand_error] is the one [rand.Read] gives. *)
Definition dberr_text (e : dberr) : gostring :=
  match e with NoRows => $"no rows in result set" | PgError text => text end.
Definition token_error_text (rand_error : gostring) (e : token_error) : gostring :=
  match e with
  | BadTokenName => $"token name must be 1-128 characters"
  | GenerateFailed => $"generate token: " ++ rand_error
  | CreateFailed e => $"create agent token: " ++ dberr_text e
  | ListFailed e => $"list agent tokens: " ++ dberr_text e
  | RevokeFailed e => $"revoke agent token: " ++ dberr_text e
  end.

Definition generate {S} : prog S (option gostring) :=
  b ← rand_Read 32;
  mret (match b with Some b => Some ($"tkn_" ++ base64url_encode b) | None => None end).

Definition hash (raw : gostring) : gostring := hex_encode (Sum256 raw).
#[global] Arguments hash : simpl never.

Definition visiblePrefix (raw : gostring) : gostring := if zlen raw <=? 12 then raw else take 12 raw.

Section service.
Context `{PG : Postgres} `{PGL : !PostgresLaws}.

Definition insert_agent_token (userID name prefix tokenHash : gostring) : stmt CreatedToken := fun a d =>
  userID ← or_else bad_uuid (uuid_in userID);
  name ← or_else too_long (varchar_in 128 name);
  prefix ← or_else too_long (varchar_in 32 prefix);
  _ ← check (pg_text tokenHash) bad_text;
  _ ← check (negb (absent (users d !! userID)))
        (foreign_key_violation ($"agent_tokens") ($"agent_tokens_user_id_fkey"));
  _ ← check (absent (find_row (fun r => at_token_hash r = tokenHash) (agent_tokens d)))
        (unique_violation ($"agent_tokens_token_hash_key"));
  id ← or_else bad_uuid (new_id a);
  t ← insert_row ($"agent_tokens_pkey") id
        (mkAgentTokenRow userID name prefix tokenHash (NOW a) None None None) (agent_tokens d);
  Ok (mkCreatedToken id name prefix (NOW a) [], set_agent_tokens t d).

Definition Create (userID name : gostring) : prog database (result token_error CreatedToken) :=
  let name := TrimSpace name in
  if bool_decide (name = []) || (128 <? zlen name) then mret (Err BadTokenName)
  else
    g ← generate;
    match g with
    | None => mret (Err GenerateFailed)
    | Some raw =>
        r ← exec (insert_agent_token userID name (visiblePrefix raw) (hash raw));
        mret (match r with
              | Err e => Err (CreateFailed e)
              | Ok t => Ok (mkCreatedToken (ct_ID t) (ct_Name t) (ct_Prefix t) (ct_CreatedAt t) raw)
              end)
    end.

Definition select_agent_tokens (userID : gostring) : stmt (list (gostring * agent_token_row)) := fun a d =>
  userID ← or_else bad_uuid (uuid_in userID);
  Ok (select_desc (fun r => at_user_id r = userID) (fun r => Some (at_created_at r)) (agent_tokens d), d).

Definition tokens_List (userID : gostring) : prog database (result token_error (list (gostring * agent_token_row))) :=
  r ← exec (select_agent_tokens userID);
  mret (match r with Err e => Err (ListFailed e) | Ok items => Ok items end).

Definition revoked_token (at_ : Z) (r : agent_token_row) : agent_token_row :=
  mkAgentTokenRow (at_user_id r) (at_name r) (at_token_prefix r) (at_token_hash r) (at_created_at r)
    (at_last_used_at r) (at_expires_at r) (Some at_).

Definition revoke_token (tokenID userID : gostring) : stmt gostring := fun a d =>
  tokenID ← or_else bad_uuid (uuid_in tokenID);
  userID ← or_else bad_uuid (uuid_in userID);
  r ← or_else NoRows (agent_tokens d !! tokenID);
  _ ← check (bool_decide (at_user_id r = userID /\ at_revoked_at r = None)) NoRows;
  Ok (at_token_hash r, set_agent_tokens (<[tokenID := revoked_token (NOW a) r]> (agent_tokens d)) d).

Definition Revoke (userID tokenID : gostring) : prog database (result token_error (option gostring)) :=
  r ← exec (revoke_token tokenID userID);
  mret (match r with
        | Err NoRows => Ok None
        | Err e => Err (RevokeFailed e)
        | Ok tokenHash => Ok (Some tokenHash)
        end).

(** *** The tables stay well-formed *)

Lemma insert_agent_token_advances userID name prefix tokenHash a d x d' :
  schema_ok d -> insert_agent_token userID name prefix tokenHash a d = Ok (x, d') -> advances d d'.
Proof.
  intros Hd H. unfold insert_agent_token in H. stmt_inv.
  apply advance_agent_tokens; [done | eapply canonical_insert | apply unique_on_insert | apply refers_insert | by apply persists_insert; try apply _].
  - apply (ok_token_ids _ Hd).
  - done.
  - apply (ok_token_hash _ Hd).
  - assumption.
  - apply (ok_token_user _ Hd).
  - done.
Qed.

(** Replacing a row by one it evolves into. *)
Lemma replace_token_advances d id r r' :
  schema_ok d -> agent_tokens d !! id = Some r -> token_evolves r r' ->
  advances d (set_agent_tokens (<[id := r']> (agent_tokens d)) d).
Proof.
  intros Hd Hr Hev. pose proof Hev as (Hu & _ & Hh & _).
  apply advance_agent_tokens; [done | eapply canonical_map; [apply (ok_token_ids _ Hd) |] | eapply unique_on_map; [apply (ok_token_hash _ Hd) |] | apply refers_insert |].
  - intros i [r0 [[<- _]|[_ Hr0]]%lookup_insert_Some]; by eexists.
  - intros i r0 [[<- <-]|[_ Hr0]]%lookup_insert_Some; eauto.
  - apply (ok_token_user _ Hd).
  - rewrite Hu. by eapply (ok_token_user _ Hd).
  - intros i r0 Hr0. destruct (decide (i = id)) as [->|Hne].
    + rewrite lookup_insert_eq. simplify_eq. eauto.
    + rewrite lookup_insert_ne by done. eexists. split; [done | reflexivity].
Qed.

Lemma revoke_token_advances tokenID userID a d x d' :
  schema_ok d -> revoke_token tokenID userID a d = Ok (x, d') -> advances d d'.
Proof.
  intros Hd H. unfold revoke_token in H. stmt_inv. eapply replace_token_advances; [done | done |]. by repeat split.
Qed.

Lemma Create_well_behaved userID name : well_behaved (Create userID name).
Proof.
  unfold Create, generate. well_behaved_walk. apply well_behaved_exec. intros. by eapply insert_agent_token_advances.
Qed.

Lemma tokens_List_well_behaved userID : well_behaved (tokens_List userID).
Proof.
  unfold tokens_List. well_behaved_walk. apply well_behaved_exec. intros.
  eapply select_advances; [|done..]. clear. intros ? ? ? ? Hx. unfold select_agent_tokens in Hx. by stmt_inv.
Qed.

Lemma Revoke_well_behaved userID tokenID : well_behaved (Revoke userID tokenID).
Proof.
  unfold Revoke. well_behaved_walk. apply well_behaved_exec. intros. by eapply revoke_token_advances.
Qed.
End service.

(** ** The API *)

(** The package's copies of the helpers. *)
Definition tokens_bearer : Request -> gostring := bearer.
Definition tokens_writeData : Z -> json -> ResponseWriter -> ResponseWriter := writeData.
Definition tokens_writeError : Z -> gostring -> gostring -> ResponseWriter -> ResponseWriter := writeError.

Definition dec_name : json -> gostring -> option gostring :=
  store_struct [$"name"] (fun _ v n => store_string v n).

Definition slash : byte := Byte.x2f.

Section handler.
Context {S : Type} (dbL : lens S database) (sessionsL : lens S world).
(** [marshal_time] is the JSON of a [time.Time] in the server's time zone. *)
Context `{PG : Postgres} (service : Service) (hasSessions : bool).
Context (marshal_time : Z -> json) (rand_error : gostring).

Definition enc_time (t : option Z) : json := match t with Some t => marshal_time t | None => JNull end.

Definition enc_token (p : gostring * agent_token_row) : json :=
  let '(id, r) := p in
  JObj [($"id", JStr id); ($"name", JStr (at_name r)); ($"prefix", JStr (at_token_prefix r));
        ($"createdAt", marshal_time (at_created_at r)); ($"lastUsedAt", enc_time (at_last_used_at r));
        ($"expiresAt", enc_time (at_expires_at r)); ($"revokedAt", enc_time (at_revoked_at r))].

Definition tokens_list (user : User) (w : ResponseWriter) : prog S ResponseWriter :=
  r ← lift dbL (tokens_List (ID user));
  mret (match r with
        | Err _ => tokens_writeError 500 ($"INTERNAL_ERROR") ($"Unable to load tokens") w
        | Ok tokens => tokens_writeData 200 (JArr (enc_token <$> tokens)) w
        end).

Definition tokens_create (r : Request) (user : User) (w : ResponseWriter) : prog S ResponseWriter :=
  match decode_body dec_name [] r with
  | None => mret (tokens_writeError 400 ($"INVALID_JSON") ($"Request body must be valid JSON") w)
  | Some name =>
      t ← lift dbL (Create (ID user) name);
      mret (match t with
            | Err e => tokens_writeError 400 ($"INVALID_TOKEN_NAME") (token_error_text rand_error e) w
            | Ok t => tokens_writeData 201
                (JObj [($"createdAt", marshal_time (ct_CreatedAt t)); ($"id", JStr (ct_ID t));
                       ($"name", JStr (ct_Name t)); ($"prefix", JStr (ct_Prefix t));
                       ($"token", JStr (ct_Plaintext t))]) w
            end)
  end.

(** [h.sessions.DisconnectTokenHash]. *)
Definition disconnect (tokenHash : gostring) : prog S unit :=
  action (fun _ s => (tt, update sessionsL (DisconnectTokenHash tokenHash (view sessionsL s)) s)).

Definition tokens_revoke (r : Request) (user : User) (w : ResponseWriter) : prog S ResponseWriter :=
  let id := TrimPrefix (q_Path r) ($"/api/v1/agent-tokens/") in
  if bool_decide (id = []) || contains_byte id slash
  then mret (tokens_writeError 404 ($"NOT_FOUND") ($"Route not found") w)
  else
    x ← lift dbL (Revoke (ID user) id);
    match x with
    | Err _ => mret (tokens_writeError 500 ($"INTERNAL_ERROR") ($"Unable to revoke token") w)
    | Ok None => mret (tokens_writeError 404 ($"NOT_FOUND") ($"Token not found") w)
    | Ok (Some tokenHash) =>
        _ ← (if hasSessions then disconnect tokenHash else mret tt);
        mret (WriteHeader 204 w)
    end.

Definition tokens_ServeHTTP (r : Request) (w : ResponseWriter) : prog S ResponseWriter :=
  u ← lift dbL (UserFromAccessToken service (tokens_bearer r));
  match u with
  | Err _ => mret (tokens_writeError 401 ($"UNAUTHORIZED") ($"Authentication required") w)
  | Ok user =>
      if bool_decide (q_Path r = $"/api/v1/agent-tokens") && bool_decide (q_Method r = $"GET") then tokens_list user w
      else if bool_decide (q_Path r = $"/api/v1/agent-tokens") && bool_decide (q_Method r = $"POST") then tokens_create r user w
      else if HasPrefix (q_Path r) ($"/api/v1/agent-tokens/") && bool_decide (q_Method r = $"DELETE") then tokens_revoke r user w
      else mret (tokens_writeError 404 ($"NOT_FOUND") ($"Route not found") w)
  end.
End handler.
