(* ===== verification/Agents.v ===== *)
(** * Registered agents

    [Service] and [HTTPHandler] of backend/internal/agents: the agents a user has
    connected, keyed by the instance they report, with their presence; and the
    token check [valid] of backend/internal/gateway/agent_connect.go. *)

From S2P Require Import Prelude GoStrings Crypto Effects Headers Json Messages Tables AuthService Reader Http.
From S2P Require Import AgentTokens.

Inductive agent_error :=
| MissingIdentity
| FindToken (e : dberr)
| UpsertAgent (e : dberr)
| ListAgents (e : dberr).

(** A token that can be used at [now]. *)
Definition usable (now : Z) (tokenHash : gostring) (r : agent_token_row) : Prop :=
  at_token_hash r = tokenHash /\ at_revoked_at r = None
  /\ (at_expires_at r = None \/ exists e, at_expires_at r = Some e /\ now < e).
#[global] Instance usable_dec now h r : Decision (usable now h r).
Proof.
  unfold usable. destruct (at_expires_at r) as [e|].
  - destruct (decide (now < e)).
    + refine (cast_if_and (decide (at_token_hash r = h)) (decide (at_revoked_at r = None))); naive_solver.
    + right. naive_solver.
  - refine (cast_if_and (decide (at_token_hash r = h)) (decide (at_revoked_at r = None))); naive_solver.
Defined.

(** The row an upsert writes, from the values and, on a conflict, the row there. *)
Definition agent_values (userID tokenID : gostring) (vs : gostring * gostring * gostring * gostring * gostring)
    (now : Z) (old : option agent_row) : agent_row :=
  let '(instanceID, hostname, os, arch, version) := vs in
  match old with
  | None => mkAgentRow userID tokenID instanceID hostname os arch version true (Some now) None (Some now) now now
  | Some r => mkAgentRow (ag_user_id r) tokenID (ag_instance_id r) hostname os arch version true (Some now) None
                (Some now) (ag_created_at r) now
  end.

Section service.
Context `{PG : Postgres} `{PGL : !PostgresLaws}.

Definition select_usable_token (tokenHash : gostring) : stmt (gostring * gostring) := fun a d =>
  '(id, r) ← or_else NoRows (find_row (usable (NOW a) tokenHash) (agent_tokens d));
  Ok ((id, at_user_id r), d).

(** [INSERT ... ON CONFLICT (user_id, instance_id) DO UPDATE]. *)
Definition upsert_agent (userID tokenID : gostring) (hello : ClientHelloPayload) : stmt gostring := fun a d =>
  userID ← or_else bad_uuid (uuid_in userID);
  tokenID ← or_else bad_uuid (uuid_in tokenID);
  instanceID ← or_else too_long (varchar_in 255 (ch_InstanceID hello));
  hostname ← or_else too_long (varchar_in 255 (ch_Hostname hello));
  os ← or_else too_long (varchar_in 64 (ch_OS hello));
  arch ← or_else too_long (varchar_in 64 (ch_Arch hello));
  version ← or_else too_long (varchar_in 64 (ch_AgentVersion hello));
  _ ← check (negb (absent (users d !! userID))) (foreign_key_violation ($"agents") ($"agents_user_id_fkey"));
  _ ← check (negb (absent (agent_tokens d !! tokenID))) (foreign_key_violation ($"agents") ($"agents_agent_token_id_fkey"));
  let vs := (instanceID, hostname, os, arch, version) in
  match find_row (fun r => ag_user_id r = userID /\ ag_instance_id r = instanceID) (agents d) with
  | Some (id, r) => Ok (id, set_agents (<[id := agent_values userID tokenID vs (NOW a) (Some r)]> (agents d)) d)
  | None =>
      id ← or_else bad_uuid (new_id a);
      t ← insert_row ($"agents_pkey") id (agent_values userID tokenID vs (NOW a) None) (agents d);
      Ok (id, set_agents t d)
  end.

Definition update_last_used (tokenID : gostring) : stmt unit := fun a d =>
  tokenID ← or_else bad_uuid (uuid_in tokenID);
  Ok (tt, set_agent_tokens (update_id tokenID (fun _ => True)
        (fun r => mkAgentTokenRow (at_user_id r) (at_name r) (at_token_prefix r) (at_token_hash r) (at_created_at r)
                    (Some (NOW a)) (at_expires_at r) (at_revoked_at r)) (agent_tokens d)) d).

Definition Connect (rawToken : gostring) (hello : ClientHelloPayload) : prog database (result agent_error gostring) :=
  if bool_decide (TrimSpace (ch_InstanceID hello) = []) || bool_decide (TrimSpace (ch_Hostname hello) = [])
  then mret (Err MissingIdentity)
  else
    found ← exec (select_usable_token (hash rawToken));
    match found with
    | Err e => mret (Err (FindToken e))
    | Ok (tokenID, userID) =>
        r ← exec (upsert_agent userID tokenID hello);
        match r with
        | Err e => mret (Err (UpsertAgent e))
        | Ok agentID =>
            _ ← exec (update_last_used tokenID);
            mret (Ok agentID)
        end
    end.

Definition update_seen (id : gostring) : stmt unit := fun a d =>
  id ← or_else bad_uuid (uuid_in id);
  Ok (tt, set_agents (update_id id (fun r => ag_connected r = true)
        (fun r => mkAgentRow (ag_user_id r) (ag_agent_token_id r) (ag_instance_id r) (ag_hostname r) (ag_os r)
                    (ag_arch r) (ag_agent_version r) (ag_connected r) (ag_connected_at r) (ag_disconnected_at r)
                    (Some (NOW a)) (ag_created_at r) (NOW a)) (agents d)) d).

Definition agents_Touch (id : gostring) : prog database unit :=
  _ ← exec (update_seen id); mret tt.

Definition update_disconnected (id : gostring) : stmt unit := fun a d =>
  id ← or_else bad_uuid (uuid_in id);
  Ok (tt, set_agents (update_id id (fun _ => True)
        (fun r => mkAgentRow (ag_user_id r) (ag_agent_token_id r) (ag_instance_id r) (ag_hostname r) (ag_os r)
                    (ag_arch r) (ag_agent_version r) false (ag_connected_at r) (Some (NOW a))
                    (ag_last_seen_at r) (ag_created_at r) (NOW a)) (agents d)) d).

Definition agents_Disconnect (id : gostring) : prog database unit :=
  _ ← exec (update_disconnected id); mret tt.

Definition select_agents (userID : gostring) : stmt (list (gostring * agent_row)) := fun a d =>
  userID ← or_else bad_uuid (uuid_in userID);
  Ok (select_desc (fun r => ag_user_id r = userID) ag_last_seen_at (agents d), d).

Definition agents_List (userID : gostring) : prog database (result agent_error (list (gostring * agent_row))) :=
  r ← exec (select_agents userID);
  mret (match r with Err e => Err (ListAgents e) | Ok items => Ok items end).

(** [AgentConnectHandler.valid]; a failed query leaves [ok] false. *)
Definition exists_usable_token (tokenHash : gostring) : stmt bool := fun a d =>
  Ok (negb (absent (find_row (usable (NOW a) tokenHash) (agent_tokens d))), d).

Definition valid (rawToken : gostring) : prog database bool :=
  r ← exec (exists_usable_token (hash rawToken));
  mret (match r with Ok ok => ok | Err _ => false end).

(** *** The tables stay well-formed *)

(** Agents that keep their user and instance, registered with a token of their
    user. *)
Lemma update_agents_advances d t :
  schema_ok d ->
  (forall i r, t !! i = Some r -> exists r0, agents d !! i = Some r0 /\ agent_evolves r0 r
     /\ (ag_agent_token_id r = ag_agent_token_id r0
         \/ at_user_id <$> agent_tokens d !! ag_agent_token_id r = Some (ag_user_id r))) ->
  persists agent_evolves (agents d) t -> advances d (set_agents t d).
Proof.
  intros Hd Ht Hp. apply advance_agents; [done | eapply canonical_map; [apply (ok_agent_ids _ Hd) |] | eapply unique_on_map; [apply (ok_agent_instance _ Hd) |] | | | done].
  - intros i [r Hr]. destruct (Ht _ _ Hr) as (r0 & Hr0 & _). by eexists.
  - intros i r Hr. destruct (Ht _ _ Hr) as (r0 & Hr0 & [Hu Hi] & _). exists r0. split; [done |]. congruence.
  - intros i r Hr. destruct (Ht _ _ Hr) as (r0 & Hr0 & [Hu Hi] & [Heq|?]); [|done].
    rewrite Heq, Hu. apply (ok_agent_token _ Hd _ _ Hr0).
  - intros i r Hr. destruct (Ht _ _ Hr) as (r0 & Hr0 & [Hu Hi] & _). rewrite Hu. by eapply (ok_agent_user _ Hd).
Qed.

Lemma update_agent_advances (P : agent_row -> Prop) `{!forall r, Decision (P r)} id f d :
  schema_ok d -> (forall r, agent_evolves r (f r) /\ ag_agent_token_id (f r) = ag_agent_token_id r) ->
  advances d (set_agents (update_id id P f (agents d)) d).
Proof.
  intros Hd Hf. apply update_agents_advances; [done | |].
  - intros i r (r0 & Hr0 & Hr)%update_id_inv. exists r0. split; [done |].
    destruct Hr as [->|(_ & _ & ->)]; [split; [reflexivity | by left] |]. destruct (Hf r0). auto.
  - apply persists_update_id; [apply _ |]. intros r _. apply Hf.
Qed.

Lemma upsert_agent_advances userID tokenID hello a d x d' :
  schema_ok d -> at_user_id <$> agent_tokens d !! tokenID = Some userID ->
  uuid_in userID = Some userID -> uuid_in tokenID = Some tokenID ->
  upsert_agent userID tokenID hello a d = Ok (x, d') -> advances d d'.
Proof.
  intros Hd Htok Hu Ht H. unfold upsert_agent in H. rewrite Hu, Ht in H. stmt_inv.
  match goal with H : (match ?m with _ => _ end) = Ok _ |- _ => destruct m as [[id r]|] eqn:Hfind end; stmt_inv.
  - apply update_agents_advances; [done | |].
    + intros i r0 [[<- <-]|[Hne Hr0]]%lookup_insert_Some.
      * exists r. split; [done |]. split; [done |]. right. cbn. rewrite Htok. naive_solver.
      * exists r0. split; [done |]. split; [reflexivity | by left].
    + intros i r0 Hr0. destruct (decide (i = x)) as [->|Hne].
      * rewrite lookup_insert_eq. simplify_eq. eexists. split; [done |]. done.
      * rewrite lookup_insert_ne by done. eexists. split; [done | reflexivity].
  - rewrite find_row_None in Hfind.
    apply advance_agents; [done | eapply canonical_insert | apply unique_on_insert | apply all_rows_insert | apply refers_insert | by apply persists_insert; try apply _].
    + apply (ok_agent_ids _ Hd).
    + done.
    + apply (ok_agent_instance _ Hd).
    + intros i r Hr [= Hu' Hi]. by eapply Hfind.
    + apply (ok_agent_token _ Hd).
    + done.
    + apply (ok_agent_user _ Hd).
    + done.
Qed.

Lemma update_last_used_advances tokenID a d x d' :
  schema_ok d -> update_last_used tokenID a d = Ok (x, d') -> advances d d'.
Proof.
  intros Hd H. unfold update_last_used in H. stmt_inv. unfold update_id.
  destruct (agent_tokens d !! x0) as [r|] eqn:Hr; [|destruct d; by apply advances_refl].
  rewrite decide_True by done. eapply replace_token_advances; [done | done |]. by repeat split.
Qed.

(** The token [Connect] found still belongs to the same user when the agent is
    registered. *)
Lemma Connect_well_behaved rawToken hello : well_behaved (Connect rawToken hello).
Proof.
  unfold Connect. case_match; [apply well_behaved_ret |]. intros d0 Hd0. apply rg_bind, rg_exec; [|done].
  intros a d x d' Hd _ Hx. unfold select_usable_token in Hx. stmt_inv. split; [by apply advances_refl |].
  split; [|done]. rename l into tokenID, a0 into r.
  apply rg_bind, rg_exec; [|done]. intros a1 d1 agentID d2 Hd1 Hev Hup. split; [|split; [|done]].
  - destruct (ev_tokens _ _ Hev tokenID r) as (r1 & Hr1 & Hu & _); [done |].
    eapply upsert_agent_advances; [done | | | | exact Hup].
    + rewrite Hr1. cbn. by rewrite Hu.
    + destruct (ok_token_user _ Hd1 _ _ Hr1) as [u Hu']. rewrite Hu in Hu'. by eapply (ok_user_ids _ Hd1).
    + by eapply (ok_token_ids _ Hd1).
  - apply rg_bind, rg_exec; [|done]. intros a2 d3 ? d4 Hd3 _ Hup'. split; [|done]. by eapply update_last_used_advances.
Qed.

Lemma agents_Touch_well_behaved id : well_behaved (agents_Touch id).
Proof.
  unfold agents_Touch. well_behaved_walk. apply well_behaved_exec. intros ? d ? ? Hd Hx.
  unfold update_seen in Hx. stmt_inv. by apply update_agent_advances.
Qed.

Lemma agents_Disconnect_well_behaved id : well_behaved (agents_Disconnect id).
Proof.
  unfold agents_Disconnect. well_behaved_walk. apply well_behaved_exec. intros ? d ? ? Hd Hx.
  unfold update_disconnected in Hx. stmt_inv. by apply update_agent_advances.
Qed.

Lemma agents_List_well_behaved userID : well_behaved (agents_List userID).
Proof.
  unfold agents_List. well_behaved_walk. apply well_behaved_exec. intros.
  eapply select_advances; [|done..]. clear. intros ? ? ? ? Hx. unfold select_agents in Hx. by stmt_inv.
Qed.

Lemma valid_well_behaved rawToken : well_behaved (valid rawToken).
Proof.
  unfold valid. well_behaved_walk. apply well_behaved_exec. intros.
  eapply select_advances; [|done..]. clear. intros ? ? ? ? Hx. unfold exists_usable_token in Hx. by stmt_inv.
Qed.
End service.

(** ** The API *)

Definition agents_writeData : Z -> json -> ResponseWriter -> ResponseWriter := writeData.
Definition agents_writeError : Z -> gostring -> gostring -> ResponseWriter -> ResponseWriter := writeError.

Section handler.
Context {S : Type} (dbL : lens S database) `{PG : Postgres} (service : Service) (marshal_time : Z -> json).

Definition enc_agent (p : gostring * agent_row) : json :=
  let '(id, r) := p in
  JObj [($"id", JStr id); ($"instanceID", JStr (ag_instance_id r)); ($"hostname", JStr (ag_hostname r));
        ($"os", JStr (ag_os r)); ($"arch", JStr (ag_arch r)); ($"version", JStr (ag_agent_version r));
        ($"connected", JBool (ag_connected r)); ($"connectedAt", enc_time marshal_time (ag_connected_at r));
        ($"disconnectedAt", enc_time marshal_time (ag_disconnected_at r));
        ($"lastSeenAt", enc_time marshal_time (ag_last_seen_at r))].

Definition agents_ServeHTTP (r : Request) (w : ResponseWriter) : prog S ResponseWriter :=
  u ← lift dbL (UserFromAccessToken service (bearer r));
  match u with
  | Err _ => mret (agents_writeError 401 ($"UNAUTHORIZED") ($"Authentication required") w)
  | Ok user =>
      if negb (bool_decide (q_Path r = $"/api/v1/agents")) || negb (bool_decide (q_Method r = $"GET"))
      then mret (agents_writeError 404 ($"NOT_FOUND") ($"Route not found") w)
      else
        items ← lift dbL (agents_List (ID user));
        mret (match items with
              | Err _ => agents_writeError 500 ($"INTERNAL_ERROR") ($"Unable to load agents") w
              | Ok items => agents_writeData 200 (JArr (enc_agent <$> items)) w
              end)
  end.
End handler.
