(* ===== verification/TunnelService.v ===== *)
(** * Stored tunnels

    [Service] and [HTTPHandler] of backend/internal/tunnels/service.go and http.go:
    the tunnels of an agent, reopened under the same subdomain when the agent comes
    back with the same local address. *)

From S2P Require Import Prelude GoStrings Crypto Effects Headers Json Messages Tables AuthService Reader Http.
From S2P Require Import AgentTokens.
From S2P Require Subdomain PublicHost.

#[local] Arguments Subdomain.GenerateSubdomain : simpl never.

Inductive tunnel_error :=
| ReopenFailed (e : dberr)
| SubdomainFailed
| CreateTunnel (e : dberr)
| ListTunnels (e : dberr).

(** A [Tunnel] is a row with its key. *)
Abbreviation Tunnel := (gostring * tunnel_row)%type.

Definition closed_tunnel (now : Z) (r : tunnel_row) : tunnel_row :=
  mkTunnelRow (tn_user_id r) (tn_agent_id r) (tn_subdomain r) (tn_local_address r) (tn_protocol r)
    ($"closed") (tn_opened_at r) (Some now) (tn_created_at r) now.
Definition reopened_tunnel (now : Z) (r : tunnel_row) : tunnel_row :=
  mkTunnelRow (tn_user_id r) (tn_agent_id r) (tn_subdomain r) (tn_local_address r) (tn_protocol r)
    ($"open") (Some now) None (tn_created_at r) now.

(** [GenerateSubdomain] on the bytes the outside supplies; when they are used up
    the next read fails. *)
Definition generate_subdomain {S} : prog S (option gostring) :=
  action (fun a s =>
    (match a_random a with
     | None => None
     | Some bs => match Subdomain.GenerateSubdomain ((Some <$> bs) ++ [None]) with
                  | Some (Ok sub, _) => Some sub
                  | _ => None
                  end
     end, s)).

Section service.
Context `{PG : Postgres} `{PGL : !PostgresLaws}.

Definition close_open_tunnels (agentID : gostring) : stmt unit := fun a d =>
  agentID ← or_else bad_uuid (uuid_in agentID);
  Ok (tt, set_tunnels (update_where (fun r => tn_agent_id r = agentID /\ tn_status r = $"open")
        (closed_tunnel (NOW a)) (tunnels d)) d).

Definition CloseAgentTunnels (agentID : gostring) : prog database unit :=
  if bool_decide (agentID = []) then mret tt
  else _ ← exec (close_open_tunnels agentID); mret tt.

(** [UPDATE ... WHERE id = (SELECT ... ORDER BY updated_at DESC LIMIT 1)]. *)
Definition reopen_tunnel (agentID localAddress : gostring) : stmt Tunnel := fun a d =>
  agentID ← or_else bad_uuid (uuid_in agentID);
  _ ← check (pg_text localAddress) bad_text;
  '(id, r) ← or_else NoRows (head (select_desc
      (fun r => tn_agent_id r = agentID /\ tn_local_address r = localAddress /\ tn_status r = $"closed")
      (fun r => Some (tn_updated_at r)) (tunnels d)));
  let r := reopened_tunnel (NOW a) r in
  Ok ((id, r), set_tunnels (<[id := r]> (tunnels d)) d).

(** [INSERT ... SELECT user_id FROM agents WHERE id = ...]. *)
Definition insert_tunnel (agentID subdomain localAddress : gostring) : stmt Tunnel := fun a d =>
  agentID ← or_else bad_uuid (uuid_in agentID);
  ag ← or_else NoRows (agents d !! agentID);
  subdomain ← or_else too_long (varchar_in 63 subdomain);
  localAddress ← or_else too_long (varchar_in 255 localAddress);
  _ ← check (absent (find_row (fun r => tn_subdomain r = subdomain) (tunnels d)))
        (unique_violation ($"tunnels_subdomain_key"));
  let r := mkTunnelRow (ag_user_id ag) agentID subdomain localAddress ($"http") ($"open") (Some (NOW a)) None (NOW a) (NOW a) in
  id ← or_else bad_uuid (new_id a);
  t ← insert_row ($"tunnels_pkey") id r (tunnels d);
  Ok ((id, r), set_tunnels t d).

Definition ReopenForSession (agentID localAddress : gostring) : prog database (result tunnel_error Tunnel) :=
  found ← exec (reopen_tunnel agentID localAddress);
  match found with
  | Ok tunnel => mret (Ok tunnel)
  | Err (PgError text) => mret (Err (ReopenFailed (PgError text)))
  | Err NoRows =>
      sub ← generate_subdomain;
      match sub with
      | None => mret (Err SubdomainFailed)
      | Some subdomain =>
          r ← exec (insert_tunnel agentID subdomain localAddress);
          mret (match r with Err e => Err (CreateTunnel e) | Ok tunnel => Ok tunnel end)
      end
  end.

Definition select_tunnels (userID : gostring) : stmt (list Tunnel) := fun a d =>
  userID ← or_else bad_uuid (uuid_in userID);
  Ok (select_desc (fun r => tn_user_id r = userID) (fun r => Some (tn_created_at r)) (tunnels d), d).

Definition tunnels_List (userID : gostring) : prog database (result tunnel_error (list Tunnel)) :=
  r ← exec (select_tunnels userID);
  mret (match r with Err e => Err (ListTunnels e) | Ok items => Ok items end).

(** *** The tables stay well-formed *)

(** Tunnels that keep their owner, agent and subdomain. *)
Lemma update_tunnels_advances d t :
  schema_ok d ->
  (forall i r, t !! i = Some r -> exists r0, tunnels d !! i = Some r0 /\ tunnel_evolves r0 r
     /\ tn_status r ∈ tunnel_statuses) ->
  persists tunnel_evolves (tunnels d) t -> advances d (set_tunnels t d).
Proof.
  intros Hd Ht Hp. apply advance_tunnels; [done | eapply unique_on_map; [apply (ok_subdomain _ Hd) |] | | | | | done].
  - intros i r Hr. destruct (Ht _ _ Hr) as (r0 & Hr0 & (_ & _ & Hs & _) & _). by exists r0.
  - intros i r Hr. destruct (Ht _ _ Hr) as (r0 & Hr0 & (_ & _ & -> & _) & _). apply (ok_label _ Hd _ _ Hr0).
  - intros i r Hr. destruct (Ht _ _ Hr) as (r0 & Hr0 & (Hu & Ha & _) & _). rewrite Hu, Ha. apply (ok_tunnel_agent _ Hd _ _ Hr0).
  - intros i r Hr. destruct (Ht _ _ Hr) as (r0 & Hr0 & (Hu & _) & _). rewrite Hu. by eapply (ok_tunnel_user _ Hd).
  - intros i r Hr. by destruct (Ht _ _ Hr) as (r0 & _ & _ & ?).
Qed.

Lemma close_open_tunnels_advances agentID a d x d' :
  schema_ok d -> close_open_tunnels agentID a d = Ok (x, d') -> advances d d'.
Proof.
  intros Hd Hx. unfold close_open_tunnels in Hx. stmt_inv. apply update_tunnels_advances; [done | |].
  - intros i r (r0 & Hr0 & Hr)%update_where_inv. exists r0. split; [done |]. destruct Hr as [->|[_ ->]].
    + split; [reflexivity | by eapply (ok_tunnel_status _ Hd)].
    + split; [done |]. cbn. right. left.
  - apply persists_update_where; [apply _ | done].
Qed.

Lemma replace_tunnel_advances d id r r' :
  schema_ok d -> tunnels d !! id = Some r -> tunnel_evolves r r' -> tn_status r' ∈ tunnel_statuses ->
  advances d (set_tunnels (<[id := r']> (tunnels d)) d).
Proof.
  intros Hd Hr Hev Hs. apply update_tunnels_advances; [done | |].
  - intros i r0 [[<- <-]|[_ Hr0]]%lookup_insert_Some; [by exists r |].
    exists r0. split_and!; [done | reflexivity | by eapply (ok_tunnel_status _ Hd)].
  - intros i r0 Hr0. destruct (decide (i = id)) as [->|Hne].
    + rewrite lookup_insert_eq. simplify_eq. eauto.
    + rewrite lookup_insert_ne by done. eexists. split; [done | reflexivity].
Qed.

(** What reopening selects. *)
Lemma reopen_tunnel_Ok agentID localAddress a d id r d' :
  reopen_tunnel agentID localAddress a d = Ok ((id, r), d') ->
  exists r0, tunnels d !! id = Some r0 /\ uuid_in agentID = Some (tn_agent_id r0) /\ tn_local_address r0 = localAddress
    /\ tn_status r0 = $"closed" /\ r = reopened_tunnel (NOW a) r0 /\ d' = set_tunnels (<[id := r]> (tunnels d)) d.
Proof.
  intros Hx. unfold reopen_tunnel in Hx. stmt_inv.
  match goal with H : head _ = Some _ |- _ => apply head_Some_elem_of, select_desc_elem in H as (Hr & Ha & Hl & Hs) end.
  eexists. split_and!; try done. by rewrite Ha.
Qed.

Lemma reopen_tunnel_advances agentID localAddress a d x d' :
  schema_ok d -> reopen_tunnel agentID localAddress a d = Ok (x, d') -> advances d d'.
Proof.
  intros Hd Hx. destruct x as [id r]. apply reopen_tunnel_Ok in Hx as (r0 & Hr0 & _ & _ & _ & -> & ->).
  eapply replace_tunnel_advances; [done | done | done |]. cbn. left.
Qed.

(** A label is short ASCII text or it is not stored. *)
Lemma label_varchar n s s' : is_label s -> varchar_in n s = Some s' -> is_label s'.
Proof.
  intros [Hne Hlab] Hv. unfold varchar_in in Hv. repeat case_match; simplify_eq; try done. exfalso.
  match goal with H : (length (runes s) <=? n)%nat = false |- _ => apply Nat.leb_gt in H; rename H into Hlen end.
  match goal with H : forallb _ (drop n _) = true |- _ => rename H into Hsp end.
  rewrite <- PublicHost.runes_label in Hlab. rewrite forallb_forall in Hlab, Hsp.
  destruct (drop n (runes s)) as [|r l] eqn:Hd; [apply (f_equal length) in Hd; rewrite length_drop in Hd; cbn in Hd; lia |].
  assert (Hin : r ∈ runes s) by (rewrite <- (take_drop n (runes s)), Hd; set_solver).
  specialize (Hlab r). rewrite <- list_elem_of_In in Hlab. specialize (Hsp r ltac:(by left)). apply Z.eqb_eq in Hsp. subst r.
  by specialize (Hlab Hin).
Qed.

Lemma insert_tunnel_advances agentID subdomain localAddress a d x d' :
  schema_ok d -> is_label subdomain -> insert_tunnel agentID subdomain localAddress a d = Ok (x, d') -> advances d d'.
Proof.
  intros Hd Hlab Hx. unfold insert_tunnel in Hx. stmt_inv.
  apply advance_tunnels; [done | apply unique_on_insert | apply all_rows_insert | apply all_rows_insert | apply refers_insert | apply all_rows_insert
    | by apply persists_insert; try apply _].
  - apply (ok_subdomain _ Hd).
  - assumption.
  - apply (ok_label _ Hd).
  - cbn. eapply label_varchar; eassumption.
  - apply (ok_tunnel_agent _ Hd).
  - cbn. match goal with H : agents d !! _ = Some _ |- _ => by rewrite H end.
  - apply (ok_tunnel_user _ Hd).
  - cbn. by eapply (ok_agent_user _ Hd).
  - apply (ok_tunnel_status _ Hd).
  - cbn. left.
Qed.

Lemma CloseAgentTunnels_well_behaved agentID : well_behaved (CloseAgentTunnels agentID).
Proof.
  unfold CloseAgentTunnels. well_behaved_walk. apply well_behaved_exec. intros. by eapply close_open_tunnels_advances.
Qed.

(** In every interleaving, the tunnel returned is stored, under the agent. *)
Definition stored_tunnel (agentID : gostring) (x : result tunnel_error Tunnel) (d : database) : Prop :=
  match x with
  | Ok (id, r) => tunnels d !! id = Some r /\ uuid_in agentID = Some (tn_agent_id r)
  | Err _ => True
  end.

Lemma insert_tunnel_stored agentID subdomain localAddress a d id r d' :
  insert_tunnel agentID subdomain localAddress a d = Ok ((id, r), d') ->
  tunnels d' !! id = Some r /\ uuid_in agentID = Some (tn_agent_id r).
Proof. intros Hx. unfold insert_tunnel in Hx. stmt_inv. split; [apply lookup_insert_eq | done]. Qed.

Lemma ReopenForSession_rg agentID localAddress d0 :
  rg schema_ok evolves (stored_tunnel agentID) d0 (ReopenForSession agentID localAddress).
Proof.
  assert (Hfresh : forall e d, rg schema_ok evolves (stored_tunnel agentID) d
    (match e with PgError text => mret (Err (ReopenFailed (PgError text))) | NoRows =>
       sub ← generate_subdomain;
       match sub with
       | None => mret (Err SubdomainFailed)
       | Some subdomain => r ← exec (insert_tunnel agentID subdomain localAddress);
                           mret (match r with Err e => Err (CreateTunnel e) | Ok tunnel => Ok tunnel end)
       end end)).
  { intros [|text] d1; [|done]. apply rg_bind, rg_action. intros a d Hd _. cbn [fst snd]. split_and!; [done | reflexivity |].
    destruct (a_random a) as [bs|]; [|done].
    destruct (Subdomain.GenerateSubdomain ((Some <$> bs) ++ [None])) as [[[sub|] rest]|] eqn:Hg; [|done | done].
    apply rg_bind, rg_exec; [|done]. intros a1 d2 [id r] d3 Hd2 _ Hx.
    split; [eapply insert_tunnel_advances; [done | by eapply PublicHost.generated_label | exact Hx] |].
    split; [by eapply insert_tunnel_stored | done]. }
  unfold ReopenForSession. apply rg_bind, rg_exec; [|intros d e _ _; apply Hfresh].
  intros a d [id r] d' Hd _ Hx. split; [by eapply reopen_tunnel_advances | split; [|intros e; apply Hfresh]].
  apply reopen_tunnel_Ok in Hx as (r0 & Hr0 & Ha & _ & _ & -> & ->). split; [apply lookup_insert_eq | exact Ha].
Qed.

Lemma ReopenForSession_well_behaved agentID localAddress : well_behaved (ReopenForSession agentID localAddress).
Proof. intros d Hd. eapply (rg_weaken _ _); [done | apply ReopenForSession_rg | done]. Qed.

Lemma tunnels_List_well_behaved userID : well_behaved (tunnels_List userID).
Proof.
  unfold tunnels_List. well_behaved_walk. apply well_behaved_exec. intros.
  eapply select_advances; [|done..]. clear. intros ? ? ? ? Hx. unfold select_tunnels in Hx. by stmt_inv.
Qed.
End service.

(** ** The API *)

Definition tunnels_writeData : Z -> json -> ResponseWriter -> ResponseWriter := writeData.
Definition tunnels_writeError : Z -> gostring -> gostring -> ResponseWriter -> ResponseWriter := writeError.

Section handler.
Context {S : Type} (dbL : lens S database) `{PG : Postgres} (service : Service) (marshal_time : Z -> json).

(** The user is not part of the JSON. *)
Definition enc_tunnel (p : Tunnel) : json :=
  let '(id, r) := p in
  JObj [($"id", JStr id); ($"subdomain", JStr (tn_subdomain r)); ($"localAddress", JStr (tn_local_address r));
        ($"status", JStr (tn_status r)); ($"openedAt", enc_time marshal_time (tn_opened_at r));
        ($"closedAt", enc_time marshal_time (tn_closed_at r)); ($"agentId", JStr (tn_agent_id r))].

Definition tunnels_ServeHTTP (r : Request) (w : ResponseWriter) : prog S ResponseWriter :=
  u ← lift dbL (UserFromAccessToken service (bearer r));
  match u with
  | Err _ => mret (tunnels_writeError 401 ($"UNAUTHORIZED") ($"Authentication required") w)
  | Ok user =>
      if negb (bool_decide (q_Path r = $"/api/v1/tunnels")) || negb (bool_decide (q_Method r = $"GET"))
      then mret (tunnels_writeError 404 ($"NOT_FOUND") ($"Route not found") w)
      else
        items ← lift dbL (tunnels_List (ID user));
        mret (match items with
              | Err _ => tunnels_writeError 500 ($"INTERNAL_ERROR") ($"Unable to load tunnels") w
              | Ok items => tunnels_writeData 200 (JArr (enc_tunnel <$> items)) w
              end)
  end.
End handler.
