(* ===== verification/TrafficService.v ===== *)
(** * Stored traffic totals

    [Service] and [HTTPHandler] of backend/internal/traffic: per-user counters in
    [BIGINT] columns, increased by deltas. *)

From S2P Require Import Prelude GoStrings Crypto Effects Headers Json Messages Tables AuthService Reader Http.

(** [Metrics] and [Totals]: three [uint64] counters. *)
Record Metrics := mkMetrics { m_RequestsTotal : Z; m_RequestBytes : Z; m_ResponseBytes : Z }.
Record Totals := mkTotals { t_RequestsTotal : Z; t_RequestBytes : Z; t_ResponseBytes : Z }.

Inductive traffic_error :=
| AddTraffic (e : dberr)
| GetTraffic (e : dberr).

Section service.
Context `{PG : Postgres}.

(** The parameters are [BIGINT]s: the driver refuses a larger [uint64], and the
    server a sum that overflows. *)
Definition upsert_traffic (userID : gostring) (delta : Metrics) : stmt unit := fun a d =>
  userID ← or_else bad_uuid (uuid_in userID);
  _ ← check (bool_decide (0 <= m_RequestsTotal delta <= max_int64 /\ 0 <= m_RequestBytes delta <= max_int64
                          /\ 0 <= m_ResponseBytes delta <= max_int64)) out_of_range;
  _ ← check (negb (absent (users d !! userID)))
        (foreign_key_violation ($"traffic_totals") ($"traffic_totals_user_id_fkey"));
  let row :=
    match traffic_totals d !! userID with
    | None => mkTrafficRow (m_RequestsTotal delta) (m_RequestBytes delta) (m_ResponseBytes delta) (NOW a)
    | Some r => mkTrafficRow (tr_requests_total r + m_RequestsTotal delta) (tr_request_bytes r + m_RequestBytes delta)
                  (tr_response_bytes r + m_ResponseBytes delta) (NOW a)
    end in
  _ ← check (bool_decide (bigint (tr_requests_total row) /\ bigint (tr_request_bytes row)
                          /\ bigint (tr_response_bytes row))) out_of_range;
  Ok (tt, set_traffic_totals (<[userID := row]> (traffic_totals d)) d).

Definition AddDelta (userID : gostring) (delta : Metrics) : prog database (result traffic_error unit) :=
  r ← exec (upsert_traffic userID delta);
  mret (match r with Err e => Err (AddTraffic e) | Ok _ => Ok tt end).

(** Scanning a negative [BIGINT] into a [uint64] fails. *)
Definition select_traffic (userID : gostring) : stmt Totals := fun a d =>
  userID ← or_else bad_uuid (uuid_in userID);
  r ← or_else NoRows (traffic_totals d !! userID);
  _ ← check (bool_decide (0 <= tr_requests_total r /\ 0 <= tr_request_bytes r /\ 0 <= tr_response_bytes r)) out_of_range;
  Ok (mkTotals (tr_requests_total r) (tr_request_bytes r) (tr_response_bytes r), d).

Definition GetTotals (userID : gostring) : prog database (result traffic_error Totals) :=
  r ← exec (select_traffic userID);
  mret (match r with
        | Ok totals => Ok totals
        | Err NoRows => Ok (mkTotals 0 0 0)
        | Err e => Err (GetTraffic e)
        end).
Lemma upsert_traffic_advances userID delta a d x d' :
  schema_ok d -> upsert_traffic userID delta a d = Ok (x, d') -> advances d d'.
Proof.
  intros Hd H. unfold upsert_traffic in H. stmt_inv. prop_guards. apply advance_traffic_totals; [done | | |].
  - intros i [r [[<- _]|[_ Hr]]%lookup_insert_Some]; [done | eapply (ok_traffic_user _ Hd); eauto].
  - apply all_rows_insert; [apply (ok_traffic_range _ Hd) | done].
  - intros i r Hr. destruct (decide (i = x0)) as [->|Hne].
    + rewrite lookup_insert_eq, Hr. eexists. split; [done |]. unfold traffic_evolves. cbn. lia.
    + rewrite lookup_insert_ne by done. eexists. split; [done | reflexivity].
Qed.

Lemma AddDelta_well_behaved userID delta : well_behaved (AddDelta userID delta).
Proof.
  unfold AddDelta. well_behaved_walk. apply well_behaved_exec. intros. by eapply upsert_traffic_advances.
Qed.

Lemma GetTotals_well_behaved userID : well_behaved (GetTotals userID).
Proof.
  unfold GetTotals. well_behaved_walk. apply well_behaved_exec. intros.
  eapply select_advances; [|done..]. clear. intros ? ? ? ? Hx. unfold select_traffic in Hx. by stmt_inv.
Qed.
End service.

(** ** The API *)

Definition traffic_writeData : Z -> json -> ResponseWriter -> ResponseWriter := writeData.
Definition traffic_writeError : Z -> gostring -> gostring -> ResponseWriter -> ResponseWriter := writeError.

Definition enc_totals (t : Totals) : json :=
  JObj [($"requestsTotal", JNum (print_int (t_RequestsTotal t))); ($"requestBytes", JNum (print_int (t_RequestBytes t)));
        ($"responseBytes", JNum (print_int (t_ResponseBytes t)))].

Section handler.
Context {S : Type} (dbL : lens S database) `{PG : Postgres} (service : Service).

Definition traffic_ServeHTTP (r : Request) (w : ResponseWriter) : prog S ResponseWriter :=
  u ← lift dbL (UserFromAccessToken service (bearer r));
  match u with
  | Err _ => mret (traffic_writeError 401 ($"UNAUTHORIZED") ($"Authentication required") w)
  | Ok user =>
      if negb (bool_decide (q_Path r = $"/api/v1/traffic")) || negb (bool_decide (q_Method r = $"GET"))
      then mret (traffic_writeError 404 ($"NOT_FOUND") ($"Route not found") w)
      else
        totals ← lift dbL (GetTotals (ID user));
        mret (match totals with
              | Err _ => traffic_writeError 500 ($"INTERNAL_ERROR") ($"Unable to load traffic totals") w
              | Ok totals => traffic_writeData 200 (enc_totals totals) w
              end)
  end.
End handler.
