(* ===== verification/SessionSteps.v ===== *)
(** * Interleavings of the session manager

    The goroutines that serve agents and public requests meet in the session
    manager.  Its methods are decomposed here into the atomic steps that the
    mutex and the channel operations induce: a critical section is one step, a
    channel operation is one step.  The theorems hold for every interleaving of
    these steps, with the history of the run kept beside the state. *)

From S2P Require Import Prelude Headers SessionManager.

(** ** The transition system *)

(** Why a response is on its way to a waiting request. *)
Inductive cause :=
| ByResponse (requestID : gostring)
| ByDisconnect (sessionID : gostring).

Record delivery := mkDelivery { d_loc : loc; d_resp : Response; d_cause : cause }.

(** The shared state, the sends that goroutines have still to perform after
    their critical section, and the history: which session and request every
    response channel was made for, the sends performed, the responses received,
    the outbound messages queued and written to the agents. *)
Record cstate := mkC {
  cw : world;
  inflight : list delivery;
  sent : list delivery;
  received : list (loc * Response);
  owner : gmap loc (gostring * gostring);
  accepted : list (loc * OutboundMessage);
  drained : list (loc * OutboundMessage)
}.

Definition set_cw (w : world) (c : cstate) : cstate :=
  mkC w (inflight c) (sent c) (received c) (owner c) (accepted c) (drained c).

Definition sessionOutboundQueueCapacity : nat := 32.

(** The session [handshake] registers: a new queue, a new cancellation. *)
Definition open_session (now : Z) (id agent hash : gostring) (w : world) : world :=
  let q := next_loc w in
  let session := mkSession id agent hash 0 (Some q) (Some (S q)) in
  Register now session
    (mkWorld (mgr w) (<[q := mkChan sessionOutboundQueueCapacity []]> (outq w)) (respq w)
       (S (S q)) (cancelled w)).

Inductive step (c : cstate) : cstate -> Prop :=
| step_Register now id agent hash :
    sessions (mgr (cw c)) !! id = None ->
    step c (set_cw (open_session now id agent hash (cw c)) c)
| step_Touch now id :
    step c (set_cw (Touch now id (cw c)).2 c)
| step_cancel f :
    step c (set_cw (cancel f (cw c)) c)
| step_Send q m w' :
    trysend_out q m (cw c) = Some w' ->
    step c (mkC w' (inflight c) (sent c) (received c) (owner c) (accepted c ++ [(q, m)]) (drained c))
| step_Drain id q m rest cap :
    outbound_of id (cw c) = Some q ->
    outq (cw c) !! q = Some (mkChan cap (m :: rest)) ->
    step c (mkC (mkWorld (mgr (cw c)) (<[q := mkChan cap rest]> (outq (cw c))) (respq (cw c))
                   (next_loc (cw c)) (cancelled (cw c)))
              (inflight c) (sent c) (received c) (owner c) (accepted c) (drained c ++ [(q, m)]))
| step_RegisterRequest sid id :
    step c (mkC (RegisterRequest sid id (cw c)).2 (inflight c) (sent c) (received c)
              (<[(RegisterRequest sid id (cw c)).1 := (sid, id)]> (owner c)) (accepted c) (drained c))
| step_CancelRequest id :
    step c (set_cw (CancelRequest id (cw c)) c)
| step_DeliverTake id r l w' :
    DeliverResponse_take id (cw c) = (Some l, w') ->
    step c (mkC w' (inflight c ++ [mkDelivery l r (ByResponse id)]) (sent c) (received c) (owner c)
              (accepted c) (drained c))
| step_RemoveTake order id taken w' :
    order ≡ₚ map_to_list (pending (mgr (cw c))) ->
    Remove_take order id (cw c) = (taken, w') ->
    step c (mkC w' (inflight c ++ ((fun l => mkDelivery l disconnectedResponse (ByDisconnect id)) <$> taken))
              (sent c) (received c) (owner c) (accepted c) (drained c))
| step_Complete ds1 d ds2 w' :
    inflight c = ds1 ++ d :: ds2 ->
    send_response (d_loc d) (d_resp d) (cw c) = Returns tt w' ->
    step c (mkC w' (ds1 ++ ds2) (sent c ++ [d]) (received c) (owner c) (accepted c) (drained c))
| step_Receive l r rest cap :
    respq (cw c) !! l = Some (mkChan cap (r :: rest)) ->
    step c (mkC (mkWorld (mgr (cw c)) (outq (cw c)) (<[l := mkChan cap rest]> (respq (cw c)))
                   (next_loc (cw c)) (cancelled (cw c)))
              (inflight c) (sent c) (received c ++ [(l, r)]) (owner c) (accepted c) (drained c)).

Definition initial : cstate :=
  mkC (mkWorld NewSessionManager ∅ ∅ 0 ∅) [] [] [] ∅ [] [].

Definition steps : cstate -> cstate -> Prop := rtc step.
Definition reachable (c : cstate) : Prop := steps initial c.

(** An invariant kept by steps holds along every run. *)
Lemma steps_ind (P : cstate -> Prop) c c' :
  P c -> (forall a b, P a -> step a b -> P b) -> steps c c' -> P c'.
Proof. intros H0 Hs Hr. induction Hr; eauto. Qed.

(** ** Responses *)

(** A delivery goes to a request it is meant for: a response to the request
    with its ID, a disconnect notice to a request of the lost session. *)
Definition justified (o : gmap loc (gostring * gostring)) (d : delivery) : Prop :=
  exists sid rid, o !! d_loc d = Some (sid, rid)
    /\ match d_cause d with
       | ByResponse id => id = rid
       | ByDisconnect id => id = sid /\ d_resp d = disconnectedResponse
       end.

Abbreviation plocs c := (pending_locs (pending (mgr (cw c)))).

Record inv (c : cstate) : Prop := mkInv {
  inv_nodup : NoDup (plocs c ++ (d_loc <$> inflight c) ++ (d_loc <$> sent c));
  inv_empty : forall l, l ∈ plocs c ++ (d_loc <$> inflight c) -> respq (cw c) !! l = Some (mkChan 1 []);
  inv_sent : forall d, d ∈ sent c ->
    (respq (cw c) !! d_loc d = Some (mkChan 1 [d_resp d]) /\ d_loc d ∉ (received c).*1)
    \/ (respq (cw c) !! d_loc d = Some (mkChan 1 []) /\ (d_loc d, d_resp d) ∈ received c);
  inv_buf : forall l cap r rest, respq (cw c) !! l = Some (mkChan cap (r :: rest)) -> l ∈ d_loc <$> sent c;
  inv_recv : NoDup (received c).*1
    /\ forall l r, (l, r) ∈ received c -> exists d, d ∈ sent c /\ d_loc d = l /\ d_resp d = r;
  inv_fresh : forall l, (next_loc (cw c) <= l)%nat -> respq (cw c) !! l = None;
  inv_pend : forall id p, pending (mgr (cw c)) !! id = Some p ->
    owner c !! p_response p = Some (p_sessionID p, id);
  inv_just : forall d, d ∈ inflight c ++ sent c -> justified (owner c) d
}.

Lemma inv_initial : inv initial.
Proof. split; simpl; try set_solver; try (split; [constructor | set_solver]); constructor. Qed.

(** Steps that leave the requests and the response channels alone. *)
Lemma inv_frame c w :
  inv c -> pending (mgr w) = pending (mgr (cw c)) -> respq w = respq (cw c) ->
  (next_loc (cw c) <= next_loc w)%nat ->
  forall acc dr, inv (mkC w (inflight c) (sent c) (received c) (owner c) acc dr).
Proof.
  intros [] Hp Hr Hn acc dr.
  split; cbn [cw inflight sent received owner]; rewrite ?Hp, ?Hr; eauto with lia.
Qed.

Lemma pending_locs_subseteq m m' : m' ⊆ m -> pending_locs m' ⊆+ pending_locs m.
Proof. intros H. unfold pending_locs. do 2 apply fmap_submseteq. by apply map_to_list_submseteq. Qed.

Lemma submseteq_NoDup {A} (l k : list A) : NoDup k -> l ⊆+ k -> NoDup l.
Proof. intros Hk (k' & Hp)%submseteq_Permutation. rewrite Hp in Hk. by apply list.NoDup_app in Hk as [? _]. Qed.

(** Moving requests from the table to goroutines that will answer them. *)
Lemma inv_take c w ds :
  inv c -> pending (mgr w) ⊆ pending (mgr (cw c)) ->
  respq w = respq (cw c) -> next_loc w = next_loc (cw c) ->
  pending_locs (pending (mgr w)) ++ (d_loc <$> ds) ⊆+ plocs c ->
  (forall d, d ∈ ds -> justified (owner c) d) ->
  inv (mkC w (inflight c ++ ds) (sent c) (received c) (owner c) (accepted c) (drained c)).
Proof.
  intros [] Hp Hr Hn Hl Hj.
  assert (Hsub : pending_locs (pending (mgr w)) ++ (d_loc <$> inflight c ++ ds)
                 ⊆+ plocs c ++ (d_loc <$> inflight c)).
  { rewrite fmap_app, (Permutation_app_comm (d_loc <$> inflight c)), app_assoc. by apply submseteq_skips_r. }
  split; cbn [cw inflight sent received owner]; rewrite ?Hr, ?Hn; auto.
  - rewrite app_assoc. eapply submseteq_NoDup; [exact inv_nodup0 |].
    rewrite (app_assoc (plocs c)). by apply submseteq_skips_r.
  - intros l Hin. apply inv_empty0. by eapply elem_of_submseteq.
  - intros id p Hid. apply inv_pend0. by eapply lookup_weaken.
  - intros d. rewrite <- app_assoc, !elem_of_app. intros [Hd|[Hd|Hd]]; [| by apply Hj |];
    apply inv_just0, elem_of_app; auto.
Qed.

(** The channels of requests are known to the store. *)
Lemma inv_known c l :
  inv c -> l ∈ plocs c ++ (d_loc <$> inflight c) ++ (d_loc <$> sent c) -> (l < next_loc (cw c))%nat.
Proof.
  intros Hi Hin. destruct (decide (l < next_loc (cw c))%nat) as [|Hge]; [done |].
  assert (Hnone : respq (cw c) !! l = None) by (apply (inv_fresh c Hi); lia).
  rewrite app_assoc, elem_of_app in Hin. destruct Hin as [Hin|(d & -> & Hd)%list_elem_of_fmap].
  - rewrite (inv_empty c Hi) in Hnone; done.
  - destruct (inv_sent c Hi d Hd) as [[H _]|[H _]]; congruence.
Qed.

Lemma inv_RegisterRequest c sid id :
  inv c ->
  inv (mkC (RegisterRequest sid id (cw c)).2 (inflight c) (sent c) (received c)
         (<[(RegisterRequest sid id (cw c)).1 := (sid, id)]> (owner c)) (accepted c) (drained c)).
Proof.
  intros Hi. pose proof (inv_known c) as Hk. set (n := next_loc (cw c)) in *.
  assert (Hn : n ∉ plocs c ++ (d_loc <$> inflight c) ++ (d_loc <$> sent c)).
  { intros H. specialize (Hk n Hi H). lia. }
  pose proof Hi as [].
  assert (Hperm : pending_locs (<[id := mkPending sid n]> (pending (mgr (cw c))))
                  ≡ₚ n :: pending_locs (delete id (pending (mgr (cw c))))).
  { rewrite <- insert_delete_eq. by rewrite pending_locs_insert by apply lookup_delete_eq. }
  assert (Hsub : pending_locs (delete id (pending (mgr (cw c)))) ⊆+ plocs c)
    by apply pending_locs_subseteq, delete_subseteq.
  assert (Hjust : forall d, d_loc d <> n -> justified (owner c) d -> justified (<[n := (sid, id)]> (owner c)) d).
  { intros d Hd (s & r & Ho & Hc). exists s, r. by rewrite lookup_insert_ne. }
  split; cbn [cw inflight sent received owner RegisterRequest fst snd mgr set_pending pending respq next_loc];
    fold n; auto.
  - rewrite Hperm. cbn [app]. apply list.NoDup_cons. split.
    + intros H. apply Hn. eapply elem_of_submseteq; [exact H |]. by apply submseteq_skips_r.
    + eapply submseteq_NoDup; [exact inv_nodup0 |]. by apply submseteq_skips_r.
  - intros l Hin. rewrite Hperm in Hin. cbn [app] in Hin. apply elem_of_cons in Hin as [->|Hin].
    + by rewrite lookup_insert_eq.
    + assert (Hl : l ∈ plocs c ++ (d_loc <$> inflight c)).
      { eapply elem_of_submseteq; [exact Hin |]. by apply submseteq_skips_r. }
      rewrite lookup_insert_ne; [by apply inv_empty0 |]. intros <-.
      apply Hn. rewrite app_assoc. by apply elem_of_app; left.
  - intros d Hd. rewrite lookup_insert_ne; [by apply inv_sent0 |]. intros Heq.
    apply Hn. rewrite Heq, !elem_of_app. right; right. by apply list_elem_of_fmap_2.
  - intros l cap r rest. destruct (decide (l = n)) as [->|Hne].
    + by rewrite lookup_insert_eq.
    + rewrite lookup_insert_ne by done. apply inv_buf0.
  - intros l Hl. rewrite lookup_insert_ne by lia. apply inv_fresh0. fold n. lia.
  - intros id' p. destruct (decide (id' = id)) as [->|Hne].
    + rewrite lookup_insert_eq. intros [= <-]. by rewrite lookup_insert_eq.
    + rewrite lookup_insert_ne by done. intros Hp. rewrite lookup_insert_ne; [by apply inv_pend0 |].
      intros Heq. apply Hn. rewrite Heq. rewrite elem_of_app. left. apply pending_locs_elem. eauto.
  - intros d Hd. apply Hjust; [|by apply inv_just0]. intros <-. apply Hn.
    rewrite elem_of_app. right. rewrite <- fmap_app. by apply list_elem_of_fmap_2.
Qed.

Lemma inv_Complete c ds1 d ds2 w' :
  inv c -> inflight c = ds1 ++ d :: ds2 ->
  send_response (d_loc d) (d_resp d) (cw c) = Returns tt w' ->
  inv (mkC w' (ds1 ++ ds2) (sent c ++ [d]) (received c) (owner c) (accepted c) (drained c)).
Proof.
  intros Hi Hfl. destruct Hi. rewrite Hfl, fmap_app, fmap_cons in *.
  assert (Hq : respq (cw c) !! d_loc d = Some (mkChan 1 [])) by (apply inv_empty0; set_solver).
  unfold send_response. rewrite Hq. cbn. intros [= <-].
  assert (Hperm : plocs c ++ ((d_loc <$> ds1) ++ d_loc d :: (d_loc <$> ds2)) ++ (d_loc <$> sent c)
                  ≡ₚ d_loc d :: (plocs c ++ (d_loc <$> ds1 ++ ds2)) ++ (d_loc <$> sent c)).
  { rewrite <- (Permutation_middle (d_loc <$> ds1)). cbn [app]. rewrite <- Permutation_middle.
    by rewrite fmap_app, <- !app_assoc. }
  assert (Hnd := inv_nodup0). rewrite Hperm in Hnd. apply list.NoDup_cons in Hnd as [Hnin Hnd].
  rewrite elem_of_app in Hnin.
  split; cbn [cw inflight sent received owner mgr respq next_loc]; auto.
  - rewrite (fmap_app _ (sent c)). cbn [fmap list_fmap]. rewrite app_assoc, app_assoc.
    rewrite <- Permutation_cons_append. apply list.NoDup_cons. rewrite elem_of_app. tauto.
  - intros l Hl. rewrite lookup_insert_ne by (intros <-; tauto). apply inv_empty0.
    rewrite fmap_app, !elem_of_app in *. rewrite elem_of_cons. tauto.
  - intros d' [Hd'|Hd'%list_elem_of_singleton]%elem_of_app; [| subst d'].
    + rewrite lookup_insert_ne; [by apply inv_sent0 |]. intros Heq. apply Hnin. right.
      rewrite Heq. by apply list_elem_of_fmap_2.
    + left. rewrite lookup_insert_eq. split; [done |]. intros ([l r] & Hl & Hin)%list_elem_of_fmap.
      simpl in Hl. subst l. destruct inv_recv0 as [_ Hr]. destruct (Hr _ _ Hin) as (d' & Hd' & Heq & _).
      apply Hnin. right. rewrite <- Heq. by apply list_elem_of_fmap_2.
  - intros l cap r rest. rewrite fmap_app, elem_of_app. destruct (decide (l = d_loc d)) as [->|Hne].
    + intros _. right. by left.
    + rewrite lookup_insert_ne by done. intros H. left. by eapply inv_buf0.
  - destruct inv_recv0 as [H1 H2]. split; [done |]. intros l r Hlr.
    destruct (H2 l r Hlr) as (d' & Hd' & ?). exists d'. rewrite elem_of_app. auto.
  - intros l Hl. rewrite lookup_insert_ne; [by apply inv_fresh0 |]. intros <-.
    rewrite inv_fresh0 in Hq by done. done.
  - intros d' Hd'. apply inv_just0. rewrite !elem_of_app in *. rewrite !elem_of_cons in *.
    rewrite elem_of_nil in Hd'. tauto.
Qed.

Lemma inv_Receive c l r rest cap :
  inv c -> respq (cw c) !! l = Some (mkChan cap (r :: rest)) ->
  inv (mkC (mkWorld (mgr (cw c)) (outq (cw c)) (<[l := mkChan cap rest]> (respq (cw c)))
              (next_loc (cw c)) (cancelled (cw c)))
         (inflight c) (sent c) (received c ++ [(l, r)]) (owner c) (accepted c) (drained c)).
Proof.
  intros [] Hq. pose proof (inv_buf0 _ _ _ _ Hq) as (d & -> & Hd)%list_elem_of_fmap_1.
  destruct (inv_sent0 d Hd) as [[Hq' Hnr]|[Hq' _]]; rewrite Hq in Hq'; [|done].
  injection Hq' as -> -> ->. destruct inv_recv0 as [Hnd Hrecv].
  assert (Hinj : forall d', d' ∈ sent c -> d_loc d' = d_loc d -> d' = d).
  { intros d' Hd' Heq. apply list_elem_of_lookup in Hd as [i Hi]. apply list_elem_of_lookup in Hd' as [j Hj].
    rewrite app_assoc in inv_nodup0. apply list.NoDup_app in inv_nodup0 as (_ & _ & Hns).
    assert (i = j) as <-; [|congruence].
    apply (NoDup_lookup _ i j (d_loc d) Hns); rewrite list_lookup_fmap, ?Hi, ?Hj; simpl; congruence. }
  split; cbn [cw inflight sent received owner mgr respq next_loc]; auto.
  - intros l Hl. rewrite lookup_insert_ne; [by apply inv_empty0 |]. intros <-.
    rewrite inv_empty0 in Hq by done. done.
  - intros d' Hd'. destruct (decide (d_loc d' = d_loc d)) as [Heq|Hne].
    + rewrite (Hinj d' Hd' Heq), lookup_insert_eq. right. split; [done |]. set_solver.
    + rewrite lookup_insert_ne by done. rewrite fmap_app. destruct (inv_sent0 d' Hd') as [[H1 H2]|[H1 H2]].
      * left. split; [done |]. set_solver.
      * right. split; [done |]. set_solver.
  - intros l cap r rest. destruct (decide (l = d_loc d)) as [->|Hne].
    + intros _. by apply list_elem_of_fmap_2.
    + rewrite lookup_insert_ne by done. apply inv_buf0.
  - split.
    + rewrite fmap_app. cbn. rewrite <- Permutation_cons_append. by apply list.NoDup_cons.
    + intros l r [Hlr|Hlr%list_elem_of_singleton]%elem_of_app; [by apply Hrecv |].
      injection Hlr as -> ->. eauto.
  - intros l Hl. rewrite lookup_insert_ne; [by apply inv_fresh0 |]. intros <-.
    rewrite inv_fresh0 in Hq by done. done.
Qed.

Lemma Remove_take_inv c order id taken w' :
  inv c -> order ≡ₚ map_to_list (pending (mgr (cw c))) -> Remove_take order id (cw c) = (taken, w') ->
  inv (mkC w' (inflight c ++ ((fun l => mkDelivery l disconnectedResponse (ByDisconnect id)) <$> taken))
         (sent c) (received c) (owner c) (accepted c) (drained c)).
Proof.
  intros Hi Hord Hr. destruct (Remove_take_eq _ _ _ _ _ Hord Hr) as (Hp & Ht & _ & _ & _ & _ & Hq & Hn & _).
  apply inv_take; auto.
  - rewrite Hp. apply map_filter_subseteq.
  - rewrite <- list_fmap_compose. unfold compose. cbn [d_loc]. rewrite list_fmap_id, Hp, Ht.
    by rewrite <- pending_locs_split.
  - intros d (l & -> & Hl)%list_elem_of_fmap. rewrite Ht in Hl.
    apply list_elem_of_fmap in Hl as (p & -> & Hl). apply list_elem_of_fmap in Hl as ([rid p'] & -> & Hl).
    apply list_elem_of_filter in Hl as [Hs Hl]. apply elem_of_map_to_list in Hl.
    exists id, rid. cbn in *. rewrite (inv_pend c Hi _ _ Hl), Hs. auto.
Qed.

Lemma DeliverResponse_take_inv c id r l w' :
  inv c -> DeliverResponse_take id (cw c) = (Some l, w') ->
  inv (mkC w' (inflight c ++ [mkDelivery l r (ByResponse id)]) (sent c) (received c) (owner c)
         (accepted c) (drained c)).
Proof.
  intros Hi. unfold DeliverResponse_take. destruct (pending (mgr (cw c)) !! id) as [p|] eqn:Hp; [|done].
  intros [= <- <-]. apply inv_take; auto; cbn.
  - apply delete_subseteq.
  - rewrite (pending_locs_delete _ _ _ Hp). by rewrite <- Permutation_cons_append.
  - intros d ->%list_elem_of_singleton. exists (p_sessionID p), id. cbn. by rewrite (inv_pend c Hi _ _ Hp).
Qed.

Lemma trysend_out_frame q m w w' :
  trysend_out q m w = Some w' ->
  mgr w' = mgr w /\ respq w' = respq w /\ next_loc w' = next_loc w /\ cancelled w' = cancelled w
  /\ exists ch, outq w !! q = Some ch /\ has_room ch = true /\ outq w' = <[q := push m ch]> (outq w).
Proof.
  unfold trysend_out. destruct (outq w !! q) as [ch|]; [|done]. simpl.
  destruct (has_room ch) eqn:Hr; [|done]. intros [= <-]. cbn. eauto 10.
Qed.

Lemma Touch_frame now id w :
  pending (mgr (Touch now id w).2) = pending (mgr w) /\ outq (Touch now id w).2 = outq w
  /\ respq (Touch now id w).2 = respq w /\ next_loc (Touch now id w).2 = next_loc w
  /\ size (sessions (mgr (Touch now id w).2)) = size (sessions (mgr w))
  /\ connectionsTotal (mgr (Touch now id w).2) = connectionsTotal (mgr w)
  /\ disconnectionsTotal (mgr (Touch now id w).2) = disconnectionsTotal (mgr w)
  /\ forall k, outbound_of k (Touch now id w).2 = outbound_of k w
               /\ (is_Some (sessions (mgr (Touch now id w).2) !! k) <-> is_Some (sessions (mgr w) !! k)).
Proof.
  unfold Touch. destruct (sessions (mgr w) !! id) as [s|] eqn:Hs; cbn; [|done]. split_and!; auto.
  - by apply map_size_insert_Some; eauto.
  - intros k. unfold outbound_of. cbn. destruct (decide (k = id)) as [->|Hne].
    + rewrite lookup_insert_eq, Hs. cbn. split; [done |]. by split; eauto.
    + by rewrite lookup_insert_ne.
Qed.

Lemma inv_step c c' : inv c -> step c c' -> inv c'.
Proof.
  intros Hi Hst. destruct Hst as [now id agent hash Hfresh|now id|f|q m w' Hs|id q m rest cap Ho Hq
    |sid id|id|id r l w' Ht|order id taken w' Hord Ht|ds1 d ds2 w' Hfl Hs|l r rest cap Hq].
  - apply inv_frame; cbn; auto.
  - destruct (Touch_frame now id (cw c)) as (? & ? & ? & ? & _). apply inv_frame; auto with lia.
  - by apply inv_frame.
  - destruct (trysend_out_frame _ _ _ _ Hs) as (Hm & Hr & Hn & _). apply inv_frame; rewrite ?Hm; auto with lia.
  - by apply inv_frame.
  - by apply inv_RegisterRequest.
  - assert (H := inv_take c (CancelRequest id (cw c)) [] Hi). rewrite !app_nil_r in H. apply H; auto.
    + apply delete_subseteq.
    + apply pending_locs_subseteq, delete_subseteq.
    + set_solver.
  - by apply DeliverResponse_take_inv.
  - by eapply Remove_take_inv.
  - by eapply inv_Complete.
  - by apply inv_Receive.
Qed.

Lemma inv_reachable c : reachable c -> inv c.
Proof. apply steps_ind; [apply inv_initial | apply inv_step]. Qed.

(** ** The methods, run on a reachable state *)

Lemma send_all_spec r ls : forall w,
  NoDup ls -> (forall l, l ∈ ls -> respq w !! l = Some (mkChan 1 [])) ->
  exists w', send_all ls r w = Returns tt w' /\ mgr w' = mgr w /\ outq w' = outq w
    /\ next_loc w' = next_loc w /\ cancelled w' = cancelled w
    /\ (forall l, l ∈ ls -> respq w' !! l = Some (mkChan 1 [r]))
    /\ (forall l, l ∉ ls -> respq w' !! l = respq w !! l).
Proof.
  induction ls as [|l ls IH]; intros w Hnd He.
  - exists w. split_and!; auto. set_solver.
  - apply list.NoDup_cons in Hnd as [Hnin Hnd]. cbn [send_all]. unfold send_response.
    rewrite (He l) by left. cbn [has_room ch_buf ch_cap length Nat.ltb Nat.leb].
    edestruct (IH (mkWorld (mgr w) (outq w) (<[l := push r (mkChan 1 [])]> (respq w)) (next_loc w) (cancelled w)))
      as (w' & Hw & Hm & Ho & Hn & Hc & Hin & Hout); [done | |].
    { intros l' Hl'. cbn. rewrite lookup_insert_ne; [|set_solver]. apply He. by right. }
    exists w'. split_and!; auto.
    + intros l' [->|Hl']%elem_of_cons; [|by apply Hin]. rewrite Hout by done. apply lookup_insert_eq.
    + intros l' [Hne Hl']%not_elem_of_cons. rewrite Hout by done. by apply lookup_insert_ne.
Qed.

(** [Remove] on a state whose pending channels are distinct and empty. *)
Lemma Remove_in_spec c order sid :
  inv c -> order ≡ₚ map_to_list (pending (mgr (cw c))) ->
  exists w', Remove_in order sid (cw c) = Returns tt w'
    /\ sessions (mgr w') = delete sid (sessions (mgr (cw c)))
    /\ (forall rid, pending (mgr w') !! rid
          = p ← pending (mgr (cw c)) !! rid; if decide (p_sessionID p = sid) then None else Some p)
    /\ (forall rid p, pending (mgr (cw c)) !! rid = Some p ->
          respq w' !! p_response p
          = Some (mkChan 1 (if decide (p_sessionID p = sid) then [disconnectedResponse] else [])))
    /\ (forall l, l ∉ plocs c -> respq w' !! l = respq (cw c) !! l).
Proof.
  intros Hi Hord. unfold Remove_in. destruct (Remove_take order sid (cw c)) as [taken w1] eqn:Hr.
  destruct (Remove_take_eq _ _ _ _ _ Hord Hr) as (Hp & Ht & Hs & _ & _ & _ & Hq & _ & _).
  assert (Hsplit := pending_locs_split sid (pending (mgr (cw c)))). rewrite <- Ht in Hsplit.
  assert (Hnd : NoDup (plocs c)) by (by destruct (proj1 (list.NoDup_app _ _) (inv_nodup c Hi))).
  assert (Hempty : forall l, l ∈ plocs c -> respq (cw c) !! l = Some (mkChan 1 [])).
  { intros l Hl. apply (inv_empty c Hi), elem_of_app. by left. }
  assert (Hnd' := Hnd). rewrite Hsplit in Hnd'. apply list.NoDup_app in Hnd' as (_ & Hdisj & Hndt).
  assert (Htaken : forall l, l ∈ taken <-> exists rid p,
            pending (mgr (cw c)) !! rid = Some p /\ p_sessionID p = sid /\ p_response p = l).
  { intros l. rewrite Ht, list_elem_of_fmap. setoid_rewrite list_elem_of_fmap.
    setoid_rewrite list_elem_of_filter. split.
    - intros (p & -> & [rid p'] & -> & He & Hin). apply elem_of_map_to_list in Hin. eauto.
    - intros (rid & p & Hl & He & <-). exists p. split; [done |]. exists (rid, p).
      rewrite elem_of_map_to_list. auto. }
  destruct (send_all_spec disconnectedResponse taken w1) as (w' & Hw & Hm & _ & _ & _ & Hin & Hout); [done | |].
  { intros l Hl. rewrite Hq. apply Hempty. rewrite Hsplit. apply elem_of_app. by right. }
  exists w'. split_and!; auto.
  - by rewrite Hm.
  - intros rid. rewrite Hm, Hp, map_lookup_filter. destruct (pending (mgr (cw c)) !! rid); cbn; [|done].
    destruct (decide (p_sessionID p = sid)) as [He|He].
    + by rewrite option_guard_False by tauto.
    + by rewrite option_guard_True.
  - intros rid p Hrid. destruct (decide (p_sessionID p = sid)) as [He|He].
    + apply Hin, Htaken. eauto.
    + rewrite Hout, Hq; [apply Hempty, pending_locs_elem; eauto |].
      apply Hdisj, pending_locs_elem. exists rid, p. split; [|done].
      by apply map_lookup_filter_Some.
  - intros l Hl. rewrite Hout, Hq; [done |]. intros Hlt. apply Hl. rewrite Hsplit. apply elem_of_app. by right.
Qed.

Lemma DeliverResponse_returns c id r :
  inv c -> exists w', DeliverResponse id r (cw c)
                      = Returns (bool_decide (is_Some (pending (mgr (cw c)) !! id))) w'.
Proof.
  intros Hi. unfold DeliverResponse, DeliverResponse_take.
  destruct (pending (mgr (cw c)) !! id) as [p|] eqn:Hp.
  - unfold send_response. cbn [set_mgr respq].
    rewrite (inv_empty c Hi) by (apply elem_of_app; left; apply pending_locs_elem; eauto).
    rewrite bool_decide_eq_true_2 by eauto. eexists. reflexivity.
  - rewrite bool_decide_eq_false_2 by (intros []; done). eauto.
Qed.

(** ** Outbound queues *)

(** The messages of one queue in a history. *)
Definition messages_of (q : loc) (h : list (loc * OutboundMessage)) : list OutboundMessage :=
  (filter (fun e => e.1 = q) h).*2.

Definition queue_inv (c : cstate) : Prop :=
  forall q, match outq (cw c) !! q with
            | Some ch => ch_cap ch = sessionOutboundQueueCapacity
                         /\ (length (ch_buf ch) <= sessionOutboundQueueCapacity)%nat
                         /\ (q < next_loc (cw c))%nat
                         /\ messages_of q (accepted c) = messages_of q (drained c) ++ ch_buf ch
            | None => messages_of q (accepted c) = [] /\ messages_of q (drained c) = []
            end.

Lemma messages_of_snoc q q' m h :
  messages_of q (h ++ [(q', m)]) = messages_of q h ++ (if decide (q' = q) then [m] else []).
Proof.
  unfold messages_of. rewrite list.filter_app, fmap_app, filter_cons. cbn [fst].
  by destruct (decide (q' = q)).
Qed.

Lemma queue_frame c w :
  queue_inv c -> outq w = outq (cw c) -> (next_loc (cw c) <= next_loc w)%nat ->
  forall f s r o, queue_inv (mkC w f s r o (accepted c) (drained c)).
Proof.
  intros Hq Ho Hn f s r o q. specialize (Hq q). cbn. rewrite Ho. destruct (outq (cw c) !! q); [|done].
  destruct Hq as (? & ? & ? & ?). split_and!; auto with lia.
Qed.

Lemma queue_inv_step c c' : queue_inv c -> step c c' -> queue_inv c'.
Proof.
  intros Hq Hst. destruct Hst as [now id agent hash Hfresh|now id|f|q m w' Hs|id q m rest cap Ho Hcq
    |sid id|id|id r l w' Ht|order id taken w' Hord Ht|ds1 d ds2 w' Hfl Hs|l r rest cap Hr];
    try (apply queue_frame; cbn; auto; fail).
  - intros q. assert (Hq' := Hq q). cbn [open_session Register set_cw cw set_mgr outq next_loc accepted drained].
    destruct (decide (q = next_loc (cw c))) as [->|Hne].
    + rewrite lookup_insert_eq. destruct (outq (cw c) !! next_loc (cw c)); [lia |].
      destruct Hq' as [-> ->]. cbn. split_and!; auto with lia.
    + rewrite lookup_insert_ne by done. destruct (outq (cw c) !! q); [|done].
      destruct Hq' as (? & ? & ? & ?). split_and!; auto with lia.
  - destruct (Touch_frame now id (cw c)) as (? & ? & ? & ? & _). apply queue_frame; auto with lia.
  - destruct (trysend_out_frame _ _ _ _ Hs) as (_ & _ & Hn & _ & ch & Hch & Hroom & Ho). intros q'.
    cbn [cw accepted drained]. rewrite Ho, Hn, messages_of_snoc. specialize (Hq q').
    destruct (decide (q = q')) as [<-|Hne].
    + rewrite lookup_insert_eq. rewrite Hch in Hq. destruct Hq as (Hc1 & Hc2 & Hc3 & ->).
      unfold has_room in Hroom. apply Nat.ltb_lt in Hroom. cbn. rewrite length_app. cbn.
      split_and!; auto; [lia |]. by rewrite app_assoc.
    + rewrite lookup_insert_ne, app_nil_r by done. done.
  - intros q'. specialize (Hq q'). cbn [cw accepted drained outq next_loc]. rewrite messages_of_snoc.
    destruct (decide (q = q')) as [<-|Hne].
    + rewrite lookup_insert_eq. rewrite Hcq in Hq. cbn in *. destruct Hq as (? & ? & ? & ->).
      split_and!; auto; [lia |]. by rewrite <- app_assoc.
    + rewrite lookup_insert_ne, app_nil_r by done. done.
  - unfold DeliverResponse_take in Ht. destruct (pending (mgr (cw c)) !! id); [|done].
    injection Ht as <- <-. by apply queue_frame.
  - destruct (Remove_take_eq _ _ _ _ _ Hord Ht) as (_ & _ & _ & _ & _ & Ho & _ & Hn & _).
    apply queue_frame; auto with lia.
  - unfold send_response in Hs. repeat case_match; try done. injection Hs as <-. by apply queue_frame.
Qed.

Lemma queue_inv_reachable c : reachable c -> queue_inv c.
Proof. apply steps_ind; [by intros q | apply queue_inv_step]. Qed.

(** ** Sessions *)

Definition counters_inv (c : cstate) : Prop :=
  let m := mgr (cw c) in
  connectionsTotal m = u64 (disconnectionsTotal m + Z.of_nat (size (sessions m))).

Lemma u64_shift a b : u64 (u64 a + b) = u64 (a + b).
Proof. unfold u64, wrapu. by rewrite Zplus_mod_idemp_l. Qed.

Lemma counters_step c c' : counters_inv c -> step c c' -> counters_inv c'.
Proof.
  unfold counters_inv. intros Hi Hst. destruct Hst as [now id agent hash Hfresh|now id|f|q m w' Hs|id q m rest cap Ho Hcq
    |sid id|id|id r l w' Ht|order id taken w' Hord Ht|ds1 d ds2 w' Hfl Hs|l r rest cap Hr]; try exact Hi.
  - cbn. rewrite map_size_insert_None by exact Hfresh. rewrite Hi, u64_shift. f_equal. lia.
  - destruct (Touch_frame now id (cw c)) as (_ & _ & _ & _ & Hz & Hc & Hd & _).
    unfold set_cw. cbn [cw]. by rewrite Hc, Hd, Hz.
  - destruct (trysend_out_frame _ _ _ _ Hs) as (Hm & _). cbn [cw]. by rewrite Hm.
  - unfold DeliverResponse_take in Ht. destruct (pending (mgr (cw c)) !! id); [|done]. by injection Ht as <- <-.
  - destruct (Remove_take_eq _ _ _ _ _ Hord Ht) as (_ & _ & Hs & Hc & Hd & _).
    cbn [cw]. rewrite Hs, Hc, Hd, Hi. destruct (decide (is_Some (sessions (mgr (cw c)) !! id))) as [Hin|Hin].
    + rewrite map_size_delete_Some, u64_shift by done. apply map_size_ne_0_lookup_2 in Hin. f_equal. lia.
    + rewrite map_size_delete_None by (by apply eq_None_not_Some). done.
  - unfold send_response in Hs. repeat case_match; try done. by injection Hs as <-.
Qed.

(** ** What becomes of a waiting request *)

(** Its own handler withdrew the request [rid], or another took over its ID, in a step
    between [c] and [x] at which it still waited. *)
Definition withdrawn (c x : cstate) (rid : gostring) (p : pendingRequest) : Prop :=
  exists c1 c2, steps c c1 /\ pending (mgr (cw c1)) !! rid = Some p
    /\ (cw c2 = CancelRequest rid (cw c1) \/ exists sid, cw c2 = (RegisterRequest sid rid (cw c1)).2)
    /\ steps c2 x.

(** The channel [l] of the request was taken from the table by a goroutine that sends on it. *)
Definition delivered (l : loc) (x : cstate) : Prop := exists d, d ∈ inflight x ++ sent x /\ d_loc d = l.

Record fate (c : cstate) (sid rid : gostring) (p : pendingRequest) (x : cstate) : Prop := mkFate {
  ft_known : (p_response p < next_loc (cw x))%nat;
  ft_owner : owner x !! p_response p = Some (sid, rid);
  ft_cases : (pending (mgr (cw x)) !! rid = Some p /\ is_Some (sessions (mgr (cw x)) !! sid))
             \/ delivered (p_response p) x \/ withdrawn c x rid p
}.

(** The store and the owners of the channels made so far survive every step, and so do
    the deliveries. *)
Lemma step_grows c c' : step c c' ->
  (next_loc (cw c) <= next_loc (cw c'))%nat
  /\ (forall l, (l < next_loc (cw c))%nat -> owner c' !! l = owner c !! l)
  /\ (forall l, delivered l c -> delivered l c').
Proof.
  intros Hst. destruct Hst as [now id agent hash Hfresh|now id|f|q m w' Hs|id q m rest cap Ho Hcq
    |sid' id|id|id r l' w' Ht|order id taken w' Hord Ht|ds1 d ds2 w' Hfl Hs|l' r rest cap Hr];
    try (split_and!; cbn; auto with lia; fail).
  - destruct (Touch_frame now id (cw c)) as (_ & _ & _ & H2 & _). cbn [set_cw cw]. rewrite H2. by split_and!.
  - destruct (trysend_out_frame _ _ _ _ Hs) as (_ & _ & Hn' & _). cbn [cw]. rewrite Hn'. by split_and!.
  - split_and!; cbn; [lia | | done]. intros l Hl. by rewrite lookup_insert_ne by lia.
  - unfold DeliverResponse_take in Ht. destruct (pending (mgr (cw c)) !! id); [|done]. injection Ht as <- <-.
    split_and!; cbn; [done | done |]. intros l (d & Hd & Hl). exists d. split; [|done]. cbn. set_solver.
  - destruct (Remove_take_eq _ _ _ _ _ Hord Ht) as (_ & _ & _ & _ & _ & _ & _ & Hn' & _). cbn [cw]. rewrite Hn'.
    split_and!; [done | done |]. intros l (d & Hd & Hl). exists d. split; [|done]. cbn. set_solver.
  - unfold send_response in Hs. repeat case_match; try done. injection Hs as <-. split_and!; cbn; [done | done |].
    intros l (d0 & Hd & Hl). exists d0. split; [|done]. rewrite Hfl in Hd. cbn. set_solver.
Qed.

(** A request that waits for a live session keeps waiting for it, or its channel is
    taken by a goroutine that sends on it, or it is withdrawn. *)
Lemma waiting_step c x y sid rid p : steps c x -> p_sessionID p = sid ->
  pending (mgr (cw x)) !! rid = Some p -> is_Some (sessions (mgr (cw x)) !! sid) -> step x y ->
  (pending (mgr (cw y)) !! rid = Some p /\ is_Some (sessions (mgr (cw y)) !! sid))
  \/ delivered (p_response p) y \/ withdrawn c y rid p.
Proof.
  intros Hcx Hsid Hp Hs Hst. destruct Hst as [now id agent hash Hfresh|now id|f|q m w' Hq|id q m rest cap Ho Hcq
    |sid' id|id|id r l' w' Ht|order id taken w' Hord Ht|ds1 d ds2 w' Hfl Hd|l' r rest cap Hr];
    try (left; split; [exact Hp | exact Hs]).
  - left. split; [done |]. cbn. destruct (decide (sid = id)) as [->|Hne]; [rewrite lookup_insert_eq; eauto |].
    by rewrite lookup_insert_ne.
  - left. destruct (Touch_frame now id (cw x)) as (H1 & _ & _ & _ & _ & _ & _ & H3). unfold set_cw. cbn [cw].
    rewrite H1. split; [done |]. by apply (H3 sid).
  - left. destruct (trysend_out_frame _ _ _ _ Hq) as (Hm & _). cbn [cw]. by rewrite Hm.
  - destruct (decide (id = rid)) as [->|Hne]; [|left; cbn; by rewrite lookup_insert_ne].
    right. right. refine (ex_intro _ x (ex_intro _ _ (conj Hcx (conj Hp (conj _ (rtc_refl _ _)))))). right. by exists sid'.
  - destruct (decide (id = rid)) as [->|Hne]; [|left; cbn; by rewrite lookup_delete_ne].
    right. right. refine (ex_intro _ x (ex_intro _ _ (conj Hcx (conj Hp (conj _ (rtc_refl _ _)))))). by left.
  - unfold DeliverResponse_take in Ht. destruct (pending (mgr (cw x)) !! id) as [p'|] eqn:Hid; [|done]. injection Ht as <- <-.
    destruct (decide (id = rid)) as [->|Hne]; [|left; cbn; by rewrite lookup_delete_ne].
    right. left. simplify_eq. exists (mkDelivery (p_response p) r (ByResponse rid)). cbn. split; [set_solver | done].
  - destruct (Remove_take_eq _ _ _ _ _ Hord Ht) as (Hpe & Htk & Hse & _). cbn [cw]. rewrite Hpe, Hse.
    destruct (decide (sid = id)) as [<-|Hne].
    + right. left. exists (mkDelivery (p_response p) disconnectedResponse (ByDisconnect sid)). split; [|done]. cbn.
      apply elem_of_app. left. apply elem_of_app. right. apply (list_elem_of_fmap_2' _ _ (p_response p)); [|done]. rewrite Htk.
      apply list_elem_of_fmap_2, (list_elem_of_fmap_2' _ _ (rid, p)); [|done]. apply list_elem_of_filter. split; [done |].
      by apply elem_of_map_to_list.
    + left. rewrite lookup_delete_ne by done. split; [|done]. apply map_lookup_filter_Some. split; [done |]. cbn. congruence.
  - left. unfold send_response in Hd. repeat case_match; try done. by injection Hd as <-.
Qed.

Lemma fate_run c c' sid rid p :
  inv c -> pending (mgr (cw c)) !! rid = Some p -> p_sessionID p = sid -> is_Some (sessions (mgr (cw c)) !! sid) ->
  steps c c' -> fate c sid rid p c'.
Proof.
  intros Hi Hp Hsid Hlive Hrun.
  assert (H : steps c c' /\ fate c sid rid p c'); [|apply H].
  apply (steps_ind (fun x => steps c x /\ fate c sid rid p x) c c'); [| |done].
  - split; [apply rtc_refl |]. split; [| |by left].
    + apply (inv_known c _ Hi), elem_of_app. left. apply pending_locs_elem. eauto.
    + by rewrite (inv_pend c Hi _ _ Hp), Hsid.
  - intros x y [Hcx [Hk Ho Hc]] Hst. destruct (step_grows x y Hst) as (Hn & How & Hd).
    split; [by eapply rtc_r |]. split; [lia | by rewrite How |].
    destruct Hc as [[Hw Hl]|[Hde|(c1 & c2 & H1 & H2 & H3 & H4)]].
    + by eapply waiting_step.
    + right. left. by apply Hd.
    + right. right. exists c1, c2. split_and!; [done | done | done | by eapply rtc_r].
Qed.

Definition orphaned (q : loc) (w : world) : Prop :=
  (q < next_loc w)%nat /\ (forall id, outbound_of id w <> Some q)
  /\ exists ch, outq w !! q = Some ch /\ has_room ch = false.

Lemma orphaned_step c c' q : orphaned q (cw c) -> step c c' -> orphaned q (cw c').
Proof.
  intros (Hn & Ho & ch & Hch & Hfull) Hst.
  destruct Hst as [now id agent hash Hfresh|now id|f|q' m w' Hs|id q' m rest cap Hoq Hcq
    |sid' id|id|id r l' w' Ht|order id taken w' Hord Ht|ds1 d ds2 w' Hfl Hs|l' r rest cap Hr];
    try (split_and!; [exact Hn | exact Ho | exists ch; done]).
  - split_and!; cbn.
    + lia.
    + intros id'. unfold outbound_of. cbn. destruct (decide (id' = id)) as [->|Hne].
      * rewrite lookup_insert_eq. cbn. intros [= ?]. lia.
      * rewrite lookup_insert_ne by done. apply Ho.
    + exists ch. by rewrite lookup_insert_ne by lia.
  - destruct (Touch_frame now id (cw c)) as (_ & H1 & _ & H2 & _ & _ & _ & H3). unfold set_cw. cbn [cw].
    split_and!; [by rewrite H2 | | by exists ch; rewrite H1].
    intros id'. destruct (H3 id') as [-> _]. apply Ho.
  - destruct (trysend_out_frame _ _ _ _ Hs) as (Hm & _ & Hn' & _ & ch' & Hch' & Hroom & Hoq). cbn [cw].
    split_and!; [by rewrite Hn' | |].
    + intros id. unfold outbound_of. rewrite Hm. apply Ho.
    + exists ch. rewrite Hoq, lookup_insert_ne; [done |]. congruence.
  - split_and!; cbn; [done | apply Ho |]. exists ch. rewrite lookup_insert_ne; [done |].
    intros ->. by eapply Ho.
  - split_and!; cbn; [lia | apply Ho | eauto].
  - unfold DeliverResponse_take in Ht. destruct (pending (mgr (cw c)) !! id); [|done]. injection Ht as <- <-.
    split_and!; [done | apply Ho | eauto].
  - destruct (Remove_take_eq _ _ _ _ _ Hord Ht) as (_ & _ & Hs & _ & _ & Hoq & _ & Hn' & _).
    cbn [cw]. split_and!; [by rewrite Hn' | | by exists ch; rewrite Hoq].
    intros id'. unfold outbound_of. rewrite Hs. destruct (decide (id' = id)) as [->|Hne].
    + by rewrite lookup_delete_eq.
    + rewrite lookup_delete_ne by done. apply Ho.
  - unfold send_response in Hs. repeat case_match; try done. injection Hs as <-.
    split_and!; [done | apply Ho | eauto].
Qed.

(** ** A run: an agent connects, a request waits, its response is delivered *)

Definition demo_response : Response := mkResponse 200 ∅ [] [].
Definition demo_open : cstate := set_cw (open_session 1 ($"ses_1") ($"agt_1") ($"hash") (cw initial)) initial.
Definition demo_wait : cstate :=
  mkC (RegisterRequest ($"ses_1") ($"req_1") (cw demo_open)).2 [] [] [] {[2%nat := ($"ses_1", $"req_1")]} [] [].
Definition demo_taken : cstate :=
  mkC (DeliverResponse_take ($"req_1") (cw demo_wait)).2
      [mkDelivery 2 demo_response (ByResponse ($"req_1"))] [] [] (owner demo_wait) [] [].
Definition put_response (q : chan Response) (w : world) : world :=
  mkWorld (mgr w) (outq w) (<[2%nat := q]> (respq w)) (next_loc w) (cancelled w).
Definition demo_sent : cstate :=
  mkC (put_response (mkChan 1 [demo_response]) (cw demo_taken))
      [] [mkDelivery 2 demo_response (ByResponse ($"req_1"))] [] (owner demo_wait) [] [].
Definition demo_done : cstate :=
  mkC (put_response (mkChan 1 []) (cw demo_sent)) [] (sent demo_sent) [(2%nat, demo_response)] (owner demo_wait) [] [].

Lemma demo_wait_reachable : reachable demo_wait.
Proof.
  apply rtc_l with demo_open; [by apply step_Register |].
  apply rtc_once. apply (step_RegisterRequest demo_open ($"ses_1") ($"req_1")).
Qed.

Lemma demo_taken_reachable : reachable demo_taken.
Proof. eapply rtc_r; [apply demo_wait_reachable |]. by apply (step_DeliverTake demo_wait). Qed.

Lemma demo_done_reachable : reachable demo_done.
Proof.
  eapply rtc_r; [eapply rtc_r; [apply demo_taken_reachable |] |].
  - by apply (step_Complete demo_taken [] (mkDelivery 2 demo_response (ByResponse ($"req_1"))) []).
  - by apply (step_Receive demo_sent 2 demo_response [] 1).
Qed.

(** ** Properties *)

(** C9 (safety).  A request gets at most one response, and it is its own: in
    every interleaving a response channel yields at most one value, and that
    value was delivered under the ID of the request the channel was made for, or
    is the disconnect notice of the session that request was waiting for. *)
Theorem response_at_most_once (c : cstate) (Hc : reachable c) :
  NoDup (received c).*1
  /\ forall l r, (l, r) ∈ received c ->
     exists sid rid d, owner c !! l = Some (sid, rid) /\ d ∈ sent c /\ d_loc d = l /\ d_resp d = r
       /\ (d_cause d = ByResponse rid \/ (d_cause d = ByDisconnect sid /\ r = disconnectedResponse)).
Proof.
  apply inv_reachable in Hc. destruct (inv_recv c Hc) as [Hnd Hr]. split; [done |].
  intros l r Hlr. destruct (Hr l r Hlr) as (d & Hd & <- & <-).
  destruct (inv_just c Hc d) as (sid & rid & Ho & Hj); [by apply elem_of_app; right |].
  exists sid, rid, d. split_and!; auto. destruct (d_cause d); [left; congruence |].
  destruct Hj as [-> ?]. auto.
Qed.

Lemma response_at_most_once_witness :
  reachable demo_done /\ received demo_done = [(2%nat, demo_response)] /\ NoDup (received demo_done).*1.
Proof.
  split; [exact demo_done_reachable |]. split; [reflexivity |].
  exact (proj1 (response_at_most_once demo_done demo_done_reachable)).
Defined.

(** C15 (liveness).  Delivering never blocks the goroutine that serves an agent:
    in every reachable state each outstanding channel send has room, and
    [DeliverResponse] and [Remove] run to their end, whatever the order in which
    [Remove] visits the pending requests; [DeliverResponse] reports whether the
    request was still waiting. *)
Theorem delivery_never_blocks (c : cstate) (Hc : reachable c) :
  (forall d, d ∈ inflight c -> exists w', send_response (d_loc d) (d_resp d) (cw c) = Returns tt w')
  /\ (forall id r, exists w', DeliverResponse id r (cw c)
                              = Returns (bool_decide (is_Some (pending (mgr (cw c)) !! id))) w')
  /\ (forall order id, order ≡ₚ map_to_list (pending (mgr (cw c))) ->
        exists w', Remove_in order id (cw c) = Returns tt w').
Proof.
  apply inv_reachable in Hc. split_and!.
  - intros d Hd. unfold send_response. rewrite (inv_empty c Hc); [by eexists |].
    apply elem_of_app. right. by apply list_elem_of_fmap_2.
  - intros id r. by apply DeliverResponse_returns.
  - intros order id Hord. destruct (Remove_in_spec c order id Hc Hord) as (w' & Hw & _). eauto.
Qed.

Lemma delivery_never_blocks_witness :
  reachable demo_taken /\ inflight demo_taken <> []
  /\ exists w', send_response 2 demo_response (cw demo_taken) = Returns tt w'.
Proof.
  split; [exact demo_taken_reachable |]. split; [done |].
  apply (proj1 (delivery_never_blocks demo_taken demo_taken_reachable)
           (mkDelivery 2 demo_response (ByResponse ($"req_1")))). by left.
Defined.

(** Removing a session releases exactly its waiting requests:
    each gets the disconnect response at once, requests of other sessions keep
    waiting with an empty channel, no other channel changes, and the session is
    gone. *)
Theorem remove_releases (c : cstate) (sid : gostring) (Hc : reachable c) :
  exists w', Remove sid (cw c) = Returns tt w'
    /\ sessions (mgr w') = delete sid (sessions (mgr (cw c)))
    /\ (forall rid, pending (mgr w') !! rid
          = p ← pending (mgr (cw c)) !! rid; if decide (p_sessionID p = sid) then None else Some p)
    /\ (forall rid p, pending (mgr (cw c)) !! rid = Some p ->
          respq w' !! p_response p
          = Some (mkChan 1 (if decide (p_sessionID p = sid) then [disconnectedResponse] else [])))
    /\ (forall l, l ∉ pending_locs (pending (mgr (cw c))) -> respq w' !! l = respq (cw c) !! l).
Proof. apply Remove_in_spec; [by apply inv_reachable | done]. Qed.

Lemma remove_releases_witness :
  reachable demo_wait
  /\ exists w', Remove ($"ses_1") (cw demo_wait) = Returns tt w'
                /\ respq w' !! 2%nat = Some (mkChan 1 [disconnectedResponse]).
Proof.
  split; [exact demo_wait_reachable |].
  destruct (remove_releases demo_wait ($"ses_1") demo_wait_reachable) as (w' & Hw & _ & _ & Hr & _).
  exists w'. split; [exact Hw |].
  exact (Hr ($"req_1") (mkPending ($"ses_1") 2) eq_refl).
Defined.


Definition demo_removed : cstate :=
  mkC (Remove_take (map_to_list (pending (mgr (cw demo_wait)))) ($"ses_1") (cw demo_wait)).2
      [mkDelivery 2 disconnectedResponse (ByDisconnect ($"ses_1"))] [] [] (owner demo_wait) [] [].


(** The queue to an agent is bounded and in order: it never
    holds more than 32 messages, and the messages accepted for it are those
    written to the agent, in order and each once, followed by the queue. *)
Theorem outbound_fifo (c : cstate) (q : loc) (ch : chan OutboundMessage)
    (Hc : reachable c) (Hq : outq (cw c) !! q = Some ch) :
  (length (ch_buf ch) <= 32)%nat
  /\ messages_of q (accepted c) = messages_of q (drained c) ++ ch_buf ch.
Proof. pose proof (queue_inv_reachable c Hc q) as H. rewrite Hq in H. tauto. Qed.

Lemma outbound_fifo_witness :
  outq (cw demo_wait) !! 0%nat = Some (mkChan 32 [])
  /\ messages_of 0 (accepted demo_wait) = messages_of 0 (drained demo_wait) ++ [].
Proof.
  split; [reflexivity |].
  exact (proj2 (outbound_fifo demo_wait 0 (mkChan 32 []) demo_wait_reachable eq_refl)).
Defined.

(** The connection counters account for the sessions: modulo
    the width of the counters, connections are disconnections plus the sessions
    of the table. *)
Theorem session_counters (c : cstate) (Hc : reachable c) :
  connectionsTotal (mgr (cw c)) = u64 (disconnectionsTotal (mgr (cw c)) + Count (cw c)).
Proof. revert Hc. apply (steps_ind counters_inv); [reflexivity | apply counters_step]. Qed.

Lemma session_counters_witness :
  reachable demo_wait /\ connectionsTotal (mgr (cw demo_wait)) = u64 (0 + 1).
Proof. split; [exact demo_wait_reachable |]. exact (session_counters demo_wait demo_wait_reachable). Defined.

(** C38 (safety).  A sender that waits for room in the queue of a session that
    has been removed is never released by the agent's side: nothing drains the
    queue any more, so the send blocks in every later state until its own context
    ends. *)
Theorem orphaned_queue_blocks (c c' : cstate) (q : loc) (m : OutboundMessage) (pick : bool)
    (Hq : orphaned q (cw c)) (Hrun : steps c c') :
  select_send false pick q m (cw c') = Blocks (cw c').
Proof.
  destruct (steps_ind (fun c => orphaned q (cw c)) c c' Hq) as (_ & _ & ch & Hch & Hfull);
    [intros a b Ha; by apply orphaned_step | done |].
  unfold select_send, trysend_out. rewrite Hch. unfold mbind, option_bind. by rewrite Hfull.
Qed.

Definition demo_full : cstate :=
  mkC (mkWorld NewSessionManager {[0%nat := mkChan 32 (replicate 32 (mkOutbound MessageText []))]} ∅ 2 ∅)
      [] [] [] ∅ [] [].

Lemma orphaned_queue_blocks_witness :
  select_send false true 0 (mkOutbound MessageText []) (cw demo_full) = Blocks (cw demo_full).
Proof.
  apply (orphaned_queue_blocks demo_full demo_full 0 (mkOutbound MessageText []) true); [|apply rtc_refl].
  split; [cbn; lia |]. split; [intros id; done |]. eexists. split; reflexivity.
Defined.
