(* ===== verification/AgentConnect.v ===== *)
(** * The gateway's side of an agent connection

    [AgentConnectHandler] of backend/internal/gateway/agent_connect.go: the
    authentication of the upgrade request, the hello exchange that registers the
    session, the loop of [serveSession] and the clean-up.  One turn of the loop is
    a function from the event its [select] received to the next state or to the
    end of the session; what the outside world answers (writes that fail, the
    outcome of opening a tunnel) is part of the event. *)

From S2P Require Import Prelude GoStrings Headers Frame Json Messages SessionManager SessionSteps.

(** ** Constants *)

Definition maxPendingResponseStreams : nat := 32.
Definition websocketReadLimit : Z := Z.shiftl 64 10.
Definition maxTunnelResponseBodyBytes : Z := Z.shiftl 32 20.

(** ** The state of a session *)

Record responseAssembly := mkAssembly {
  asm_payload : HTTPResponsePayload;
  asm_next : Z;               (* uint32 *)
  asm_body : list byte
}.

(** [sv_written] is what has been written to the WebSocket and [sv_touched] the
    agents whose presence was refreshed. *)
Record serving := mkServing {
  sv_world : world;
  sv_responses : gmap gostring responseAssembly;
  sv_written : list OutboundMessage;
  sv_touched : list gostring
}.

Inductive closeCode := StatusPolicyViolation | StatusUnsupportedData | StatusInternalError.

(** What a turn of the loop ends in.  [Stuck] is a turn blocked forever in a
    channel send. *)
Inductive verdict :=
| Continue (st : serving)
| Return (ok : bool) (close : option (closeCode * gostring)) (st : serving)
| Stuck (st : serving).

Definition set_world (w : world) (st : serving) : serving :=
  mkServing w (sv_responses st) (sv_written st) (sv_touched st).
Definition set_responses (r : gmap gostring responseAssembly) (st : serving) : serving :=
  mkServing (sv_world st) r (sv_written st) (sv_touched st).
Definition write (m : OutboundMessage) (st : serving) : serving :=
  mkServing (sv_world st) (sv_responses st) (sv_written st ++ [m]) (sv_touched st).

Section serve.
(** [hasAgents] is [h.agents != nil] and [canOpen] is [h.openTunnel != nil];
    [sessionID] is the session served. *)
Context (hasAgents canOpen : bool) (sessionID : gostring).

Definition touchAgent (st : serving) : serving :=
  if hasAgents then
    match AgentID sessionID (sv_world st) with
    | Some agentID => if bool_decide (agentID <> [])
                      then mkServing (sv_world st) (sv_responses st) (sv_written st) (sv_touched st ++ [agentID])
                      else st
    | None => st
    end
  else st.

Definition touch (now : Z) (st : serving) : serving :=
  touchAgent (set_world (Touch now sessionID (sv_world st)).2 st).

(** A binary message: a chunk of a response body. *)
Definition handle_binary (data : list byte) (st : serving) : verdict :=
  let reject := Return false (Some (StatusUnsupportedData, $"invalid response body chunk")) st in
  match ParseBinaryFrame data with
  | Err _ => reject
  | Ok frame =>
      match sv_responses st !! RequestID frame with
      | None => reject
      | Some assembly =>
          let total := zlen (asm_body assembly) + zlen (Payload frame) in
          if bool_decide (Type_ frame <> ResponseBodyChunk)
             || negb (Sequence frame =? asm_next assembly)
             || (maxTunnelResponseBodyBytes <? total)
             || ((0 <=? hr_ContentLength (asm_payload assembly)) && (hr_ContentLength (asm_payload assembly) <? total))
          then reject
          else Continue (set_responses
                 (<[RequestID frame := mkAssembly (asm_payload assembly) (u32 (asm_next assembly + 1))
                                         (asm_body assembly ++ Payload frame)]> (sv_responses st)) st)
      end
  end.

Definition handle_response_start (raw : option json) (st : serving) : verdict :=
  let invalid := Return false (Some (StatusUnsupportedData, $"invalid response start")) st in
  match (j ← raw; dec_HTTPResponsePayload j zero_HTTPResponse) with
  | None => invalid
  | Some payload =>
      if bool_decide (hr_RequestID payload = []) || (hr_ContentLength payload <? -1)
         || (maxTunnelResponseBodyBytes <? hr_ContentLength payload)
      then invalid
      else if bool_decide (sv_responses st !! hr_RequestID payload = None)
              && (Nat.leb maxPendingResponseStreams (size (sv_responses st)))
      then Return false (Some (StatusPolicyViolation, $"too many response streams")) st
      else Continue (set_responses (<[hr_RequestID payload := mkAssembly payload 0 []]> (sv_responses st)) st)
  end.

(** [opened] is what [openTunnel] returned for the call. *)
Definition handle_open_tunnel (opened : result unit TunnelOpenedPayload) (raw : option json) (st : serving) : verdict :=
  let refuse := Return false None st in
  if negb canOpen then refuse
  else match (j ← raw; dec_OpenTunnelPayload j (mkOpenTunnel [] [])) with
  | None => refuse
  | Some payload =>
      if bool_decide (ot_RequestID payload = []) || bool_decide (TrimSpace (ot_LocalAddress payload) = [])
      then refuse
      else match AgentID sessionID (sv_world st) with
      | None => refuse
      | Some agentID =>
          match opened with
          | Err _ => refuse
          | Ok o =>
              let o := mkTunnelOpened (ot_RequestID payload) (to_TunnelID o) (to_Subdomain o) (to_PublicURL o) in
              let '(sent, w) := Send sessionID (Envelope TunnelOpened (Some (enc_TunnelOpenedPayload o))) (sv_world st) in
              if sent then Continue (set_world w st) else Return false None (set_world w st)
          end
      end
  end.

Definition handle_response_end (data : list byte) (st : serving) : verdict :=
  match Unmarshal (dec_PayloadOnly HTTPResponseEndPayload) [] data with
  | None => Return false None st
  | Some requestID =>
      match sv_responses st !! requestID with
      | None => Return false None st
      | Some assembly =>
          let p := asm_payload assembly in
          if (0 <=? hr_ContentLength p) && negb (zlen (asm_body assembly) =? hr_ContentLength p)
          then Return false None st
          else
            let st := set_responses (delete requestID (sv_responses st)) st in
            match DeliverResponse requestID
                    (mkResponse (hr_StatusCode p) (default ∅ (hr_Headers p)) (asm_body assembly) (hr_Error p))
                    (sv_world st) with
            | Returns _ w => Continue (set_world w st)
            | Blocks w => Stuck (set_world w st)
            end
      end
  end.

Definition handle_text (now : Z) (writeOk : bool) (opened : result unit TunnelOpenedPayload)
    (data : list byte) (st : serving) : verdict :=
  match Unmarshal (dec_Envelope dec_RawMessage) ([], None) data with
  | None => Return false (Some (StatusUnsupportedData, $"invalid message")) st
  | Some (type, raw) =>
      if bool_decide (type = HTTPResponseStart) then handle_response_start raw st
      else if bool_decide (type = OpenTunnel) then handle_open_tunnel opened raw st
      else if bool_decide (type = HTTPResponseEnd) then handle_response_end data st
      else if bool_decide (type = Pong) then Continue (touch now st)
      else if bool_decide (type = Ping) then
        if writeOk then Continue (touch now (write (mkOutbound MessageText (Envelope Pong None)) st))
        else Return false None st
      else Continue st
  end.

(** What the [select] of [serveSession] can receive. *)
Inductive event :=
| Done
| Tick (writeOk : bool)
| Outbound (writeOk : bool)
| Inbound (now : Z) (type : MessageType) (data : list byte) (writeOk : bool)
    (opened : result unit TunnelOpenedPayload)
| ReadError.

(** [<-h.outbound(sessionID)]: the oldest queued message. *)
Definition receive_outbound (w : world) : option (OutboundMessage * world) :=
  q ← outbound_of sessionID w;
  c ← outq w !! q;
  match ch_buf c with
  | m :: rest => Some (m, mkWorld (mgr w) (<[q := mkChan (ch_cap c) rest]> (outq w)) (respq w)
                            (next_loc w) (cancelled w))
  | [] => None
  end.

(** One turn; [None] when the [select] case is not ready. *)
Definition serve_turn (e : event) (st : serving) : option verdict :=
  match e with
  | Done => Some (Return true None st)
  | Tick writeOk =>
      Some (if writeOk then Continue (write (mkOutbound MessageText (Envelope Ping None)) st)
            else Return false None st)
  | Outbound writeOk =>
      '(m, w) ← receive_outbound (sv_world st);
      Some (if writeOk : bool then Continue (write m (set_world w st)) else Return false None (set_world w st))
  | Inbound now type data writeOk opened =>
      Some (match type with
            | MessageBinary => handle_binary data st
            | MessageText => handle_text now writeOk opened data st
            | MessageOther _ => Return false (Some (StatusUnsupportedData, $"invalid message type")) st
            end)
  | ReadError => Some (Return true None st)
  end.

(** The loop over the events of a session. *)
Fixpoint serveSession (es : list event) (st : serving) : verdict :=
  match es with
  | [] => Continue st
  | e :: es => match serve_turn e st with
               | Some (Continue st) => serveSession es st
               | Some v => v
               | None => serveSession es st
               end
  end.
End serve.

(** ** Connecting *)

Definition defaultHeartbeatInterval : Z := 20 * Second.

(** [newSessionID] from the 18 bytes [rand.Read] delivered; [None] when it
    failed. *)
Definition newSessionID (random : option (list byte)) : option gostring :=
  (fun bytes => $"ses_" ++ base64url_encode bytes) <$> random.

(** The guard of [ServeHTTP]: the token that is let through, else 401. *)
Definition authenticate (authorization : gostring) (validateToken : gostring -> bool) : option gostring :=
  let rawToken := TrimSpace (TrimPrefix authorization ($"Bearer ")) in
  if negb (HasPrefix rawToken ($"tkn_")) || negb (validateToken rawToken) then None else Some rawToken.

(** The hello exchange up to [serveSession].  [read] is the first message,
    [agents] is [None] without an agents service and otherwise what its [Connect]
    returned, [sum256] is [sha256.Sum256]. *)
Inductive greeting :=
| Refused (close : option (closeCode * gostring))
| Registered (sessionID agentID : gostring) (hello : OutboundMessage) (w : world).

Definition handshake (sum256 : list byte -> list byte) (heartbeat now : Z) (rawToken : gostring)
    (read : option (list byte)) (random : option (list byte)) (agents : option (result unit gostring))
    (w : world) : greeting :=
  match read with
  | None => Refused None
  | Some data =>
      match Unmarshal (dec_Envelope dec_ClientHelloPayload) ([], zero_ClientHello) data with
      | None => Refused (Some (StatusPolicyViolation, $"unsupported protocol"))
      | Some (type, payload) =>
          if bool_decide (type <> ClientHello) || negb (ch_ProtocolVersion payload =? Version)
          then Refused (Some (StatusPolicyViolation, $"unsupported protocol"))
          else match newSessionID random with
          | None => Refused (Some (StatusInternalError, $"could not create session"))
          | Some sessionID =>
              match default (Ok []) agents with
              | Err _ => Refused (Some (StatusPolicyViolation, $"agent registration failed"))
              | Ok agentID =>
                  let w := open_session now sessionID agentID (hex_encode (sum256 rawToken)) w in
                  let response := Envelope ServerHello (Some (enc_ServerHelloPayload
                                    (mkServerHello Version sessionID (heartbeat / Second)))) in
                  Registered sessionID agentID (mkOutbound MessageText response) w
              end
          end
      end
  end.

(** The deferred function of [handshake]: the context is cancelled, the session
    removed; then [cleanupSession] and [agents.Disconnect] are called, with the
    arguments returned here. *)
Definition session_cleanup (hasAgents hasCleanup : bool) (sessionCancel : option loc) (sessionID agentID : gostring)
    (w : world) : outcome (option (gostring * gostring) * option gostring) :=
  let w := match sessionCancel with Some f => cancel f w | None => w end in
  match Remove sessionID w with
  | Blocks w => Blocks w
  | Returns _ w =>
      Returns (if hasCleanup then Some (sessionID, agentID) else None,
               if hasAgents && bool_decide (agentID <> []) then Some agentID else None) w
  end.

(** ** The loop runs on the session manager's transition system *)

Definition verdict_state (v : verdict) : serving :=
  match v with Continue st => st | Return _ _ st => st | Stuck st => st end.

Definition not_stuck (v : verdict) : Prop := match v with Stuck _ => False | _ => True end.

(** A method call seen from the loop: the world it leaves is reached by steps. *)
Definition reaches (c : cstate) (w : world) : Prop := exists c', steps c c' /\ cw c' = w.

Lemma reaches_refl c : reaches c (cw c).
Proof. by exists c; split; [apply rtc_refl |]. Qed.

Lemma reaches_step c c' w : step c c' -> cw c' = w -> reaches c w.
Proof. intros H <-. exists c'. split; [by apply rtc_once | done]. Qed.

Lemma Send_reaches c id m : reaches c (Send id m (cw c)).2.
Proof.
  unfold Send. destruct (outbound_of id (cw c)) as [q|]; [|apply reaches_refl].
  destruct (trysend_out q _ (cw c)) as [w'|] eqn:Hs; [|apply reaches_refl].
  eapply reaches_step; [by apply step_Send | done].
Qed.

Lemma Touch_reaches c now id : reaches c (Touch now id (cw c)).2.
Proof. eapply reaches_step; [apply step_Touch | done]. Qed.

Lemma DeliverResponse_reaches c id r :
  inv c -> exists b w', DeliverResponse id r (cw c) = Returns b w' /\ reaches c w'.
Proof.
  intros Hi. unfold DeliverResponse. destruct (DeliverResponse_take id (cw c)) as [[l|] w1] eqn:Ht.
  - pose proof (step_DeliverTake c id r l w1 Ht) as H1. pose proof (inv_step _ _ Hi H1) as Hi1.
    set (d := mkDelivery l r (ByResponse id)) in *.
    assert (Hq : respq w1 !! l = Some (mkChan 1 [])).
    { apply (inv_empty _ Hi1). cbn [inflight]. rewrite fmap_app, !elem_of_app. right; right. by left. }
    unfold send_response. rewrite Hq. cbn [has_room ch_buf ch_cap length Nat.ltb Nat.leb].
    eexists _, _. split; [reflexivity |]. eexists. split.
    + eapply rtc_l; [exact H1 |]. apply rtc_once.
      eapply (step_Complete _ (inflight c) d []); [reflexivity |].
      cbn [cw d_loc d_resp d]. unfold send_response. rewrite Hq. reflexivity.
    + reflexivity.
  - assert (w1 = cw c) as -> by (unfold DeliverResponse_take in Ht; by destruct (pending (mgr (cw c)) !! id); simplify_eq).
    eexists _, _. split; [reflexivity | apply reaches_refl].
Qed.

Lemma receive_outbound_reaches c id m w : receive_outbound id (cw c) = Some (m, w) -> reaches c w.
Proof.
  unfold receive_outbound. destruct (outbound_of id (cw c)) as [q|] eqn:Ho; [|done]. cbn [mbind option_bind].
  destruct (outq (cw c) !! q) as [[cap buf]|] eqn:Hq; [|done]. cbn [mbind option_bind ch_buf ch_cap].
  destruct buf as [|m' rest]; [done |]. intros [= <- <-].
  eapply reaches_step; [by eapply step_Drain | done].
Qed.

Lemma touch_world hasAgents sid now st :
  sv_world (touch hasAgents sid now st) = (Touch now sid (sv_world st)).2.
Proof. unfold touch, touchAgent. by repeat case_match. Qed.

Lemma handle_binary_reaches data st c :
  cw c = sv_world st ->
  not_stuck (handle_binary data st) /\ reaches c (sv_world (verdict_state (handle_binary data st))).
Proof. intros Hc. unfold handle_binary. repeat case_match; split; try exact I; cbn; rewrite <- Hc; apply reaches_refl. Qed.

Lemma handle_text_reaches hasAgents canOpen sid now ok opened data st c :
  inv c -> cw c = sv_world st ->
  let v := handle_text hasAgents canOpen sid now ok opened data st in
  not_stuck v /\ reaches c (sv_world (verdict_state v)).
Proof.
  intros Hi Hc v. subst v. unfold handle_text. destruct (Unmarshal _ _ data) as [[type raw]|];
    [|split; [exact I | cbn; rewrite <- Hc; apply reaches_refl]].
  case_bool_decide.
  { unfold handle_response_start. repeat case_match; (split; [exact I | cbn; rewrite <- Hc; apply reaches_refl]). }
  case_bool_decide.
  { unfold handle_open_tunnel. rewrite <- Hc. pose proof (Send_reaches c sid) as Hsend.
    repeat case_match; split; try exact I; cbn; rewrite <- ?Hc; try apply reaches_refl;
      match goal with H : Send _ ?m _ = (_, ?w) |- _ => specialize (Hsend m); by rewrite H in Hsend end. }
  case_bool_decide.
  { unfold handle_response_end. destruct (Unmarshal _ _ data) as [rid|];
      [|split; [exact I | cbn; rewrite <- Hc; apply reaches_refl]].
    destruct (sv_responses st !! rid) as [a|]; [|split; [exact I | cbn; rewrite <- Hc; apply reaches_refl]].
    destruct (_ && _); [split; [exact I | cbn; rewrite <- Hc; apply reaches_refl] |].
    cbn [set_responses sv_world]. rewrite <- Hc.
    edestruct (DeliverResponse_reaches c rid) as (b & w' & -> & Hw); [done |]. by split. }
  case_bool_decide.
  { split; [exact I |]. cbn [verdict_state]. rewrite touch_world, <- Hc. apply Touch_reaches. }
  case_bool_decide.
  { destruct ok; split; try exact I; cbn [verdict_state].
    - rewrite touch_world. cbn [write sv_world]. rewrite <- Hc. apply Touch_reaches.
    - rewrite <- Hc. apply reaches_refl. }
  split; [exact I | cbn; rewrite <- Hc; apply reaches_refl].
Qed.

Lemma serve_turn_reaches hasAgents canOpen sid e st c v :
  inv c -> cw c = sv_world st -> serve_turn hasAgents canOpen sid e st = Some v ->
  not_stuck v /\ reaches c (sv_world (verdict_state v)).
Proof.
  intros Hi Hc. destruct e as [|ok|ok|now type data ok opened|]; cbn [serve_turn].
  - intros [= <-]. split; [exact I |]. cbn. rewrite <- Hc. apply reaches_refl.
  - intros [= <-]. destruct ok; (split; [exact I | cbn; rewrite <- Hc; apply reaches_refl]).
  - rewrite <- Hc. destruct (receive_outbound sid (cw c)) as [[m w]|] eqn:Hr; [|done]. cbn [mbind option_bind].
    apply receive_outbound_reaches in Hr. intros [= <-]. by destruct ok.
  - destruct type; intros [= <-].
    + by apply handle_text_reaches.
    + by apply handle_binary_reaches.
    + split; [exact I |]. cbn. rewrite <- Hc. apply reaches_refl.
  - intros [= <-]. split; [exact I |]. cbn. rewrite <- Hc. apply reaches_refl.
Qed.

Lemma reaches_trans c c' w : steps c c' -> reaches c' w -> reaches c w.
Proof. intros H (c2 & H2 & Hw). exists c2. split; [by etrans | done]. Qed.

Lemma inv_steps c c' : inv c -> steps c c' -> inv c'.
Proof. intros Hi. apply steps_ind; [done | apply inv_step]. Qed.

Lemma serveSession_reaches hasAgents canOpen sid es : forall st c,
  inv c -> cw c = sv_world st ->
  not_stuck (serveSession hasAgents canOpen sid es st)
  /\ reaches c (sv_world (verdict_state (serveSession hasAgents canOpen sid es st))).
Proof.
  induction es as [|e es IH]; intros st c Hi Hc; cbn [serveSession].
  - split; [exact I |]. cbn. rewrite <- Hc. apply reaches_refl.
  - destruct (serve_turn hasAgents canOpen sid e st) as [v|] eqn:Hv; [|by apply IH].
    destruct (serve_turn_reaches _ _ _ _ _ _ _ Hi Hc Hv) as [Hns Hr].
    destruct v as [st'|ok close st'|st']; [|by split | done].
    destruct Hr as (c' & Hs & Hc'). cbn [verdict_state] in Hc'.
    destruct (IH st' c') as [H1 H2]; [by eapply inv_steps | done |]. split; [done |].
    by eapply reaches_trans.
Qed.

(** ** Bounds *)

Definition assembly_ok (a : responseAssembly) : Prop :=
  -1 <= hr_ContentLength (asm_payload a) <= maxTunnelResponseBodyBytes
  /\ zlen (asm_body a) <= maxTunnelResponseBodyBytes
  /\ (0 <= hr_ContentLength (asm_payload a) -> zlen (asm_body a) <= hr_ContentLength (asm_payload a))
  /\ fits_u 32 (asm_next a).

Definition responses_ok (r : gmap gostring responseAssembly) : Prop :=
  (size r <= maxPendingResponseStreams)%nat /\ map_Forall (fun _ a => assembly_ok a) r.

Lemma handle_binary_ok data st :
  responses_ok (sv_responses st) -> responses_ok (sv_responses (verdict_state (handle_binary data st))).
Proof.
  intros [Hsz Hall]. unfold handle_binary. destruct (ParseBinaryFrame data) as [frame|]; [|done].
  destruct (sv_responses st !! RequestID frame) as [a|] eqn:Ha; [|done].
  destruct (_ || _) eqn:Hg; [done |]. cbn. destruct (Hall _ _ Ha) as (H1 & H2 & H3 & H4). split.
  - by rewrite map_size_insert_Some by eauto.
  - apply map_Forall_insert_2; [|done]. unfold assembly_ok. cbn. rewrite zlen_app.
    split_and!; [lia | lia | lia | lia | by apply wrapu_fits].
Qed.

Lemma handle_response_start_ok raw st :
  responses_ok (sv_responses st) -> responses_ok (sv_responses (verdict_state (handle_response_start raw st))).
Proof.
  intros [Hsz Hall]. unfold handle_response_start. destruct (_ ← raw; _) as [p|]; [|done].
  destruct (_ || _) eqn:Hg; [done |]. destruct (_ && _) eqn:Hs; [done |]. cbn. split.
  - rewrite map_size_insert. apply andb_false_iff in Hs as [Hs|Hs].
    + apply bool_decide_eq_false in Hs. by destruct (sv_responses st !! hr_RequestID p).
    + apply Nat.leb_gt in Hs. destruct (sv_responses st !! hr_RequestID p); cbn; lia.
  - apply map_Forall_insert_2; [|done]. unfold assembly_ok, maxTunnelResponseBodyBytes, fits_u in *. cbn in *.
    change (Z.shiftl 32 20) with 33554432 in *. change (zlen []) with 0. lia.
Qed.

Lemma serve_turn_ok hasAgents canOpen sid e st v :
  responses_ok (sv_responses st) -> serve_turn hasAgents canOpen sid e st = Some v ->
  responses_ok (sv_responses (verdict_state v)).
Proof.
  intros Hok. destruct e as [|ok|ok|now type data ok opened|]; cbn [serve_turn].
  - by intros [= <-].
  - intros [= <-]. by destruct ok.
  - destruct (receive_outbound sid (sv_world st)) as [[m w]|]; [|done]. intros [= <-]. by destruct ok.
  - destruct type; intros [= <-]; [|by apply handle_binary_ok | done]. unfold handle_text.
    destruct (Unmarshal _ _ data) as [[type raw]|]; [|done].
    case_bool_decide; [by apply handle_response_start_ok |].
    case_bool_decide; [unfold handle_open_tunnel; repeat case_match; done |].
    case_bool_decide.
    { unfold handle_response_end. destruct (Unmarshal _ _ data) as [rid|]; [|done].
      destruct (sv_responses st !! rid) as [a|] eqn:Ha; [|done]. destruct (_ && _); [done |].
      assert (Hd : responses_ok (delete rid (sv_responses st))).
      { destruct Hok as [Hsz Hall]. split; [|by apply map_Forall_delete].
        rewrite map_size_delete_Some by eauto. lia. }
      by destruct (DeliverResponse _ _ _). }
    assert (Ht : forall st', sv_responses (touch hasAgents sid now st') = sv_responses st')
      by (intros st'; unfold touch, touchAgent; by repeat case_match).
    case_bool_decide; [cbn [verdict_state]; by rewrite Ht |].
    case_bool_decide; [destruct ok; cbn [verdict_state]; by rewrite ?Ht | done].
  - by intros [= <-].
Qed.

Lemma send_all_cancelled r ls : forall w w', send_all ls r w = Returns tt w' -> cancelled w' = cancelled w.
Proof.
  induction ls as [|l ls IH]; intros w w'; cbn [send_all]; [by intros [= ->] |].
  unfold send_response. destruct (respq w !! l) as [ch|]; [|done]. destruct (has_room ch); [|done].
  by intros H%IH.
Qed.

Lemma Remove_in_cancelled order sid w w' : Remove_in order sid w = Returns tt w' -> cancelled w' = cancelled w.
Proof.
  unfold Remove_in, Remove_take. destruct (foldl _ _ _) as [pend taken]. by intros H%send_all_cancelled.
Qed.

(** ** Properties *)

(** The session loop is a client of the session manager and
    nothing more: from a reachable state of the manager, any sequence of events
    leaves it in a reachable state again, by its own steps, and no turn blocks; so
    every invariant of the interleavings holds around every turn. *)
Theorem session_loop_simulated (hasAgents canOpen : bool) (sid : gostring) (es : list event) (st : serving) (c : cstate)
    (Hc : reachable c) (Hw : cw c = sv_world st) :
  not_stuck (serveSession hasAgents canOpen sid es st)
  /\ exists c', steps c c' /\ reachable c'
                /\ cw c' = sv_world (verdict_state (serveSession hasAgents canOpen sid es st)).
Proof.
  destruct (serveSession_reaches hasAgents canOpen sid es st c) as [Hns (c' & Hs & Hc')];
    [by apply inv_reachable | done |].
  split; [done |]. exists c'. split_and!; auto. unfold reachable, steps in *. by etrans.
Qed.

Lemma session_loop_simulated_witness :
  not_stuck (serveSession true true ($"ses_1") [Tick true; Inbound 5 MessageText (Envelope Pong None) true (Err tt)]
               (mkServing (cw demo_wait) ∅ [] [])).
Proof.
  exact (proj1 (session_loop_simulated true true ($"ses_1")
           [Tick true; Inbound 5 MessageText (Envelope Pong None) true (Err tt)]
           (mkServing (cw demo_wait) ∅ [] []) demo_wait demo_wait_reachable eq_refl)).
Defined.

(** What an agent can make the gateway buffer is bounded: after any
    events a session holds at most 32 open response streams, each body within 32 MiB
    and within the length its start announced. *)
Theorem response_streams_bounded (hasAgents canOpen : bool) (sid : gostring) (es : list event) (w : world)
    (written : list OutboundMessage) (touched : list gostring) :
  let r := sv_responses (verdict_state (serveSession hasAgents canOpen sid es (mkServing w ∅ written touched))) in
  (size r <= 32)%nat
  /\ forall id a, r !! id = Some a ->
       zlen (asm_body a) <= 32 * 1024 * 1024
       /\ (0 <= hr_ContentLength (asm_payload a) -> zlen (asm_body a) <= hr_ContentLength (asm_payload a)).
Proof.
  assert (H : forall es st, responses_ok (sv_responses st) ->
            responses_ok (sv_responses (verdict_state (serveSession hasAgents canOpen sid es st)))).
  { clear. induction es as [|e es IH]; intros st Hok; cbn [serveSession]; [done |].
    destruct (serve_turn hasAgents canOpen sid e st) as [v|] eqn:Hv; [|by apply IH].
    pose proof (serve_turn_ok _ _ _ _ _ _ Hok Hv). destruct v; [by apply IH | done..]. }
  destruct (H es (mkServing w ∅ written touched)) as [Hsz Hall].
  { split; [cbn; rewrite map_size_empty; unfold maxPendingResponseStreams; lia | apply map_Forall_empty]. }
  split; [exact Hsz |]. intros id a Ha. destruct (Hall id a Ha) as (_ & H2 & H3 & _). by split.
Qed.

(** However a session ends, its clean-up completes: the
    session's context is cancelled, the session is gone, every request that waited
    for it has the disconnect response and none is left waiting, and the tunnels and
    the agent it stood for are reported to the services. *)
Theorem cleanup_releases (hasAgents hasCleanup : bool) (f : loc) (sid agentID : gostring) (c : cstate) (Hc : reachable c) :
  exists w', session_cleanup hasAgents hasCleanup (Some f) sid agentID (cw c)
             = Returns (if hasCleanup then Some (sid, agentID) else None,
                        if hasAgents && bool_decide (agentID <> []) then Some agentID else None) w'
    /\ f ∈ cancelled w' /\ sessions (mgr w') !! sid = None
    /\ (forall rid p, pending (mgr w') !! rid = Some p -> p_sessionID p <> sid)
    /\ (forall rid p, pending (mgr (cw c)) !! rid = Some p -> p_sessionID p = sid ->
          respq w' !! p_response p = Some (mkChan 1 [disconnectedResponse])).
Proof.
  apply inv_reachable in Hc. set (c1 := set_cw (cancel f (cw c)) c).
  assert (Hi1 : inv c1) by (by eapply inv_step; [exact Hc | apply step_cancel]).
  unfold session_cleanup, Remove. change (cancel f (cw c)) with (cw c1).
  destruct (Remove_in_spec c1 (map_to_list (pending (mgr (cw c1)))) sid Hi1) as (w' & Hw & Hs & Hp & Hr & _); [done |].
  exists w'. rewrite Hw. split_and!; auto.
  - apply Remove_in_cancelled in Hw. rewrite Hw. cbn. set_solver.
  - rewrite Hs. apply lookup_delete_eq.
  - intros rid p. rewrite Hp. destruct (pending (mgr (cw c1)) !! rid); cbn; [|done]. case_decide; [done | by intros [= <-]].
  - intros rid p Hrid He. specialize (Hr rid p Hrid). by rewrite decide_True in Hr.
Qed.

Lemma cleanup_releases_witness :
  exists w', session_cleanup true true (Some 1%nat) ($"ses_1") ($"agt_1") (cw demo_wait)
             = Returns (Some ($"ses_1", $"agt_1"), Some ($"agt_1")) w'
             /\ respq w' !! 2%nat = Some (mkChan 1 [disconnectedResponse]).
Proof.
  destruct (cleanup_releases true true 1 ($"ses_1") ($"agt_1") demo_wait demo_wait_reachable)
    as (w' & Hw & _ & _ & _ & Hr).
  exists w'. split; [exact Hw |]. exact (Hr ($"req_1") (mkPending ($"ses_1") 2) eq_refl eq_refl).
Defined.
