(* ===== verification/LocalHTTP.v ===== *)
(** * The agent's local requests

    agent/internal/gatewayclient/local_http.go: the address of the local service
    and the request that is forwarded to it.  The HTTP client is a parameter: it
    answers a request with an error or with a status, headers and a body. *)

From S2P Require Import Prelude GoStrings Headers Reader.

(** ** Addresses *)

(** [strings.TrimRight(s, "/")]. *)
Fixpoint trim_slashes (s : gostring) : gostring :=
  match s with
  | [] => []
  | b :: t => match trim_slashes t with
              | [] => if bool_decide (b = Byte.x2f) then [] else [b]
              | t => b :: t
              end
  end.

(** [strconv.ParseUint(s, 10, 16)]. *)
Definition parse_uint16 (s : gostring) : option Z :=
  if bool_decide (s = []) || negb (forallb is_digit s) then None
  else let v := foldl (fun acc b => 10 * acc + (byte_to_Z b - 48)) 0 s in
       if v <=? 65535 then Some v else None.

Definition normalizeLocalAddress (localAddress : gostring) : result gostring gostring :=
  let localAddress := trim_slashes (TrimSpace localAddress) in
  if bool_decide (localAddress = []) then Err ($"local address is required")
  else
    let localAddress := match parse_uint16 localAddress with
                        | Some port => if 0 <? port then $"127.0.0.1:" ++ localAddress else localAddress
                        | None => localAddress
                        end in
    Ok (if negb (HasPrefix localAddress ($"http://")) && negb (HasPrefix localAddress ($"https://"))
        then $"http://" ++ localAddress else localAddress).

(** ** Forwarding *)

Record Request := mkRequest {
  q_ID : gostring; q_Method : gostring; q_Path : gostring; q_Headers : Header; q_Body : list byte
}.

Record LocalResponse := mkLocal { l_StatusCode : Z; l_Headers : Header; l_Body : list byte }.

(** What [http.DefaultClient] knows: whether a method and URL make a request (the
    error text if not), and the answer to it. *)
Record http_client := mkClient {
  newRequest : gostring -> gostring -> option gostring;
  doRequest : gostring -> gostring -> Header -> list byte -> result gostring (Z * Header * body_stream)
}.

Definition localBufferSize : nat := Z.to_nat (32 * 1024).

(** The steps [ExecuteLocal] and [StreamLocal] share: from the request to the
    response, or the error text. *)
Definition local_roundtrip (client : http_client) (localAddress : gostring) (request : Request) :
    result gostring (Z * Header * body_stream) :=
  match normalizeLocalAddress localAddress with
  | Err e => Err e
  | Ok address =>
      let url := address ++ q_Path request in
      match newRequest client (q_Method request) url with
      | Some e => Err ($"create local request: " ++ e)
      | None =>
          match doRequest client (q_Method request) url (agent_withoutHopByHopHeaders (q_Headers request)) (q_Body request) with
          | Err e => Err ($"send local request: " ++ e)
          | Ok r => Ok r
          end
      end
  end.

(** [io.LimitReader]: the stream and the bytes still allowed. *)
Definition limited_Read (k : nat) (l : body_stream * Z) : list byte * option readErr * (body_stream * Z) :=
  let '(r, n) := l in
  if n <=? 0 then ([], Some EOF, l)
  else let '(p, err, r) := Read (if n <? Z.of_nat k then Z.to_nat n else k) r in
       (p, err, (r, n - zlen p)).

Definition body_error (e : readErr) : gostring :=
  match e with
  | EOF => $"EOF"
  | MaxBytesError => $"http: request body too large"
  | ReadFailed t => t
  end.

(** [io.ReadAll(io.LimitReader(body, n))]; [ReadAll] starts with a buffer of 512
    bytes, and how its buffer grows does not change what it collects. *)
Definition read_limited (n : Z) (b : body_stream) : list byte * option gostring :=
  match copy_loop (limited_Read 512) (fun p acc => (@None unit, acc ++ p)) (Datatypes.S (stream_size b)) (b, n) [] with
  | (BodyError e, data) => (data, Some (body_error e))
  | (_, data) => (data, None)
  end.

Definition ExecuteLocal (client : http_client) (localAddress : gostring) (request : Request) :
    result gostring LocalResponse :=
  match local_roundtrip client localAddress request with
  | Err e => Err e
  | Ok (status, headers, stream) =>
      match read_limited (Z.shiftl 1 20) stream with
      | (_, Some e) => Err ($"read local response: " ++ e)
      | (data, None) => Ok (mkLocal status (agent_withoutHopByHopHeaders headers) data)
      end
  end.

Section stream.
Context {S : Type} (start : LocalResponse -> S -> option gostring * S) (chunk : list byte -> S -> option gostring * S).

(** [StreamLocal]: the error it returns, if any, and the state its callbacks
    leave; by lemma [copy_body] of Reader.v the fuel is never used up. *)
Definition StreamLocal (client : http_client) (localAddress : gostring) (request : Request) (s : S) : option gostring * S :=
  match local_roundtrip client localAddress request with
  | Err e => (Some e, s)
  | Ok (status, headers, stream) =>
      match start (mkLocal status (agent_withoutHopByHopHeaders headers) []) s with
      | (Some e, s) => (Some e, s)
      | (None, s) =>
          match copy_loop (Read localBufferSize) chunk (stream_size stream) stream s with
          | (Copied, s) => (None, s)
          | (ChunkError e, s) => (Some e, s)
          | (BodyError e, s) => (Some ($"read local response: " ++ body_error e), s)
          | (OutOfFuel, s) => (None, s)
          end
      end
  end.
End stream.

(** ** Lemmas *)

Lemma trim_slashes_last s : list.last (trim_slashes s) <> Some Byte.x2f.
Proof.
  induction s as [|b s IH]; cbn [trim_slashes]; [done |].
  destruct (trim_slashes s) as [|c t]; [case_bool_decide; [done | cbn; congruence] | exact IH].
Qed.

Lemma trim_slashes_digits s : forallb is_digit s = true -> trim_slashes s = s.
Proof.
  induction s as [|b s IH]; [done |]. cbn [forallb trim_slashes]. intros [Hb Hs]%andb_true_iff. rewrite IH by done.
  destruct s; [|done]. rewrite bool_decide_eq_false_2; [done |]. intros ->. by vm_compute in Hb.
Qed.

Lemma digit_plain b : is_digit b = true -> plain b = true.
Proof. destruct b; vm_compute; congruence. Qed.

Lemma last_app_ne {A} (l k : list A) : k <> [] -> list.last (l ++ k) = list.last k.
Proof. intros Hk. destruct (exists_last Hk) as (k' & x & ->). by rewrite app_assoc, !list.last_snoc. Qed.

(** ** Properties *)

(** The address the agent forwards to is always an absolute
    HTTP or HTTPS address without a trailing slash, to which a path can be appended,
    and a bare port number stands for that port of the local host. *)
Theorem local_address_absolute (a b : gostring) :
  (normalizeLocalAddress a = Ok b ->
   (HasPrefix b ($"http://") = true \/ HasPrefix b ($"https://") = true) /\ list.last b <> Some Byte.x2f)
  /\ (forall port, parse_uint16 a = Some port -> 0 < port ->
       normalizeLocalAddress a = Ok ($"http://127.0.0.1:" ++ a)).
Proof.
  split.
  - unfold normalizeLocalAddress. pose proof (trim_slashes_last (TrimSpace a)) as Hlast.
    set (x := trim_slashes (TrimSpace a)) in *. case_bool_decide as Hne; [done |].
    set (y := match parse_uint16 x with Some port => _ | None => x end).
    assert (Hy : y <> [] /\ list.last y <> Some Byte.x2f).
    { subst y. destruct (parse_uint16 x) as [port|]; [destruct (0 <? port) |]; try by split.
      split; [done |]. by rewrite last_app_ne. }
    destruct Hy as [Hy0 Hy1]. destruct (HasPrefix y ($"http://")) eqn:E1, (HasPrefix y ($"https://")) eqn:E2;
      cbn [negb andb]; intros [= <-]; try (split; [auto | done]).
    split; [left; by apply bool_decide_eq_true_2; exists y |].
    change (list.last ($"http://" ++ y) <> Some Byte.x2f). by rewrite last_app_ne.
  - intros port Hp Hpos. unfold normalizeLocalAddress. assert (Hd : a <> [] /\ forallb is_digit a = true).
    { unfold parse_uint16 in Hp. destruct (_ || _) eqn:E; [done |]. by prop_guards. }
    destruct Hd as [Hne Hd]. rewrite TrimSpace_plain, trim_slashes_digits, bool_decide_eq_false_2, Hp; try done.
    + rewrite (proj2 (Z.ltb_lt _ _) Hpos). reflexivity.
    + apply forallb_forall. intros c Hc. apply digit_plain. by apply (proj1 (forallb_forall _ _) Hd).
Qed.
