(* ===== verification/AgentClient.v ===== *)
(** * The agent's client

    agent/internal/gatewayclient/client.go: the reconnecting [Run], the hello of
    [Connect], its read loop, which turns gateway messages into local requests, and
    the job that forwards a request and streams the response back. *)

From S2P Require Import Prelude GoStrings Headers Frame ChunkAssembler Json Messages SessionManager Reader LocalHTTP.

(** ** Constants *)

Definition protocolVersion : Z := 1.
Definition defaultMaxConcurrentRequests : Z := 16.
Definition maxConcurrentRequests : Z := 64.
Definition maxPendingRequestStreams : nat := 32.
Definition websocketReadLimit : Z := Z.shiftl 64 10.

(** The number of workers, or [None] when the configuration asks for too many. *)
Definition max_concurrent (configured : Z) : option Z :=
  let n := if configured <=? 0 then defaultMaxConcurrentRequests else configured in
  if maxConcurrentRequests <? n then None else Some n.

(** ** Sending *)

(** The [send] closure: the wait for room is cut short when the session is over. *)
Definition send (type : MessageType) (message : list byte) : sender -> bool * sender :=
  offer (mkOutbound type message).

(** ** Serving one request *)

(** The variables the closures of a job share. *)
Record jobState := mkJob { j_sequence : Z; j_responseStarted : bool; j_sender : sender }.

Definition sendStart (requestID : gostring) (local : LocalResponse) (s : jobState) : option gostring * jobState :=
  let encoded := envelope httpResponseStartType (Some (enc_httpResponsePayload
                   (mkhttpResponse requestID (l_StatusCode local) (Some (l_Headers local)) (-1) []))) in
  match send MessageText encoded (j_sender s) with
  | (false, sd) => (Some ($"gateway connection closed"), mkJob (j_sequence s) (j_responseStarted s) sd)
  | (true, sd) => (None, mkJob (j_sequence s) true sd)
  end.

Definition frame_error_text (e : frame_error) : gostring :=
  match e with
  | UnsupportedType t => $"unsupported binary frame type " ++ print_int (byte_to_Z t)
  | InvalidRequestIDLength n => $"invalid request ID length " ++ print_int n
  | PayloadTooLarge => $"binary frame payload exceeds 32768 bytes"
  | InvalidFrame => $"invalid binary frame"
  | InvalidFrameLength => $"invalid binary frame length"
  end.

Definition sendChunk (requestID : gostring) (payload : list byte) (s : jobState) : option gostring * jobState :=
  match marshalBinary (mkFrame ResponseBodyChunk requestID (j_sequence s) payload) with
  | Err e => (Some (frame_error_text e), s)
  | Ok encoded =>
      match send MessageBinary encoded (j_sender s) with
      | (false, sd) => (Some ($"gateway connection closed"), mkJob (j_sequence s) (j_responseStarted s) sd)
      | (true, sd) => (None, mkJob (u32 (j_sequence s + 1)) (j_responseStarted s) sd)
      end
  end.

(** The body of [job], for a configured local address. *)
Definition job (client : http_client) (localAddress : gostring) (request : Request) (sd : sender) : sender :=
  if bool_decide (localAddress = []) then sd
  else
    let '(localErr, s) := StreamLocal (sendStart (q_ID request)) (sendChunk (q_ID request)) client localAddress request
                            (mkJob 0 false sd) in
    let sd := j_sender s in
    let sd := match localErr with
              | Some e =>
                  if j_responseStarted s then sd
                  else (send MessageText (envelope httpResponseStartType (Some (enc_httpResponsePayload
                          (mkhttpResponse (q_ID request) 502 None 0 e)))) sd).2
              | None => sd
              end in
    (send MessageText (envelope httpResponseEndType (Some (httpResponseEndPayload (q_ID request)))) sd).2.

(** ** The read loop *)

(** [activeCancels] maps a request to the cancellation of its job; jobs are
    numbered in the order they are queued. *)
Record client_state := mkClientState {
  pendingRequests : gmap gostring (httpRequestPayload * chunkAssembler);
  activeCancels : gmap gostring nat;
  queued : list Request;
  cancelledJobs : list nat;
  c_sender : sender
}.

Inductive client_error :=
| InvalidRequestBodyChunk (e : option frame_error)
| ChunkForUnknownRequest (id : gostring)
| AssemblyError (e : assembler_error)
| UnsupportedMessageType (code : Z)
| InvalidGatewayMessage
| StartWithoutRequestID
| DuplicateRequestStart (id : gostring)
| TooManyPendingStreams
| InvalidRequestEnd
| EndForUnknownRequest (id : gostring).

(** A turn of the loop: [Return None] is the [return nil] of a session that ended
    while a job waited for a worker. *)
Inductive loop_verdict :=
| Next (st : client_state)
| Leave (err : option client_error) (st : client_state).

Definition set_pendingRequests (p : gmap gostring (httpRequestPayload * chunkAssembler)) (st : client_state) : client_state :=
  mkClientState p (activeCancels st) (queued st) (cancelledJobs st) (c_sender st).

Definition read_binary (data : list byte) (st : client_state) : loop_verdict :=
  match parseBinaryFrame data with
  | Err e => Leave (Some (InvalidRequestBodyChunk (Some e))) st
  | Ok frame =>
      if bool_decide (Type_ frame <> RequestBodyChunk) then Leave (Some (InvalidRequestBodyChunk None)) st
      else match pendingRequests st !! RequestID frame with
      | None => Leave (Some (ChunkForUnknownRequest (RequestID frame))) st
      | Some (payload, assembler) =>
          match add assembler frame with
          | Err e => Leave (Some (AssemblyError e)) st
          | Ok (_, assembler) =>
              Next (set_pendingRequests (<[RequestID frame := (payload, assembler)]> (pendingRequests st)) st)
          end
      end
  end.

Definition handle_ping (type : gostring) (st : client_state) : client_state :=
  if bool_decide (type = Ping)
  then mkClientState (pendingRequests st) (activeCancels st) (queued st) (cancelledJobs st)
         (send MessageText (envelope Pong None) (c_sender st)).2
  else st.

Definition handle_start (payload : httpRequestPayload) (st : client_state) : loop_verdict :=
  let id := aq_RequestID payload in
  if bool_decide (id = []) then Leave (Some StartWithoutRequestID) st
  else if bool_decide (is_Some (pendingRequests st !! id)) then Leave (Some (DuplicateRequestStart id)) st
  else if Nat.leb maxPendingRequestStreams (size (pendingRequests st)) then Leave (Some TooManyPendingStreams) st
  else match newChunkAssembler (aq_ContentLength payload) with
  | Err e => Leave (Some (AssemblyError e)) st
  | Ok assembler => Next (set_pendingRequests (<[id := (payload, assembler)]> (pendingRequests st)) st)
  end.

(** [sessionDone] says that the session ended before a worker took the job. *)
Definition handle_end (sessionDone : bool) (data : list byte) (st : client_state) : loop_verdict :=
  match Unmarshal (dec_PayloadOnly httpRequestEndPayload) [] data with
  | None => Leave (Some InvalidRequestEnd) st
  | Some id =>
      match pendingRequests st !! id with
      | None => Leave (Some (EndForUnknownRequest id)) st
      | Some (payload, assembler) =>
          match complete assembler with
          | Err e => Leave (Some (AssemblyError e)) st
          | Ok _ =>
              let request := mkRequest (aq_RequestID payload) (aq_Method payload) (aq_Path payload)
                               (default ∅ (aq_Headers payload)) (body assembler) in
              let pend := delete id (pendingRequests st) in
              let cancels := <[q_ID request := length (queued st)]> (activeCancels st) in
              if sessionDone : bool
              then Leave None (mkClientState pend cancels (queued st) (cancelledJobs st) (c_sender st))
              else Next (mkClientState pend cancels (queued st ++ [request]) (cancelledJobs st) (c_sender st))
          end
      end
  end.

Definition handle_cancel (id : gostring) (st : client_state) : client_state :=
  mkClientState (delete id (pendingRequests st)) (activeCancels st) (queued st)
    (match activeCancels st !! id with Some n => cancelledJobs st ++ [n] | None => cancelledJobs st end)
    (c_sender st).

Definition read_text (sessionDone : bool) (data : list byte) (st : client_state) : loop_verdict :=
  match Unmarshal (dec_Envelope dec_httpRequestPayload) ([], zero_httpRequest) data with
  | None => Leave (Some InvalidGatewayMessage) st
  | Some (type, payload) =>
      let st := handle_ping type st in
      if bool_decide (type = httpRequestStartType) then handle_start payload st
      else if bool_decide (type = httpRequestEndType) then handle_end sessionDone data st
      else if bool_decide (type = cancelRequestType) then Next (handle_cancel (aq_RequestID payload) st)
      else Next st
  end.

(** One message of the gateway. *)
Definition read_turn (sessionDone : bool) (m : OutboundMessage) (st : client_state) : loop_verdict :=
  match m_Type m with
  | MessageBinary => read_binary (m_Data m) st
  | MessageText => read_text sessionDone (m_Data m) st
  | MessageOther code => Leave (Some (UnsupportedMessageType code)) st
  end.

(** The messages of a session that stays open. *)
Fixpoint read_loop (ms : list OutboundMessage) (st : client_state) : loop_verdict :=
  match ms with
  | [] => Next st
  | m :: ms => match read_turn false m st with
               | Next st => read_loop ms st
               | v => v
               end
  end.

(** The deferred function of a job. *)
Definition job_done (id : gostring) (st : client_state) : client_state :=
  mkClientState (pendingRequests st) (delete id (activeCancels st)) (queued st) (cancelledJobs st) (c_sender st).

(** ** Opening a session *)

Definition client_hello (version hostname os arch : gostring) : list byte :=
  envelope ClientHello (Some (enc_clientHello (mkclientHello protocolVersion version hostname hostname os arch))).

(** The session ID of an acceptable server hello. *)
Definition accept_server_hello (data : list byte) : option gostring :=
  match Unmarshal (dec_Envelope dec_serverHello) ([], zero_serverHello) data with
  | None => None
  | Some (type, payload) =>
      if bool_decide (type <> ServerHello) || negb (as_ProtocolVersion payload =? protocolVersion)
         || bool_decide (as_SessionID payload = [])
      then None else Some (as_SessionID payload)
  end.

(** The request for a tunnel; [None] when no local address is configured. *)
Definition open_tunnel (localAddress sessionID : gostring) : option (list byte) :=
  let localAddress := TrimSpace localAddress in
  if bool_decide (localAddress = []) then None
  else Some (envelope openTunnelType (Some (enc_openTunnelPayload ($"open_" ++ sessionID) localAddress))).

(** ** Reconnecting *)

Record SessionMetrics := mkMetrics {
  ActiveSessions : Z; ConnectionsTotal : Z; DisconnectionsTotal : Z
}.

(** What one call of [Connect] did: whether it reported a session, whether it
    failed, and whether the caller's context was over when it returned, or was
    cancelled during the wait that followed. *)
Record attempt := mkAttempt { t_connected : bool; t_failed : bool; t_ctxDone : bool; t_waitCancelled : bool }.

Record client := mkClientDelays { reconnectInitialDelay : Z; reconnectMaxDelay : Z }.
Definition New : client := mkClientDelays Second (30 * Second).

Record run_state := mkRun { rs_delay : Z; rs_metrics : SessionMetrics; rs_reported : list SessionMetrics; rs_delays : list Z }.

Definition on_connected (s : run_state) : run_state :=
  let m := mkMetrics 1 (u64 (ConnectionsTotal (rs_metrics s) + 1)) (DisconnectionsTotal (rs_metrics s)) in
  mkRun (rs_delay s) m (rs_reported s ++ [m]) (rs_delays s).

Definition on_disconnected (s : run_state) : run_state :=
  let m := mkMetrics 0 (ConnectionsTotal (rs_metrics s)) (u64 (DisconnectionsTotal (rs_metrics s) + 1)) in
  mkRun (rs_delay s) m (rs_reported s ++ [m]) (rs_delays s).

Definition backoff (c : client) (delay : Z) : Z :=
  if reconnectMaxDelay c <? delay * 2 then reconnectMaxDelay c else delay * 2.

(** One turn of [Run]'s loop; the boolean says whether it goes on. *)
Definition run_turn (c : client) (t : attempt) (s : run_state) : bool * run_state :=
  let s := if t_connected t then on_disconnected (on_connected s) else s in
  if t_ctxDone t then (false, s)
  else if negb (t_failed t) then (true, mkRun (reconnectInitialDelay c) (rs_metrics s) (rs_reported s) (rs_delays s))
  else
    let s := mkRun (rs_delay s) (rs_metrics s) (rs_reported s) (rs_delays s ++ [rs_delay s]) in
    if t_waitCancelled t then (false, s)
    else (true, mkRun (backoff c (rs_delay s)) (rs_metrics s) (rs_reported s) (rs_delays s)).

Fixpoint run_loop (c : client) (ts : list attempt) (s : run_state) : run_state :=
  match ts with
  | [] => s
  | t :: ts => match run_turn c t s with
               | (true, s) => run_loop c ts s
               | (false, s) => s
               end
  end.

Definition Run (c : client) (ts : list attempt) : run_state :=
  run_loop c ts (mkRun (reconnectInitialDelay c) (mkMetrics 0 0 0) [] []).

(** ** Lemmas *)

(** The agent's buffers: every pending request has a well-formed assembler. *)
Definition pending_ok (st : client_state) : Prop :=
  (size (pendingRequests st) <= maxPendingRequestStreams)%nat
  /\ map_Forall (fun _ e => -1 <= expected e.2 /\ (0 <= expected e.2 -> zlen (body e.2) <= expected e.2)) (pendingRequests st).

Definition loop_state (v : loop_verdict) : client_state := match v with Next st => st | Leave _ st => st end.

Lemma pending_ok_delete id st st' :
  pending_ok st -> pendingRequests st' = delete id (pendingRequests st) -> pending_ok st'.
Proof.
  intros [Hsz Hall] Hp. unfold pending_ok. rewrite Hp. split; [|by apply map_Forall_delete].
  rewrite map_size_delete. destruct (_ !! _); cbn; lia.
Qed.

Lemma read_binary_ok data st : pending_ok st -> pending_ok (loop_state (read_binary data st)).
Proof.
  intros [Hsz Hall]. unfold read_binary. destruct (parseBinaryFrame data) as [frame|]; [|done].
  case_bool_decide; [done |]. destruct (pendingRequests st !! RequestID frame) as [[payload a]|] eqn:Ha; [|done].
  destruct (add a frame) as [[d a']|] eqn:Hadd; [|done]. apply add_ok_iff in Hadd as (_ & _ & Hle & -> & _).
  destruct (Hall _ _ Ha) as [H1 H2]. cbn in H1, H2. split; cbn.
  - by rewrite map_size_insert_Some by eauto.
  - apply map_Forall_insert_2; [|done]. cbn. rewrite zlen_app. split; [done | exact Hle].
Qed.

Lemma handle_start_ok payload st : pending_ok st -> pending_ok (loop_state (handle_start payload st)).
Proof.
  intros [Hsz Hall]. unfold handle_start. case_bool_decide; [done |]. case_bool_decide as Hn; [done |].
  destruct (Nat.leb _ _) eqn:Hl; [done |]. apply Nat.leb_gt in Hl.
  destruct (newChunkAssembler (aq_ContentLength payload)) as [a|] eqn:Ha; [|done].
  unfold newChunkAssembler in Ha. destruct (_ <? _) eqn:Hc; [done |]. injection Ha as <-. prop_guards. split; cbn.
  - rewrite map_size_insert_None by (by apply eq_None_not_Some). lia.
  - apply map_Forall_insert_2; [|done]. cbn. change (zlen []) with 0. lia.
Qed.

Lemma read_turn_ok done m st : pending_ok st -> pending_ok (loop_state (read_turn done m st)).
Proof.
  intros Hok. unfold read_turn. destruct (m_Type m); [|by apply read_binary_ok | exact Hok].
  unfold read_text. destruct (Unmarshal _ _ _) as [[type payload]|]; [|exact Hok].
  assert (Hping : pending_ok (handle_ping type st)) by (unfold handle_ping; by case_bool_decide).
  case_bool_decide; [by apply handle_start_ok |]. case_bool_decide.
  { unfold handle_end. destruct (Unmarshal _ _ _) as [id|]; [|exact Hping].
    destruct (pendingRequests (handle_ping type st) !! id) as [[p a]|]; [|exact Hping].
    destruct (complete a); [|exact Hping]. destruct done; by eapply pending_ok_delete. }
  case_bool_decide; [by eapply (pending_ok_delete (aq_RequestID payload)) | exact Hping].
Qed.

Lemma backoff_power k :
  backoff New (Z.min (Second * 2 ^ Z.of_nat k) (30 * Second)) = Z.min (Second * 2 ^ Z.of_nat (S k)) (30 * Second).
Proof.
  unfold backoff, New. cbn [reconnectMaxDelay]. rewrite Nat2Z.inj_succ, Z.pow_succ_r by lia.
  assert (0 < 2 ^ Z.of_nat k) by lia. unfold Second. destruct (_ <? _) eqn:E; lia.
Qed.

(** A failing attempt after which the agent goes on waiting. *)
Definition keeps_failing (t : attempt) : Prop := t_failed t = true /\ t_ctxDone t = false /\ t_waitCancelled t = false.

Lemma run_loop_failing ts : forall k s,
  Forall keeps_failing ts -> rs_delay s = Z.min (Second * 2 ^ Z.of_nat k) (30 * Second) ->
  rs_delays (run_loop New ts s)
  = rs_delays s ++ ((fun i => Z.min (Second * 2 ^ Z.of_nat i) (30 * Second)) <$> seq k (length ts)).
Proof.
  induction ts as [|t ts IH]; intros k s Hf Hd; cbn [run_loop]; [by rewrite app_nil_r |].
  apply list.Forall_cons in Hf as [(H1 & H2 & H3) Hf]. unfold run_turn. rewrite H1, H2, H3. cbn [negb].
  set (s1 := if t_connected t then _ else s).
  assert (Hs1 : rs_delay s1 = rs_delay s /\ rs_delays s1 = rs_delays s) by (subst s1; by destruct (t_connected t)).
  destruct Hs1 as [E1 E2]. cbn [rs_delay rs_metrics rs_reported rs_delays].
  rewrite (IH (S k)); [|done | cbn; by rewrite E1, Hd, backoff_power].
  cbn [rs_delays length seq fmap list_fmap]. rewrite E1, E2, Hd. by rewrite <- app_assoc.
Qed.

Definition metrics_ok (m : SessionMetrics) : Prop :=
  (ActiveSessions m = 0 \/ ActiveSessions m = 1)
  /\ ConnectionsTotal m = u64 (DisconnectionsTotal m + ActiveSessions m).

Lemma metrics_connected m :
  metrics_ok m -> ActiveSessions m = 0 -> metrics_ok (mkMetrics 1 (u64 (ConnectionsTotal m + 1)) (DisconnectionsTotal m)).
Proof.
  intros [_ Hm] Ha. split; [by right |]. cbn. rewrite Hm, Ha, Z.add_0_r. by rewrite wrapu_add_l.
Qed.

Lemma metrics_disconnected m :
  metrics_ok m -> ActiveSessions m = 1 -> metrics_ok (mkMetrics 0 (ConnectionsTotal m) (u64 (DisconnectionsTotal m + 1))).
Proof.
  intros [_ Hm] Ha. split; [by left |]. cbn. rewrite Hm, Ha, wrapu_add_l by lia. by rewrite Z.add_0_r.
Qed.

Definition run_ok (s : run_state) : Prop :=
  metrics_ok (rs_metrics s) /\ ActiveSessions (rs_metrics s) = 0 /\ Forall metrics_ok (rs_reported s).

Lemma run_turn_metrics c t s : run_ok s -> run_ok (run_turn c t s).2.
Proof.
  intros (Hm & Ha & Hr). assert (Hs : run_ok (if t_connected t then on_disconnected (on_connected s) else s)).
  { destruct (t_connected t); [|done]. pose proof (metrics_connected _ Hm Ha) as H1.
    pose proof (metrics_disconnected _ H1 eq_refl) as H2. split_and!; [exact H2 | done |].
    apply list.Forall_app. split; [apply list.Forall_app; split; [done |] |]; by apply list.Forall_cons. }
  unfold run_turn. set (s1 := if t_connected t then _ else s) in *.
  destruct (t_ctxDone t); [done |]. destruct (negb _); [done |]. by destruct (t_waitCancelled t).
Qed.

Lemma run_loop_metrics c ts : forall s, run_ok s -> run_ok (run_loop c ts s).
Proof.
  induction ts as [|t ts IH]; intros s Hs; cbn [run_loop]; [done |].
  pose proof (run_turn_metrics c t s Hs) as H. destruct (run_turn c t s) as [[] s']; [by apply IH | done].
Qed.

Lemma run_loop_delays ts : forall s,
  Second <= rs_delay s <= 30 * Second -> Forall (fun d => Second <= d <= 30 * Second) (rs_delays s) ->
  Forall (fun d => Second <= d <= 30 * Second) (rs_delays (run_loop New ts s)).
Proof.
  induction ts as [|t ts IH]; intros s Hd Hs; cbn [run_loop]; [done |].
  unfold run_turn. set (s1 := if t_connected t then _ else s).
  assert (Hs1 : rs_delay s1 = rs_delay s /\ rs_delays s1 = rs_delays s) by (subst s1; by destruct (t_connected t)).
  destruct Hs1 as [E1 E2]. destruct (t_ctxDone t); [by rewrite E2 |].
  destruct (negb _); [apply IH; cbn; [unfold Second; lia | by rewrite E2] |].
  assert (Hsnoc : Forall (fun d => Second <= d <= 30 * Second) (rs_delays s1 ++ [rs_delay s1])).
  { rewrite E1, E2. apply list.Forall_app. split; [done |]. by apply list.Forall_cons. }
  destruct (t_waitCancelled t); [done |]. apply IH; cbn; [|done].
  rewrite E1. unfold backoff, New. cbn [reconnectMaxDelay]. unfold Second in *. destruct (_ <? _) eqn:E; lia.
Qed.

(** ** Properties *)

(** The agent keeps retrying with bounded exponential backoff:
    in any run every wait is between one and thirty seconds, and as long as attempts
    keep failing the waits are 1, 2, 4, 8, 16, 30, 30, ... seconds; the metrics it
    reports always say one or no active session, and connections are disconnections
    plus active sessions modulo 2^64. *)
Theorem reconnect_backoff (ts : list attempt) :
  Forall (fun d => Second <= d <= 30 * Second) (rs_delays (Run New ts))
  /\ (Forall keeps_failing ts ->
      rs_delays (Run New ts) = (fun i => Z.min (Second * 2 ^ Z.of_nat i) (30 * Second)) <$> seq 0 (length ts))
  /\ Forall metrics_ok (rs_reported (Run New ts)).
Proof.
  split_and!.
  - apply run_loop_delays; [cbn; unfold Second; lia | done].
  - intros Hf. unfold Run. by rewrite (run_loop_failing ts 0).
  - apply run_loop_metrics. split_and!; [by split; [left |] | done..].
Qed.

(** The gateway cannot make the agent assemble without bound: after
    any messages at most 32 requests are pending, each with an announced length of at
    least -1 that its buffered body does not exceed. *)
Theorem pending_requests_bounded (ms : list OutboundMessage) (active : gmap gostring nat) (jobs : list Request)
    (cancelled : list nat) (sd : sender) :
  pending_ok (loop_state (read_loop ms (mkClientState ∅ active jobs cancelled sd))).
Proof.
  assert (H : forall ms st, pending_ok st -> pending_ok (loop_state (read_loop ms st))).
  { clear. induction ms as [|m ms IH]; intros st Hok; cbn [read_loop]; [done |].
    pose proof (read_turn_ok false m st Hok). destruct (read_turn false m st); [by apply IH | done]. }
  apply H. split; [cbn; rewrite map_size_empty; unfold maxPendingRequestStreams; lia | apply map_Forall_empty].
Qed.
