(* ===== verification/Cli.v ===== *)
(** * The agent's command line

    agent/cmd/tunnel-agent/main.go: the commands, the flags of the [http] command as
    the [flag] package parses them, and what is printed and returned.  The gateway
    client is the interface the program declares. *)

From S2P Require Import Prelude GoStrings Json.

Definition version : gostring := $"0.1.0".
Definition nl : gostring := [Byte.x0a].

(** ** [time.Duration.String] *)

(** Drops the zeros at the end of a fraction of [prec] digits. *)
Fixpoint trim_zeros (s : gostring) : gostring :=
  match s with
  | [] => []
  | c :: s => match trim_zeros s with
              | [] => if bool_decide (c = Byte.x30) then [] else [c]
              | t => c :: t
              end
  end.

(** [v] as a number with [prec] decimals. *)
Definition with_fraction (v : Z) (prec : Z) : gostring :=
  let frac := trim_zeros (drop 1 (print_int (10 ^ prec + v mod 10 ^ prec))) in
  print_int (v / 10 ^ prec) ++ (if bool_decide (frac = []) then [] else $"." ++ frac).

Definition Duration_String (d : Z) : gostring :=
  let u := Z.abs d in
  let text :=
    if u <? Second then
      if u =? 0 then $"0s"
      else if u <? 1000 then print_int u ++ $"ns"
      else if u <? 10 ^ 6 then with_fraction u 3 ++ EncodeRune 181 ++ $"s"
      else with_fraction u 6 ++ $"ms"
    else
      let seconds := u / Second in
      let tail_ := with_fraction (u mod Minute) 9 ++ $"s" in
      let minutes := seconds / 60 in
      if minutes =? 0 then tail_
      else
        let tail_ := print_int (minutes mod 60) ++ $"m" ++ tail_ in
        if minutes / 60 =? 0 then tail_ else print_int (minutes / 60) ++ $"h" ++ tail_ in
  if d <? 0 then $"-" ++ text else text.

(** ** The client *)

Record client_config := mkClientConfig { cc_GatewayURL : gostring; cc_Token : gostring; cc_Version : gostring; cc_LocalAddress : gostring }.

(** What [Run] calls back with, in order. *)
Inductive callback :=
| OnConnected (sessionID : gostring)
| OnRetrying (err : gostring) (retryIn : Z)
| OnSessionMetrics (connections disconnections : Z).

(** [gatewayRunner]: the callbacks of a run and the error it returns. *)
Class gatewayRunner := { client_Run : client_config -> list callback * option gostring }.

(** ** Flags *)

Definition defaultGateway : gostring := $"ws://localhost:8080/api/v1/agent/connect".

Record flags := mkFlags { fl_token : gostring; fl_gateway : gostring }.
Definition no_flags : flags := mkFlags [] defaultGateway.

Inductive flag_error := ErrHelp | FlagFailed (text : gostring).

Definition ErrHelp_text : gostring := $"flag: help requested".
Definition flag_error_text (e : flag_error) : gostring := match e with ErrHelp => ErrHelp_text | FlagFailed t => t end.

Definition minus : byte := Byte.x2d.
Definition equals : byte := Byte.x3d.

(** One round of [FlagSet.Parse]: the rest is positional, a flag was set, or an
    error. *)
Inductive parse_one := Positional (args : list gostring) | Seen (fl : flags) (args : list gostring) | Failed (e : flag_error).

Definition set_flag (name value : gostring) (fl : flags) : option flags :=
  if bool_decide (name = $"token") then Some (mkFlags value (fl_gateway fl))
  else if bool_decide (name = $"gateway") then Some (mkFlags (fl_token fl) value) else None.

Definition defined_flag (name : gostring) : bool := bool_decide (name = $"token") || bool_decide (name = $"gateway").

(** A name with its value, when it has one; the sign cannot come first. *)
Definition split_value (name : gostring) : gostring * option gostring :=
  match IndexByte (tail name) equals with
  | Some i => (take (S i) name, Some (drop (S (S i)) name))
  | None => (name, None)
  end.

Definition parseOne (fl : flags) (args : list gostring) : parse_one :=
  match args with
  | [] => Positional []
  | s :: rest =>
      match s with
      | c0 :: c1 :: t =>
          if negb (bool_decide (c0 = minus)) then Positional args
          else
            let dashes := bool_decide (c1 = minus) in
            if dashes && bool_decide (t = []) then Positional rest
            else
              let name := if dashes then t else c1 :: t in
              match name with
              | n0 :: _ =>
                  if bool_decide (n0 = minus) || bool_decide (n0 = equals) then Failed (FlagFailed ($"bad flag syntax: " ++ s))
                  else
                    let '(name, value) := split_value name in
                    if negb (defined_flag name) then
                      if bool_decide (name = $"help") || bool_decide (name = $"h") then Failed ErrHelp
                      else Failed (FlagFailed ($"flag provided but not defined: -" ++ name))
                    else
                      let '(value, rest) := match value, rest with
                                            | Some v, _ => (Some v, rest)
                                            | None, v :: rest => (Some v, rest)
                                            | None, [] => (None, [])
                                            end in
                      match value with
                      | None => Failed (FlagFailed ($"flag needs an argument: -" ++ name))
                      | Some v => match set_flag name v fl with
                                  | Some fl => Seen fl rest
                                  | None => Failed (FlagFailed [])
                                  end
                      end
              | [] => Failed (FlagFailed ($"bad flag syntax: " ++ s))
              end
      | _ => Positional args
      end
  end.

(** [FlagSet.Parse]: every round that goes on takes an argument, so their number is
    enough fuel. *)
Fixpoint Parse (fuel : nat) (fl : flags) (args : list gostring) : result flag_error (flags * list gostring) :=
  match fuel with
  | O => Ok (fl, args)
  | S fuel =>
      match parseOne fl args with
      | Positional args => Ok (fl, args)
      | Seen fl args => Parse fuel fl args
      | Failed e => Err e
      end
  end.

(** The usage message of the flag set. *)
Definition flag_usage : gostring :=
  $"Usage of http:" ++ nl
  ++ $"  -gateway string" ++ nl ++ $"    " ++ [Byte.x09] ++ $"gateway WebSocket URL (default " ++ quote_string defaultGateway ++ $")" ++ nl
  ++ $"  -token string" ++ nl ++ $"    " ++ [Byte.x09] ++ $"agent token" ++ nl.

(** What the package prints when parsing fails. *)
Definition flag_complaint (e : flag_error) : gostring :=
  match e with ErrHelp => flag_usage | FlagFailed t => t ++ nl ++ flag_usage end.

(** ** The commands *)

Record streams := mkStreams { st_out : gostring; st_err : gostring }.
Definition put (text : gostring) (s : streams) : streams := mkStreams (st_out s ++ text) (st_err s).
Definition put_err (text : gostring) (s : streams) : streams := mkStreams (st_out s) (st_err s ++ text).

Definition usage (s : streams) : streams :=
  put_err ($"Commands: version, http" ++ nl) (put_err ($"Usage: tunnel-agent <command> [options]" ++ nl) s).

Inductive cli_error :=
| FlagError (e : flag_error) | MissingAddress | ExtraArguments | MissingToken | ConnectionFailed (err : gostring).

Definition cli_error_text (e : cli_error) : gostring :=
  match e with
  | FlagError e => flag_error_text e
  | MissingAddress => $"http requires a local port or host:port"
  | ExtraArguments => $"http accepts exactly one local port or host:port"
  | MissingToken => $"--token is required until login/config support is implemented"
  | ConnectionFailed err => $"gateway connection failed: " ++ err
  end.

(** The address in front of the flags, if there is one. *)
Definition leading_address (args : list gostring) : gostring * list gostring :=
  match args with
  | (c :: a) :: rest => if negb (bool_decide (c = minus)) then (c :: a, rest) else ([], args)
  | _ => ([], args)
  end.

(** The first half of [runHTTP]: what the arguments ask for. *)
Definition http_config (args : list gostring) : result cli_error client_config :=
  let '(localAddress, args) := leading_address args in
  match Parse (S (length args)) no_flags args with
  | Err e => Err (FlagError e)
  | Ok (fl, rest) =>
      let check localAddress :=
        if bool_decide (fl_token fl = []) then Err MissingToken
        else Ok (mkClientConfig (fl_gateway fl) (fl_token fl) version localAddress) in
      if bool_decide (localAddress = []) then
        match rest with [a] => check a | _ => Err MissingAddress end
      else if bool_decide (rest = []) then check localAddress else Err ExtraArguments
  end.

(** The closures; the last one keeps the metrics. *)
Definition on_callback (acc : streams * (Z * Z)) (c : callback) : streams * (Z * Z) :=
  let '(s, m) := acc in
  match c with
  | OnConnected id => (put ($"Session: " ++ id ++ nl) (put ($"Connected to gateway" ++ nl) s), m)
  | OnRetrying err d => (put_err ($"Connection lost (" ++ err ++ $"); reconnecting in " ++ Duration_String d ++ nl) s, m)
  | OnSessionMetrics c d => (s, (c, d))
  end.

Section commands.
Context `{gatewayRunner}.

Definition runHTTP (args : list gostring) (s : streams) : option cli_error * streams :=
  match http_config args with
  | Err (FlagError e) => (Some (FlagError e), put_err (flag_complaint e) s)
  | Err e => (Some e, s)
  | Ok config =>
      let s := put ($"Tunnel Agent " ++ version ++ nl) s in
      let s := put ($"Local destination: " ++ cc_LocalAddress config ++ nl) s in
      let s := put ($"Gateway: " ++ cc_GatewayURL config ++ nl) s in
      let '(callbacks, err) := client_Run config in
      let '(s, (connections, disconnections)) := foldl on_callback (s, (0, 0)) callbacks in
      match err with
      | Some e => (Some (ConnectionFailed e), s)
      | None => (None, put ($"Session metrics: connections=" ++ print_int connections ++ $" disconnections=" ++ print_int disconnections ++ nl) s)
      end
  end.

Definition cli_run (args : list gostring) (s : streams) : Z * streams :=
  match args with
  | _ :: command :: rest =>
      if bool_decide (command = $"version") then (0, put ($"tunnel-agent " ++ version ++ nl) s)
      else if bool_decide (command = $"http") then
        match runHTTP rest s with
        | (Some e, s) => (2, put_err (cli_error_text e ++ nl) s)
        | (None, s) => (0, s)
        end
      else (2, usage s)
  | _ => (2, usage s)
  end.
End commands.

(** ** Properties *)

(** A flag as it is written. *)
Inductive flag_name := Token | Gateway.
Record spelled := mkSpelled { sp_name : flag_name; sp_value : gostring; sp_double : bool; sp_equals : bool }.

Definition name_text (n : flag_name) : gostring := match n with Token => $"token" | Gateway => $"gateway" end.
Definition dashes (double : bool) : gostring := if double then $"--" else $"-".

Definition spell (f : spelled) : list gostring :=
  if sp_equals f then [dashes (sp_double f) ++ name_text (sp_name f) ++ equals :: sp_value f]
  else [dashes (sp_double f) ++ name_text (sp_name f); sp_value f].

Definition apply_flag (fl : flags) (f : spelled) : flags :=
  match sp_name f with
  | Token => mkFlags (sp_value f) (fl_gateway fl)
  | Gateway => mkFlags (fl_token fl) (sp_value f)
  end.

Lemma parseOne_spell f fl rest : parseOne fl (spell f ++ rest) = Seen (apply_flag fl f) rest.
Proof.
  destruct f as [[] v [] []]; unfold spell; cbn [sp_name sp_value sp_double sp_equals]; reflexivity.
Qed.

(** An argument that is not a flag. *)
Definition is_address (a : gostring) : Prop := match a with [] => False | c :: _ => c <> minus end.

Lemma parseOne_address a fl : is_address a -> parseOne fl [a] = Positional [a].
Proof.
  intros Ha. destruct a as [|c [|c' t]]; [done | done |]. cbn. by rewrite bool_decide_eq_false_2.
Qed.

Lemma Parse_spelled fs rest : (rest = [] \/ exists a, rest = [a] /\ is_address a) ->
  forall fuel fl, (length fs < fuel)%nat -> Parse fuel fl (concat (spell <$> fs) ++ rest) = Ok (foldl apply_flag fl fs, rest).
Proof.
  intros Hrest. induction fs as [|f fs IH]; intros fuel fl Hf; (destruct fuel as [|fuel]; [lia |]); cbn [Parse fmap list_fmap concat foldl app].
  - destruct Hrest as [->|(a & -> & Ha)]; [done | by rewrite parseOne_address].
  - rewrite <- app_assoc, parseOne_spell. apply IH. cbn in Hf. lia.
Qed.

Lemma spelled_length fs rest : (length fs <= length (concat (spell <$> fs) ++ rest))%nat.
Proof.
  rewrite length_app. induction fs as [|f fs IH]; cbn; [lia |]. rewrite length_app.
  assert (1 <= length (spell f))%nat by (unfold spell; destruct (sp_equals f); cbn; lia). lia.
Qed.

(** The command line means what it says: an address and any
    flags, each with one dash or two, with its value attached or following, are
    understood in the order [http <address> <flags>] and in the order [http <flags>
    <address>] alike, the last value of each flag counting; they are refused exactly
    when no token or an empty one is given. *)
Theorem flags_round_trip (fs : list spelled) (address : gostring) :
  is_address address ->
  let fl := foldl apply_flag no_flags fs in
  let outcome := if bool_decide (fl_token fl = []) then Err MissingToken
                 else Ok (mkClientConfig (fl_gateway fl) (fl_token fl) version address) in
  http_config (address :: concat (spell <$> fs)) = outcome /\ http_config (concat (spell <$> fs) ++ [address]) = outcome.
Proof.
  intros Ha fl outcome. destruct address as [|c a]; [done |]. cbn in Ha. split.
  - unfold http_config. cbn [leading_address]. rewrite (bool_decide_eq_false_2 (c = minus)) by done. cbn [negb].
    pose proof (Parse_spelled fs [] (or_introl eq_refl) (S (length (concat (spell <$> fs)))) no_flags) as Hp.
    rewrite app_nil_r in Hp. pose proof (spelled_length fs []) as Hlen. rewrite app_nil_r in Hlen. rewrite Hp by lia. done.
  - unfold http_config. assert (Hlead : leading_address (concat (spell <$> fs) ++ [c :: a])
      = match fs with [] => (c :: a, []) | _ => ([], concat (spell <$> fs) ++ [c :: a]) end).
    { destruct fs as [|[[] v [] []] fs]; cbn; try done. by rewrite bool_decide_eq_false_2. }
    rewrite Hlead. destruct fs as [|f fs].
    + cbn. done.
    + rewrite (Parse_spelled (f :: fs) [c :: a]); [done | right; by exists (c :: a) |]. pose proof (spelled_length (f :: fs) [c :: a]). lia.
Qed.

Lemma flags_round_trip_witness :
  http_config [$"3000"; $"--token"; $"tkn_x"; $"-gateway=ws://gw"] = Ok (mkClientConfig ($"ws://gw") ($"tkn_x") version ($"3000")).
Proof.
  apply (flags_round_trip [mkSpelled Token ($"tkn_x") true false; mkSpelled Gateway ($"ws://gw") false true] ($"3000")).
  discriminate.
Defined.

(** The exit status tells what happened: it is 0 for the version and
    for a session that was asked for correctly and ended without an error, and 2 for
    everything else; then a message is on the error output, and unless it is the
    connection that failed, the client was never started and nothing is on the
    standard output. *)
Theorem exit_status `{gatewayRunner} (name : gostring) (args : list gostring) :
  let '(code, s) := cli_run (name :: args) (mkStreams [] []) in
  match args with
  | command :: rest =>
      if bool_decide (command = $"version") then code = 0 /\ st_err s = []
      else if bool_decide (command = $"http") then
        match http_config rest with
        | Ok config => code = match (client_Run config).2 with None => 0 | Some _ => 2 end
                       /\ (code = 2 -> st_err s <> [])
        | Err e => code = 2 /\ st_out s = [] /\ st_err s <> []
        end
      else code = 2 /\ st_out s = [] /\ st_err s <> []
  | [] => code = 2 /\ st_out s = [] /\ st_err s <> []
  end.
Proof.
  assert (Happ : forall (x y : gostring), x ++ y ++ nl <> []).
  { intros x y Hx. apply (f_equal length) in Hx. rewrite !length_app in Hx. cbn in Hx. lia. }
  destruct args as [|command rest]; [by repeat split |]. cbn [cli_run].
  case_bool_decide; [done |]. case_bool_decide; [|by repeat split].
  unfold runHTTP. destruct (http_config rest) as [config|e].
  - destruct (client_Run config) as [callbacks err]. cbv zeta.
    destruct (foldl on_callback _ callbacks) as [s1 [cs ds]]. destruct err as [err|]; cbn [snd put_err st_err].
    + split; [done |]. intros _. apply Happ.
    + done.
  - destruct e; cbn [put_err st_out st_err]; (split; [done | split; [done |]]); apply Happ.
Qed.
