(* ===== verification/PublicHandler.v ===== *)
(** * The public request path

    [PublicHandler] of backend/internal/tunnels/public_handler.go: a public HTTP
    request is routed, limited, announced to the agent, its body streamed in
    numbered frames, and the response or an error returned. *)

From S2P Require Import Prelude GoStrings Headers Frame Json Messages SessionManager Reader.
From S2P Require Registry RateLimiter PublicHost.

(** ** Streaming the request body *)

Definition requestBodyChunkSize : nat := Z.to_nat (32 * 1024).
Definition maxTunnelBodyBytes : Z := Z.shiftl 32 20.

(** Why [sendRequestBody] failed. *)
Inductive body_failure :=
| MarshalFailed (e : frame_error)
| AgentUnavailable
| BodyReadFailed (e : readErr).

(** One chunk: [sequence] and the queue. *)
Definition send_chunk (requestID : gostring) (payload : list byte) (s : Z * sender) : option body_failure * (Z * sender) :=
  let '(sequence, sd) := s in
  match MarshalBinary (mkFrame RequestBodyChunk requestID sequence payload) with
  | Err e => (Some (MarshalFailed e), s)
  | Ok frame =>
      match offer (mkOutbound MessageBinary frame) sd with
      | (false, sd) => (Some AgentUnavailable, (sequence, sd))
      | (true, sd) => (None, (u32 (sequence + 1), sd))
      end
  end.

Definition end_of_request (id : gostring) : OutboundMessage :=
  mkOutbound MessageText (Envelope HTTPRequestEnd (Some (HTTPRequestEndPayload id))).

(** The fuel is never used up: lemma [copy_body] of Reader.v. *)
Definition sendRequestBody (requestID : gostring) (body : maxBytesReader) (sd : sender) : option body_failure * sender :=
  match copy_loop (max_Read requestBodyChunkSize) (send_chunk requestID) (stream_size (mb_r body)) body (0, sd) with
  | (ChunkError e, (_, sd)) => (Some e, sd)
  | (BodyError e, (_, sd)) => (Some (BodyReadFailed e), sd)
  | (OutOfFuel, (_, sd)) => (None, sd)
  | (Copied, (_, sd)) =>
      match offer (end_of_request requestID) sd with
      | (false, sd) => (Some AgentUnavailable, sd)
      | (true, sd) => (None, sd)
      end
  end.

(** ** Replies *)

Record reply := mkReply { rp_status : Z; rp_headers : Header; rp_body : list byte }.

(** [http.Error] on a fresh response. *)
Definition http_Error (text : gostring) (code : Z) : reply :=
  mkReply code (h_Set ($"X-Content-Type-Options") ($"nosniff")
                 (h_Set ($"Content-Type") ($"text/plain; charset=utf-8") ∅)) (text ++ [Byte.x0a]).

Definition NotFound : reply := http_Error ($"404 page not found") 404.

Definition with_header (key value : gostring) (r : reply) : reply :=
  mkReply (rp_status r) (h_Set key value (rp_headers r)) (rp_body r).

(** How the wait for the response ended. *)
Inductive waiting :=
| GotResponse (r : Response)
| ContextDone
| TimedOut.

(** The outcome of the handler; an agent's status code outside 100..999 makes
    [WriteHeader] panic. *)
Inductive served :=
| Replied (r : reply)
| Panicked.

(** [w.Header().Add] for every value of every field of the filtered headers. *)
Definition copy_headers (h : Header) : Header :=
  map_fold (fun name values acc => foldl (fun acc v => h_Add name v acc) acc values) ∅ (withoutHopByHopHeaders h).

(** An informational status is sent ahead and the reply itself is a 200. *)
Definition final_status (code : Z) : Z :=
  if (100 <=? code) && (code <=? 199) && negb (code =? 101) then 200 else code.

(** ** The handler *)

(** [publicRequestID] from the 12 bytes [rand.Read] delivered. *)
Definition publicRequestID (random : option (list byte)) : option gostring :=
  (fun b => $"req_" ++ hex_encode b) <$> random.

(** The calls by which the handler enters its request into the session manager and
    withdraws it. *)
Inductive manager_call :=
| CallRegisterRequest (sessionID requestID : gostring)
| CallCancelRequest (requestID : gostring).

(** What the handler touches besides its reply: the registry, the limiter, the queue
    of the session as it answers the handler's [SendContext] and [SendBinaryContext]
    and, last, its [Send] of a cancellation, which never waits, and the calls that
    register and withdraw the request.  What the handler queues for the session is
    what [g_sender] records, followed by what [g_cancels] records. *)
Record gateway := mkGateway {
  g_registry : Registry.Registry;
  g_limiter : RateLimiter.publicRateLimiter;
  g_sender : sender;
  g_cancels : sender;
  g_calls : list manager_call
}.

Definition called (c : manager_call) (g : gateway) : gateway :=
  mkGateway (g_registry g) (g_limiter g) (g_sender g) (g_cancels g) (g_calls g ++ [c]).

Section handler.
Context (lower : Z -> Z) (baseDomain : gostring).

Definition start_message (requestID : gostring) (r : http_request) : list byte :=
  Envelope HTTPRequestStart (Some (enc_HTTPRequestPayload
    (mkHTTPRequest requestID (r_Method r) (r_RequestURI r) (Some (publicRequestHeaders lower r requestID))
       (r_ContentLength r)))).

Definition failure_reply (e : body_failure) : reply :=
  match e with
  | BodyReadFailed MaxBytesError => http_Error ($"request body too large") 413
  | BodyReadFailed EOF => http_Error ($"EOF") 502
  | BodyReadFailed (ReadFailed t) => http_Error t 502
  | AgentUnavailable => http_Error ($"tunnel agent is unavailable") 502
  | MarshalFailed (UnsupportedType t) => http_Error ($"unsupported binary frame type " ++ print_int (byte_to_Z t)) 502
  | MarshalFailed (InvalidRequestIDLength n) => http_Error ($"invalid request ID length " ++ print_int n) 502
  | MarshalFailed PayloadTooLarge => http_Error ($"binary frame payload exceeds 32768 bytes") 502
  | MarshalFailed InvalidFrame => http_Error ($"invalid binary frame") 502
  | MarshalFailed InvalidFrameLength => http_Error ($"invalid binary frame length") 502
  end.

Definition cancel_message (requestID : gostring) : OutboundMessage :=
  mkOutbound MessageText (Envelope Messages.CancelRequest (Some (CancelRequestPayload requestID))).

(** [sendCancel] as the handler sees it: [Send] drops the message when the queue is
    full or the session is gone, and its answer is not looked at. *)
Definition offerCancel (requestID : gostring) (g : gateway) : gateway :=
  mkGateway (g_registry g) (g_limiter g) (g_sender g) (offer (cancel_message requestID) (g_cancels g)).2 (g_calls g).

(** The [select] that ends the handler. *)
Definition finish (tunnelID : gostring) (requestID : gostring) (r : http_request) (w : waiting) (g : gateway) : served * gateway :=
  match w with
  | GotResponse resp =>
      if bool_decide (Error resp <> []) then (Replied (http_Error (Error resp) 502), g)
      else
        let g := mkGateway (Registry.RecordTraffic tunnelID (r_ContentLength r) (zlen (Body resp)) (g_registry g))
                   (g_limiter g) (g_sender g) (g_cancels g) (g_calls g) in
        if (StatusCode resp <? 100) || (999 <? StatusCode resp) then (Panicked, g)
        else (Replied (mkReply (final_status (StatusCode resp)) (copy_headers (SessionManager.Headers resp)) (Body resp)), g)
  | ContextDone | TimedOut => (Replied (http_Error ($"tunnel response timed out") 504), offerCancel requestID g)
  end.

(** From the announcement to the reply. *)
Definition exchange (tunnelID requestID : gostring) (r : http_request) (body : body_stream) (wait : waiting)
    (g : gateway) : served * gateway :=
  let '(sent, sd) := offer (mkOutbound MessageText (start_message requestID r)) (g_sender g) in
  let g := mkGateway (g_registry g) (g_limiter g) sd (g_cancels g) (g_calls g) in
  if negb sent then (Replied (http_Error ($"tunnel agent is unavailable") 502), g)
  else
    let '(err, sd) := sendRequestBody requestID (MaxBytesReader body maxTunnelBodyBytes) (g_sender g) in
    let g := mkGateway (g_registry g) (g_limiter g) sd (g_cancels g) (g_calls g) in
    match err with
    | Some e => (Replied (failure_reply e), offerCancel requestID g)
    | None => finish tunnelID requestID r wait g
    end.

(** [body] is [r.Body] and [wait] what the final [select] receives.  The deferred
    [CancelRequest] runs however the exchange ends, a panic included. *)
Definition ServeHTTP (now : Z) (random : option (list byte)) (r : http_request) (body : body_stream) (wait : waiting)
    (g : gateway) : served * gateway :=
  match PublicHost.ParsePublicHost lower (r_Host r) baseDomain with
  | None => (Replied NotFound, g)
  | Some subdomain =>
  match Registry.Get subdomain (g_registry g) with
  | None => (Replied NotFound, g)
  | Some tunnel =>
      let key := Registry.ID tunnel ++ $":" ++ requestClientIP r in
      let '((allowed, retryAfter), limiter) := RateLimiter.allow key now (g_limiter g) in
      let g := mkGateway (g_registry g) limiter (g_sender g) (g_cancels g) (g_calls g) in
      if negb allowed then
        (Replied (with_header ($"Retry-After") (print_int (Z.max 1 (retryAfter / Second)))
                    (http_Error ($"public request rate limit exceeded") 429)), g)
      else if maxTunnelBodyBytes <? r_ContentLength r then
        (Replied (http_Error ($"request body too large") 413), g)
      else
      match publicRequestID random with
      | None => (Replied (http_Error ($"request ID generation failed") 500), g)
      | Some requestID =>
          let g := called (CallRegisterRequest (Registry.SessionID tunnel) requestID) g in
          let '(s, g) := exchange (Registry.ID tunnel) requestID r body wait g in
          (s, called (CallCancelRequest requestID) g)
      end
  end
  end.
End handler.

(** [sendCancel] on the session manager. *)
Definition sendCancel (sessionID requestID : gostring) (w : world) : world :=
  (Send sessionID (m_Data (cancel_message requestID)) w).2.

(** It either queues the cancellation or changes nothing. *)
Lemma sendCancel_cases sessionID requestID w :
  sendCancel sessionID requestID w = w
  \/ exists q c, outbound_of sessionID w = Some q /\ outq w !! q = Some c /\ has_room c = true
       /\ sendCancel sessionID requestID w
          = mkWorld (mgr w) (<[q := push (cancel_message requestID) c]> (outq w)) (respq w) (next_loc w) (cancelled w).
Proof.
  unfold sendCancel, Send, trysend_out. destruct (outbound_of sessionID w) as [q|]; [|by left].
  destruct (outq w !! q) as [c|] eqn:Hq; [|by left]. cbn [mbind option_bind].
  destruct (has_room c) eqn:Hr; [|by left]. right. by exists q, c.
Qed.

(** ** Properties *)

(** The status codes of a reply. *)
Definition status_in (codes : list Z) (s : served) : Prop := exists r, s = Replied r /\ rp_status r ∈ codes.

(** Refused before the agent heard of the request. *)
Definition refused (g g' : gateway) (s : served) : Prop :=
  g_calls g' = g_calls g /\ g_sender g' = g_sender g /\ g_cancels g' = g_cancels g
  /\ g_registry g' = g_registry g /\ status_in [404; 413; 429; 500] s.

(** The announcement could not be queued: nothing was, and nothing is cancelled. *)
Definition unannounced (g g' : gateway) (s : served) : Prop :=
  sd_sent (g_sender g') = sd_sent (g_sender g) /\ g_cancels g' = g_cancels g
  /\ g_registry g' = g_registry g /\ s = Replied (http_Error ($"tunnel agent is unavailable") 502).

(** Given up after the announcement [start] was queued: a cancellation is offered, and
    is queued if the queue takes it and dropped if not. *)
Definition given_up (start : OutboundMessage) (rid : gostring) (g g' : gateway) (s : served) : Prop :=
  sd_sent (g_sender g) ++ [start] `prefix_of` sd_sent (g_sender g')
  /\ g_cancels g' = (offer (cancel_message rid) (g_cancels g)).2
  /\ g_registry g' = g_registry g /\ status_in [413; 502; 504] s.

(** Answered with what the agent sent, after the announcement [start] and everything up
    to the end of the body was queued: its error as a 502, else its status, headers and
    body, recorded as traffic of the tunnel; a status that is not one makes the handler
    panic. *)
Definition answered (start : OutboundMessage) (rid : gostring) (tunnel : Registry.ActiveTunnel) (r : http_request)
    (resp : Response) (g g' : gateway) (s : served) : Prop :=
  (exists chunks, sd_sent (g_sender g') = sd_sent (g_sender g) ++ [start] ++ chunks ++ [end_of_request rid])
  /\ g_cancels g' = g_cancels g
  /\ ((Error resp <> [] /\ s = Replied (http_Error (Error resp) 502) /\ g_registry g' = g_registry g)
      \/ (Error resp = []
          /\ g_registry g' = Registry.RecordTraffic (Registry.ID tunnel) (r_ContentLength r) (zlen (Body resp)) (g_registry g)
          /\ s = if bool_decide (100 <= StatusCode resp <= 999)
                 then Replied (mkReply (final_status (StatusCode resp)) (copy_headers (SessionManager.Headers resp)) (Body resp))
                 else Panicked)).

Lemma failure_reply_status e : status_in [413; 502; 504] (Replied (failure_reply e)).
Proof. eexists. split; [reflexivity |]. destruct e as [[]| |[]]; cbn; set_solver. Qed.

Lemma offer_sent m sd : sd_sent (offer m sd).2 = sd_sent sd ++ (if (offer m sd).1 then [m] else []).
Proof. unfold offer. destruct (sd_oracle _ _); cbn; by rewrite ?app_nil_r. Qed.

(** Streaming the body only adds to what was queued, and when it succeeds the end of
    the request was queued last. *)
Lemma sendRequestBody_sent rid stream sd :
  let '(err, sd') := sendRequestBody rid (MaxBytesReader stream maxTunnelBodyBytes) sd in
  exists ms, sd_sent sd' = sd_sent sd ++ ms /\ (err = None -> exists chunks, ms = chunks ++ [end_of_request rid]).
Proof.
  unfold sendRequestBody. set (body := MaxBytesReader stream maxTunnelBodyBytes).
  pose (extended := fun x : Z * sender => exists ms, sd_sent x.2 = sd_sent sd ++ ms).
  assert (Hoffer : forall m seq seq' sd0, extended (seq, sd0) -> extended (seq', (offer m sd0).2)).
  { intros m seq seq' sd0 [ms Hms]. exists (ms ++ if (offer m sd0).1 then [m] else []). cbn [snd] in *. by rewrite offer_sent, Hms, app_assoc. }
  assert (Hkeep : extended (copy_loop (max_Read requestBodyChunkSize) (send_chunk rid) (stream_size (mb_r body)) body (0, sd)).2).
  { apply copy_loop_keeps; [|exists []; by rewrite app_nil_r]. intros p [seq sd0] H0. unfold send_chunk.
    destruct (MarshalBinary _) as [frame|]; [|done]. specialize (Hoffer (mkOutbound MessageBinary frame) seq).
    destruct (offer _ sd0) as [b sd1] eqn:Ho. specialize (Hoffer (u32 (seq + 1)) sd0 H0) as H1.
    specialize (Hoffer seq sd0 H0) as H2. rewrite Ho in H1, H2. by destruct b. }
  destruct (copy_body (k := requestBodyChunkSize) (send_chunk rid) body (0, sd)) as (ps & _ & _ & Hcopy);
    [unfold requestBodyChunkSize; split; [lia | done] |].
  assert (Hfuel : (copy_loop (max_Read requestBodyChunkSize) (send_chunk rid) (stream_size (mb_r body)) body (0, sd)).1 <> OutOfFuel).
  { rewrite Hcopy. destruct (feed _ ps _) as [[e|] s]; [done |]. by destruct (max_content body).2. }
  destruct (copy_loop _ _ _ _ _) as [fin [seq sd1]]. cbn [fst snd] in *. destruct Hkeep as [ms Hms]. cbn [snd] in Hms.
  destruct fin; [|by exists ms..|done].
  pose proof (offer_sent (end_of_request rid) sd1) as Ho. destruct (offer _ sd1) as [[] sd2]; cbn in *; rewrite Ho, Hms, <- app_assoc.
  - eexists. split; [done |]. intros _. by exists ms.
  - by eexists.
Qed.

Lemma finish_cases start tunnel rid r wait g0 g :
  (exists chunks, sd_sent (g_sender g) = sd_sent (g_sender g0) ++ [start] ++ chunks ++ [end_of_request rid]) ->
  g_cancels g = g_cancels g0 -> g_registry g = g_registry g0 ->
  let '(s, g') := finish (Registry.ID tunnel) rid r wait g in
  g_calls g' = g_calls g
  /\ (given_up start rid g0 g' s \/ exists resp, wait = GotResponse resp /\ answered start rid tunnel r resp g0 g' s).
Proof.
  intros Hsent Hc Hr. unfold finish. destruct wait as [resp| |].
  2, 3: split; [done |]; left; destruct Hsent as [chunks Hs]; unfold given_up; cbn; rewrite Hs, Hc;
    split_and!; [rewrite app_assoc; by apply prefix_app_r | done | done | eexists; split; [reflexivity | cbn; set_solver]].
  case_bool_decide as He.
  - split; [done |]. right. exists resp. split; [done |]. split_and!; [done | done |]. by left.
  - destruct (decide (Error resp = [])) as [He'|]; [|tauto].
    destruct (_ || _) eqn:Hs; cbn; (split; [done |]; right; exists resp; split; [done |]; split_and!; [done | done |]; right);
      (split_and!; [done | by rewrite Hr |]); prop_guards; case_bool_decide; (done || lia).
Qed.

(** From the registration on. *)
Lemma exchange_cases lower tunnel rid r stream wait g :
  let start := mkOutbound MessageText (start_message lower rid r) in
  let '(s, g') := exchange lower (Registry.ID tunnel) rid r stream wait g in
  g_calls g' = g_calls g
  /\ (unannounced g g' s \/ given_up start rid g g' s
      \/ exists resp, wait = GotResponse resp /\ answered start rid tunnel r resp g g' s).
Proof.
  cbv zeta. unfold exchange. set (start := mkOutbound MessageText (start_message lower rid r)).
  pose proof (offer_sent start (g_sender g)) as Ho. destruct (offer start (g_sender g)) as [[] sd]; cbn in Ho; cbn [negb g_sender].
  2: { split; [done |]. left. unfold unannounced. cbn. by rewrite Ho, app_nil_r. }
  pose proof (sendRequestBody_sent rid stream sd) as Hb.
  destruct (sendRequestBody rid _ sd) as [[e|] sd']; destruct Hb as (ms & Hms & Hend); rewrite Ho in Hms.
  - split; [done |]. right. left. unfold given_up. cbn. rewrite Hms.
    split_and!; [by apply prefix_app_r | done | done | apply failure_reply_status].
  - destruct (Hend eq_refl) as [chunks ->].
    pose proof (finish_cases start tunnel rid r wait g
                  (mkGateway (g_registry g) (g_limiter g) sd' (g_cancels g) (g_calls g))) as Hf.
    cbn [g_registry g_limiter g_cancels g_calls g_sender] in *. destruct (finish _ _ _ _ _) as [s g'].
    destruct Hf as [Hcalls Hf]; [exists chunks; by rewrite Hms, <- app_assoc | done | done |]. by split; [|right].
Qed.

(** C16 (safety).  Every public request ends in one of four ways, whatever the queue,
    the agent and the clock do.  It is refused before anything is registered or queued.
    Or it is registered, for exactly the session that owns the subdomain of its host, and
    withdrawn again at the end; and then either its announcement could not be queued, so
    that nothing was, and the client gets 502; or it is given up after the announcement
    was queued, with 413, 502 or 504, and a cancellation is offered to the session's
    queue, which drops it when it has no room; or all of it was queued up to the end of
    its body, and it is answered with the agent's response: the agent's error as a 502,
    else its status, headers and body, with the traffic recorded (a status outside
    100..999 makes the handler panic). *)
Theorem public_request_outcomes (lower : Z -> Z) (baseDomain : gostring) (now : Z) (random : option (list byte))
    (r : http_request) (stream : body_stream) (wait : waiting) (g : gateway) :
  let '(s, g') := ServeHTTP lower baseDomain now random r stream wait g in
  refused g g' s
  \/ exists subdomain tunnel rid,
       PublicHost.ParsePublicHost lower (r_Host r) baseDomain = Some subdomain
       /\ Registry.Get subdomain (g_registry g) = Some tunnel
       /\ publicRequestID random = Some rid
       /\ g_calls g' = g_calls g ++ [CallRegisterRequest (Registry.SessionID tunnel) rid; CallCancelRequest rid]
       /\ let start := mkOutbound MessageText (start_message lower rid r) in
          (unannounced g g' s \/ given_up start rid g g' s
           \/ exists resp, wait = GotResponse resp /\ answered start rid tunnel r resp g g' s).
Proof.
  unfold ServeHTTP.
  assert (Hstatus : forall code text, code ∈ [404; 413; 429; 500] -> status_in [404; 413; 429; 500] (Replied (http_Error text code)))
    by (intros; eexists; split; [reflexivity | done]).
  destruct (PublicHost.ParsePublicHost lower (r_Host r) baseDomain) as [subdomain|] eqn:Hhost;
    [|left; split_and!; auto; apply Hstatus; set_solver].
  destruct (Registry.Get subdomain (g_registry g)) as [tunnel|] eqn:Hroute;
    [|left; split_and!; auto; apply Hstatus; set_solver].
  destruct (RateLimiter.allow _ now (g_limiter g)) as [[allowed retry] limiter].
  destruct (negb allowed).
  { left. split_and!; auto. eexists. split; [reflexivity | cbn; set_solver]. }
  destruct (maxTunnelBodyBytes <? r_ContentLength r); [left; split_and!; auto; apply Hstatus; set_solver |].
  destruct (publicRequestID random) as [rid|] eqn:Hid; [|left; split_and!; auto; apply Hstatus; set_solver].
  pose proof (exchange_cases lower tunnel rid r stream wait
    (called (CallRegisterRequest (Registry.SessionID tunnel) rid)
       (mkGateway (g_registry g) limiter (g_sender g) (g_cancels g) (g_calls g)))) as Hx.
  cbv zeta in Hx. destruct (exchange _ _ _ _ _ _ _) as [s g']. destruct Hx as [Hcalls Hx].
  right. exists subdomain, tunnel, rid. split_and!; auto. cbn [called g_calls] in *. by rewrite Hcalls, <- app_assoc.
Qed.
