(* ===== verification/EndToEnd.v ===== *)
(** * From the public client to the local service and back

    The two programs joined: what the public handler queues for an agent, read by
    the agent's loop, becomes the request it forwards; what the agent's job sends,
    read by the gateway's session loop, becomes the response it delivers. *)

From S2P Require Import Prelude GoStrings Headers Frame ChunkAssembler Json Messages Reader.
From S2P Require Import SessionManager SessionSteps AgentConnect LocalHTTP AgentClient PublicHandler.
From S2P Require Registry RateLimiter PublicHost Crypto.

(** ** Body chunks on the wire *)

(** Chunk [n] of a body. *)
Definition chunk_frame (type : byte) (id : gostring) (n : Z) (p : list byte) : BinaryFrame :=
  mkFrame type id (u32 n) p.

Fixpoint chunk_messages (type : byte) (id : gostring) (n : Z) (ps : list (list byte)) : list OutboundMessage :=
  match ps with
  | [] => []
  | p :: ps => mkOutbound MessageBinary (frame_layout (chunk_frame type id n p)) :: chunk_messages type id (n + 1) ps
  end.

Definition id_ok (id : gostring) : Prop := 1 <= zlen id < 2 ^ 16 /\ valid_utf8 id.
Definition chunk_ok (p : list byte) : Prop := (length p <= Z.to_nat (32 * 1024))%nat.

Lemma chunk_frame_wf type id n p :
  type = RequestBodyChunk \/ type = ResponseBodyChunk -> id_ok id -> chunk_ok p -> frame_wf (chunk_frame type id n p).
Proof.
  intros Ht [Hid _] Hp. unfold frame_wf, chunk_frame, chunk_ok in *. cbn [Type_ RequestID Sequence Payload].
  rewrite MaxBinaryFramePayload_eq. split_and!; auto; try lia; [apply wrapu_fits; lia |].
  unfold zlen. lia.
Qed.

(** Each frame fits in what the other end reads at most. *)
Lemma chunk_fits type id n p :
  id_ok id -> chunk_ok p -> zlen id <= 32756 ->
  zlen (frame_layout (chunk_frame type id n p)) <= Z.min AgentClient.websocketReadLimit AgentConnect.websocketReadLimit.
Proof.
  intros _ Hp Hid. unfold frame_layout, chunk_frame, chunk_ok in *. cbn [Type_ RequestID Sequence Payload].
  rewrite !zlen_app. unfold zlen in *. rewrite !length_be_put. cbn [length].
  change (Z.min AgentClient.websocketReadLimit AgentConnect.websocketReadLimit) with 65536. lia.
Qed.

(** ** The request *)

Lemma feed_request_chunks id ps : forall n sd,
  id_ok id -> Forall chunk_ok ps -> willing sd ->
  exists sd', feed (send_chunk id) ps (u32 n, sd) = (None, (u32 (n + zlen ps), sd'))
              /\ willing sd' /\ sd_sent sd' = sd_sent sd ++ chunk_messages RequestBodyChunk id n ps.
Proof.
  induction ps as [|p ps IH]; intros n sd Hid Hps Hw; cbn [feed chunk_messages].
  - exists sd. change (zlen []) with 0. rewrite Z.add_0_r, app_nil_r. done.
  - apply list.Forall_cons in Hps as [Hp Hps]. cbn [send_chunk].
    change (mkFrame RequestBodyChunk id (u32 n) p) with (chunk_frame RequestBodyChunk id n p).
    rewrite codec_encode by (apply chunk_frame_wf; auto). destruct (offer_willing (mkOutbound MessageBinary
      (frame_layout (chunk_frame RequestBodyChunk id n p))) sd Hw) as [Ho Hw'].
    rewrite Ho. rewrite Ho in Hw'. cbn [snd] in Hw'. rewrite wrapu_add_l by lia.
    destruct (IH (n + 1) _ Hid Hps Hw') as (sd' & Hf & Hwd & Hs). exists sd'.
    rewrite Hf, zlen_cons. split_and!; auto.
    + by replace (n + 1 + zlen ps) with (n + (zlen ps + 1)) by lia.
    + rewrite Hs. cbn [sd_sent]. by rewrite <- app_assoc.
Qed.

(** The agent's loop on the chunks of a request it knows. *)
Lemma read_request_chunks id ps : forall n payload bdy expd st,
  id_ok id -> Forall chunk_ok ps ->
  pendingRequests st !! id = Some (payload, mkAssembler expd (u32 n) bdy) ->
  (0 <= expd -> zlen bdy + zlen (concat ps) <= expd) ->
  read_loop (chunk_messages RequestBodyChunk id n ps) st
  = Next (set_pendingRequests
            (<[id := (payload, mkAssembler expd (u32 (n + zlen ps)) (bdy ++ concat ps))]> (pendingRequests st)) st).
Proof.
  induction ps as [|p ps IH]; intros n payload bdy expd st Hid Hps Hst Hexp; cbn [chunk_messages read_loop].
  - change (zlen []) with 0. rewrite Z.add_0_r. cbn [concat]. rewrite app_nil_r, insert_id by done.
    by destruct st.
  - apply list.Forall_cons in Hps as [Hp Hps]. unfold read_turn. cbn [m_Type m_Data]. unfold read_binary.
    rewrite codec_decode by (apply chunk_frame_wf; auto).
    cbn [chunk_frame Type_ RequestID]. rewrite bool_decide_eq_false_2 by tauto. rewrite Hst.
    cbn [concat] in Hexp. rewrite zlen_app in Hexp. pose proof (zlen_nonneg (concat ps)).
    assert (Hadd : exists d, add (mkAssembler expd (u32 n) bdy) (chunk_frame RequestBodyChunk id n p)
              = Ok (d, mkAssembler expd (u32 (u32 n + 1)) (bdy ++ p))).
    { eexists. apply add_ok_iff. cbn. split_and!; auto. lia. }
    destruct Hadd as [d ->]. rewrite wrapu_add_l by lia.
    rewrite (IH (n + 1) payload (bdy ++ p) expd) ; [|done | done | by cbn; rewrite lookup_insert_eq | rewrite zlen_app; lia].
    cbn [set_pendingRequests pendingRequests]. rewrite insert_insert_eq, zlen_cons, <- app_assoc. cbn [concat].
    by replace (n + 1 + zlen ps) with (n + (zlen ps + 1)) by lia.
Qed.

(** What [sendRequestBody] queues: the chunks of what the limit lets through, then
    the end of the request if the body ended there. *)
Lemma sendRequestBody_chunks id stream sd :
  id_ok id -> willing sd ->
  let l := MaxBytesReader stream maxTunnelBodyBytes in
  exists ps sd1, Forall chunk_ok ps /\ concat ps = (max_content l).1 /\ willing sd1
    /\ sd_sent sd1 = sd_sent sd ++ chunk_messages RequestBodyChunk id 0 ps
    /\ sendRequestBody id l sd = match (max_content l).2 with
                                 | EOF => (None, (offer (end_of_request id) sd1).2)
                                 | e => (Some (BodyReadFailed e), sd1)
                                 end.
Proof.
  intros Hid Hw l.
  destruct (copy_body (k := requestBodyChunkSize) (send_chunk id) l (0, sd)) as (ps & Hf & Hcat & Hcopy);
    [unfold requestBodyChunkSize; split; [lia | done] |].
  destruct (feed_request_chunks id ps 0 sd Hid Hf Hw) as (sd1 & Hfeed & Hw1 & Hs1). change (u32 0) with 0 in Hfeed.
  exists ps, sd1. split_and!; auto. unfold sendRequestBody. rewrite Hcopy, Hfeed.
  destruct (offer_willing (end_of_request id) sd1 Hw1) as [Ho _].
  destruct (max_content l).2; cbn [end_of]; [|done..]. fold (end_of_request id). by rewrite Ho.
Qed.

Lemma read_loop_app ms ms' st st' :
  read_loop ms st = Next st' -> read_loop (ms ++ ms') st = read_loop ms' st'.
Proof.
  revert st. induction ms as [|m ms IH]; intros st; cbn [read_loop app]; [by intros [= ->] |].
  destruct (read_turn false m st); [apply IH | done].
Qed.

(** The agent's loop on the announcement of a request. *)
Lemma read_start p st :
  request_sendable p -> id_ok (hq_RequestID p) -> -1 <= hq_ContentLength p ->
  pendingRequests st !! hq_RequestID p = None -> (size (pendingRequests st) < maxPendingRequestStreams)%nat ->
  read_turn false (mkOutbound MessageText (Envelope HTTPRequestStart (Some (enc_HTTPRequestPayload p)))) st
  = Next (set_pendingRequests (<[hq_RequestID p := (request_on_wire p, mkAssembler (hq_ContentLength p) 0 [])]>
                                 (pendingRequests st)) st).
Proof.
  intros Hs [Hid Hu] Hc Hnone Hsz. unfold read_turn. cbn [m_Type m_Data]. unfold read_text.
  rewrite request_start_wire by done. unfold handle_ping.
  change (bool_decide (HTTPRequestStart = Ping)) with false.
  change (bool_decide (HTTPRequestStart = httpRequestStartType)) with true. unfold handle_start, request_on_wire.
  cbn [aq_RequestID aq_ContentLength]. rewrite Hu.
  rewrite bool_decide_eq_false_2 by (intros H; rewrite H in Hid; change (zlen []) with 0 in Hid; lia).
  rewrite bool_decide_eq_false_2 by (rewrite Hnone; by intros []).
  rewrite (proj2 (Nat.leb_gt _ _) Hsz). unfold newChunkAssembler. by rewrite (proj2 (Z.ltb_ge _ _) Hc).
Qed.

(** ... and on its end. *)
Lemma read_end id payload bdy expd n st :
  id_ok id -> pendingRequests st !! id = Some (payload, mkAssembler expd n bdy) ->
  (expd = -1 \/ zlen bdy = expd) ->
  read_turn false (end_of_request id) st
  = Next (mkClientState (delete id (pendingRequests st))
            (<[aq_RequestID payload := length (queued st)]> (activeCancels st))
            (queued st ++ [mkRequest (aq_RequestID payload) (aq_Method payload) (aq_Path payload)
                             (default ∅ (aq_Headers payload)) bdy]) (cancelledJobs st) (c_sender st)).
Proof.
  intros [_ Hu] Hst Hlen. unfold end_of_request, read_turn. cbn [m_Type m_Data]. unfold read_text.
  destruct (request_id_wire HTTPRequestEnd id) as [H1 H2]. unfold HTTPRequestEndPayload. rewrite H1.
  change (coerce HTTPRequestEnd) with HTTPRequestEnd. unfold handle_ping.
  change (bool_decide (HTTPRequestEnd = Ping)) with false.
  change (bool_decide (HTTPRequestEnd = httpRequestStartType)) with false.
  change (bool_decide (HTTPRequestEnd = httpRequestEndType)) with true. unfold handle_end, httpRequestEndPayload. rewrite H2, Hu, Hst.
  rewrite (proj2 (complete_ok_iff _)) by (cbn; lia). done.
Qed.

(** The request the agent forwards for the public request [r]. *)
Definition forwarded_request (lower : Z -> Z) (r : http_request) (requestID : gostring) (data : list byte) : Request :=
  mkRequest requestID (coerce (r_Method r)) (coerce (r_RequestURI r))
    (coerce_header (publicRequestHeaders lower r requestID)) data.

Lemma request_stream_read lower r requestID ps data st :
  id_ok requestID -> valid_keys (publicRequestHeaders lower r requestID) ->
  r_ContentLength r = -1 \/ r_ContentLength r = zlen data -> zlen data <= maxTunnelBodyBytes ->
  Forall chunk_ok ps -> concat ps = data ->
  pendingRequests st !! requestID = None -> (size (pendingRequests st) < maxPendingRequestStreams)%nat ->
  read_loop (mkOutbound MessageText (start_message lower requestID r) :: chunk_messages RequestBodyChunk requestID 0 ps
             ++ [end_of_request requestID]) st
  = Next (mkClientState (pendingRequests st) (<[requestID := length (queued st)]> (activeCancels st))
            (queued st ++ [forwarded_request lower r requestID data]) (cancelledJobs st) (c_sender st)).
Proof.
  intros Hid Hk Hcl Hmax Hps Hdata Hnone Hsz. pose proof (zlen_nonneg data).
  change maxTunnelBodyBytes with 33554432 in Hmax. cbn [read_loop]. unfold start_message.
  set (p := mkHTTPRequest requestID (r_Method r) (r_RequestURI r) (Some (publicRequestHeaders lower r requestID))
              (r_ContentLength r)).
  assert (Hsend : request_sendable p) by (split; [unfold min_int64, max_int64; cbn; lia | exact Hk]).
  rewrite (read_start p) by (done || (cbn; lia)).
  cbn [p hq_RequestID hq_ContentLength].
  erewrite read_loop_app by (eapply (read_request_chunks requestID ps 0);
    [done | done | by cbn; rewrite lookup_insert_eq | cbn; change (zlen []) with 0; rewrite Hdata; lia]).
  cbn [read_loop]. erewrite read_end; [|done | by cbn; rewrite lookup_insert_eq | cbn; rewrite Hdata; lia].
  cbn [set_pendingRequests pendingRequests activeCancels queued cancelledJobs c_sender].
  rewrite insert_insert_eq, delete_insert_id by done.
  unfold request_on_wire, forwarded_request. cbn [aq_RequestID aq_Method aq_Path aq_Headers p hq_RequestID hq_Method hq_Path
    hq_Headers fmap option_fmap option_map default from_option app]. unfold id. rewrite Hdata.
  destruct Hid as [_ Hu]. by rewrite Hu.
Qed.

(** Request IDs are plain ASCII. *)
Lemma coerce_all_ascii s : Forall (fun b => byte_to_Z b < 128) s -> coerce s = s.
Proof. induction 1 as [|b s Hb _ IH]; [done |]. by rewrite coerce_ascii, IH. Qed.

Lemma lowerhex_ascii n : 0 <= n < 16 -> byte_to_Z (lowerhex n) < 128.
Proof. intros H. unfold lowerhex. rewrite byte_to_of_Z. destruct (n <? 10) eqn:E; rewrite Z.mod_small; lia. Qed.

Lemma hex_encode_spec data :
  length (hex_encode data) = (2 * length data)%nat /\ Forall (fun b => byte_to_Z b < 128) (hex_encode data).
Proof.
  induction data as [|b data [IHl IHf]]; [done |]. unfold hex_encode in *. cbn [mbind list_bind app].
  pose proof (byte_to_Z_range b). split; [cbn [length]; lia |].
  apply list.Forall_cons. split; [|apply list.Forall_cons; split; [|done]]; apply lowerhex_ascii.
  - split; [apply Z.div_pos | apply Z.div_lt_upper_bound]; lia.
  - by apply Z.mod_pos_bound.
Qed.

Lemma publicRequestID_ok bytes id :
  length bytes = 12%nat -> publicRequestID (Some bytes) = Some id -> id_ok id.
Proof.
  intros Hl Hid. assert (id = $"req_" ++ hex_encode bytes) as ->
    by (unfold publicRequestID in Hid; cbn [fmap option_fmap option_map] in Hid; congruence).
  destruct (hex_encode_spec bytes) as [Hh Ha]. split.
  - rewrite zlen_app. unfold zlen. rewrite Hh, Hl. change (length ($"req_")) with 4%nat. lia.
  - apply coerce_all_ascii, list.Forall_app. split; [|done]. repeat constructor.
Qed.

Lemma publicRequestHeaders_keys lower r id :
  valid_keys (r_Header r) -> valid_keys (publicRequestHeaders lower r id).
Proof.
  intros Hk k. rewrite publicRequestHeaders_lookup. unfold trusted.
  case_bool_decide as H1; [intros _; by rewrite H1 |]. case_bool_decide as H2; [intros _; by rewrite H2 |].
  case_bool_decide as H3; [intros _; by rewrite H3 |]. case_bool_decide as H4; [intros _; by rewrite H4 |].
  destruct (is_forwarded lower k); [by intros [] |]. rewrite withoutHopByHop_lookup.
  destruct (_ || _); [by intros [] | apply Hk].
Qed.

(** ** The response *)

Lemma feed_response_chunks id ps : forall n started sd,
  id_ok id -> Forall chunk_ok ps -> willing sd ->
  exists sd', feed (sendChunk id) ps (mkJob (u32 n) started sd) = (None, mkJob (u32 (n + zlen ps)) started sd')
              /\ willing sd' /\ sd_sent sd' = sd_sent sd ++ chunk_messages ResponseBodyChunk id n ps.
Proof.
  induction ps as [|p ps IH]; intros n started sd Hid Hps Hw; cbn [feed chunk_messages].
  - exists sd. change (zlen []) with 0. rewrite Z.add_0_r, app_nil_r. done.
  - apply list.Forall_cons in Hps as [Hp Hps]. unfold sendChunk at 1.
    cbn [j_sequence j_responseStarted j_sender].
    fold (chunk_frame ResponseBodyChunk id n p). rewrite codec_encode by (apply chunk_frame_wf; auto). unfold send. destruct (offer_willing (mkOutbound MessageBinary
      (frame_layout (chunk_frame ResponseBodyChunk id n p))) sd Hw) as [Ho Hw'].
    rewrite Ho. rewrite Ho in Hw'. cbn [snd] in Hw'. rewrite wrapu_add_l by lia.
    destruct (IH (n + 1) started _ Hid Hps Hw') as (sd' & Hf & Hwd & Hs). exists sd'.
    rewrite Hf, zlen_cons. split_and!; auto.
    + by replace (n + 1 + zlen ps) with (n + (zlen ps + 1)) by lia.
    + rewrite Hs. cbn [sd_sent]. by rewrite <- app_assoc.
Qed.

Definition inbound (m : OutboundMessage) : event := Inbound 0 (m_Type m) (m_Data m) true (Err tt).

Section gateway_side.
Context (hasAgents canOpen : bool) (sessionID : gostring).
Abbreviation serve := (serveSession hasAgents canOpen sessionID).

Lemma serve_app es es' st st' : serve es st = Continue st' -> serve (es ++ es') st = serve es' st'.
Proof.
  revert st. induction es as [|e es IH]; intros st; cbn [serveSession app]; [by intros [= ->] |].
  destruct (serve_turn _ _ _ e st) as [[]|]; try done; apply IH.
Qed.

(** The gateway's loop on the chunks of a response it knows. *)
Lemma serve_response_chunks id ps : forall n payload bdy st,
  id_ok id -> Forall chunk_ok ps ->
  sv_responses st !! id = Some (mkAssembly payload (u32 n) bdy) ->
  hr_ContentLength payload = -1 -> zlen bdy + zlen (concat ps) <= maxTunnelResponseBodyBytes ->
  serve (inbound <$> chunk_messages ResponseBodyChunk id n ps) st
  = Continue (set_responses (<[id := mkAssembly payload (u32 (n + zlen ps)) (bdy ++ concat ps)]> (sv_responses st)) st).
Proof.
  induction ps as [|p ps IH]; intros n payload bdy st Hid Hps Hst Hcl Hmax; cbn [chunk_messages fmap list_fmap serveSession].
  - change (zlen []) with 0. rewrite Z.add_0_r. cbn [concat]. rewrite app_nil_r, insert_id by done. by destruct st.
  - apply list.Forall_cons in Hps as [Hp Hps]. unfold inbound at 1. cbn [m_Type m_Data serve_turn]. unfold handle_binary.
    rewrite codec_decode by (apply chunk_frame_wf; auto). cbn [chunk_frame Type_ RequestID Sequence Payload]. rewrite Hst.
    cbn [asm_payload asm_next asm_body]. cbn [concat] in Hmax. rewrite zlen_app in Hmax. pose proof (zlen_nonneg (concat ps)).
    rewrite bool_decide_eq_false_2, Z.eqb_refl, Hcl by tauto. cbn [negb orb].
    replace (maxTunnelResponseBodyBytes <? zlen bdy + zlen p) with false by lia. cbn [orb andb Z.leb Z.compare].
    rewrite wrapu_add_l by lia.
    rewrite (IH (n + 1) payload (bdy ++ p)); [|done | done | by cbn; rewrite lookup_insert_eq | done | rewrite zlen_app; lia].
    cbn [set_responses sv_responses sv_world sv_written sv_touched]. rewrite insert_insert_eq, zlen_cons, <- app_assoc.
    cbn [concat]. by replace (n + 1 + zlen ps) with (n + (zlen ps + 1)) by lia.
Qed.

Lemma serve_response_start p st :
  response_sendable p -> id_ok (ar_RequestID p) -> -1 <= ar_ContentLength p <= maxTunnelResponseBodyBytes ->
  sv_responses st !! ar_RequestID p = None -> (size (sv_responses st) < maxPendingResponseStreams)%nat ->
  serve [inbound (mkOutbound MessageText (envelope httpResponseStartType (Some (enc_httpResponsePayload p))))] st
  = Continue (set_responses (<[ar_RequestID p := mkAssembly (response_on_wire p) 0 []]> (sv_responses st)) st).
Proof.
  intros Hs [Hid Hu] Hc Hnone Hsz. destruct (response_start_wire p Hs) as (raw & H1 & H2).
  cbn [serveSession inbound m_Type m_Data serve_turn]. unfold handle_text. rewrite H1.
  change (bool_decide (HTTPResponseStart = HTTPResponseStart)) with true. cbv iota. unfold handle_response_start.
  cbn [mbind option_bind]. rewrite H2. unfold response_on_wire. cbn [hr_RequestID hr_ContentLength]. rewrite Hu.
  rewrite (bool_decide_eq_false_2 (ar_RequestID p = [])) by (intros H; rewrite H in Hid; change (zlen []) with 0 in Hid; lia).
  rewrite (proj2 (Z.ltb_ge _ _)), (proj2 (Z.ltb_ge maxTunnelResponseBodyBytes _)) by lia. cbn [orb].
  rewrite (proj2 (Nat.leb_gt _ _) Hsz), andb_false_r. done.
Qed.

Lemma serve_response_end id a st c :
  id_ok id -> inv c -> cw c = sv_world st -> sv_responses st !! id = Some a ->
  hr_ContentLength (asm_payload a) = -1 \/ hr_ContentLength (asm_payload a) = zlen (asm_body a) ->
  exists b w', DeliverResponse id (mkResponse (hr_StatusCode (asm_payload a)) (default ∅ (hr_Headers (asm_payload a)))
                                     (asm_body a) (hr_Error (asm_payload a))) (sv_world st) = Returns b w'
  /\ serve [inbound (mkOutbound MessageText (envelope httpResponseEndType (Some (httpResponseEndPayload id))))] st
     = Continue (mkServing w' (delete id (sv_responses st)) (sv_written st) (sv_touched st)).
Proof.
  intros [_ Hu] Hi Hc Hst Hlen. destruct (response_end_wire httpResponseEndType id) as (raw & H1 & H2).
  edestruct (DeliverResponse_reaches c id) as (b & w' & Hd & _); [done |]. rewrite Hc in Hd.
  exists b, w'. split; [exact Hd |]. unfold httpResponseEndPayload.
  cbn [serveSession inbound m_Type m_Data serve_turn]. unfold handle_text. rewrite H1.
  change (coerce httpResponseEndType) with HTTPResponseEnd.
  change (bool_decide (HTTPResponseEnd = HTTPResponseStart)) with false.
  change (bool_decide (HTTPResponseEnd = OpenTunnel)) with false.
  change (bool_decide (HTTPResponseEnd = HTTPResponseEnd)) with true. cbv iota. unfold handle_response_end.
  rewrite H2, Hu, Hst. pose proof (zlen_nonneg (asm_body a)).
  replace ((0 <=? hr_ContentLength (asm_payload a)) && negb (zlen (asm_body a) =? hr_ContentLength (asm_payload a)))
    with false by lia.
  cbn [set_responses sv_world sv_responses]. rewrite Hd. done.
Qed.
(** A whole response stream, of unannounced length or empty. *)
Lemma serve_response p ps st c :
  response_sendable p -> id_ok (ar_RequestID p) -> Forall chunk_ok ps ->
  zlen (concat ps) <= maxTunnelResponseBodyBytes ->
  ar_ContentLength p = -1 \/ (ar_ContentLength p = 0 /\ ps = []) ->
  inv c -> cw c = sv_world st ->
  sv_responses st !! ar_RequestID p = None -> (size (sv_responses st) < maxPendingResponseStreams)%nat ->
  exists b w', DeliverResponse (ar_RequestID p) (mkResponse (ar_StatusCode p)
                 (default ∅ (coerce_header <$> ar_Headers p)) (concat ps) (coerce (ar_Error p))) (sv_world st) = Returns b w'
  /\ serve (inbound <$> mkOutbound MessageText (envelope httpResponseStartType (Some (enc_httpResponsePayload p)))
              :: chunk_messages ResponseBodyChunk (ar_RequestID p) 0 ps
              ++ [mkOutbound MessageText (envelope httpResponseEndType (Some (httpResponseEndPayload (ar_RequestID p))))]) st
     = Continue (mkServing w' (sv_responses st) (sv_written st) (sv_touched st)).
Proof.
  intros Hs Hid Hps Hmax Hcl Hi Hc Hnone Hsz. set (id := ar_RequestID p) in *.
  set (a := mkAssembly (response_on_wire p) (u32 (0 + zlen ps)) (concat ps)).
  set (st1 := set_responses (<[id := mkAssembly (response_on_wire p) 0 []]> (sv_responses st)) st).
  set (st2 := set_responses (<[id := a]> (sv_responses st)) st).
  assert (H1 : serve [inbound (mkOutbound MessageText (envelope httpResponseStartType (Some (enc_httpResponsePayload p))))] st
               = Continue st1).
  { apply serve_response_start; auto. change maxTunnelResponseBodyBytes with 33554432. lia. }
  assert (H2 : serve (inbound <$> chunk_messages ResponseBodyChunk id 0 ps) st1 = Continue st2).
  { destruct Hcl as [Hcl | [_ ->]].
    - erewrite (serve_response_chunks id ps 0 (response_on_wire p) []); auto.
      + subst st1 st2. cbn [set_responses sv_responses sv_world sv_written sv_touched]. by rewrite insert_insert_eq.
      + subst st1. cbn. by rewrite lookup_insert_eq.
    - done. }
  destruct (serve_response_end id a st2 c) as (b & w' & Hd & H3); auto.
  - subst st2. cbn. by rewrite lookup_insert_eq.
  - subst a. cbn. destruct Hcl as [Hcl | [Hcl ->]]; [by left | by right].
  - exists b, w'. split; [exact Hd |].
    rewrite fmap_cons, fmap_app. change (?x :: ?l) with ([x] ++ l). rewrite (serve_app _ _ _ _ H1), (serve_app _ _ _ _ H2).
    cbn [fmap list_fmap]. rewrite H3. subst st2. cbn [set_responses sv_responses sv_written sv_touched].
    by rewrite delete_insert_id.
Qed.
End gateway_side.

Definition start_of (id : gostring) (status : Z) (h : option Header) (len : Z) (err : gostring) : OutboundMessage :=
  mkOutbound MessageText (envelope httpResponseStartType (Some (enc_httpResponsePayload (mkhttpResponse id status h len err)))).
Definition end_of_response (id : gostring) : OutboundMessage :=
  mkOutbound MessageText (envelope httpResponseEndType (Some (httpResponseEndPayload id))).

(** What a job sends when the local service answers ... *)
Lemma job_sends client addr q sd status h stream :
  id_ok (q_ID q) -> willing sd -> addr <> [] -> local_roundtrip client addr q = Ok (status, h, stream) ->
  exists ps, Forall chunk_ok ps /\ concat ps = (content stream).1
    /\ sd_sent (job client addr q sd)
       = sd_sent sd ++ start_of (q_ID q) status (Some (agent_withoutHopByHopHeaders h)) (-1) []
                       :: chunk_messages ResponseBodyChunk (q_ID q) 0 ps ++ [end_of_response (q_ID q)].
Proof.
  intros Hid Hw Ha Hl. unfold job. rewrite bool_decide_eq_false_2 by done. unfold StreamLocal. rewrite Hl.
  unfold sendStart. cbn [l_StatusCode l_Headers j_sender j_sequence j_responseStarted]. unfold send.
  fold (start_of (q_ID q) status (Some (agent_withoutHopByHopHeaders h)) (-1) []).
  set (m := start_of _ _ _ _ _). destruct (offer_willing m sd Hw) as [Ho Hw1]. rewrite Ho in Hw1 |- *. cbn [snd] in Hw1.
  set (s1 := mkJob 0 true _).
  destruct (copy_body (k := localBufferSize) (sendChunk (q_ID q)) stream s1) as (ps & Hf & Hcat & Hcopy);
    [unfold localBufferSize; lia |].
  destruct (feed_response_chunks (q_ID q) ps 0 true _ Hid Hf Hw1) as (sd2 & Hfeed & Hw2 & Hs2).
  change (u32 0) with 0 in Hfeed. rewrite Hcopy. subst s1. rewrite Hfeed.
  destruct (offer_willing (end_of_response (q_ID q)) sd2 Hw2) as [Ho2 _].
  exists ps. split_and!; [done | done |].
  transitivity (sd_sent sd2 ++ [end_of_response (q_ID q)]).
  - destruct (content stream).2; cbn [end_of j_responseStarted j_sender snd]; unfold end_of_response in Ho2; by rewrite Ho2.
  - rewrite Hs2. cbn [sd_sent]. by rewrite <- !app_assoc.
Qed.

(** ... and when it cannot be reached. *)
Lemma job_sends_error client addr q sd e :
  willing sd -> addr <> [] -> local_roundtrip client addr q = Err e ->
  sd_sent (job client addr q sd) = sd_sent sd ++ [start_of (q_ID q) 502 None 0 e; end_of_response (q_ID q)].
Proof.
  intros Hw Ha Hl. unfold job. rewrite bool_decide_eq_false_2 by done. unfold StreamLocal. rewrite Hl.
  cbn [j_responseStarted j_sender]. unfold send. fold (start_of (q_ID q) 502 None 0 e).
  destruct (offer_willing (start_of (q_ID q) 502 None 0 e) sd Hw) as [Ho Hw1]. rewrite Ho in Hw1 |- *. cbn [snd] in Hw1 |- *.
  fold (end_of_response (q_ID q)). destruct (offer_willing (end_of_response (q_ID q)) _ Hw1) as [Ho2 _].
  rewrite Ho2. cbn [snd sd_sent]. by rewrite <- app_assoc.
Qed.

(** The response the gateway makes of what the local service answered; an error of
    the body after the start is not visible in it. *)
Definition expected_response (client : http_client) (addr : gostring) (q : Request) : Response :=
  match local_roundtrip client addr q with
  | Ok (status, h, stream) => mkResponse status (coerce_header (agent_withoutHopByHopHeaders h)) (content stream).1 []
  | Err e => mkResponse 502 ∅ [] (coerce e)
  end.

(** What the local service may answer: a status in range, field names in UTF-8 and
    a body within the limit. *)
Definition local_ok (client : http_client) (addr : gostring) (q : Request) : Prop :=
  match local_roundtrip client addr q with
  | Ok (status, h, stream) =>
      min_int64 <= status <= max_int64 /\ valid_keys (agent_withoutHopByHopHeaders h)
      /\ zlen (content stream).1 <= maxTunnelResponseBodyBytes
  | Err _ => True
  end.

Lemma response_stream_served hasAgents canOpen sid client addr q sd st c :
  id_ok (q_ID q) -> willing sd -> sd_sent sd = [] -> addr <> [] -> local_ok client addr q ->
  inv c -> cw c = sv_world st ->
  sv_responses st !! q_ID q = None -> (size (sv_responses st) < maxPendingResponseStreams)%nat ->
  exists b w', DeliverResponse (q_ID q) (expected_response client addr q) (sv_world st) = Returns b w'
    /\ serveSession hasAgents canOpen sid (inbound <$> sd_sent (job client addr q sd)) st
       = Continue (mkServing w' (sv_responses st) (sv_written st) (sv_touched st)).
Proof.
  intros Hid Hw Hs0 Ha Hok Hi Hc Hnone Hsz. unfold expected_response, local_ok in *.
  destruct (local_roundtrip client addr q) as [[[status h] stream]|e] eqn:Hl.
  - destruct Hok as (Hst & Hk & Hlen).
    destruct (job_sends client addr q sd status h stream Hid Hw Ha Hl) as (ps & Hps & Hcat & ->).
    rewrite Hs0, <- Hcat in *. cbn [app].
    apply (serve_response hasAgents canOpen sid (mkhttpResponse (q_ID q) status (Some (agent_withoutHopByHopHeaders h)) (-1) [])
             ps st c); auto; [split_and!; cbn; unfold min_int64, max_int64 in *; (lia || done)].
  - rewrite (job_sends_error client addr q sd e Hw Ha Hl), Hs0. cbn [app].
    apply (serve_response hasAgents canOpen sid (mkhttpResponse (q_ID q) 502 None 0 e) [] st c); auto;
      [split_and!; cbn; unfold min_int64, max_int64 in *; (lia || done) | by vm_compute].
Qed.

(** ** An admitted request *)

(** The guards [ServeHTTP] passes before it talks to the agent. *)
Record admitted (lower : Z -> Z) (baseDomain : gostring) (tunnel : Registry.ActiveTunnel) (now : Z)
    (random : list byte) (requestID : gostring) (r : http_request) (g : gateway) : Prop := mkAdmitted {
  adm_route : (PublicHost.ParsePublicHost lower (r_Host r) baseDomain ≫= fun subdomain =>
                 Registry.Get subdomain (g_registry g)) = Some tunnel;
  adm_allow : (RateLimiter.allow (Registry.ID tunnel ++ $":" ++ requestClientIP r) now (g_limiter g)).1.1 = true;
  adm_length : r_ContentLength r <= maxTunnelBodyBytes;
  adm_random : length random = 12%nat;
  adm_id : publicRequestID (Some random) = Some requestID;
  adm_queue : willing (g_sender g);
  adm_fresh : sd_sent (g_sender g) = []
}.

Lemma ServeHTTP_admitted lower baseDomain tunnel now random requestID r stream wait g :
  admitted lower baseDomain tunnel now random requestID r g ->
  exists limiter sd0, willing sd0 /\ sd_sent sd0 = [mkOutbound MessageText (start_message lower requestID r)]
  /\ ServeHTTP lower baseDomain now (Some random) r stream wait g
     = let '(err, sd) := sendRequestBody requestID (MaxBytesReader stream maxTunnelBodyBytes) sd0 in
       let g' := mkGateway (g_registry g) limiter sd (g_cancels g)
                   (g_calls g ++ [CallRegisterRequest (Registry.SessionID tunnel) requestID]) in
       let end_ := match err with
                   | Some e => (Replied (failure_reply e), offerCancel requestID g')
                   | None => finish (Registry.ID tunnel) requestID r wait g'
                   end in
       (end_.1, called (CallCancelRequest requestID) end_.2).
Proof.
  intros []. unfold ServeHTTP.
  destruct (PublicHost.ParsePublicHost lower (r_Host r) baseDomain) as [subdomain|]; [|done].
  cbn [mbind option_bind] in adm_route0. rewrite adm_route0.
  destruct (RateLimiter.allow _ now (g_limiter g)) as [[allowed retry] limiter]. cbn in adm_allow0. subst allowed.
  rewrite (proj2 (Z.ltb_ge _ _) adm_length0), adm_id0. unfold exchange. cbn [negb called g_sender g_registry g_limiter g_cancels g_calls].
  destruct (offer_willing (mkOutbound MessageText (start_message lower requestID r)) (g_sender g) adm_queue0) as [Ho Hw].
  rewrite Ho in Hw |- *. eexists limiter, _. split; [exact Hw |]. cbn [snd sd_sent]. rewrite adm_fresh0. split; [done |].
  cbn [negb called g_sender g_registry g_limiter g_cancels g_calls]. destruct (sendRequestBody _ _ _) as [[e|] sd]; [done |].
  by destruct (finish _ _ _ _ _).
Qed.

Lemma finish_sent tunnelID requestID r wait g :
  sd_sent (g_sender (finish tunnelID requestID r wait g).2) = sd_sent (g_sender g).
Proof. unfold finish. destruct wait; [|done..]. by repeat case_match. Qed.

(** ** The hello exchange *)

Lemma client_hello_wire version host os arch :
  Unmarshal (dec_Envelope dec_ClientHelloPayload) ([], zero_ClientHello) (client_hello version host os arch)
  = Some (ClientHello, mkClientHello 1 (coerce version) (coerce host) (coerce host) (coerce os) (coerce arch)).
Proof.
  unfold client_hello, envelope. rewrite Unmarshal_Envelope.
  - unfold dec_Envelope, dec_ClientHelloPayload, enc_clientHello, zero_ClientHello, ClientHello. run_store.
    rewrite parse_print_int by done. reflexivity.
  - cbn. split_and!; auto. by exists 1.
  - by vm_compute.
Qed.

Lemma server_hello_wire sid seconds :
  valid_utf8 sid -> sid <> [] -> min_int64 <= seconds <= max_int64 ->
  accept_server_hello (Envelope ServerHello (Some (enc_ServerHelloPayload (mkServerHello Version sid seconds)))) = Some sid.
Proof.
  intros Hu Hne Hs. unfold accept_server_hello. rewrite Unmarshal_Envelope.
  - unfold dec_Envelope, dec_serverHello, enc_ServerHelloPayload, zero_serverHello, ServerHello. cbn_store.
    change (match_field [$"protocolVersion"; $"sessionId"] (coerce ($"heartbeatIntervalSeconds"))) with (@None gostring).
    run_store. cbn [sh_ProtocolVersion sh_SessionID]. rewrite (parse_print_int Version) by done. run_store. cbn [as_ProtocolVersion as_SessionID]. rewrite Hu.
    rewrite (bool_decide_eq_false_2 (sid = [])) by done.
    change (bool_decide ($"server_hello" <> $"server_hello")) with false. reflexivity.
  - cbn. split_and!; auto; [by exists Version | by exists seconds].
  - by vm_compute.
Qed.

(** ** Properties *)

(** A gateway with one tunnel, a public request for it and a local service. *)
Definition demo_tunnel : Registry.ActiveTunnel :=
  Registry.mkTunnel ($"tun_1") ($"abcdefghij") ($"agt_1") ($"usr_1") ($"ses_1") ($"3000").
Definition demo_gateway : gateway :=
  mkGateway (Registry.Open demo_tunnel Registry.NewRegistry) (RateLimiter.newPublicRateLimiter 120 Minute)
    (mkSender (fun _ => true) 0 []) (mkSender (fun _ => true) 0 []) [].
Definition demo_http (len : Z) : http_request :=
  Headers.mkRequest ($"POST") ($"abcdefghij.t.io") ($"/x") {[$"Accept" := [$"text/html"]]} len ($"1.2.3.4:5") false.
Definition demo_random : list byte := replicate 12 Byte.x00.
Definition demo_requestID : gostring := $"req_000000000000000000000000".
Definition demo_agent : client_state := mkClientState ∅ ∅ [] [] (mkSender (fun _ => true) 0 []).

Lemma demo_admitted len :
  len <= maxTunnelBodyBytes ->
  admitted (fun r => r) ($"t.io") demo_tunnel Minute demo_random demo_requestID (demo_http len) demo_gateway.
Proof. intros Hl. by split. Qed.

Lemma demo_keys len : valid_keys (r_Header (demo_http len)).
Proof.
  intros k [v Hv]. cbn in Hv. apply lookup_singleton_Some in Hv as [<- _]. by vm_compute.
Qed.

Definition demo_service : http_client :=
  mkClient (fun _ _ => None) (fun _ _ _ _ => Ok (200, {[$"Server" := [$"local"]]}, [([Byte.x61], None); ([Byte.x62], Some EOF)])).
Definition demo_request : Request := LocalHTTP.mkRequest ($"req_1") ($"GET") ($"/") ∅ [].
Definition demo_serving : serving := mkServing (cw demo_wait) ∅ [] [].

(** A public request reaches the local side unchanged.  When
    the host routes to a tunnel, the limiter admits the client, the body ends within
    32 MiB and agrees with an announced length, and the queue takes the messages,
    then what [ServeHTTP] queues, read by the agent's loop with room for one more
    request, queues exactly one job: it has the request's method, path, filtered
    headers (as they appear in UTF-8 text) and, byte for byte, its body, in however
    many reads the body arrived; nothing is left pending. *)
Theorem request_delivered (lower : Z -> Z) (baseDomain : gostring) (tunnel : Registry.ActiveTunnel)
    (now : Z) (random : list byte) (requestID : gostring) (r : http_request) (stream : body_stream) (data : list byte)
    (wait : waiting) (g : gateway) (st : client_state)
    (Hadm : admitted lower baseDomain tunnel now random requestID r g)
    (Hbody : content stream = (data, EOF)) (Hlen : zlen data <= maxTunnelBodyBytes)
    (Hannounced : r_ContentLength r = -1 \/ r_ContentLength r = zlen data)
    (Hkeys : valid_keys (r_Header r))
    (Hnone : pendingRequests st !! requestID = None)
    (Hroom : (size (pendingRequests st) < maxPendingRequestStreams)%nat) :
  read_loop (sd_sent (g_sender (ServeHTTP lower baseDomain now (Some random) r stream wait g).2)) st
  = Next (mkClientState (pendingRequests st) (<[requestID := length (queued st)]> (activeCancels st))
            (queued st ++ [forwarded_request lower r requestID data]) (cancelledJobs st) (c_sender st)).
Proof.
  destruct (ServeHTTP_admitted _ _ _ _ _ _ _ stream wait _ Hadm) as (limiter & sd0 & Hw & Hs0 & ->).
  assert (Hido : id_ok requestID) by (by eapply publicRequestID_ok; apply Hadm).
  destruct (sendRequestBody_chunks requestID stream sd0 Hido Hw) as (ps & sd1 & Hps & Hcat & Hw1 & Hs & Hsend).
  pose proof (max_content_within stream maxTunnelBodyBytes data Hbody Hlen) as Hmc.
  rewrite Hmc in Hsend, Hcat. cbn [fst snd] in Hsend, Hcat. rewrite Hsend.
  destruct (offer_willing (end_of_request requestID) sd1 Hw1) as [Ho2 _]. rewrite Ho2. cbn [snd].
  cbn [fst snd called g_sender]. rewrite finish_sent. cbn [g_sender sd_sent]. rewrite Hs, Hs0. cbn [app].
  apply request_stream_read; auto. by apply publicRequestHeaders_keys.
Qed.

Lemma request_delivered_witness :
  read_loop (sd_sent (g_sender (ServeHTTP (fun r => r) ($"t.io") Minute (Some demo_random) (demo_http 2)
               [([Byte.x61], None); ([Byte.x62], None)] TimedOut demo_gateway).2)) demo_agent
  = Next (mkClientState ∅ {[demo_requestID := O]} [forwarded_request (fun r => r) (demo_http 2) demo_requestID ($"ab")]
            [] (mkSender (fun _ => true) 0 [])).
Proof.
  apply (request_delivered (fun r => r) ($"t.io") demo_tunnel Minute demo_random demo_requestID (demo_http 2)
           [([Byte.x61], None); ([Byte.x62], None)] ($"ab") TimedOut demo_gateway demo_agent).
  - by apply demo_admitted.
  - reflexivity.
  - by vm_compute.
  - by right.
  - apply demo_keys.
  - reflexivity.
  - vm_compute. lia.
Defined.

(** The response comes back as the local service gave it: what
    a job sends for a request, read by the gateway's session loop with room for one
    more stream, is exactly one delivery under the request's ID, of the status,
    filtered headers and body the local service answered with, or of status 502 with
    the error when it could not be reached; the session goes on and no stream is
    left open. *)
Theorem response_delivered (hasAgents canOpen : bool) (sid : gostring) (client : http_client) (addr : gostring)
    (q : Request) (sd : sender) (st : serving) (c : cstate)
    (Hid : id_ok (q_ID q)) (Hqueue : willing sd) (Hfresh : sd_sent sd = []) (Haddr : addr <> [])
    (Hlocal : local_ok client addr q) (Hc : reachable c) (Hw : cw c = sv_world st)
    (Hnone : sv_responses st !! q_ID q = None)
    (Hroom : (size (sv_responses st) < maxPendingResponseStreams)%nat) :
  exists b w', DeliverResponse (q_ID q) (expected_response client addr q) (sv_world st) = Returns b w'
    /\ serveSession hasAgents canOpen sid (inbound <$> sd_sent (job client addr q sd)) st
       = Continue (mkServing w' (sv_responses st) (sv_written st) (sv_touched st)).
Proof. apply (response_stream_served _ _ _ _ _ _ _ _ c); auto using inv_reachable. Qed.

Lemma response_delivered_witness :
  expected_response demo_service ($"3000") demo_request
  = mkResponse 200 (coerce_header (agent_withoutHopByHopHeaders {[$"Server" := [$"local"]]})) ($"ab") []
  /\ exists b w', DeliverResponse ($"req_1") (expected_response demo_service ($"3000") demo_request) (cw demo_wait) = Returns b w'.
Proof.
  split; [reflexivity |].
  destruct (response_delivered false false ($"ses_1") demo_service ($"3000") demo_request (mkSender (fun _ => true) 0 [])
              demo_serving demo_wait) as (b & w' & Hd & _).
  - split; [by vm_compute | by vm_compute].
  - done.
  - reflexivity.
  - done.
  - split; [by vm_compute |]. split; [|by vm_compute].
    intros k [v Hv]. assert (Hk : k = $"Server"); [|by rewrite Hk; vm_compute].
    change (agent_withoutHopByHopHeaders _) with (withoutHopByHopHeaders {[$"Server" := [$"local"]]}) in Hv.
    rewrite withoutHopByHop_lookup in Hv. destruct (_ || _) in Hv; [done |].
    apply lookup_singleton_Some in Hv as [<- _]. done.
  - exact demo_wait_reachable.
  - reflexivity.
  - reflexivity.
  - vm_compute. lia.
  - exists b, w'. exact Hd.
Defined.

(** A body that turns out longer than 32 MiB, whatever was announced, is
    cut at the limit: the agent is sent the announcement, exactly the first 32 MiB and no end of
    request, the client gets 413, a cancellation is offered to the session's queue and no
    traffic is recorded. *)
Theorem oversized_body_refused (lower : Z -> Z) (baseDomain : gostring) (tunnel : Registry.ActiveTunnel)
    (now : Z) (random : list byte) (requestID : gostring) (r : http_request) (stream : body_stream)
    (wait : waiting) (g : gateway)
    (Hadm : admitted lower baseDomain tunnel now random requestID r g)
    (Hlen : maxTunnelBodyBytes < zlen (content stream).1) :
  exists ps rest g', ServeHTTP lower baseDomain now (Some random) r stream wait g
                = (Replied (http_Error ($"request body too large") 413), g')
    /\ sd_sent (g_sender g') = mkOutbound MessageText (start_message lower requestID r)
                               :: chunk_messages RequestBodyChunk requestID 0 ps
    /\ (content stream).1 = concat ps ++ rest /\ zlen (concat ps) = maxTunnelBodyBytes
    /\ g_cancels g' = (offer (cancel_message requestID) (g_cancels g)).2 /\ g_registry g' = g_registry g.
Proof.
  destruct (ServeHTTP_admitted _ _ _ _ _ _ _ stream wait _ Hadm) as (limiter & sd0 & Hw & Hs0 & ->).
  assert (Hido : id_ok requestID) by (by eapply publicRequestID_ok; apply Hadm).
  destruct (sendRequestBody_chunks requestID stream sd0 Hido Hw) as (ps & sd1 & Hps & Hcat & Hw1 & Hs & Hsend).
  destruct (max_content_over stream maxTunnelBodyBytes) as (d & rest & Hmc & Hd & Hz); [by split |].
  rewrite Hmc in Hsend, Hcat. cbn [fst snd] in Hsend, Hcat. rewrite Hsend.
  eexists ps, rest, _. split; [reflexivity |]. cbn [called offerCancel fst snd g_sender g_cancels g_registry]. rewrite Hcat.
  split_and!; auto. by rewrite Hs, Hs0.
Qed.

Definition demo_oversized : body_stream := [(replicate (Z.to_nat (maxTunnelBodyBytes + 1)) Byte.x00, None)].

Lemma demo_oversized_length : maxTunnelBodyBytes < zlen (content demo_oversized).1.
Proof.
  unfold demo_oversized. cbn [content fst]. rewrite app_nil_r. unfold zlen. rewrite length_replicate.
  rewrite Z2Nat.id; [lia | by vm_compute].
Qed.

Lemma oversized_body_refused_witness :
  exists g', ServeHTTP (fun r => r) ($"t.io") Minute (Some demo_random) (demo_http (-1)) demo_oversized TimedOut demo_gateway
             = (Replied (http_Error ($"request body too large") 413), g').
Proof.
  destruct (oversized_body_refused (fun r => r) ($"t.io") demo_tunnel Minute demo_random demo_requestID (demo_http (-1))
              demo_oversized TimedOut demo_gateway) as (ps & rest & g' & Hs & _).
  - apply demo_admitted. by vm_compute.
  - exact demo_oversized_length.
  - exists g'. exact Hs.
Defined.

(** A body error after the start of a response is not reported: the gateway
    delivers what was read so far as a complete response. *)
Lemma truncated_response_delivered :
  local_roundtrip (mkClient (fun _ _ => None) (fun _ _ _ _ => Ok (200, ∅, [([Byte.x61], None); ([], Some (ReadFailed ($"reset")))])))
    ($"3000") demo_request = Ok (200, ∅, [([Byte.x61], None); ([], Some (ReadFailed ($"reset")))])
  /\ expected_response (mkClient (fun _ _ => None) (fun _ _ _ _ => Ok (200, ∅, [([Byte.x61], None); ([], Some (ReadFailed ($"reset")))])))
       ($"3000") demo_request = mkResponse 200 (coerce_header (agent_withoutHopByHopHeaders ∅)) ($"a") [].
Proof. by split. Qed.

(** The session is in the table, for the agent and token given, with an empty queue
    of its own. *)
Definition registered_as (sid agentID hash : gostring) (w : world) : Prop :=
  exists s q, sessions (mgr w) !! sid = Some s /\ s_AgentID s = agentID /\ s_AgentTokenHash s = hash
              /\ s_Outbound s = Some q /\ outq w !! q = Some (mkChan 32 []).

(** The two ends agree on the hello exchange: the agent's hello
    is accepted by the gateway whatever its version, host and platform strings are,
    and the hello the gateway answers with is accepted by the agent, which learns
    exactly the session ID under which the gateway has registered it, with an empty
    queue of 32 messages. *)
Theorem hello_exchange (sum256 : list byte -> list byte) (now : Z) (token version host os arch agentID : gostring)
    (random : list byte) (w : world) :
  exists sid hello w',
    handshake sum256 defaultHeartbeatInterval now token (Some (client_hello version host os arch)) (Some random)
      (Some (Ok agentID)) w = Registered sid agentID hello w'
    /\ m_Type hello = MessageText /\ accept_server_hello (m_Data hello) = Some sid
    /\ registered_as sid agentID (hex_encode (sum256 token)) w'.
Proof.
  unfold handshake. rewrite client_hello_wire. change (bool_decide (ClientHello <> ClientHello)) with false.
  cbn [ch_ProtocolVersion orb negb newSessionID fmap option_fmap option_map default]. change (1 =? Version) with true.
  cbn [negb]. set (sid := $"ses_" ++ base64url_encode random). eexists sid, _, _. split; [reflexivity |]. split; [done |].
  cbn [m_Data]. split.
  - apply server_hello_wire; [|done | by vm_compute]. apply coerce_all_ascii, list.Forall_app.
    split; [repeat constructor | apply list.Forall_forall; intros b Hb].
    pose proof (Crypto.base64url_ascii random) as Ha. rewrite forallb_forall in Ha.
    specialize (Ha b (proj1 (list_elem_of_In _ _) Hb)). unfold is_ascii in Ha. lia.
  - eexists _, (next_loc w). cbn. rewrite !lookup_insert_eq. done.
Qed.
