(* ===== verification/Connect.v ===== *)
(** * Connecting an agent

    [Connect] of agent/internal/gatewayclient/client.go from its configuration to the
    session and back, joined with the other end: the request its dial makes is the one
    [ServeHTTP] of backend/internal/gateway/agent_connect.go authenticates, and the
    hello it writes is the one [handshake] answers.  [Run] calls it again and again. *)

From S2P Require Import Prelude GoStrings Headers Json Messages SessionManager SessionSteps AgentConnect LocalHTTP AgentClient EndToEnd.
From S2P Require Crypto.

(** ** The agent's side *)

(** The callbacks are not part of it: [OnRequest] is only told. *)
Record Config := mkConfig {
  GatewayURL : gostring; Token : gostring; AgentVersion : gostring; LocalAddress : gostring; MaxConcurrentRequests : Z
}.

(** What [Connect] meets: the dial with a URL and an authorization, the write of the
    hello and the message that is read after it, each with the text of its error. *)
Record surroundings := mkSurroundings {
  sr_dial : gostring -> gostring -> option gostring;
  sr_write : list byte -> option gostring;
  sr_read : list byte -> result gostring (list byte);
  sr_hostname : gostring; sr_GOOS : gostring; sr_GOARCH : gostring
}.

Inductive connect_error :=
| URLAndTokenRequired
| TooManyConcurrentRequests
| ConnectToGateway (text : gostring)
| SendClientHello (text : gostring)
| ReadServerHello (text : gostring)
| InvalidServerHello
| ClosedBeforeTunnelOpen
| GatewayConnectionClosed (text : gostring)
| SessionError (e : client_error).

(** From the configuration to the session: the number of workers and the session's ID. *)
Definition open_connection (config : Config) (sr : surroundings) : result connect_error (Z * gostring) :=
  if bool_decide (GatewayURL config = []) || bool_decide (Token config = []) then Err URLAndTokenRequired
  else match max_concurrent (MaxConcurrentRequests config) with
  | None => Err TooManyConcurrentRequests
  | Some maxConcurrent =>
      match sr_dial sr (GatewayURL config) ($"Bearer " ++ Token config) with
      | Some e => Err (ConnectToGateway e)
      | None =>
          let hello := client_hello (AgentVersion config) (sr_hostname sr) (sr_GOOS sr) (sr_GOARCH sr) in
          match sr_write sr hello with
          | Some e => Err (SendClientHello e)
          | None =>
              match sr_read sr hello with
              | Err e => Err (ReadServerHello e)
              | Ok data => match accept_server_hello data with
                           | None => Err InvalidServerHello
                           | Some sessionID => Ok (maxConcurrent, sessionID)
                           end
              end
          end
      end
  end.

(** How a session ends: it was cancelled before the tunnel was asked for, a read
    failed, the loop refused a message, or it was cancelled while the loop waited to
    queue a job. *)
Inductive session_end :=
| CancelledAtOpen | ReadFailed (text : gostring) | LoopRefused (e : client_error) | CancelledAtQueue.

Definition end_error (e : session_end) : option connect_error :=
  match e with
  | CancelledAtOpen => Some ClosedBeforeTunnelOpen
  | ReadFailed text => Some (GatewayConnectionClosed text)
  | LoopRefused e => Some (SessionError e)
  | CancelledAtQueue => None
  end.

(** [Connect]: the session it reported to [connected] and the error it returned. *)
Definition Connect (config : Config) (sr : surroundings) (ended : session_end) : option gostring * option connect_error :=
  match open_connection config sr with
  | Err e => (None, Some e)
  | Ok (_, sessionID) => (Some sessionID, end_error ended)
  end.

(** A call of [Connect] as [Run] sees it; [waitFor] is cut short when the context ends. *)
Definition attempt_of (config : Config) (ctxDone waitCancelled : bool) (call : surroundings * session_end) : attempt :=
  let '(sessionID, err) := Connect config call.1 call.2 in
  mkAttempt (bool_decide (is_Some sessionID)) (bool_decide (is_Some err)) ctxDone waitCancelled.

(** ** The gateway's side *)

(** [ServeHTTP] up to the session: the dial fails with the text of a response that is
    not an upgrade when [authenticate] refuses, and the hello is answered by
    [handshake], or the connection is closed. *)
Section gateway.
Context (validateToken : gostring -> bool) (sum256 : list byte -> list byte) (now : Z) (random : list byte) (agentID : gostring) (w : world).
Context (unauthorized closed : gostring).

Definition gateway_dial (url authorization : gostring) : option gostring :=
  match authenticate authorization validateToken with Some _ => None | None => Some unauthorized end.

Definition gateway_answer (token : gostring) (hello : list byte) : result gostring (list byte) :=
  match handshake sum256 defaultHeartbeatInterval now token (Some hello) (Some random) (Some (Ok agentID)) w with
  | Registered _ _ m _ => Ok (m_Data m)
  | Refused _ => Err closed
  end.

Definition the_gateway (token host os arch : gostring) : surroundings :=
  mkSurroundings gateway_dial (fun _ => None) (gateway_answer token) host os arch.
End gateway.

(** ** Lemmas *)

Lemma authenticate_bearer validateToken token :
  TrimSpace token = token -> HasPrefix token ($"tkn_") = true ->
  authenticate ($"Bearer " ++ token) validateToken = if validateToken token then Some token else None.
Proof.
  intros Ht Hp. unfold authenticate.
  assert (Htrim : TrimPrefix ($"Bearer " ++ token) ($"Bearer ") = token).
  { unfold TrimPrefix, HasPrefix. rewrite bool_decide_eq_true_2 by (by eexists). apply drop_app_length. }
  rewrite Htrim, Ht, Hp. by destruct (validateToken token).
Qed.

(** C26 (round trip).  An agent that is configured as it should be gets through: with a
    token the gateway accepts, [Connect] reports the session under which the gateway
    has registered the agent, for the agent ID and the hash of the token, with an
    empty queue of 32 messages, and starts between 1 and 64 workers; with a token the
    gateway does not accept it fails at the dial and reports no session. *)
Theorem agent_connects (config : Config) (validateToken : gostring -> bool) (sum256 : list byte -> list byte) (now : Z)
    (random : list byte) (agentID : gostring) (w : world) (unauthorized closed host os arch : gostring) (ended : session_end) :
  TrimSpace (Token config) = Token config -> HasPrefix (Token config) ($"tkn_") = true ->
  GatewayURL config <> [] -> MaxConcurrentRequests config <= maxConcurrentRequests ->
  let sr := the_gateway validateToken sum256 now random agentID w unauthorized closed (Token config) host os arch in
  (validateToken (Token config) = true ->
     exists n sid hello w', open_connection config sr = Ok (n, sid) /\ 1 <= n <= maxConcurrentRequests
       /\ handshake sum256 defaultHeartbeatInterval now (Token config) (Some (client_hello (AgentVersion config) host os arch)) (Some random)
            (Some (Ok agentID)) w = Registered sid agentID hello w'
       /\ registered_as sid agentID (hex_encode (sum256 (Token config))) w'
       /\ Connect config sr ended = (Some sid, end_error ended))
  /\ (validateToken (Token config) = false -> Connect config sr ended = (None, Some (ConnectToGateway unauthorized))).
Proof.
  intros Ht Hp Hu Hmax sr. assert (Hne : Token config <> []) by (intros He; by rewrite He in Hp).
  assert (Hn : exists n, max_concurrent (MaxConcurrentRequests config) = Some n /\ 1 <= n <= maxConcurrentRequests).
  { unfold max_concurrent, maxConcurrentRequests, defaultMaxConcurrentRequests in *.
    destruct (MaxConcurrentRequests config <=? 0) eqn:E; [by exists 16 |]. destruct (64 <? _) eqn:E'; [lia |]. eexists. split; [done | lia]. }
  destruct Hn as (n & Hn & Hrange).
  destruct (hello_exchange sum256 now (Token config) (AgentVersion config) host os arch agentID random w) as (sid & hello & w' & Hh & _ & Hacc & Hreg).
  assert (Hopen : open_connection config sr = if validateToken (Token config) then Ok (n, sid) else Err (ConnectToGateway unauthorized)).
  { unfold open_connection. rewrite !bool_decide_eq_false_2 by done. cbn [orb]. rewrite Hn. cbn [sr the_gateway sr_dial sr_write sr_read sr_hostname sr_GOOS sr_GOARCH].
    unfold gateway_dial, gateway_answer. rewrite authenticate_bearer by done. destruct (validateToken (Token config)); [|done]. by rewrite Hh, Hacc. }
  unfold Connect. rewrite Hopen. split; intros ->; [|done]. by exists n, sid, hello, w'.
Qed.

(** A call that did not end in the queueing of a job has failed. *)
Lemma attempt_of_fails config call : call.2 <> CancelledAtQueue -> keeps_failing (attempt_of config false false call).
Proof.
  intros Hc. unfold attempt_of, Connect. destruct (open_connection config call.1) as [[n sid]|e]; [|by split_and!].
  destruct call.2; by split_and!.
Qed.

(** Successful sessions do not reset the wait: whatever sessions the
    calls of [Connect] had in between, and however long they lasted, as long as each
    ends because the connection was lost or a message was refused, the waits between
    the calls are 1, 2, 4, 8, 16, 30, 30, ... seconds, and the reported metrics
    always say one or no active session, with connections being disconnections plus
    active sessions. *)
Theorem waits_ignore_sessions (config : Config) (calls : list (surroundings * session_end)) :
  Forall (fun call => call.2 <> CancelledAtQueue) calls ->
  let s := Run New (attempt_of config false false <$> calls) in
  rs_delays s = (fun i => Z.min (Second * 2 ^ Z.of_nat i) (30 * Second)) <$> seq 0 (length calls) /\ Forall metrics_ok (rs_reported s).
Proof.
  intros Hc s. destruct (reconnect_backoff (attempt_of config false false <$> calls)) as (_ & Hd & Hm). split; [|exact Hm].
  rewrite <- (length_fmap (attempt_of config false false)). apply Hd. apply list.Forall_fmap.
  eapply list.Forall_impl; [exact Hc |]. intros call. apply attempt_of_fails.
Qed.

(** ** A sample *)

Definition sample_config : Config := mkConfig ($"ws://localhost:8080/api/v1/agent/connect") ($"tkn_abc") ($"0.1.0") ($"3000") 0.
Definition sample_gateway : surroundings :=
  the_gateway (fun t => bool_decide (t = $"tkn_abc")) (fun _ => []) 0 (replicate 18 Byte.x07) ($"agt_1") (cw initial) ($"401") ($"closed")
    (Token sample_config) ($"host-1") ($"linux") ($"amd64").

Lemma agent_connects_witness :
  exists n sid, open_connection sample_config sample_gateway = Ok (n, sid) /\ n = 16 /\ sid = $"ses_BwcHBwcHBwcHBwcHBwcHBwcH".
Proof.
  destruct (agent_connects sample_config (fun t => bool_decide (t = $"tkn_abc")) (fun _ => []) 0 (replicate 18 Byte.x07) ($"agt_1")
              (cw initial) ($"401") ($"closed") ($"host-1") ($"linux") ($"amd64") CancelledAtQueue) as [Hok _];
    [by vm_compute | by vm_compute | done | by vm_compute |].
  destruct Hok as (n & sid & hello & w' & Ho & _); [by vm_compute |]. exists n, sid. split; [exact Ho |].
  vm_compute in Ho. injection Ho as <- <-. by split.
Defined.

Lemma waits_ignore_sessions_witness :
  let s := Run New (attempt_of sample_config false false <$> replicate 7 (sample_gateway, ReadFailed ($"EOF"))) in
  rs_delays s = (Z.mul Second) <$> [1; 2; 4; 8; 16; 30; 30] /\ ConnectionsTotal (rs_metrics s) = 7.
Proof.
  destruct (waits_ignore_sessions sample_config (replicate 7 (sample_gateway, ReadFailed ($"EOF")))) as [Hd _]; [by repeat constructor |].
  split; [rewrite Hd; by vm_compute | by vm_compute].
Defined.
