(* ===== verification/Multiplex.v ===== *)
(** * Many requests on one connection

    The public handlers of a session queue their messages from goroutines of their
    own, and so do the jobs of the agent: on the wire the streams of different
    requests are interleaved.  This file shows that they do not interfere: whatever
    the interleaving, each end assembles from it what it would assemble from each
    stream alone. *)

From S2P Require Import Prelude GoStrings Headers Frame ChunkAssembler Json Messages Reader.
From S2P Require Import SessionManager SessionSteps AgentConnect LocalHTTP AgentClient PublicHandler EndToEnd.
From S2P Require Registry RateLimiter PublicHost.

(** ** Interleavings *)

(** [merges ls ms]: [ms] is made of the lists [ls], each in its order. *)
Inductive merges {A} : list (list A) -> list A -> Prop :=
| merges_done ls : Forall (fun l => l = []) ls -> merges ls []
| merges_take i x l ls ms : ls !! i = Some (x :: l) -> merges (<[i := l]> ls) ms -> merges ls (x :: ms).

(** A machine that consumes messages, and streams that each go through stages of
    their own: if every message of every stream can be consumed whenever it is its
    turn, every interleaving can. *)
Section machine.
Context {M S D : Type} (consume : list M -> S -> option S) (remaining : D -> list M) (inv : list D -> S -> Prop).
Context (consume_nil : forall s, consume [] s = Some s).
Context (consume_cons : forall m ms s, consume (m :: ms) s = consume [m] s ≫= consume ms).
Context (advance : forall ds s i d m rest, inv ds s -> ds !! i = Some d -> remaining d = m :: rest ->
           exists d' s', consume [m] s = Some s' /\ remaining d' = rest /\ inv (<[i := d']> ds) s').

Lemma merges_consumed ls ms : merges ls ms -> forall ds s, ls = remaining <$> ds -> inv ds s ->
  exists ds' s', consume ms s = Some s' /\ inv ds' s' /\ Forall (fun d => remaining d = []) ds'.
Proof.
  induction 1 as [ls Hnil|i m l ls ms Hi _ IH]; intros ds s -> Hinv.
  - exists ds, s. split_and!; auto. by apply list.Forall_fmap in Hnil.
  - apply list_lookup_fmap_Some in Hi as (d & Hd & Hi).
    destruct (advance ds s i d m l Hinv Hi (eq_sym Hd)) as (d' & s1 & Hc & Hr & Hinv').
    destruct (IH (<[i := d']> ds) s1) as (ds' & s' & Hms & Hs' & Hall).
    + by rewrite list_fmap_insert, Hr.
    + done.
    + exists ds', s'. split_and!; auto. rewrite consume_cons, Hc. exact Hms.
Qed.
End machine.

(** ** The stages of a stream *)

(** Nothing was sent, the start and [k] chunks were sent, or everything was. *)
Inductive stage := Unsent | Sent (k : nat) | Ended.

(** The messages left of a stream that consists of [start], chunks and [end]. *)
Definition left_of (start : OutboundMessage) (type : byte) (id : gostring) (ps : list (list byte)) (last : OutboundMessage)
    (s : stage) : list OutboundMessage :=
  match s with
  | Unsent => start :: chunk_messages type id 0 ps ++ [last]
  | Sent k => chunk_messages type id (Z.of_nat k) (drop k ps) ++ [last]
  | Ended => []
  end.

(** The next message of a stream, and the stage after it. *)
Lemma left_of_cases start type id ps last s m rest :
  left_of start type id ps last s = m :: rest ->
  (s = Unsent /\ m = start /\ rest = left_of start type id ps last (Sent 0))
  \/ (exists k p, s = Sent k /\ ps !! k = Some p /\ [m] = chunk_messages type id (Z.of_nat k) [p]
        /\ rest = left_of start type id ps last (Sent (S k)))
  \/ (exists k, s = Sent k /\ drop k ps = [] /\ m = last /\ rest = left_of start type id ps last Ended).
Proof.
  destruct s as [|k|]; cbn [left_of]; [intros [= <- <-]; by left | | done].
  destruct (drop k ps) as [|p ps'] eqn:Hd; cbn [chunk_messages app]; intros [= <- <-]; right.
  - right. by exists k.
  - left. exists k, p. split_and!; auto.
    + rewrite <- (Nat.add_0_r k), <- lookup_drop, Hd. done.
    + replace (drop (S k) ps) with ps' by (by rewrite <- Nat.add_1_r, <- drop_drop, Hd).
      by replace (Z.of_nat (S k)) with (Z.of_nat k + 1) by lia.
Qed.

Definition is_unsent (s : stage) : bool := match s with Unsent => true | _ => false end.
Definition is_ended (s : stage) : bool := match s with Ended => true | _ => false end.

(** What a table holds for streams in their stages: an entry for each open stream,
    beside the entries of others. *)
Record table_of {A D} (id : D -> gostring) (entry : D -> nat -> A) (base : gmap gostring A)
    (ds : list (D * stage)) (t : gmap gostring A) : Prop := mkTableOf {
  tbl_stream : forall i d s, ds !! i = Some (d, s) -> t !! id d = match s with Sent k => Some (entry d k) | _ => None end;
  tbl_other : forall k, k ∉ (fun x => id x.1) <$> ds -> t !! k = base !! k;
  tbl_size : (size t + length (filter (fun x => is_unsent x.2 = true) ds) <= size base + length ds)%nat
}.

Lemma list_split_at {A} (l : list A) i x :
  l !! i = Some x -> exists l1 l2, l = l1 ++ x :: l2 /\ forall y, <[i := y]> l = l1 ++ y :: l2.
Proof.
  intros Hi. exists (take i l), (drop (S i) l). split; [by rewrite take_drop_middle |].
  intros y. rewrite insert_take_drop; [done |]. by eapply lookup_lt_Some.
Qed.

Section table.
Context {A D : Type} (id : D -> gostring) (entry : D -> nat -> A) (base : gmap gostring A).
Abbreviation keys ds := ((fun x => id x.1) <$> ds).
Abbreviation tbl := (table_of id entry base).

Lemma keys_insert (ds : list (D * stage)) i d s s' : ds !! i = Some (d, s) -> keys (<[i := (d, s')]> ds) = keys ds.
Proof. intros (l1 & l2 & -> & Hy)%list_split_at. by rewrite Hy, !fmap_app. Qed.

Lemma keys_other (ds : list (D * stage)) i j d s d' s' :
  NoDup (keys ds) -> ds !! i = Some (d, s) -> ds !! j = Some (d', s') -> i <> j -> id d <> id d'.
Proof.
  intros Hnd Hi Hj Hij Heq. apply Hij. eapply NoDup_lookup; [exact Hnd | |].
  - by rewrite list_lookup_fmap, Hi.
  - rewrite list_lookup_fmap, Hj. cbn. by rewrite Heq.
Qed.

(** One stream moves on, and with it the entry under its ID only. *)
Lemma table_moves ds t t' i d s s' :
  NoDup (keys ds) -> tbl ds t -> ds !! i = Some (d, s) ->
  t' !! id d = match s' with Sent k => Some (entry d k) | _ => None end ->
  (forall k, k <> id d -> t' !! k = t !! k) ->
  (size t' + (if is_unsent s' then 1 else 0) <= size t + (if is_unsent s then 1 else 0))%nat ->
  tbl (<[i := (d, s')]> ds) t'.
Proof.
  intros Hnd [H1 H2 H3] Hi Hd Ho Hsz. split.
  - intros j d0 s0 Hj. destruct (decide (i = j)) as [->|Hij].
    + rewrite list_lookup_insert_eq in Hj by (by eapply lookup_lt_Some). by injection Hj as <- <-.
    + rewrite list_lookup_insert_ne in Hj by done. rewrite Ho; [by eapply H1 |].
      intros Heq. eapply (keys_other ds i j d s d0 s0); [done | done | done | done | by symmetry].
  - intros k. rewrite (keys_insert ds i d s s') by done. intros Hk. rewrite Ho; [by apply H2 |].
    intros ->. apply Hk, list_elem_of_fmap. exists (d, s). split; [done |]. by eapply list_elem_of_lookup_2.
  - destruct (list_split_at ds i _ Hi) as (l1 & l2 & -> & Hy). rewrite Hy.
    rewrite list.filter_app, list.filter_cons, !length_app in H3. rewrite list.filter_app, list.filter_cons, !length_app. cbn [snd length] in *.
    destruct s, s'; cbn [is_unsent] in *; repeat case_decide; cbn [length] in *; congruence || lia.
Qed.

Lemma table_starts ds t i d :
  NoDup (keys ds) -> tbl ds t -> ds !! i = Some (d, Unsent) ->
  t !! id d = None /\ (size t < size base + length ds)%nat
  /\ tbl (<[i := (d, Sent 0)]> ds) (<[id d := entry d 0]> t).
Proof.
  intros Hnd Ht Hi. pose proof (tbl_stream _ _ _ _ _ Ht i d _ Hi) as Hd. split; [done |]. split.
  - destruct Ht as [_ _ H3]. destruct (list_split_at ds i _ Hi) as (l1 & l2 & -> & _).
    rewrite list.filter_app, filter_cons_True, !length_app in H3 by done. rewrite length_app. cbn [length] in *. lia.
  - eapply table_moves; [exact Hnd | exact Ht | exact Hi | by rewrite lookup_insert_eq | intros; by rewrite lookup_insert_ne |].
    rewrite map_size_insert_None by done. cbn. lia.
Qed.

Lemma table_grows ds t i d k :
  NoDup (keys ds) -> tbl ds t -> ds !! i = Some (d, Sent k) ->
  t !! id d = Some (entry d k) /\ tbl (<[i := (d, Sent (S k))]> ds) (<[id d := entry d (S k)]> t).
Proof.
  intros Hnd Ht Hi. pose proof (tbl_stream _ _ _ _ _ Ht i d _ Hi) as Hd. split; [done |].
  eapply table_moves; [exact Hnd | exact Ht | exact Hi | by rewrite lookup_insert_eq | intros; by rewrite lookup_insert_ne |].
  rewrite map_size_insert_Some by (by rewrite Hd). cbn. lia.
Qed.

Lemma table_ends ds t i d k :
  NoDup (keys ds) -> tbl ds t -> ds !! i = Some (d, Sent k) ->
  t !! id d = Some (entry d k) /\ tbl (<[i := (d, Ended)]> ds) (delete (id d) t).
Proof.
  intros Hnd Ht Hi. pose proof (tbl_stream _ _ _ _ _ Ht i d _ Hi) as Hd. split; [done |].
  eapply table_moves; [exact Hnd | exact Ht | exact Hi | by rewrite lookup_delete_eq | intros; by rewrite lookup_delete_ne |].
  rewrite map_size_delete_Some by (by rewrite Hd). cbn. lia.
Qed.

Lemma table_initial (xs : list D) :
  (forall d, d ∈ xs -> base !! id d = None) -> tbl ((fun d => (d, Unsent)) <$> xs) base.
Proof.
  intros Hnone. split; [|done|].
  - intros i d s (x & [= -> ->] & Hx)%list_lookup_fmap_Some. apply Hnone. by eapply list_elem_of_lookup_2.
  - rewrite length_fmap. enough (length (filter (fun x => is_unsent x.2 = true) ((fun d => (d, Unsent)) <$> xs)) <= length xs)%nat by lia.
    rewrite <- (length_fmap (fun d => (d, Unsent)) xs). apply length_filter.
Qed.

Lemma table_final ds t : tbl ds t -> Forall (fun x => x.2 = Ended) ds -> (forall x, x ∈ ds -> base !! id x.1 = None) -> t = base.
Proof.
  intros [H1 H2 _] Hall Hnone. apply map_eq. intros k. destruct (decide (k ∈ keys ds)) as [Hk|Hk]; [|by apply H2].
  apply list_elem_of_fmap in Hk as ([d s] & -> & Hx). rewrite (Hnone _ Hx). cbn [fst].
  apply list_elem_of_lookup in Hx as [i Hi]. rewrite (H1 i d s Hi).
  pose proof (Forall_lookup_1 _ _ _ _ Hall Hi) as Hs. cbn in Hs. by subst s.
Qed.
End table.

Lemma ended_insert {D} (ds : list (D * stage)) i d k x :
  ds !! i = Some (d, Sent k) -> (x, Ended) ∈ <[i := (d, Ended)]> ds <-> x = d \/ (x, Ended) ∈ ds.
Proof.
  intros (l1 & l2 & -> & Hy)%list_split_at. rewrite Hy, !elem_of_app, !elem_of_cons. split.
  - intros [H|[[= ->]|H]]; auto.
  - intros [->|[H|[[=]|H]]]; auto.
Qed.

Lemma unended_insert {D} (ds : list (D * stage)) i d s s' x :
  is_ended s = false -> is_ended s' = false -> ds !! i = Some (d, s) -> (x, Ended) ∈ <[i := (d, s')]> ds <-> (x, Ended) ∈ ds.
Proof.
  intros Hs Hs' (l1 & l2 & -> & Hy)%list_split_at. rewrite Hy, !elem_of_app, !elem_of_cons.
  split; (intros [H|[[= -> <-]|H]]; [by left | done | by right; right]).
Qed.

(** ** Responses *)

(** A sender whose queue has room for everything. *)
Definition open_sender : sender := mkSender (fun _ => true) 0 [].

(** A job of the agent, the announcement of its response and the chunks it sends. *)
Record rstream := mkRStream { rs_job : http_client * Request; rs_p : httpResponsePayload; rs_ps : list (list byte) }.

Definition rs_id (d : rstream) : gostring := ar_RequestID (rs_p d).
Definition rs_start (d : rstream) : OutboundMessage :=
  mkOutbound MessageText (envelope httpResponseStartType (Some (enc_httpResponsePayload (rs_p d)))).
Definition rs_left (x : rstream * stage) : list OutboundMessage :=
  left_of (rs_start x.1) ResponseBodyChunk (rs_id x.1) (rs_ps x.1) (end_of_response (rs_id x.1)) x.2.
Definition rs_entry (d : rstream) (k : nat) : responseAssembly :=
  mkAssembly (response_on_wire (rs_p d)) (u32 (Z.of_nat k)) (concat (take k (rs_ps d))).
Definition rs_response (d : rstream) : Response :=
  mkResponse (ar_StatusCode (rs_p d)) (default ∅ (coerce_header <$> ar_Headers (rs_p d))) (concat (rs_ps d))
    (coerce (ar_Error (rs_p d))).

Definition rs_ok (d : rstream) : Prop :=
  response_sendable (rs_p d) /\ id_ok (rs_id d) /\ Forall chunk_ok (rs_ps d)
  /\ zlen (concat (rs_ps d)) <= maxTunnelResponseBodyBytes
  /\ (ar_ContentLength (rs_p d) = -1 \/ ar_ContentLength (rs_p d) = 0 /\ rs_ps d = []).

(** What a job sends is such a stream. *)
Lemma job_stream client addr q :
  id_ok (q_ID q) -> addr <> [] -> local_ok client addr q ->
  exists d, rs_job d = (client, q) /\ rs_ok d /\ rs_id d = q_ID q /\ rs_response d = expected_response client addr q
    /\ sd_sent (job client addr q open_sender) = rs_left (d, Unsent).
Proof.
  intros Hid Ha Hok. unfold expected_response, local_ok in *.
  destruct (local_roundtrip client addr q) as [[[status h] stream]|e] eqn:Hl.
  - destruct Hok as (Hst & Hk & Hlen).
    destruct (job_sends client addr q open_sender status h stream Hid ltac:(done) Ha Hl) as (ps & Hps & Hcat & ->).
    exists (mkRStream (client, q) (mkhttpResponse (q_ID q) status (Some (agent_withoutHopByHopHeaders h)) (-1) []) ps).
    unfold rs_ok, rs_response, rs_id. cbn. rewrite Hcat. split_and!; auto;
      (split_and!; cbn; unfold min_int64, max_int64 in *; (lia || done)).
  - rewrite (job_sends_error client addr q open_sender e ltac:(done) Ha Hl).
    exists (mkRStream (client, q) (mkhttpResponse (q_ID q) 502 None 0 e) []).
    unfold rs_ok, rs_response, rs_id. cbn. split_and!; auto; try (by vm_compute);
      (split_and!; cbn; unfold min_int64, max_int64 in *; (lia || done)).
Qed.

Section responses.
Context (hasAgents canOpen : bool) (sid : gostring) (st0 : serving) (c0 : cstate).
Context (c0_inv : inv c0) (c0_world : cw c0 = sv_world st0).

Definition gateway_consume (ms : list OutboundMessage) (st : serving) : option serving :=
  match serveSession hasAgents canOpen sid (inbound <$> ms) st with Continue st => Some st | _ => None end.

Lemma gateway_consume_cons m ms st : gateway_consume (m :: ms) st = gateway_consume [m] st ≫= gateway_consume ms.
Proof.
  unfold gateway_consume. cbn [fmap list_fmap serveSession].
  by destruct (serve_turn hasAgents canOpen sid (inbound m) st) as [[]|].
Qed.

(** The world when the responses marked as ended have been delivered: their
    requests wait no more, their channels hold their responses, and nothing else
    changed. *)
Record world_at (ds : list (rstream * stage)) (w : world) : Prop := mkWorldAt {
  wa_waiting : forall k, (forall d, (d, Ended) ∈ ds -> rs_id d <> k) -> pending (mgr w) !! k = pending (mgr (sv_world st0)) !! k;
  wa_answered : forall d, (d, Ended) ∈ ds -> pending (mgr w) !! rs_id d = None;
  wa_response : forall d p, (d, Ended) ∈ ds -> pending (mgr (sv_world st0)) !! rs_id d = Some p ->
    respq w !! p_response p = Some (mkChan 1 [rs_response d]);
  wa_channels : forall l, (forall d p, (d, Ended) ∈ ds -> pending (mgr (sv_world st0)) !! rs_id d = Some p -> p_response p <> l) ->
    respq w !! l = respq (sv_world st0) !! l;
  wa_rest : outq w = outq (sv_world st0) /\ sessions (mgr w) = sessions (mgr (sv_world st0))
    /\ cancelled w = cancelled (sv_world st0)
}.

Lemma world_at_ext ds ds' w : (forall d, (d, Ended) ∈ ds' <-> (d, Ended) ∈ ds) -> world_at ds w -> world_at ds' w.
Proof.
  intros He [H1 H2 H3 H4 H5]. split; [| | | |done].
  - intros k Hk. apply H1. intros d Hd. apply Hk. by apply He.
  - intros d Hd. by apply H2, He.
  - intros d p Hd. by apply H3, He.
  - intros l Hl. apply H4. intros d p Hd. by apply Hl, He.
Qed.

(** Two waiting requests never share a channel. *)
Lemma pending_apart k k' p p' :
  pending (mgr (sv_world st0)) !! k = Some p -> pending (mgr (sv_world st0)) !! k' = Some p' ->
  k <> k' -> p_response p <> p_response p'.
Proof.
  rewrite <- c0_world. intros Hp Hp' Hne Heq. apply (inv_pend _ c0_inv) in Hp, Hp'. rewrite Heq in Hp. congruence.
Qed.

Lemma world_at_deliver ds i d k c w b w' :
  NoDup ((fun x => rs_id x.1) <$> ds) -> ds !! i = Some (d, Sent k) -> inv c -> cw c = w -> world_at ds w ->
  DeliverResponse (rs_id d) (rs_response d) w = Returns b w' -> world_at (<[i := (d, Ended)]> ds) w'.
Proof.
  intros Hnd Hi Hc Hw Hat Hdel. pose proof (fun x => ended_insert ds i d k x Hi) as Hend.
  assert (Hnew : forall x, (x, Ended) ∈ ds -> rs_id x <> rs_id d).
  { intros x [j Hj]%list_elem_of_lookup. eapply (keys_other rs_id ds j i); [done | done | done |]. intros ->. congruence. }
  pose proof Hat as [H1 H2 H3 H4 H5]. pose proof (H1 (rs_id d) Hnew) as Hd.
  unfold DeliverResponse, DeliverResponse_take in Hdel.
  destruct (pending (mgr w) !! rs_id d) as [p|] eqn:Hp.
  - unfold send_response in Hdel. cbn [set_mgr respq] in Hdel.
    assert (Hq : respq w !! p_response p = Some (mkChan 1 [])).
    { rewrite <- Hw. apply (inv_empty c Hc), elem_of_app. left. apply pending_locs_elem. exists (rs_id d), p. by rewrite Hw. }
    rewrite Hq in Hdel. injection Hdel as <- <-. split.
    + intros k' Hk'. cbn. rewrite lookup_delete_ne by (apply Hk', Hend; by left). apply H1. intros x Hx. apply Hk', Hend; auto.
    + intros x [->|Hx]%Hend; cbn; [apply lookup_delete_eq |]. rewrite lookup_delete_ne by (by apply not_eq_sym, Hnew). by apply H2.
    + intros x p' [->|Hx]%Hend Hp'; cbn.
      * assert (p' = p) as -> by congruence. by rewrite lookup_insert_eq.
      * rewrite lookup_insert_ne; [by apply H3 |]. symmetry in Hd. eapply (pending_apart _ _ _ _ Hd Hp'). by apply not_eq_sym, Hnew.
    + intros l Hl. cbn. rewrite lookup_insert_ne; [|apply (Hl d); [apply Hend; by auto | congruence]].
      apply H4. intros x p' Hx. apply Hl, Hend; auto.
    + by cbn.
  - injection Hdel as <- <-. split; [| | | |done].
    + intros k' Hk'. apply H1. intros x Hx. apply Hk', Hend; auto.
    + intros x [->|Hx]%Hend; [done | by apply H2].
    + intros x p' [->|Hx]%Hend Hp'; [congruence | by apply H3].
    + intros l Hl. apply H4. intros x p' Hx. apply Hl, Hend; auto.
Qed.

(** The state of the loop while the streams are in their stages. *)
Record served_at (xs : list rstream) (ds : list (rstream * stage)) (st : serving) : Prop := mkServedAt {
  sa_streams : ds.*1 = xs;
  sa_table : table_of rs_id rs_entry (sv_responses st0) ds (sv_responses st);
  sa_world : world_at ds (sv_world st);
  sa_inv : exists c, inv c /\ cw c = sv_world st;
  sa_rest : sv_written st = sv_written st0 /\ sv_touched st = sv_touched st0
}.

Context (xs : list rstream) (xs_ok : Forall rs_ok xs) (xs_ids : NoDup (rs_id <$> xs)).
Context (xs_room : (size (sv_responses st0) + length xs <= maxPendingResponseStreams)%nat).

Lemma take_snoc {A} (l : list A) k x : l !! k = Some x -> take (S k) l = take k l ++ [x].
Proof. intros H. by erewrite take_S_r. Qed.

Lemma served_advance ds st i x m rest :
  served_at xs ds st -> ds !! i = Some x -> rs_left x = m :: rest ->
  exists x' st', gateway_consume [m] st = Some st' /\ rs_left x' = rest /\ served_at xs (<[i := x']> ds) st'.
Proof.
  intros [Hxs Ht Hw (c & Hc & Hcw) Hr] Hi Hm. destruct x as [d s].
  assert (Hok : rs_ok d).
  { eapply (Forall_lookup_1 _ xs i); [exact xs_ok |]. by rewrite <- Hxs, list_lookup_fmap, Hi. }
  assert (Hnd : NoDup ((fun x => rs_id x.1) <$> ds)) by (rewrite <- Hxs, <- list_fmap_compose in xs_ids; exact xs_ids).
  assert (Hlen : length ds = length xs) by (by rewrite <- Hxs, length_fmap).
  assert (Hkeep : forall s', (<[i := (d, s')]> ds).*1 = xs).
  { intros s'. rewrite list_fmap_insert. cbn. rewrite list_insert_id; [done |]. by rewrite list_lookup_fmap, Hi. }
  destruct Hok as (Hsend & Hid & Hps & Hmax & Hcl). unfold rs_left in Hm. cbn [fst snd] in Hm.
  apply left_of_cases in Hm as [(-> & -> & ->) | [(k & p & -> & Hp & Hmsg & ->) | (k & -> & Hdone & -> & ->)]].
  - destruct (table_starts _ _ _ ds _ i d Hnd Ht Hi) as (Hnone & Hroom & Ht').
    eexists (d, Sent 0), _. unfold gateway_consume, rs_start. cbn [fmap list_fmap].
    rewrite serve_response_start; auto; [|change maxTunnelResponseBodyBytes with 33554432; lia | lia].
    split; [reflexivity |]. split; [done |]. split; cbn [set_responses sv_responses sv_world sv_written sv_touched]; eauto.
    eapply world_at_ext; [|exact Hw]. intros x. eapply unended_insert; [| |exact Hi]; done.
  - destruct (table_grows _ _ _ ds _ i d k Hnd Ht Hi) as (Hsome & Ht').
    assert (Hcl' : ar_ContentLength (rs_p d) = -1).
    { destruct Hcl as [?|[_ Hnil]]; [done |]. by rewrite Hnil in Hp. }
    assert (Hlen' : zlen (concat (take k (rs_ps d))) + zlen (concat [p]) <= maxTunnelResponseBodyBytes).
    { rewrite <- (take_drop (S k) (rs_ps d)), (take_snoc _ _ _ Hp), !concat_app, !zlen_app in Hmax.
      pose proof (zlen_nonneg (concat (drop (S k) (rs_ps d)))). lia. }
    eexists (d, Sent (S k)), _. unfold gateway_consume. rewrite Hmsg.
    erewrite (serve_response_chunks _ _ _ _ [p]); [| done | | exact Hsome | exact Hcl' | exact Hlen'].
    2: { constructor; [|done]. by eapply Forall_lookup_1. }
    split; [reflexivity |]. split; [done |].
    split; cbn [set_responses sv_responses sv_world sv_written sv_touched]; eauto.
    + unfold rs_entry in Ht'. rewrite (take_snoc _ _ _ Hp), concat_app in Ht'.
      by replace (Z.of_nat k + zlen [p]) with (Z.of_nat (S k)) by (unfold zlen; cbn; lia).
    + eapply world_at_ext; [|exact Hw]. intros x. eapply unended_insert; [| |exact Hi]; done.
  - destruct (table_ends _ _ _ ds _ i d k Hnd Ht Hi) as (Hsome & Ht').
    assert (Hall : take k (rs_ps d) = rs_ps d) by (rewrite <- (take_drop k (rs_ps d)) at 2; by rewrite Hdone, app_nil_r).
    destruct (serve_response_end hasAgents canOpen sid (rs_id d) (rs_entry d k) st c) as (b & w' & Hd & Hserve); auto.
    { unfold rs_entry. cbn. rewrite Hall. destruct Hcl as [?|[Hcl Hnil]]; [by left |]. right. by rewrite Hcl, Hnil. }
    unfold rs_entry in Hd. cbn [asm_payload asm_body response_on_wire hr_StatusCode hr_Headers hr_Error] in Hd.
    rewrite Hall in Hd. change (mkResponse _ _ _ _) with (rs_response d) in Hd.
    eexists (d, Ended), _. unfold gateway_consume. cbn [fmap list_fmap]. unfold end_of_response. rewrite Hserve.
    split; [reflexivity |]. split; [done |]. split; cbn [sv_responses sv_world sv_written sv_touched]; auto.
    + by eapply world_at_deliver.
    + destruct (DeliverResponse_reaches c (rs_id d) (rs_response d) Hc) as (b2 & w2 & Hd2 & c2 & Hsteps & Hc2).
      rewrite Hcw, Hd in Hd2. injection Hd2 as <- <-. exists c2. split; [by eapply inv_steps | done].
Qed.

Lemma served_initial : (forall d, d ∈ xs -> sv_responses st0 !! rs_id d = None) ->
  served_at xs ((fun d => (d, Unsent)) <$> xs) st0.
Proof.
  intros Hnone. assert (Hno : forall d, ~ (d, Ended) ∈ (fun d : rstream => (d, Unsent)) <$> xs).
  { intros d (x & [=] & _)%list_elem_of_fmap. }
  split; [| by apply table_initial | | by exists c0 | done].
  - rewrite <- list_fmap_compose. apply list_fmap_id.
  - split; [done | | | done | done]; intros d; intros; by destruct (Hno d).
Qed.
End responses.

(** The responses of several jobs, in whatever way their messages are interleaved. *)
Definition answerable (addr : gostring) (st : serving) (j : http_client * Request) : Prop :=
  id_ok (q_ID j.2) /\ local_ok j.1 addr j.2 /\ sv_responses st !! q_ID j.2 = None.

(** The streams of such jobs, with what they are to deliver. *)
Lemma jobs_streams addr st jobs :
  addr <> [] -> Forall (answerable addr st) jobs ->
  exists xs, Forall rs_ok xs /\ length xs = length jobs /\ q_ID <$> jobs.*2 = rs_id <$> xs
    /\ (forall d, d ∈ xs -> sv_responses st !! rs_id d = None)
    /\ (forall j, j ∈ jobs -> exists d, d ∈ xs /\ rs_id d = q_ID j.2 /\ rs_response d = expected_response j.1 addr j.2)
    /\ (forall d, d ∈ xs -> exists j, j ∈ jobs /\ q_ID j.2 = rs_id d)
    /\ ((fun j => sd_sent (job j.1 addr j.2 open_sender)) <$> jobs) = (fun d => rs_left (d, Unsent)) <$> xs.
Proof.
  intros Ha. induction 1 as [|[client q] jobs (Hid & Hok & Hnone) _ (xs & Hxs & Hlen & Hids & Hno & Hof & Hback & Hms)].
  - exists []. split_and!; auto; intros ? H; by apply elem_of_nil in H.
  - destruct (job_stream client addr q Hid Ha Hok) as (d & _ & Hd & Hdid & Hresp & Hsent). exists (d :: xs).
    split_and!; [by constructor | by cbn; f_equal | by cbn; f_equal | | | | by cbn; f_equal].
    + intros x [->|Hx]%elem_of_cons; [by rewrite Hdid | by apply Hno].
    + intros j [->|Hj]%elem_of_cons; [exists d; split; [by left | done] |].
      destruct (Hof j Hj) as (x & Hx & ?). exists x. split; [by right | done].
    + intros x [->|Hx]%elem_of_cons; [exists (client, q); split; [by left | done] |].
      destruct (Hback x Hx) as (j & Hj & ?). exists j. split; [by right | done].
Qed.

(** Responses do not interfere: when the jobs of up to 32 requests
    with different IDs send their responses at the same time, then in whatever way
    their messages are interleaved on the connection the gateway accepts all of them
    and goes on; each request that is waiting finds in its channel exactly the
    response of its own local service, and waits no more; every other request,
    channel and queue is as it was, and no stream is left open. *)
Theorem responses_interleave (hasAgents canOpen : bool) (sid addr : gostring) (jobs : list (http_client * Request))
    (ms : list OutboundMessage) (st : serving) (c : cstate)
    (Haddr : addr <> []) (Hids : NoDup (q_ID <$> jobs.*2)) (Hjobs : Forall (answerable addr st) jobs)
    (Hroom : (size (sv_responses st) + length jobs <= maxPendingResponseStreams)%nat)
    (Hc : reachable c) (Hw : cw c = sv_world st)
    (Hms : merges ((fun j => sd_sent (job j.1 addr j.2 open_sender)) <$> jobs) ms) :
  exists w', serveSession hasAgents canOpen sid (inbound <$> ms) st
             = Continue (mkServing w' (sv_responses st) (sv_written st) (sv_touched st))
    /\ (forall j p, j ∈ jobs -> pending (mgr (sv_world st)) !! q_ID j.2 = Some p ->
          respq w' !! p_response p = Some (mkChan 1 [expected_response j.1 addr j.2]))
    /\ (forall k, pending (mgr w') !! k
          = if bool_decide (k ∈ q_ID <$> jobs.*2) then None else pending (mgr (sv_world st)) !! k)
    /\ (forall l, (forall j p, j ∈ jobs -> pending (mgr (sv_world st)) !! q_ID j.2 = Some p -> p_response p <> l) ->
          respq w' !! l = respq (sv_world st) !! l)
    /\ outq w' = outq (sv_world st) /\ sessions (mgr w') = sessions (mgr (sv_world st)) /\ cancelled w' = cancelled (sv_world st).
Proof.
  destruct (jobs_streams addr st jobs Haddr Hjobs) as (xs & Hxs & Hlen & Hkeys & Hnone & Hof & Hback & Hsent).
  pose proof (inv_reachable _ Hc) as Hinv. rewrite Hkeys in Hids |- *. rewrite <- Hlen in Hroom. rewrite Hsent in Hms.
  destruct (merges_consumed (gateway_consume hasAgents canOpen sid) rs_left (served_at st xs) ltac:(done)
              (gateway_consume_cons hasAgents canOpen sid)
              (served_advance hasAgents canOpen sid st c Hinv Hw xs Hxs Hids Hroom) _ _ Hms ((fun d => (d, Unsent)) <$> xs) st)
    as (ds & st' & Hrun & [Hds Ht Hat _ [Hwr Hto]] & Hall); [by rewrite <- list_fmap_compose | by eapply served_initial |].
  assert (Hend : Forall (fun x => x.2 = Ended) ds).
  { eapply list.Forall_impl; [exact Hall |]. intros [d [|k|]]; [done | | done]. cbn. by destruct (chunk_messages _ _ _ _). }
  assert (Hin : forall d, (d, Ended) ∈ ds <-> d ∈ xs).
  { intros d. rewrite <- Hds, list_elem_of_fmap. split; [by exists (d, Ended) |]. intros ([d' s] & -> & Hx).
    rewrite list.Forall_forall in Hend. pose proof (Hend _ Hx) as Hs. cbn in Hs. by subst s. }
  assert (Hbase : sv_responses st' = sv_responses st).
  { eapply table_final; [exact Ht | done |]. intros x Hx. apply Hnone. rewrite <- Hds. by apply list_elem_of_fmap_2. }
  exists (sv_world st'). destruct Hat as [H1 H2 H3 H4 H5]. split_and!; try apply H5.
  - unfold gateway_consume in Hrun. destruct (serveSession _ _ _ _ _); [|done..]. injection Hrun as ->.
    destruct st'. cbn in *. by subst.
  - intros j p Hj Hp. destruct (Hof j Hj) as (d & Hd & Hid & <-). rewrite <- Hid in Hp. apply H3; [by apply Hin | done].
  - intros k. case_bool_decide as Hk.
    + apply list_elem_of_fmap in Hk as (d & -> & Hd). by apply H2, Hin.
    + apply H1. intros d Hd%Hin Heq. apply Hk. rewrite <- Heq. by apply list_elem_of_fmap_2.
  - intros l Hl. apply H4. intros d p Hd%Hin Hp. destruct (Hback d Hd) as (j & Hj & Hid). apply (Hl j p Hj). by rewrite Hid.
Qed.

(** ** Requests *)

(** A public request, what it finds at the gateway, and the random bytes of its ID. *)
Record public := mkPublic {
  pb_now : Z; pb_random : list byte; pb_id : gostring; pb_r : http_request; pb_stream : body_stream;
  pb_wait : waiting; pb_gateway : gateway; pb_tunnel : Registry.ActiveTunnel
}.

Section requests.
Context (lower : Z -> Z) (baseDomain : gostring).

Definition pb_data (x : public) : list byte := (content (pb_stream x)).1.

(** The messages its handler queues for the agent before it waits for the response;
    a cancellation offered after that wait is not among them. *)
Definition pb_messages (x : public) : list OutboundMessage :=
  sd_sent (g_sender (ServeHTTP lower baseDomain (pb_now x) (Some (pb_random x)) (pb_r x) (pb_stream x) (pb_wait x) (pb_gateway x)).2).

Definition pb_forwarded (x : public) : Request := forwarded_request lower (pb_r x) (pb_id x) (pb_data x).

(** The hypotheses under which one request is delivered. *)
Record forwardable (st : client_state) (x : public) : Prop := mkForwardable {
  fw_admitted : admitted lower baseDomain (pb_tunnel x) (pb_now x) (pb_random x) (pb_id x) (pb_r x) (pb_gateway x);
  fw_body : (content (pb_stream x)).2 = EOF;
  fw_length : zlen (pb_data x) <= maxTunnelBodyBytes;
  fw_announced : r_ContentLength (pb_r x) = -1 \/ r_ContentLength (pb_r x) = zlen (pb_data x);
  fw_keys : valid_keys (r_Header (pb_r x));
  fw_new : pendingRequests st !! pb_id x = None
}.

(** A request with the chunks its body arrives in. *)
Record qstream := mkQStream { qs_public : public; qs_ps : list (list byte) }.

Definition qs_id (d : qstream) : gostring := pb_id (qs_public d).
Definition qs_payload (d : qstream) : HTTPRequestPayload :=
  let r := pb_r (qs_public d) in
  mkHTTPRequest (qs_id d) (r_Method r) (r_RequestURI r) (Some (publicRequestHeaders lower r (qs_id d))) (r_ContentLength r).
Definition qs_left (x : qstream * stage) : list OutboundMessage :=
  left_of (mkOutbound MessageText (start_message lower (qs_id x.1) (pb_r (qs_public x.1)))) RequestBodyChunk (qs_id x.1)
    (qs_ps x.1) (end_of_request (qs_id x.1)) x.2.
Definition qs_entry (d : qstream) (k : nat) : httpRequestPayload * chunkAssembler :=
  (request_on_wire (qs_payload d),
   mkAssembler (r_ContentLength (pb_r (qs_public d))) (u32 (Z.of_nat k)) (concat (take k (qs_ps d)))).

Definition qs_ok (d : qstream) : Prop :=
  request_sendable (qs_payload d) /\ id_ok (qs_id d) /\ Forall chunk_ok (qs_ps d) /\ concat (qs_ps d) = pb_data (qs_public d)
  /\ (r_ContentLength (pb_r (qs_public d)) = -1 \/ r_ContentLength (pb_r (qs_public d)) = zlen (pb_data (qs_public d))).

Lemma public_stream st x :
  forwardable st x -> exists d, qs_public d = x /\ qs_ok d /\ pb_messages x = qs_left (d, Unsent).
Proof.
  intros [Hadm Hbody Hlen Hann Hkeys _]. unfold pb_messages.
  destruct (ServeHTTP_admitted _ _ _ _ _ _ _ (pb_stream x) (pb_wait x) _ Hadm) as (limiter & sd0 & Hw & Hs0 & ->).
  assert (Hido : id_ok (pb_id x)) by (by eapply publicRequestID_ok; apply Hadm).
  destruct (sendRequestBody_chunks (pb_id x) (pb_stream x) sd0 Hido Hw) as (ps & sd1 & Hps & Hcat & Hw1 & Hs & Hsend).
  pose proof (max_content_within (pb_stream x) maxTunnelBodyBytes (pb_data x)) as Hmc.
  rewrite Hmc in Hsend, Hcat by (unfold pb_data in *; rewrite <- ?Hbody; auto; by destruct (content (pb_stream x))).
  cbn [fst snd] in Hsend, Hcat. rewrite Hsend.
  destruct (offer_willing (end_of_request (pb_id x)) sd1 Hw1) as [Ho2 _]. rewrite Ho2. cbn [snd].
  cbn [fst snd called g_sender]. rewrite finish_sent. cbn [g_sender sd_sent]. rewrite Hs, Hs0. exists (mkQStream x ps). split; [done |]. split; [|done].
  unfold qs_ok, qs_payload, qs_id. cbn. split_and!; auto. pose proof (zlen_nonneg (pb_data x)).
  change maxTunnelBodyBytes with 33554432 in Hlen.
  split; [unfold min_int64, max_int64; cbn; lia | by apply publicRequestHeaders_keys].
Qed.

Definition agent_consume (ms : list OutboundMessage) (st : client_state) : option client_state :=
  match read_loop ms st with Next st => Some st | Leave _ _ => None end.

Lemma agent_consume_cons m ms st : agent_consume (m :: ms) st = agent_consume [m] st ≫= agent_consume ms.
Proof. unfold agent_consume. cbn [read_loop]. by destruct (read_turn false m st). Qed.

Context (st0 : client_state).

(** The jobs queued for the streams that ended, in the order of their ends. *)
Record queued_at (order : list qstream) (st : client_state) : Prop := mkQueuedAt {
  qa_jobs : queued st = queued st0 ++ ((fun d => pb_forwarded (qs_public d)) <$> order);
  qa_cancel : forall i d, order !! i = Some d -> activeCancels st !! qs_id d = Some (length (queued st0) + i)%nat;
  qa_others : forall k, k ∉ qs_id <$> order -> activeCancels st !! k = activeCancels st0 !! k;
  qa_rest : cancelledJobs st = cancelledJobs st0 /\ c_sender st = c_sender st0
}.

Record read_at (xs : list qstream) (ds : list (qstream * stage)) (st : client_state) : Prop := mkReadAt {
  ra_streams : ds.*1 = xs;
  ra_table : table_of qs_id qs_entry (pendingRequests st0) ds (pendingRequests st);
  ra_queue : exists order, order ≡ₚ (filter (fun x => is_ended x.2 = true) ds).*1 /\ queued_at order st
}.

Lemma queued_at_snoc order d st st' :
  qs_id d ∉ qs_id <$> order -> queued_at order st ->
  queued st' = queued st ++ [pb_forwarded (qs_public d)] ->
  activeCancels st' = <[qs_id d := length (queued st)]> (activeCancels st) ->
  cancelledJobs st' = cancelledJobs st -> c_sender st' = c_sender st ->
  queued_at (order ++ [d]) st'.
Proof.
  intros Hnew [H1 H2 H3 [H4 H5]] Hq Ha Hc Hs. split; [| | | by rewrite Hc, Hs].
  - by rewrite Hq, H1, fmap_app, app_assoc.
  - intros i x Hx. rewrite Ha. destruct (decide (i < length order)%nat) as [Hi|Hi].
    + rewrite lookup_app_l in Hx by done. rewrite lookup_insert_ne; [by apply H2 |].
      intros Heq. apply Hnew. rewrite Heq. apply list_elem_of_fmap_2. by eapply list_elem_of_lookup_2.
    + rewrite lookup_app_r in Hx by lia. apply list_lookup_singleton_Some in Hx as [Hi0 <-].
      rewrite lookup_insert_eq, H1, length_app, length_fmap. f_equal. lia.
  - intros k Hk. rewrite fmap_app, not_elem_of_app in Hk. destruct Hk as [Hk Hkd]. rewrite Ha, lookup_insert_ne; [by apply H3 |].
    intros Heq. apply Hkd. rewrite <- Heq. by left.
Qed.

Context (xs : list qstream) (xs_ok : Forall qs_ok xs) (xs_ids : NoDup (qs_id <$> xs)).
Context (xs_room : (size (pendingRequests st0) + length xs <= maxPendingRequestStreams)%nat).

Lemma read_advance ds st i x m rest :
  read_at xs ds st -> ds !! i = Some x -> qs_left x = m :: rest ->
  exists x' st', agent_consume [m] st = Some st' /\ qs_left x' = rest /\ read_at xs (<[i := x']> ds) st'.
Proof.
  intros [Hxs Ht (order & Hperm & Hq)] Hi Hm. destruct x as [d s].
  assert (Hok : qs_ok d) by (eapply (Forall_lookup_1 _ xs i); [exact xs_ok |]; by rewrite <- Hxs, list_lookup_fmap, Hi).
  assert (Hnd : NoDup ((fun x => qs_id x.1) <$> ds)) by (rewrite <- Hxs, <- list_fmap_compose in xs_ids; exact xs_ids).
  assert (Hlen : length ds = length xs) by (by rewrite <- Hxs, length_fmap).
  assert (Hkeep : forall s', (<[i := (d, s')]> ds).*1 = xs).
  { intros s'. rewrite list_fmap_insert. cbn. rewrite list_insert_id; [done |]. by rewrite list_lookup_fmap, Hi. }
  assert (Hsame : forall s', is_ended s = false -> is_ended s' = false ->
            order ≡ₚ (filter (fun x => is_ended x.2 = true) (<[i := (d, s')]> ds)).*1).
  { intros s' Hs Hs'. rewrite Hperm. destruct (list_split_at ds i _ Hi) as (l1 & l2 & -> & ->).
    rewrite !list.filter_app, !filter_cons_False; [done | cbn; congruence..]. }
  destruct Hok as (Hsend & Hid & Hps & Hcat & Hcl). unfold qs_left in Hm. cbn [fst snd] in Hm.
  apply left_of_cases in Hm as [(-> & -> & ->) | [(k & p & -> & Hp & Hmsg & ->) | (k & -> & Hdone & -> & ->)]].
  - destruct (table_starts _ _ _ ds _ i d Hnd Ht Hi) as (Hnone & Hroom & Ht').
    eexists (d, Sent 0), _. unfold agent_consume. cbn [read_loop].
    change (start_message lower (qs_id d) (pb_r (qs_public d)))
      with (Envelope HTTPRequestStart (Some (enc_HTTPRequestPayload (qs_payload d)))).
    rewrite (read_start (qs_payload d)); [|done | done | cbn; pose proof (zlen_nonneg (pb_data (qs_public d))); lia | done | lia].
    split; [reflexivity |]. split; [done |]. split; [by apply Hkeep | exact Ht' |]. exists order. split; [by apply Hsame |].
    by destruct Hq.
  - destruct (table_grows _ _ _ ds _ i d k Hnd Ht Hi) as (Hsome & Ht').
    eexists (d, Sent (S k)), _. unfold agent_consume. rewrite Hmsg.
    erewrite (read_request_chunks (qs_id d) [p]); [| done | | exact Hsome | ].
    2: { constructor; [|done]. by eapply Forall_lookup_1. }
    2: { rewrite <- Hcat, <- (take_drop (S k) (qs_ps d)), (take_snoc _ _ _ Hp), !concat_app, !zlen_app in Hcl.
         pose proof (zlen_nonneg (concat (drop (S k) (qs_ps d)))). lia. }
    split; [reflexivity |]. split; [done |]. split; [by apply Hkeep | | exists order; split; [by apply Hsame | by destruct Hq]].
    unfold qs_entry in Ht'. rewrite (take_snoc _ _ _ Hp), concat_app in Ht'. cbn [set_pendingRequests pendingRequests].
    by replace (Z.of_nat k + zlen [p]) with (Z.of_nat (S k)) by (unfold zlen; cbn; lia).
  - destruct (table_ends _ _ _ ds _ i d k Hnd Ht Hi) as (Hsome & Ht').
    assert (Hall : take k (qs_ps d) = qs_ps d) by (rewrite <- (take_drop k (qs_ps d)) at 2; by rewrite Hdone, app_nil_r).
    unfold qs_entry in Hsome. rewrite Hall, Hcat in Hsome.
    eexists (d, Ended), _. unfold agent_consume. cbn [read_loop].
    erewrite read_end; [|done | exact Hsome | lia]. split; [reflexivity |]. split; [done |].
    split; [by apply Hkeep | exact Ht' |]. exists (order ++ [d]).
    assert (Hnew : qs_id d ∉ qs_id <$> order).
    { intros (x & Heq & Hx)%list_elem_of_fmap. rewrite Hperm in Hx. apply list_elem_of_fmap in Hx as ([x' s'] & -> & Hx).
      apply list_elem_of_filter in Hx as [Hs' [j Hj]%list_elem_of_lookup].
      eapply (keys_other qs_id ds i j d _ x' s'); [done | done | done | | done]. intros ->. rewrite Hi in Hj. by simplify_eq. }
    split.
    + rewrite Hperm. destruct (list_split_at ds i _ Hi) as (l1 & l2 & -> & ->).
      rewrite !list.filter_app, filter_cons_False, filter_cons_True, !fmap_app by done. cbn [fmap list_fmap fst].
      rewrite (Permutation_app_comm _ [d]). cbn [app]. apply Permutation_middle.
    + eapply queued_at_snoc; [done | exact Hq | | | done | done]; cbn [queued activeCancels request_on_wire aq_RequestID aq_Method
        aq_Path aq_Headers qs_payload hq_RequestID hq_Method hq_Path hq_Headers fmap option_fmap option_map default from_option];
        destruct Hid as [_ Hu]; unfold pb_forwarded, forwarded_request; by rewrite Hu.
Qed.
End requests.

(** The streams of public requests that can all be forwarded. *)
Lemma public_streams lower baseDomain st reqs :
  Forall (forwardable lower baseDomain st) reqs ->
  exists xs, Forall (qs_ok lower) xs /\ qs_public <$> xs = reqs
    /\ pb_messages lower baseDomain <$> reqs = (fun d => qs_left lower (d, Unsent)) <$> xs.
Proof.
  induction 1 as [|x reqs Hx _ (xs & Hxs & Hpub & Hms)]; [by exists [] |].
  destruct (public_stream lower baseDomain st x Hx) as (d & Hd & Hok & Hm). exists (d :: xs).
  rewrite !fmap_cons. split_and!; [by constructor | by rewrite Hd, Hpub | by rewrite Hm, Hms].
Qed.


(** ** Examples *)

(** The interleaving that takes its messages from the lists named by [sched]. *)
Fixpoint weave {A} (sched : list nat) (ls : list (list A)) : option (list A) :=
  match sched with
  | [] => if forallb (fun l => match l with [] => true | _ => false end) ls then Some [] else None
  | i :: sched => match ls !! i with
                  | Some (x :: l) => cons x <$> weave sched (<[i := l]> ls)
                  | _ => None
                  end
  end.

Lemma weave_merges {A} sched : forall (ls : list (list A)) ms, weave sched ls = Some ms -> merges ls ms.
Proof.
  induction sched as [|i sched IH]; intros ls ms; cbn [weave].
  - destruct (forallb _ ls) eqn:Hall; [|done]. intros [= <-]. constructor. rewrite list.Forall_forall.
    rewrite forallb_forall in Hall. intros l Hl%list_elem_of_In. specialize (Hall l Hl). by destruct l.
  - destruct (ls !! i) as [[|x l]|] eqn:Hi; [done | | done].
    destruct (weave sched (<[i := l]> ls)) as [ms'|] eqn:Hw; [|done]. intros [= <-]. econstructor; eauto.
Qed.

Definition demo_request2 : Request := LocalHTTP.mkRequest ($"req_2") ($"GET") ($"/b") ∅ [].
Definition plain_service (body : gostring) : http_client :=
  mkClient (fun _ _ => None) (fun _ _ _ _ => Ok (200, ∅, (fun b => ([b], None)) <$> body)).
Definition demo_jobs : list (http_client * Request) :=
  [(plain_service ($"abc"), demo_request); (plain_service ($"xy"), demo_request2)].

Lemma plain_answerable body id path :
  id_ok id -> zlen (content ((fun b => ([b], None)) <$> body)).1 <= maxTunnelResponseBodyBytes ->
  local_roundtrip (plain_service body) ($"3000") (LocalHTTP.mkRequest id ($"GET") path ∅ []) = Ok (200, ∅, (fun b => ([b], None)) <$> body) ->
  answerable ($"3000") demo_serving (plain_service body, LocalHTTP.mkRequest id ($"GET") path ∅ []).
Proof.
  intros Hid Hlen Hl. split; [done |]. split; [|done]. unfold local_ok. cbn [fst snd]. rewrite Hl.
  split; [by vm_compute |]. split; [|done]. intros k [v Hv].
  change (agent_withoutHopByHopHeaders ∅) with (withoutHopByHopHeaders ∅) in Hv.
  rewrite withoutHopByHop_lookup in Hv. by destruct (_ || _) in Hv.
Qed.

Lemma demo_answerable : Forall (answerable ($"3000") demo_serving) demo_jobs.
Proof.
  apply list.Forall_cons; split; [|apply list.Forall_cons; split; [|done]];
    (apply plain_answerable; [split; by vm_compute | by vm_compute | reflexivity]).
Qed.

Lemma responses_interleave_witness :
  exists ms w' p, weave [0; 1; 1; 0; 1; 0; 1; 0; 0]%nat ((fun j => sd_sent (job j.1 ($"3000") j.2 open_sender)) <$> demo_jobs) = Some ms
    /\ pending (mgr (cw demo_wait)) !! ($"req_1") = Some p
    /\ serveSession false false ($"ses_1") (inbound <$> ms) demo_serving = Continue (mkServing w' ∅ [] [])
    /\ respq w' !! p_response p = Some (mkChan 1 [mkResponse 200 ∅ ($"abc") []]).
Proof.
  destruct (weave [0; 1; 1; 0; 1; 0; 1; 0; 0]%nat ((fun j => sd_sent (job j.1 ($"3000") j.2 open_sender)) <$> demo_jobs))
    as [ms|] eqn:Hms; [|by vm_compute in Hms].
  destruct (responses_interleave false false ($"ses_1") ($"3000") demo_jobs ms demo_serving demo_wait) as (w' & Hs & Hr & _).
  - done.
  - repeat constructor; set_solver.
  - exact demo_answerable.
  - vm_compute. lia.
  - exact demo_wait_reachable.
  - reflexivity.
  - by eapply weave_merges.
  - exists ms, w'. eexists. split_and!; [done | by vm_compute | exact Hs |].
    apply (Hr (plain_service ($"abc"), demo_request)); [by left | by vm_compute].
Defined.

Definition demo_public (digit : byte) (body : gostring) : public :=
  mkPublic Minute (replicate 12 digit) ($"req_" ++ hex_encode (replicate 12 digit)) (demo_http (-1))
    ((fun b => ([b], None)) <$> body) TimedOut demo_gateway demo_tunnel.

Lemma demo_forwardable : Forall (forwardable (fun r => r) ($"t.io") demo_agent) [demo_public Byte.x01 ($"ab"); demo_public Byte.x02 ($"c")].
Proof.
  apply list.Forall_cons; split; [|apply list.Forall_cons; split; [|done]];
    (split; [by split | reflexivity | by vm_compute | by left | apply demo_keys | reflexivity]).
Qed.

