(* ===== verification/JobScript.v ===== *)
(** * What a job sends, as a dialogue

    A job of the agent talks to its session by sending messages, each of which is
    queued or, when the session is over, refused.  This file turns the job into the
    tree of that dialogue, which does not depend on when the messages are sent: from
    the outcomes of the sends so far it gives the next message, and its depth bounds
    the number of sends. *)

From S2P Require Import Prelude GoStrings Headers Frame ChunkAssembler Json Messages Reader.
From S2P Require Import SessionManager LocalHTTP AgentClient.

(** ** Dialogues *)

Inductive talk (A : Type) := Say (a : A) | Ask (m : OutboundMessage) (k : bool -> talk A).
Arguments Say {A} a.
Arguments Ask {A} m k.

#[global] Instance talk_ret : MRet talk := fun _ a => Say a.
#[global] Instance talk_bind : MBind talk :=
  fun A B f => fix bind t := match t with Say a => f a | Ask m k => Ask m (fun b => bind (k b)) end.

(** The dialogue with a queue. *)
Fixpoint interp {A} (t : talk A) (sd : sender) : A * sender :=
  match t with
  | Say a => (a, sd)
  | Ask m k => let '(b, sd) := offer m sd in interp (k b) sd
  end.

Lemma interp_bind {A B} (f : A -> talk B) (t : talk A) sd :
  interp (t ≫= f) sd = let '(a, sd) := interp t sd in interp (f a) sd.
Proof.
  revert sd. induction t as [a|m k IH]; intros sd; [done |]. cbn [mbind talk_bind interp].
  destruct (offer m sd) as [b sd']. apply IH.
Qed.

(** The number of sends is bounded. *)
Fixpoint depth {A} (t : talk A) : nat :=
  match t with Say _ => 0 | Ask _ k => S (Nat.max (depth (k true)) (depth (k false))) end.

(** What is left after the outcomes [bs]. *)
Fixpoint after {A} (bs : list bool) (t : talk A) : talk A :=
  match bs, t with
  | b :: bs, Ask _ k => after bs (k b)
  | _, t => t
  end.

Definition next_message {A} (t : talk A) : option OutboundMessage :=
  match t with Say _ => None | Ask m _ => Some m end.

(** The messages that were queued. *)
Fixpoint told {A} (bs : list bool) (t : talk A) : list OutboundMessage :=
  match bs, t with
  | b :: bs, Ask m k => (if b then [m] else []) ++ told bs (k b)
  | _, _ => []
  end.

Lemma after_app {A} bs bs' (t : talk A) : after (bs ++ bs') t = after bs' (after bs t).
Proof. revert t. induction bs as [|b bs IH]; intros [a|m k]; cbn; auto; by destruct bs'. Qed.

Lemma told_snoc {A} bs b m (t : talk A) :
  next_message (after bs t) = Some m -> told (bs ++ [b]) t = told bs t ++ (if b then [m] else []).
Proof.
  revert t. induction bs as [|b' bs IH]; intros [a|m' k]; cbn; [done | | done |].
  - intros [= ->]. by rewrite app_nil_r.
  - intros H. by rewrite (IH (k b') H), app_assoc.
Qed.

Lemma depth_after {A} bs b m (t : talk A) :
  next_message (after bs t) = Some m -> (depth (after (bs ++ [b]) t) < depth (after bs t))%nat.
Proof.
  rewrite after_app. destruct (after bs t) as [a|m' k]; cbn; [done |]. intros _.
  destruct b; destruct (k _); cbn; lia.
Qed.

Lemma told_nil {A} bs (t : talk A) : next_message t = None -> told bs t = [].
Proof. destruct t; [by destruct bs | done]. Qed.

(** The outcomes of a queue that answers [bs] and refuses everything after that. *)
Definition answering (bs : list bool) (offset : nat) (n : nat) : bool := default false (bs !! (n - offset)%nat).

Lemma interp_refused {A} (t : talk A) o k ms : (forall n, (k <= n)%nat -> o n = false) -> sd_sent (interp t (mkSender o k ms)).2 = ms.
Proof.
  revert k. induction t as [a|m kt IH]; intros k Ho; [done |]. cbn [interp offer sd_oracle sd_tries]. unfold offer. cbn.
  rewrite Ho by lia. apply IH. intros n Hn. apply Ho. lia.
Qed.

Lemma interp_told {A} bs : forall (t : talk A) o k ms,
  (forall n, (k <= n)%nat -> o n = answering bs k n) -> sd_sent (interp t (mkSender o k ms)).2 = ms ++ told bs t.
Proof.
  induction bs as [|b bs IH]; intros t o k ms Ho.
  - cbn [told]. rewrite app_nil_r. apply interp_refused. intros n Hn. by rewrite Ho.
  - destruct t as [a|m kt]; cbn [interp told]; [by rewrite app_nil_r |]. unfold offer. cbn [sd_oracle sd_tries].
    rewrite (Ho k) by lia. unfold answering. rewrite Nat.sub_diag. cbn [lookup list_lookup default from_option id].
    assert (Ho' : forall n, (S k <= n)%nat -> o n = answering bs (S k) n).
    { intros n Hn. rewrite Ho by lia. unfold answering. by replace (n - k)%nat with (S (n - S k)) by lia. }
    destruct b; rewrite (IH _ _ _ _ Ho'); [by rewrite <- app_assoc | done].
Qed.

(** ** The dialogue of a job *)

Definition say (type : MessageType) (data : list byte) : talk bool := Ask (mkOutbound type data) Say.

Definition sendStart_talk (requestID : gostring) (local : LocalResponse) (sequence : Z) (started : bool) :
    talk (option gostring * (Z * bool)) :=
  ok ← say MessageText (envelope httpResponseStartType (Some (enc_httpResponsePayload
                   (mkhttpResponse requestID (l_StatusCode local) (Some (l_Headers local)) (-1) []))));
  mret (if ok : bool then (None, (sequence, true)) else (Some ($"gateway connection closed"), (sequence, started))).

Definition sendChunk_talk (requestID : gostring) (payload : list byte) (sequence : Z) (started : bool) :
    talk (option gostring * (Z * bool)) :=
  match marshalBinary (mkFrame ResponseBodyChunk requestID sequence payload) with
  | Err e => mret (Some (frame_error_text e), (sequence, started))
  | Ok encoded =>
      ok ← say MessageBinary encoded;
      mret (if ok : bool then (None, (u32 (sequence + 1), started)) else (Some ($"gateway connection closed"), (sequence, started)))
  end.

Fixpoint copy_talk (requestID : gostring) (fuel : nat) (r : body_stream) (sequence : Z) (started : bool) :
    talk (loop_end gostring * (Z * bool)) :=
  match fuel with
  | O => mret (OutOfFuel, (sequence, started))
  | S fuel =>
      let '(p, err, r) := Read localBufferSize r in
      '(ce, (sequence, started)) ← (if bool_decide (p = []) then mret (None, (sequence, started))
                                    else sendChunk_talk requestID p sequence started);
      match ce with
      | Some e => mret (ChunkError e, (sequence, started))
      | None => match err with
                | None => copy_talk requestID fuel r sequence started
                | Some EOF => mret (Copied, (sequence, started))
                | Some e => mret (BodyError e, (sequence, started))
                end
      end
  end.

Definition stream_talk (client : http_client) (localAddress : gostring) (request : Request) : talk (option gostring * bool) :=
  match local_roundtrip client localAddress request with
  | Err e => mret (Some e, false)
  | Ok (status, headers, stream) =>
      '(e, (sequence, started)) ← sendStart_talk (q_ID request) (mkLocal status (agent_withoutHopByHopHeaders headers) []) 0 false;
      match e with
      | Some e => mret (Some e, started)
      | None =>
          '(e, (_, started)) ← copy_talk (q_ID request) (stream_size stream) stream sequence started;
          mret (match e with
                | Copied | OutOfFuel => (None, started)
                | ChunkError e => (Some e, started)
                | BodyError e => (Some ($"read local response: " ++ body_error e), started)
                end)
      end
  end.

Definition job_talk (client : http_client) (localAddress : gostring) (request : Request) : talk unit :=
  if bool_decide (localAddress = []) then mret tt
  else
    '(localErr, started) ← stream_talk client localAddress request;
    _ ← match localErr return talk bool with
        | Some e => if (started : bool) then mret true
                    else say MessageText (envelope httpResponseStartType (Some (enc_httpResponsePayload
                           (mkhttpResponse (q_ID request) 502 None 0 e))))
        | None => mret true
        end;
    _ ← say MessageText (envelope httpResponseEndType (Some (httpResponseEndPayload (q_ID request))));
    mret tt.

(** ** It is what the job does *)

Lemma interp_sendStart requestID local sequence started sd :
  sendStart requestID local (mkJob sequence started sd)
  = let '((e, (sequence, started)), sd) := interp (sendStart_talk requestID local sequence started) sd in (e, mkJob sequence started sd).
Proof.
  unfold sendStart, sendStart_talk, send. cbn [mbind talk_bind say interp j_sender j_sequence j_responseStarted].
  by destruct (offer _ sd) as [[] sd'].
Qed.

Lemma interp_sendChunk requestID p sequence started sd :
  sendChunk requestID p (mkJob sequence started sd)
  = let '((e, (sequence, started)), sd) := interp (sendChunk_talk requestID p sequence started) sd in (e, mkJob sequence started sd).
Proof.
  unfold sendChunk, sendChunk_talk, send. cbn [j_sender j_sequence j_responseStarted].
  destruct (marshalBinary _) as [encoded|e]; [|done]. cbn [mbind talk_bind say interp]. by destruct (offer _ sd) as [[] sd'].
Qed.

Lemma interp_copy requestID fuel : forall r sequence started sd,
  copy_loop (Read localBufferSize) (sendChunk requestID) fuel r (mkJob sequence started sd)
  = let '((e, (sequence, started)), sd) := interp (copy_talk requestID fuel r sequence started) sd in (e, mkJob sequence started sd).
Proof.
  induction fuel as [|fuel IH]; intros r sequence started sd; [done |]. cbn [copy_loop copy_talk].
  destruct (Read localBufferSize r) as [[p err] r']. rewrite interp_bind. case_bool_decide as Hp; [|rewrite interp_sendChunk].
  - cbn [interp mret talk_ret]. destruct err as [[]|]; [done.. | apply IH].
  - destruct (interp (sendChunk_talk requestID p sequence started) sd) as [[[e|] [sequence' started']] sd']; [done |].
    destruct err as [[]|]; [done.. | apply IH].
Qed.

Lemma interp_stream client localAddress request sd :
  (let '(e, s) := StreamLocal (sendStart (q_ID request)) (sendChunk (q_ID request)) client localAddress request (mkJob 0 false sd) in
   (e, j_responseStarted s, j_sender s)) = interp (stream_talk client localAddress request) sd.
Proof.
  unfold StreamLocal, stream_talk. destruct (local_roundtrip client localAddress request) as [[[status headers] stream]|e]; [|done].
  rewrite interp_sendStart, interp_bind.
  destruct (interp (sendStart_talk _ _ 0 false) sd) as [[[e|] [sequence started]] sd1]; [done |].
  rewrite interp_copy, interp_bind. destruct (interp (copy_talk _ _ _ _ _) sd1) as [[e [sequence2 started2]] sd2]. by destruct e.
Qed.

Lemma interp_job client localAddress request sd : job client localAddress request sd = (interp (job_talk client localAddress request) sd).2.
Proof.
  unfold job, job_talk. case_bool_decide as Ha; [done |]. rewrite interp_bind, <- interp_stream.
  destruct (StreamLocal _ _ client localAddress request (mkJob 0 false sd)) as [e [sequence started sd1]].
  cbn [j_responseStarted j_sender]. rewrite interp_bind. unfold send.
  destruct e as [e|]; [destruct started |]; cbn [interp mret talk_ret say mbind talk_bind];
    repeat (match goal with |- context [offer ?m ?s] => is_var s; destruct (offer m s) as [? ?] end; cbn [snd interp mret talk_ret mbind talk_bind]); done.
Qed.
