(* ===== verification/Link.v ===== *)
(** * The goroutines of a session

    A session is served by goroutines on both ends of its connection.  At the
    gateway, [serveSession] writes to the connection and handles what a reading
    goroutine hands it.  At the agent, [Connect] reads messages, queues requests
    for [maxConcurrent] workers, and a writer sends what the workers and the loop
    put into a queue of 32 messages.  All of them wait for each other through
    bounded channels and the bounded buffers of the connection.  This file models
    them as one transition system and shows what its runs can and cannot do. *)

From S2P Require Import Prelude GoStrings Headers Frame ChunkAssembler Json Messages Reader.
From S2P Require Import SessionManager SessionSteps AgentConnect LocalHTTP AgentClient JobScript.

(** ** State *)

Definition outboundQueueCapacity : nat := 32.
Definition readChCapacity : nat := 1.

(** The queue of a session that is still empty. *)
Definition empty_queue : sender := mkSender (fun _ => true) 0 [].

(** The read loop of the agent: the messages it has still to queue and then the job
    it has still to hand to the workers; with neither it waits for a message. *)
Inductive loop := Loop (sends : list OutboundMessage) (job : option (nat * Request)) | Returned.

(** A job that was started: its number in the order of the requests, how the local
    service behaves to it, its request, and the outcomes of the sends it attempted. *)
Record jobrun := mkJobrun { jr_number : nat; jr_client : http_client; jr_request : Request; jr_answers : list bool }.

Definition answered_with (b : bool) (r : jobrun) : jobrun :=
  mkJobrun (jr_number r) (jr_client r) (jr_request r) (jr_answers r ++ [b]).

Inductive worker := Idle | Running (r : jobrun) | Gone.

Inductive writer := WriterIdle | WriterBusy (m : OutboundMessage) | WriterGone.

(** The agent's side, with the history of what was queued, by the loop ([None]) or by
    a job, of the jobs that were finished, and of what the loop read. *)
Record agent_side := mkAgent {
  ag_client : client_state;
  ag_loop : loop;
  ag_jobs : list (nat * Request);
  ag_workers : list worker;
  ag_outbound : list OutboundMessage;
  ag_writer : writer;
  ag_over : bool;                                  (* sessionCtx is done *)
  ag_sent : list (option nat * OutboundMessage);
  ag_done : list jobrun;
  ag_read : list OutboundMessage
}.

(** The gateway's side: the loop with what it has still to write, the message the
    reading goroutine offers, its channel, and the history of what was handled. *)
Record gateway_side := mkGateway {
  gw_serving : serving;
  gw_writing : list OutboundMessage;
  gw_reader : option OutboundMessage;
  gw_readCh : list OutboundMessage;
  gw_over : bool;                                  (* the handler returned *)
  gw_seen : list OutboundMessage
}.

Record link := mkLink { lk_gateway : gateway_side; lk_down : list OutboundMessage; lk_up : list OutboundMessage; lk_agent : agent_side }.

Definition set_client (c : client_state) (a : agent_side) : agent_side :=
  mkAgent c (ag_loop a) (ag_jobs a) (ag_workers a) (ag_outbound a) (ag_writer a) (ag_over a) (ag_sent a) (ag_done a) (ag_read a).
Definition set_loop (l : loop) (a : agent_side) : agent_side :=
  mkAgent (ag_client a) l (ag_jobs a) (ag_workers a) (ag_outbound a) (ag_writer a) (ag_over a) (ag_sent a) (ag_done a) (ag_read a).
Definition set_jobs (js : list (nat * Request)) (a : agent_side) : agent_side :=
  mkAgent (ag_client a) (ag_loop a) js (ag_workers a) (ag_outbound a) (ag_writer a) (ag_over a) (ag_sent a) (ag_done a) (ag_read a).
Definition set_worker (i : nat) (k : worker) (a : agent_side) : agent_side :=
  mkAgent (ag_client a) (ag_loop a) (ag_jobs a) (<[i := k]> (ag_workers a)) (ag_outbound a) (ag_writer a) (ag_over a) (ag_sent a)
    (ag_done a) (ag_read a).
Definition set_outbound (ms : list OutboundMessage) (a : agent_side) : agent_side :=
  mkAgent (ag_client a) (ag_loop a) (ag_jobs a) (ag_workers a) ms (ag_writer a) (ag_over a) (ag_sent a) (ag_done a) (ag_read a).
Definition set_writer (k : writer) (a : agent_side) : agent_side :=
  mkAgent (ag_client a) (ag_loop a) (ag_jobs a) (ag_workers a) (ag_outbound a) k (ag_over a) (ag_sent a) (ag_done a) (ag_read a).
Definition set_over (a : agent_side) : agent_side :=
  mkAgent (ag_client a) (ag_loop a) (ag_jobs a) (ag_workers a) (ag_outbound a) (ag_writer a) true (ag_sent a) (ag_done a) (ag_read a).
Definition add_done (d : jobrun) (a : agent_side) : agent_side :=
  mkAgent (ag_client a) (ag_loop a) (ag_jobs a) (ag_workers a) (ag_outbound a) (ag_writer a) (ag_over a) (ag_sent a) (ag_done a ++ [d]) (ag_read a).

Definition add_read (m : OutboundMessage) (a : agent_side) : agent_side :=
  mkAgent (ag_client a) (ag_loop a) (ag_jobs a) (ag_workers a) (ag_outbound a) (ag_writer a) (ag_over a) (ag_sent a) (ag_done a)
    (ag_read a ++ [m]).

Definition has_space {A} (cap : nat) (l : list A) : bool := Nat.ltb (length l) cap.

(** A [Read] of a connection fails on a message that exceeds its limit. *)
Definition too_long (limit : Z) (m : OutboundMessage) : bool := limit <? zlen (m_Data m).
Definition next_too_long (limit : Z) (wire : list OutboundMessage) : bool :=
  match wire with m :: _ => too_long limit m | [] => false end.

(** ** The agent *)

(** [outbound <- message], by the loop or by a job; [None] while the queue is full. *)
Definition queue_message (from : option nat) (m : OutboundMessage) (a : agent_side) : option agent_side :=
  if has_space outboundQueueCapacity (ag_outbound a)
  then Some (mkAgent (ag_client a) (ag_loop a) (ag_jobs a) (ag_workers a) (ag_outbound a ++ [m]) (ag_writer a) (ag_over a)
               (ag_sent a ++ [(from, m)]) (ag_done a) (ag_read a))
  else None.

Section session.
(** The configured local address, the number of workers, and how many messages the
    connection buffers in each direction. *)
Context (localAddress : gostring) (maxConcurrent capDown capUp : nat).
(** The gateway's session. *)
Context (hasAgents canOpen : bool) (sessionID : gostring).

(** The message a job sends next. *)
Definition script (r : jobrun) : talk unit := job_talk (jr_client r) localAddress (jr_request r).
Definition next_send (r : jobrun) : option OutboundMessage := next_message (after (jr_answers r) (script r)).

(** A turn of the read loop: what it wants to send and the job it wants to queue.  An
    error ends the loop, and the deferred [cancel] the session. *)
Definition loop_read (m : OutboundMessage) (a : agent_side) : agent_side :=
  let st := ag_client a in
  let asking := mkClientState (pendingRequests st) (activeCancels st) (queued st) (cancelledJobs st) empty_queue in
  match read_turn false m asking with
  | Next st' =>
      let job := (fun request => (length (queued st), request)) <$> queued st' !! length (queued st) in
      set_loop (Loop (sd_sent (c_sender st')) job)
        (set_client (mkClientState (pendingRequests st') (activeCancels st') (queued st') (cancelledJobs st') empty_queue) a)
  | Leave _ st' =>
      set_over (set_loop Returned
        (set_client (mkClientState (pendingRequests st') (activeCancels st') (queued st') (cancelledJobs st') empty_queue) a))
  end.

Inductive agent_action :=
| LoopRead | LoopSend | LoopDrop | LoopQueue | LoopStop
| WorkerTake (i : nat) (client : http_client) | WorkerSend (i : nat) | WorkerDrop (i : nat) | WorkerFinish (i : nat) | WorkerStop (i : nat)
| WriterTake | WriterWrite | WriterFail | WriterStop.

(** [closed] says that the gateway has closed the connection.  A [Read] or [Write] on
    a closed connection or with a cancelled context fails, and so does the [Read] of a
    message over the limit. *)
Definition loop_step (act : agent_action) (closed : bool) (down : list OutboundMessage) (a : agent_side) :
    option (list OutboundMessage * agent_side) :=
  match act, ag_loop a, down with
  | LoopRead, Loop [] None, m :: down =>
      if ag_over a || too_long AgentClient.websocketReadLimit m then None else Some (down, loop_read m (add_read m a))
  | LoopSend, Loop (m :: ms) job, _ => (fun a => (down, set_loop (Loop ms job) a)) <$> queue_message None m a
  | LoopDrop, Loop (m :: ms) job, _ => if ag_over a then Some (down, set_loop (Loop ms job) a) else None
  | LoopQueue, Loop [] (Some job), _ =>
      if has_space maxConcurrent (ag_jobs a) then Some (down, set_loop (Loop [] None) (set_jobs (ag_jobs a ++ [job]) a)) else None
  | LoopStop, Loop [] (Some job), _ => if ag_over a then Some (down, set_loop Returned a) else None
  | LoopStop, Loop [] None, _ =>
      if ag_over a || closed || next_too_long AgentClient.websocketReadLimit down then Some (down, set_over (set_loop Returned a)) else None
  | _, _, _ => None
  end.

Definition worker_step (act : agent_action) (a : agent_side) : option agent_side :=
  match act with
  | WorkerTake i client =>
      match ag_workers a !! i, ag_jobs a with
      | Some Idle, (number, request) :: jobs => Some (set_worker i (Running (mkJobrun number client request [])) (set_jobs jobs a))
      | _, _ => None
      end
  | WorkerSend i =>
      match ag_workers a !! i with
      | Some (Running r) =>
          m ← next_send r;
          set_worker i (Running (answered_with true r)) <$> queue_message (Some (jr_number r)) m a
      | _ => None
      end
  | WorkerDrop i =>
      match ag_workers a !! i with
      | Some (Running r) =>
          _ ← next_send r;
          if ag_over a then Some (set_worker i (Running (answered_with false r)) a) else None
      | _ => None
      end
  | WorkerFinish i =>
      match ag_workers a !! i with
      | Some (Running r) =>
          match next_send r with
          | None => Some (add_done r (set_client (job_done (q_ID (jr_request r)) (ag_client a)) (set_worker i Idle a)))
          | Some _ => None
          end
      | _ => None
      end
  | WorkerStop i =>
      match ag_workers a !! i with
      | Some Idle => if ag_over a then Some (set_worker i Gone a) else None
      | _ => None
      end
  | _ => None
  end.

Definition writer_step (act : agent_action) (closed : bool) (up : list OutboundMessage) (a : agent_side) :
    option (list OutboundMessage * agent_side) :=
  match act, ag_writer a with
  | WriterTake, WriterIdle =>
      match ag_outbound a with
      | m :: ms => Some (up, set_writer (WriterBusy m) (set_outbound ms a))
      | [] => None
      end
  | WriterWrite, WriterBusy m => if has_space capUp up then Some (up ++ [m], set_writer WriterIdle a) else None
  | WriterFail, WriterBusy m => if ag_over a || closed then Some (up, set_over (set_writer WriterGone a)) else None
  | WriterStop, WriterIdle => if ag_over a then Some (up, set_writer WriterGone a) else None
  | _, _ => None
  end.

Definition agent_step (act : agent_action) (s : link) : option link :=
  let '(mkLink g down up a) := s in
  match act with
  | LoopRead | LoopSend | LoopDrop | LoopQueue | LoopStop =>
      '(down, a) ← loop_step act (gw_over g) down a; Some (mkLink g down up a)
  | WorkerTake _ _ | WorkerSend _ | WorkerDrop _ | WorkerFinish _ | WorkerStop _ =>
      a ← worker_step act a; Some (mkLink g down up a)
  | WriterTake | WriterWrite | WriterFail | WriterStop =>
      '(up, a) ← writer_step act (gw_over g) up a; Some (mkLink g down up a)
  end.

(** ** The gateway *)

(** A turn of the [select] of [serveSession] that goes on leaves the loop writing
    what the turn writes; one that returns closes the connection. *)
Definition gateway_turn (e : event) (handled : list OutboundMessage) (readCh : list OutboundMessage) (g : gateway_side) :
    option gateway_side :=
  v ← serve_turn hasAgents canOpen sessionID e (gw_serving g);
  match v with
  | Continue st => Some (mkGateway st (drop (length (sv_written (gw_serving g))) (sv_written st)) (gw_reader g) readCh (gw_over g)
                           (gw_seen g ++ handled))
  | Return _ _ st => Some (mkGateway st [] (gw_reader g) readCh true (gw_seen g ++ handled))
  | Stuck _ => None
  end.

Inductive gateway_action :=
| GatewayInbound (now : Z) (opened : result unit TunnelOpenedPayload)
| GatewayOutbound | GatewayTick | GatewayWrite | GatewayRead | GatewayReadFail | GatewayOffer.

Definition gateway_step (act : gateway_action) (s : link) : option link :=
  let '(mkLink g down up a) := s in
  if gw_over g then None
  else match act with
  | GatewayInbound now opened =>
      match gw_writing g, gw_readCh g with
      | [], m :: readCh =>
          g ← gateway_turn (Inbound now (m_Type m) (m_Data m) true opened) [m] readCh g; Some (mkLink g down up a)
      | _, _ => None
      end
  | GatewayOutbound =>
      match gw_writing g with
      | [] => g ← gateway_turn (Outbound true) [] (gw_readCh g) g; Some (mkLink g down up a)
      | _ => None
      end
  | GatewayTick =>
      match gw_writing g with
      | [] => g ← gateway_turn (Tick true) [] (gw_readCh g) g; Some (mkLink g down up a)
      | _ => None
      end
  | GatewayWrite =>
      match gw_writing g with
      | m :: ms =>
          if has_space capDown down
          then Some (mkLink (mkGateway (gw_serving g) ms (gw_reader g) (gw_readCh g) (gw_over g) (gw_seen g)) (down ++ [m]) up a)
          else None
      | [] => None
      end
  | GatewayRead =>
      match gw_reader g, up with
      | None, m :: up =>
          if too_long AgentConnect.websocketReadLimit m then None
          else Some (mkLink (mkGateway (gw_serving g) (gw_writing g) (Some m) (gw_readCh g) (gw_over g) (gw_seen g)) down up a)
      | _, _ => None
      end
  | GatewayReadFail =>
      match gw_reader g with
      | None =>
          if next_too_long AgentConnect.websocketReadLimit up
          then Some (mkLink (mkGateway (gw_serving g) [] None (gw_readCh g) true (gw_seen g)) down up a)
          else None
      | Some _ => None
      end
  | GatewayOffer =>
      match gw_reader g with
      | Some m =>
          if has_space readChCapacity (gw_readCh g)
          then Some (mkLink (mkGateway (gw_serving g) (gw_writing g) None (gw_readCh g ++ [m]) (gw_over g) (gw_seen g)) down up a)
          else None
      | None => None
      end
  end.

(** ** The outside *)

(** Public handlers register and cancel requests and queue messages; either end can
    end the session. *)
Inductive outside_action :=
| Enqueue (m : OutboundMessage) | RegisterOne (requestID : gostring) | CancelOne (requestID : gostring)
| GatewayEnd | AgentEnd.

Definition with_world (w : world) (g : gateway_side) : gateway_side :=
  mkGateway (set_world w (gw_serving g)) (gw_writing g) (gw_reader g) (gw_readCh g) (gw_over g) (gw_seen g).

Definition outside_step (act : outside_action) (s : link) : option link :=
  let '(mkLink g down up a) := s in
  let w := sv_world (gw_serving g) in
  match act with
  | Enqueue m => q ← outbound_of sessionID w; w ← trysend_out q m w; Some (mkLink (with_world w g) down up a)
  | RegisterOne id => Some (mkLink (with_world (RegisterRequest sessionID id w).2 g) down up a)
  | CancelOne id => Some (mkLink (with_world (CancelRequest id w) g) down up a)
  | GatewayEnd => Some (mkLink (mkGateway (gw_serving g) [] (gw_reader g) (gw_readCh g) true (gw_seen g)) down up a)
  | AgentEnd => Some (mkLink g down up (set_over a))
  end.

Inductive action := AgentAct (a : agent_action) | GatewayAct (a : gateway_action) | OutsideAct (a : outside_action).

Definition link_step (act : action) (s : link) : option link :=
  match act with
  | AgentAct act => agent_step act s
  | GatewayAct act => gateway_step act s
  | OutsideAct act => outside_step act s
  end.

(** What the goroutines do on their own: everything but the ticker and the outside. *)
Definition internal (act : action) : bool :=
  match act with GatewayAct GatewayTick | OutsideAct _ => false | _ => true end.
Definition ends_session (act : action) : bool :=
  match act with OutsideAct GatewayEnd | OutsideAct AgentEnd => true | _ => false end.

Definition step_by (P : action -> bool) (s s' : link) : Prop := exists act, P act = true /\ link_step act s = Some s'.

(** A session that has just been set up: [w] is the world in which it was registered. *)
Definition new_session (w : world) : link :=
  mkLink (mkGateway (mkServing w ∅ [] []) [] None [] false []) [] []
    (let open := match open_tunnel localAddress sessionID with Some m => [mkOutbound MessageText m] | None => [] end in
     mkAgent (mkClientState ∅ ∅ [] [] empty_queue) (Loop [] None) [] (replicate maxConcurrent Idle) open WriterIdle false
       ((fun m => (None, m)) <$> open) [] []).
End session.
