(* ===== verification/LinkRuns.v ===== *)
(** * What the goroutines of a session do

    The transition system of [Link] keeps its accounts: in every state it reaches,
    every request the agent has read is waiting for a worker or was started, once
    and in order; what a job has queued is what the sequential [job] sends; and what
    the gateway has handled is a prefix, in order, of what was queued, nothing in
    between being lost while the session is open. *)

From S2P Require Import Prelude GoStrings Headers Frame ChunkAssembler Json Messages Reader.
From S2P Require Import SessionManager SessionSteps AgentConnect LocalHTTP AgentClient JobScript Link.

(** ** Jobs *)

(** The messages a job has queued. *)
Definition from_job (n : nat) (sent : list (option nat * OutboundMessage)) : list OutboundMessage :=
  (filter (fun x => x.1 = Some n) sent).*2.

Lemma from_job_app n sent sent' : from_job n (sent ++ sent') = from_job n sent ++ from_job n sent'.
Proof. unfold from_job. by rewrite list.filter_app, fmap_app. Qed.
Lemma from_job_one n from m : from_job n [(from, m)] = if decide (from = Some n) then [m] else [].
Proof. unfold from_job. rewrite filter_cons. cbn. by destruct (decide _). Qed.

(** The accounts of the requests [qs] that the loop has read: each is waiting for a
    worker or was started, in order; what it has queued is what its dialogue says. *)
Record jobs_ok (addr : gostring) (qs : list Request) (waiting : list (nat * Request)) (started : list jobrun)
    (sent : list (option nat * OutboundMessage)) (over : bool) : Prop := mkJobsOk {
  jo_length : (length started <= length qs)%nat;
  jo_waiting : waiting.*1 = seq (length started) (length qs - length started);
  jo_started : jr_number <$> started ≡ₚ seq 0 (length started);
  jo_request_w : forall n q, (n, q) ∈ waiting -> qs !! n = Some q;
  jo_request_s : forall r, r ∈ started -> qs !! jr_number r = Some (jr_request r);
  jo_sent : forall r, r ∈ started -> from_job (jr_number r) sent = told (jr_answers r) (script addr r);
  jo_unsent : forall n, (length started <= n)%nat -> from_job n sent = [];
  jo_success : over = false -> forall r, r ∈ started -> Forall (fun b => b = true) (jr_answers r)
}.

Section accounts.
Context (addr : gostring).
Abbreviation ok := (jobs_ok addr).

Lemma jobs_ok_perm qs waiting started started' sent over : started ≡ₚ started' -> ok qs waiting started sent over -> ok qs waiting started' sent over.
Proof.
  intros Hp [H1 H2 H3 H4 H5 H6 H7 H8]. pose proof (Permutation_length Hp) as Hl. rewrite Hl in *.
  split; auto.
  - etrans; [symmetry; by apply fmap_Permutation | exact H3].
  - intros r. rewrite <- Hp. apply H5.
  - intros r. rewrite <- Hp. apply H6.
  - intros Ho r. rewrite <- Hp. by apply H8.
Qed.

Lemma jobs_ok_over qs waiting started sent over : ok qs waiting started sent over -> ok qs waiting started sent true.
Proof. intros [H1 H2 H3 H4 H5 H6 H7 H8]. by split. Qed.

Lemma jobs_ok_new qs waiting started sent over q :
  ok qs waiting started sent over -> ok (qs ++ [q]) (waiting ++ [(length qs, q)]) started sent over.
Proof.
  intros [H1 H2 H3 H4 H5 H6 H7 H8]. split; auto.
  - rewrite length_app. cbn. lia.
  - rewrite fmap_app, H2, length_app. cbn. rewrite Nat.add_1_r, Nat.sub_succ_l, seq_S by done. do 2 f_equal. lia.
  - intros n q' [Hin|Hin]%elem_of_app; [by apply lookup_app_l_Some, H4 |].
    apply list_elem_of_singleton in Hin as [= -> ->]. apply lookup_snoc_Some. by right.
  - intros r Hr. by apply lookup_app_l_Some, H5.
Qed.

Lemma jobs_ok_take qs n q waiting started sent over client :
  ok qs ((n, q) :: waiting) started sent over -> ok qs waiting (started ++ [mkJobrun n client q []]) sent over.
Proof.
  intros [H1 H2 H3 H4 H5 H6 H7 H8]. rewrite fmap_cons in H2. cbn [fst] in H2.
  assert (Hlt : qs !! n = Some q) by (apply H4; by left).
  destruct (length qs - length started)%nat as [|k] eqn:Hk; [done |]. cbn [seq] in H2. injection H2 as -> H2.
  split; rewrite ?length_app; cbn [length].
  - lia.
  - rewrite H2. replace (length started + 1)%nat with (S (length started)) by lia. f_equal. lia.
  - rewrite fmap_app, Nat.add_1_r, seq_S, Nat.add_0_l, H3. done.
  - intros n' q' Hin. apply H4. by right.
  - intros r [Hr|Hr]%elem_of_app; [by apply H5 |]. apply list_elem_of_singleton in Hr as ->. exact Hlt.
  - intros r [Hr|Hr]%elem_of_app; [by apply H6 |]. apply list_elem_of_singleton in Hr as ->. cbn. by apply H7.
  - intros n' Hn'. apply H7. lia.
  - intros Ho r [Hr|Hr]%elem_of_app; [by apply H8 |]. apply list_elem_of_singleton in Hr as ->. done.
Qed.

(** No two started jobs share a number. *)
Lemma jobs_ok_apart qs waiting started sent over s1 r s2 x :
  ok qs waiting started sent over -> started = s1 ++ r :: s2 -> x ∈ s1 ++ s2 -> jr_number x <> jr_number r.
Proof.
  intros Hok -> Hx Heq. assert (Hnd : NoDup (jr_number <$> s1 ++ r :: s2)) by (rewrite (jo_started _ _ _ _ _ _ Hok); apply NoDup_seq).
  rewrite <- Permutation_middle, fmap_cons in Hnd. apply list.NoDup_cons in Hnd as [Hnd _]. apply Hnd. rewrite <- Heq.
  by apply list_elem_of_fmap_2.
Qed.

Lemma jobs_ok_number qs waiting started sent over r : ok qs waiting started sent over -> r ∈ started -> (jr_number r < length started)%nat.
Proof.
  intros Hok Hr. assert (Hin : jr_number r ∈ seq 0 (length started)).
  { rewrite <- (jo_started _ _ _ _ _ _ Hok). by apply list_elem_of_fmap_2. }
  apply elem_of_seq in Hin. lia.
Qed.

Lemma jobs_ok_answer qs waiting s1 r s2 sent over b m :
  ok qs waiting (s1 ++ r :: s2) sent over -> next_send addr r = Some m -> (over = false -> b = true) ->
  ok qs waiting (s1 ++ answered_with b r :: s2) (sent ++ if b then [(Some (jr_number r), m)] else []) over.
Proof.
  intros Hok Hm Hb. pose proof (fun x => jobs_ok_apart _ _ _ _ _ s1 r s2 x Hok eq_refl) as Hap.
  assert (Hlen : length (s1 ++ answered_with b r :: s2) = length (s1 ++ r :: s2)) by (by rewrite !length_app).
  assert (Hr : r ∈ s1 ++ r :: s2) by (apply elem_of_app; right; by left).
  assert (Hfrom : forall n, n <> jr_number r -> from_job n (if b then [(Some (jr_number r), m)] else []) = []).
  { intros n Hn. destruct b; [|done]. rewrite from_job_one. destruct (decide _); [congruence | done]. }
  pose proof Hok as [H1 H2 H3 H4 H5 H6 H7 H8]. rewrite <- Hlen in H1, H2.
  assert (Hcases : forall x, x ∈ s1 ++ answered_with b r :: s2 -> x = answered_with b r \/ x ∈ s1 ++ s2).
  { intros x. rewrite !elem_of_app, elem_of_cons. tauto. }
  assert (Hkeep : forall x, x ∈ s1 ++ s2 -> x ∈ s1 ++ r :: s2) by (intros x; rewrite !elem_of_app, elem_of_cons; tauto).
  split; auto.
  - rewrite Hlen, <- H3, !fmap_app. done.
  - intros x [->|Hx]%Hcases; [by apply (H5 r) | by apply H5, Hkeep].
  - intros x Hx. rewrite from_job_app. apply Hcases in Hx as [->|Hx].
    + cbn [answered_with jr_number jr_answers]. change (script addr (answered_with b r)) with (script addr r).
      rewrite (H6 r Hr), (told_snoc _ _ m) by exact Hm. f_equal. destruct b; [|done]. rewrite from_job_one. by destruct (decide _).
    + rewrite (H6 x) by auto. rewrite Hfrom; [by rewrite app_nil_r | by apply Hap].
  - intros n Hn. rewrite Hlen in Hn. rewrite from_job_app, H7 by done. rewrite Hfrom; [done |].
    pose proof (jobs_ok_number _ _ _ _ _ _ Hok Hr). lia.
  - intros Ho x [->|Hx]%Hcases; [|by apply H8, Hkeep]. cbn. apply list.Forall_app. split; [by apply H8 | constructor; auto].
Qed.

(** The jobs that wait are the last requests, in order. *)
Lemma jobs_ok_waiting qs waiting started sent over :
  ok qs waiting started sent over -> waiting = imap (fun i q => (length started + i, q)%nat) (drop (length started) qs).
Proof.
  intros [H1 H2 _ H4 _ _ _ _]. apply list_eq. intros i. rewrite list_lookup_imap, lookup_drop.
  assert (Hi : waiting.*1 !! i = seq (length started) (length qs - length started) !! i) by (by rewrite H2).
  rewrite list_lookup_fmap in Hi. destruct (waiting !! i) as [[k q]|] eqn:Hw; cbn in Hi; symmetry in Hi.
  - apply lookup_seq in Hi as [-> Hi]. apply list_elem_of_lookup_2, H4 in Hw. by rewrite Hw.
  - apply lookup_ge_None in Hi. rewrite length_seq in Hi. by rewrite lookup_ge_None_2 by lia.
Qed.

Lemma jobs_ok_loop_sent qs waiting started sent over m : ok qs waiting started sent over -> ok qs waiting started (sent ++ [(None, m)]) over.
Proof.
  intros [H1 H2 H3 H4 H5 H6 H7 H8].
  assert (Hn : forall n, from_job n (sent ++ [(None, m)]) = from_job n sent).
  { intros n. rewrite from_job_app, from_job_one. destruct (decide _); [done | apply app_nil_r]. }
  split; auto; intros; rewrite Hn; auto.
Qed.
End accounts.

(** ** The agent's jobs *)

Definition loop_job (l : loop) : list (nat * Request) := match l with Loop _ (Some j) => [j] | _ => [] end.
Definition running (ws : list worker) : list jobrun :=
  omap (fun k => match k with Running r => Some r | _ => None end) ws.
Definition started (a : agent_side) : list jobrun := ag_done a ++ running (ag_workers a).
Definition waiting (a : agent_side) : list (nat * Request) := ag_jobs a ++ loop_job (ag_loop a).

(** A job that the loop could not queue before the session was over is lost. *)
Definition jobs_inv (addr : gostring) (a : agent_side) : Prop :=
  exists lost, (lost = [] \/ (ag_over a = true /\ ag_loop a = Returned))
    /\ jobs_ok addr (queued (ag_client a)) (waiting a ++ lost) (started a) (ag_sent a) (ag_over a)
    /\ forall r, r ∈ ag_done a -> next_send addr r = None.

(** A turn of the read loop queues at most one request. *)
Lemma read_turn_queued m st :
  match read_turn false m st with
  | Next st' => queued st' = queued st \/ exists q, queued st' = queued st ++ [q]
  | Leave _ st' => queued st' = queued st
  end.
Proof.
  unfold read_turn. destruct (m_Type m); [| |done].
  - unfold read_text. destruct (Unmarshal _ _ _) as [[type payload]|]; [|done].
    assert (Hp : queued (handle_ping type st) = queued st) by (unfold handle_ping; by case_bool_decide).
    revert Hp. generalize (handle_ping type st). intros st1 Hp. case_bool_decide.
    { unfold handle_start. repeat case_bool_decide; try done. destruct (Nat.leb _ _); [done |]. destruct (newChunkAssembler _); [by left | done]. }
    case_bool_decide.
    { unfold handle_end. destruct (Unmarshal _ _ _) as [id|]; [|done]. destruct (pendingRequests st1 !! id) as [[p asm]|]; [|done].
      destruct (complete asm); [|done]. right. cbn. rewrite Hp. by eexists. }
    case_bool_decide; by left.
  - unfold read_binary. destruct (parseBinaryFrame _) as [f|]; [|done]. case_bool_decide; [done |].
    destruct (pendingRequests st !! _) as [[p asm]|]; [|done]. destruct (add asm f) as [[d asm']|]; [by left | done].
Qed.

Lemma worker_split {A} (ws : list A) i k : ws !! i = Some k -> exists w1 w2, ws = w1 ++ k :: w2 /\ forall k', <[i := k']> ws = w1 ++ k' :: w2.
Proof.
  intros H. exists (take i ws), (drop (S i) ws). split; [symmetry; by apply take_drop_middle |]. intros k'.
  assert (Hl : length (take i ws) = i) by (apply length_take_le, Nat.lt_le_incl; by eapply lookup_lt_Some).
  rewrite <- (take_drop_middle ws i k) at 1 by done. rewrite <- Hl at 1. by rewrite <- (Nat.add_0_r (length _)), insert_app_r.
Qed.

Lemma running_app w1 w2 : running (w1 ++ w2) = running w1 ++ running w2.
Proof. apply omap_app. Qed.

Section jobs.
Context (addr : gostring).

(** Steps that leave the accounts alone. *)
Lemma jobs_inv_frame a a' :
  jobs_inv addr a -> queued (ag_client a') = queued (ag_client a) -> waiting a' = waiting a -> started a' = started a ->
  ag_sent a' = ag_sent a -> ag_done a' = ag_done a -> (ag_over a = true -> ag_over a' = true) -> (ag_loop a = Returned -> ag_loop a' = Returned) ->
  jobs_inv addr a'.
Proof.
  intros (lost & Hl & Hok & Hd) Hq Hw Hs Hse Hdo Ho Hr. exists lost. rewrite Hq, Hw, Hs, Hse, Hdo. split; [naive_solver |]. split; [|done].
  destruct (ag_over a) eqn:E; [rewrite Ho by done | destruct (ag_over a'); [eapply jobs_ok_over|]]; exact Hok.
Qed.

Lemma jobs_inv_open a : jobs_inv addr a -> ag_loop a <> Returned ->
  jobs_ok addr (queued (ag_client a)) (waiting a) (started a) (ag_sent a) (ag_over a) /\ forall r, r ∈ ag_done a -> next_send addr r = None.
Proof. intros (lost & [-> | [_ Hl]] & Hok & Hd) Hn; [by rewrite app_nil_r in Hok | done]. Qed.

Lemma jobs_inv_intro a : jobs_ok addr (queued (ag_client a)) (waiting a) (started a) (ag_sent a) (ag_over a) ->
  (forall r, r ∈ ag_done a -> next_send addr r = None) -> jobs_inv addr a.
Proof. intros Hok Hd. exists []. rewrite app_nil_r. auto. Qed.

Lemma loop_read_jobs m a : ag_loop a = Loop [] None -> jobs_inv addr a -> jobs_inv addr (loop_read m a).
Proof.
  intros Hl Hi. unfold loop_read. set (asking := mkClientState _ _ _ _ empty_queue).
  pose proof (read_turn_queued m asking) as Hq. change (queued asking) with (queued (ag_client a)) in Hq.
  destruct (read_turn false m asking) as [st'|e st'].
  - apply jobs_inv_open in Hi as [Hok Hd]; [|by rewrite Hl]. unfold waiting in Hok. rewrite Hl in Hok. cbn [loop_job] in Hok.
    rewrite app_nil_r in Hok. apply jobs_inv_intro; [|exact Hd]. unfold waiting.
    cbn [set_loop set_client ag_client ag_loop queued ag_jobs ag_sent ag_over started].
    destruct Hq as [-> | [q ->]].
    + rewrite lookup_ge_None_2 by done. cbn [fmap option_fmap option_map loop_job]. by rewrite app_nil_r.
    + rewrite list_lookup_middle by done. cbn [fmap option_fmap option_map loop_job]. by apply jobs_ok_new.
  - eapply jobs_inv_frame; [exact Hi | ..]; try done. unfold waiting. cbn. by rewrite Hl.
Qed.

Lemma queue_message_None m a a' : queue_message None m a = Some a' -> jobs_inv addr a -> jobs_inv addr a'.
Proof.
  unfold queue_message. destruct (has_space _ _); [|done]. intros [= <-] (lost & Hl & Hok & Hd).
  exists lost. split; [done |]. split; [|done]. by apply jobs_ok_loop_sent.
Qed.

Lemma jobs_inv_set_loop a l : jobs_inv addr a -> ag_loop a <> Returned -> loop_job l = loop_job (ag_loop a) -> jobs_inv addr (set_loop l a).
Proof. intros Hi Hn Hl. eapply jobs_inv_frame; [exact Hi | ..]; try done. unfold waiting. cbn. by rewrite Hl. Qed.

Lemma loop_step_jobs n act closed down a down' a' :
  loop_step n act closed down a = Some (down', a') -> jobs_inv addr a -> jobs_inv addr a'.
Proof.
  unfold loop_step. intros Hs Hi. destruct act; try done; destruct (ag_loop a) as [[|m ms] [job|]|] eqn:Hl; try done.
  - destruct down as [|m down]; [done |]. destruct (ag_over a || _); [done |]. injection Hs as _ <-. apply loop_read_jobs; [done |]. by apply jobs_inv_frame with a.
  - destruct (queue_message None m a) as [a1|] eqn:Hq; [|done]. injection Hs as _ <-.
    assert (Hl1 : ag_loop a1 = ag_loop a) by (unfold queue_message in Hq; destruct (has_space _ _); by simplify_eq).
    apply jobs_inv_set_loop; [by eapply queue_message_None | by rewrite Hl1, Hl | by rewrite Hl1, Hl].
  - destruct (queue_message None m a) as [a1|] eqn:Hq; [|done]. injection Hs as _ <-.
    assert (Hl1 : ag_loop a1 = ag_loop a) by (unfold queue_message in Hq; destruct (has_space _ _); by simplify_eq).
    apply jobs_inv_set_loop; [by eapply queue_message_None | by rewrite Hl1, Hl | by rewrite Hl1, Hl].
  - destruct (ag_over a); [|done]. injection Hs as _ <-. apply jobs_inv_set_loop; [done | by rewrite Hl | by rewrite Hl].
  - destruct (ag_over a); [|done]. injection Hs as _ <-. apply jobs_inv_set_loop; [done | by rewrite Hl | by rewrite Hl].
  - destruct (has_space n _); [|done]. injection Hs as _ <-. apply jobs_inv_frame with a; try done.
    + unfold waiting. cbn. by rewrite Hl, app_nil_r.
    + by rewrite Hl.
  - destruct (ag_over a) eqn:Ho; [|done]. injection Hs as _ <-. apply jobs_inv_open in Hi as [Hok Hd]; [|by rewrite Hl].
    exists [job]. split; [right; by split |]. split; [|done]. unfold waiting in *. cbn. rewrite Hl in Hok. by rewrite app_nil_r.
  - destruct (ag_over a || closed || _); [|done]. injection Hs as _ <-. apply jobs_inv_frame with a; try done.
    unfold waiting. cbn. by rewrite Hl.
Qed.

(** Replacing the worker [k] at [i]. *)
Lemma started_worker a i k : ag_workers a !! i = Some k ->
  exists w1 w2, ag_workers a = w1 ++ k :: w2 /\ started a = (ag_done a ++ running w1) ++ running [k] ++ running w2
    /\ forall k', running (<[i := k']> (ag_workers a)) = running w1 ++ running [k'] ++ running w2.
Proof.
  intros (w1 & w2 & He & Hi)%worker_split. exists w1, w2. split; [done |]. unfold started. split.
  - rewrite He, running_app, <- app_assoc. change (k :: w2) with ([k] ++ w2). by rewrite running_app.
  - intros k'. rewrite Hi, running_app. change (k' :: w2) with ([k'] ++ w2). by rewrite running_app.
Qed.

Lemma worker_step_jobs act a a' : worker_step addr act a = Some a' -> jobs_inv addr a -> jobs_inv addr a'.
Proof.
  unfold worker_step. intros Hs (lost & Hl & Hok & Hd).
  destruct act as [| | | | |i client|i|i|i|i| | | |]; try done;
    destruct (ag_workers a !! i) as [[|r|]|] eqn:Hi; try done;
    destruct (started_worker a i _ Hi) as (w1 & w2 & Hw & Hst & Hins); rewrite Hst in Hok.
  - destruct (ag_jobs a) as [|[number q] jobs] eqn:Hj; [done |]. injection Hs as <-.
    exists lost. split; [done |]. split; [|done]. unfold waiting, started in *. cbn. rewrite Hins. rewrite Hj in Hok. cbn in Hok |- *.
    apply jobs_ok_take with (client := client) in Hok. eapply jobs_ok_perm; [|exact Hok].
    rewrite <- !app_assoc. do 2 apply Permutation_app_head. apply Permutation_app_comm.
  - destruct (next_send addr r) as [m|] eqn:Hm; [|done]. cbn [mbind option_bind] in Hs.
    unfold queue_message in Hs. destruct (has_space _ _); [|done]. injection Hs as <-.
    exists lost. split; [done |]. split; [|done]. unfold waiting, started in *. cbn. rewrite Hins, (app_assoc (ag_done a)).
    exact (jobs_ok_answer _ _ _ _ _ _ _ _ true m Hok Hm (fun _ => eq_refl)).
  - destruct (next_send addr r) as [m|] eqn:Hm; [|done]. cbn [mbind option_bind] in Hs.
    destruct (ag_over a) eqn:Ho; [|done]. injection Hs as <-.
    exists lost. split; [cbn; rewrite Ho; naive_solver |]. split; [|done]. unfold waiting, started in *. cbn. rewrite Hins, Ho, (app_assoc (ag_done a)).
    assert (Hb : true = false -> false = true) by done.
    rewrite <- (app_nil_r (ag_sent a)). exact (jobs_ok_answer _ _ _ _ _ _ _ _ false m Hok Hm Hb).
  - destruct (next_send addr r) as [m|] eqn:Hm; [done |]. injection Hs as <-.
    exists lost. split; [done |]. split.
    + unfold waiting, started in *. cbn in *. rewrite Hins. eapply jobs_ok_perm; [|exact Hok].
      rewrite <- !app_assoc. apply Permutation_app_head. symmetry. apply (Permutation_app_swap_app [r]).
    + cbn. intros x [Hx|Hx]%elem_of_app; [by apply Hd |]. by apply list_elem_of_singleton in Hx as ->.
  - destruct (ag_over a) eqn:Ho; [|done]. injection Hs as <-.
    exists lost. split; [cbn; rewrite Ho; naive_solver |]. split; [|done]. unfold waiting, started in *. cbn in *. by rewrite Hins, (app_assoc (ag_done a)), Ho.
Qed.

Lemma writer_step_jobs cap act closed up a up' a' :
  writer_step cap act closed up a = Some (up', a') -> jobs_inv addr a -> jobs_inv addr a'.
Proof.
  unfold writer_step. intros Hs Hi. destruct act; try done; destruct (ag_writer a) as [|m|]; try done.
  - destruct (ag_outbound a); [done |]. injection Hs as _ <-. by apply jobs_inv_frame with a.
  - destruct (has_space _ _); [|done]. injection Hs as _ <-. by apply jobs_inv_frame with a.
  - destruct (_ || _); [|done]. injection Hs as _ <-. by apply jobs_inv_frame with a.
  - destruct (ag_over a); [|done]. injection Hs as _ <-. by apply jobs_inv_frame with a.
Qed.
End jobs.

(** ** The requests are those of the sequential loop *)

(** What a turn does to the requests depends on the requests alone. *)
Definition same_requests (st st' : client_state) : Prop := pendingRequests st = pendingRequests st' /\ queued st = queued st'.
Definition same_verdict (v v' : loop_verdict) : Prop :=
  match v, v' with
  | Next st, Next st' => same_requests st st'
  | Leave e st, Leave e' st' => e = e' /\ same_requests st st'
  | _, _ => False
  end.

Lemma read_turn_same m st st' : same_requests st st' -> same_verdict (read_turn false m st) (read_turn false m st').
Proof.
  intros Hs. unfold read_turn. destruct (m_Type m); [| |done].
  - unfold read_text. destruct (Unmarshal _ _ _) as [[type payload]|]; [|done].
    assert (Hp : same_requests (handle_ping type st) (handle_ping type st')) by (unfold handle_ping; by case_bool_decide).
    revert Hp. generalize (handle_ping type st) (handle_ping type st'). intros s1 s2 Hp. pose proof Hp as [H1 H2]. case_bool_decide.
    { unfold handle_start. rewrite H1. repeat case_bool_decide; try done. destruct (Nat.leb _ _); [done |].
      destruct (newChunkAssembler _); [|done]. by split; cbn; rewrite ?H1. }
    case_bool_decide.
    { unfold handle_end. destruct (Unmarshal _ _ _) as [id|]; [|done]. rewrite H1. destruct (pendingRequests s2 !! id) as [[p asm]|]; [|done].
      destruct (complete asm); [|done]. by split; cbn; rewrite ?H1, ?H2. }
    case_bool_decide; [|done]. by split; cbn; rewrite ?H1, ?H2.
  - unfold read_binary. pose proof Hs as [H1 H2]. rewrite H1. destruct (parseBinaryFrame _) as [f|]; [|done]. case_bool_decide; [done |].
    destruct (pendingRequests st' !! _) as [[p asm]|]; [|done]. destruct (add asm f) as [[d asm']|]; [|done]. by split; cbn; rewrite ?H1, ?H2.
Qed.

Lemma read_loop_snoc ms m st :
  read_loop (ms ++ [m]) st = match read_loop ms st with Next st => read_turn false m st | v => v end.
Proof.
  revert st. induction ms as [|m' ms IH]; intros st; cbn [read_loop app].
  - by destruct (read_turn false m st).
  - destruct (read_turn false m' st) as [st'|]; [apply IH | done].
Qed.

Definition no_requests : client_state := mkClientState ∅ ∅ [] [] empty_queue.

Definition requests_inv (a : agent_side) : Prop :=
  match read_loop (ag_read a) no_requests with
  | Next st => same_requests (ag_client a) st
  | Leave _ st => same_requests (ag_client a) st /\ ag_loop a = Returned
  end.

Lemma requests_inv_frame a a' :
  requests_inv a -> ag_read a' = ag_read a -> same_requests (ag_client a') (ag_client a) -> (ag_loop a = Returned -> ag_loop a' = Returned) ->
  requests_inv a'.
Proof.
  unfold requests_inv. intros Hi -> [H1 H2] Hr. unfold same_requests in *. rewrite H1, H2. destruct (read_loop _ _); naive_solver.
Qed.

Lemma loop_read_requests m a : ag_loop a = Loop [] None -> requests_inv a -> requests_inv (loop_read m (add_read m a)).
Proof.
  intros Hl Hi. unfold requests_inv in Hi. destruct (read_loop (ag_read a) no_requests) as [st|e st] eqn:Hr; [|by rewrite Hl in Hi; destruct Hi].
  unfold loop_read. cbn [add_read ag_client]. set (asking := mkClientState _ _ _ _ empty_queue).
  assert (Hsame : same_requests asking st) by exact Hi. apply (read_turn_same m) in Hsame.
  unfold requests_inv. destruct (read_turn false m asking) as [st1|e1 st1]; cbn [set_loop set_client set_over ag_read ag_loop ag_client add_read];
    rewrite read_loop_snoc, Hr; destruct (read_turn false m st) as [st2|e2 st2]; try done.
  by destruct Hsame as [_ Hsame].
Qed.

Lemma loop_step_requests n act closed down a down' a' :
  loop_step n act closed down a = Some (down', a') -> requests_inv a -> requests_inv a'.
Proof.
  unfold loop_step. intros Hs Hi. destruct act; try done; destruct (ag_loop a) as [[|m ms] [job|]|] eqn:Hl; try done.
  1: { destruct down as [|m down]; [done |]. destruct (ag_over a || _); [done |]. injection Hs as _ <-. by apply loop_read_requests. }
  1-2: unfold queue_message in Hs; destruct (has_space _ _); [|done].
  all: repeat case_match; try done; injection Hs as _ <-; eapply requests_inv_frame; [exact Hi | done..| cbn; congruence].
Qed.

Lemma worker_step_requests addr act a a' : worker_step addr act a = Some a' -> requests_inv a -> requests_inv a'.
Proof.
  unfold worker_step, queue_message. intros Hs Hi. destruct act as [| | | | |i client|i|i|i|i| | | |]; try done;
    destruct (ag_workers a !! i) as [[|r|]|]; try done; repeat case_match; try done; simplify_option_eq; by eapply requests_inv_frame.
Qed.

Lemma writer_step_requests cap act closed up a up' a' : writer_step cap act closed up a = Some (up', a') -> requests_inv a -> requests_inv a'.
Proof.
  unfold writer_step. intros Hs Hi. destruct act; try done; destruct (ag_writer a) as [|m|]; try done;
    repeat case_match; simplify_eq; by eapply requests_inv_frame.
Qed.

(** ** Messages on their way *)

(** What the loop and the workers do to the connection: they read [read] and queue
    [q], within the capacities. *)
Record flow (n : nat) (a a' : agent_side) (read q : list OutboundMessage) : Prop := mkFlow {
  fl_read : ag_read a' = ag_read a ++ read;
  fl_sent : (ag_sent a').*2 = (ag_sent a).*2 ++ q;
  fl_outbound : ag_outbound a' = ag_outbound a ++ q;
  fl_bound : (length (ag_outbound a) <= outboundQueueCapacity -> length (ag_outbound a') <= outboundQueueCapacity)%nat;
  fl_writer : ag_writer a' = ag_writer a;
  fl_over : ag_over a = true -> ag_over a' = true;
  fl_workers : length (ag_workers a') = length (ag_workers a);
  fl_jobs : (length (ag_jobs a) <= n -> length (ag_jobs a') <= n)%nat
}.

Lemma flow_still n a a' :
  ag_read a' = ag_read a -> ag_sent a' = ag_sent a -> ag_outbound a' = ag_outbound a -> ag_writer a' = ag_writer a ->
  (ag_over a = true -> ag_over a' = true) -> length (ag_workers a') = length (ag_workers a) ->
  (length (ag_jobs a) <= n -> length (ag_jobs a') <= n)%nat -> flow n a a' [] [].
Proof. intros H1 H2 H3 H4 H5 H6 H7. split; rewrite ?H1, ?H2, ?H3, ?app_nil_r; auto. Qed.

Lemma has_space_length {A} cap (l : list A) : has_space cap l = true <-> (length l < cap)%nat.
Proof. apply Nat.ltb_lt. Qed.

Lemma flow_queue n from m a a1 a' :
  queue_message from m a = Some a1 -> ag_read a' = ag_read a1 -> ag_sent a' = ag_sent a1 -> ag_outbound a' = ag_outbound a1 ->
  ag_writer a' = ag_writer a1 -> ag_over a' = ag_over a1 -> length (ag_workers a') = length (ag_workers a1) -> ag_jobs a' = ag_jobs a1 ->
  flow n a a' [] [m].
Proof.
  unfold queue_message. destruct (has_space _ _) eqn:Hsp; [|done]. apply has_space_length in Hsp. intros [= <-]. cbn.
  intros H1 H2 H3 H4 H5 H6 H7. split; rewrite ?H1, ?H2, ?H3, ?H4, ?H5, ?H6, ?H7, ?app_nil_r, ?fmap_app, ?length_app; auto. cbn. lia.
Qed.

Lemma loop_read_flow n m a : flow n a (loop_read m (add_read m a)) [m] [].
Proof.
  unfold loop_read. destruct (read_turn false m _); split; cbn; rewrite ?app_nil_r; auto.
Qed.

Lemma loop_step_flow n act closed down a down' a' :
  loop_step n act closed down a = Some (down', a') -> exists read q, down = read ++ down' /\ flow n a a' read q.
Proof.
  unfold loop_step. intros Hs. destruct act; try done; destruct (ag_loop a) as [[|m ms] [job|]|] eqn:Hl; try done.
  1: { destruct down as [|m down]; [done |]. destruct (ag_over a || _); [done |]. injection Hs as <- <-. exists [m], []. split; [done | apply loop_read_flow]. }
  1-2: destruct (queue_message None m a) as [a1|] eqn:Hq; [|done]; injection Hs as <- <-; exists [], [m]; split; [done | by eapply flow_queue].
  all: exists [], []; repeat case_match; try done; injection Hs as <- <-; split; [done | apply flow_still; try done].
  cbn. intros _. match goal with H : has_space n _ = true |- _ => apply has_space_length in H end. rewrite length_app. cbn. lia.
Qed.

Lemma worker_step_flow n addr act a a' : worker_step addr act a = Some a' -> exists q, flow n a a' [] q.
Proof.
  unfold worker_step. intros Hs. destruct act as [| | | | |i client|i|i|i|i| | | |]; try done; destruct (ag_workers a !! i) as [[|r|]|]; try done.
  - destruct (ag_jobs a) as [|[number q] jobs] eqn:Hj; [done |]. injection Hs as <-. exists [].
    apply flow_still; cbn; rewrite ?length_insert, ?Hj; auto. cbn. lia.
  - destruct (next_send addr r) as [m|]; [|done]. cbn in Hs. destruct (queue_message _ m a) as [a1|] eqn:Hq; [|done]. injection Hs as <-.
    exists [m]. eapply flow_queue; [exact Hq | done..| apply length_insert | done].
  - destruct (next_send addr r); [|done]. cbn in Hs. destruct (ag_over a) eqn:Ho; [|done]. injection Hs as <-. exists [].
    apply flow_still; cbn; rewrite ?length_insert; auto.
  - destruct (next_send addr r); [done |]. injection Hs as <-. exists []. apply flow_still; cbn; rewrite ?length_insert; auto.
  - destruct (ag_over a) eqn:Ho; [|done]. injection Hs as <-. exists []. apply flow_still; cbn; rewrite ?length_insert; auto.
Qed.

Definition busy (k : writer) : list OutboundMessage := match k with WriterBusy m => [m] | _ => [] end.

(** From the agent's queue to the gateway's loop: the writer that fails loses the
    message it was writing. *)
Definition up_inv (s : link) : Prop :=
  let '(mkLink g down up a) := s in
  exists lost, (lost = [] \/ (ag_over a = true /\ ag_writer a = WriterGone))
    /\ (ag_sent a).*2 = gw_seen g ++ gw_readCh g ++ option_list (gw_reader g) ++ up ++ busy (ag_writer a) ++ lost ++ ag_outbound a.

(** From the gateway's loop to the agent's: the turn that returns loses what was
    still to be written. *)
Definition down_inv (s : link) : Prop :=
  let '(mkLink g down up a) := s in
  exists lost, (lost = [] \/ gw_over g = true) /\ sv_written (gw_serving g) = ag_read a ++ down ++ gw_writing g ++ lost.

Record sizes (n capDown capUp : nat) (s : link) : Prop := mkSizes {
  sz_workers : length (ag_workers (lk_agent s)) = n;
  sz_jobs : (length (ag_jobs (lk_agent s)) <= n)%nat;
  sz_outbound : (length (ag_outbound (lk_agent s)) <= outboundQueueCapacity)%nat;
  sz_down : (length (lk_down s) <= capDown)%nat;
  sz_up : (length (lk_up s) <= capUp)%nat;
  sz_readCh : (length (gw_readCh (lk_gateway s)) <= readChCapacity)%nat
}.

Section wires.
Context (addr : gostring) (n capDown capUp : nat) (hasAgents canOpen : bool) (sid : gostring).

Definition wires (s : link) : Prop := up_inv s /\ down_inv s /\ sizes n capDown capUp s.

Lemma wires_flow g down down' up a a' read q :
  flow n a a' read q -> down = read ++ down' -> wires (mkLink g down up a) -> wires (mkLink g down' up a').
Proof.
  intros [] -> ((lost & Hl & Hu) & (lost' & Hl' & Hd) & []). cbn in *. split; [|split].
  - exists lost. rewrite fl_writer0. split; [naive_solver |]. by rewrite fl_sent0, fl_outbound0, Hu, !app_assoc.
  - exists lost'. split; [done |]. by rewrite Hd, fl_read0, !app_assoc.
  - split; cbn; try lia; auto; try congruence. rewrite length_app in sz_down0. lia.
Qed.

Lemma writer_step_wires act g down up a up' a' :
  writer_step capUp act (gw_over g) up a = Some (up', a') -> wires (mkLink g down up a) -> wires (mkLink g down up' a').
Proof.
  unfold writer_step. intros Hs ((lost & Hl & Hu) & (lost' & Hl' & Hd) & []). cbn [lk_agent lk_gateway lk_down lk_up] in *.
  destruct act; try done; destruct (ag_writer a) as [|m|] eqn:Hw; try done.
  - destruct (ag_outbound a) as [|m ms] eqn:Ho; [done |]. injection Hs as <- <-. assert (lost = []) as -> by naive_solver.
    split; [|split; [by exists lost' | split; cbn in *; auto; lia]]. exists []. split; [by left | exact Hu].
  - destruct (has_space capUp up) eqn:Hsp; [|done]. apply has_space_length in Hsp. injection Hs as <- <-. assert (lost = []) as -> by naive_solver.
    split; [|split; [by exists lost' | split; cbn in *; auto; rewrite length_app; cbn; lia]].
    exists []. split; [by left |]. cbn in Hu |- *. by rewrite Hu, <- (app_assoc up).
  - destruct (ag_over a || gw_over g); [|done]. injection Hs as <- <-. assert (lost = []) as -> by naive_solver.
    split; [|split; [by exists lost' | split; cbn in *; auto]]. exists [m]. split; [by right | exact Hu].
  - destruct (ag_over a); [|done]. injection Hs as <- <-. split; [|split; [by exists lost' | split; cbn in *; auto]].
    exists lost. split; [naive_solver | exact Hu].
Qed.

(** A turn of the gateway's loop adds to what it writes. *)
Lemma serve_turn_written e st v : serve_turn hasAgents canOpen sid e st = Some v -> exists ms, sv_written (verdict_state v) = sv_written st ++ ms.
Proof.
  intros Hs. assert (Hsame : forall v, sv_written (verdict_state v) = sv_written st -> exists ms, sv_written (verdict_state v) = sv_written st ++ ms).
  { intros v' ->. exists []. by rewrite app_nil_r. }
  destruct e as [|ok|ok|now type data ok opened|]; cbn [serve_turn] in Hs.
  - injection Hs as <-. by apply Hsame.
  - injection Hs as <-. destruct ok; [by eexists | by apply Hsame].
  - destruct (receive_outbound sid (sv_world st)) as [[m w]|]; [|done]. cbn in Hs. injection Hs as <-.
    destruct ok; [by eexists | by apply Hsame].
  - injection Hs as <-. destruct type; [| |by apply Hsame].
    + unfold handle_text. destruct (Unmarshal _ _ data) as [[type raw]|]; [|by apply Hsame].
      case_bool_decide; [apply Hsame; unfold handle_response_start; by repeat case_match |].
      case_bool_decide; [apply Hsame; unfold handle_open_tunnel; by repeat case_match |].
      case_bool_decide; [apply Hsame; unfold handle_response_end; by repeat case_match |].
      case_bool_decide; [apply Hsame; unfold touch, touchAgent; by repeat case_match |].
      case_bool_decide; [|by apply Hsame]. destruct ok; [|by apply Hsame]. eexists. unfold touch, touchAgent. by repeat case_match.
    + apply Hsame. unfold handle_binary. by repeat case_match.
  - injection Hs as <-. by apply Hsame.
Qed.

Lemma gateway_turn_facts e handled readCh g g' :
  gateway_turn hasAgents canOpen sid e handled readCh g = Some g' ->
  gw_seen g' = gw_seen g ++ handled /\ gw_readCh g' = readCh /\ gw_reader g' = gw_reader g
  /\ exists ms lost, (lost = [] \/ gw_over g' = true) /\ gw_writing g' = ms /\ sv_written (gw_serving g') = sv_written (gw_serving g) ++ ms ++ lost.
Proof.
  unfold gateway_turn. destruct (serve_turn _ _ _ e (gw_serving g)) as [v|] eqn:Hv; [|done]. cbn [mbind option_bind].
  destruct (serve_turn_written _ _ _ Hv) as [ms Hms]. destruct v as [st|ok close st|]; [| |done]; intros [= <-]; cbn in Hms |- *.
  - repeat split. rewrite Hms, drop_app_length. exists ms, []. rewrite app_nil_r. auto.
  - repeat split. exists [], ms. auto.
Qed.

(** A turn handles the messages [handled] at the head of the channel. *)
Lemma gateway_turn_wires e handled readCh g g' down up a :
  gateway_turn hasAgents canOpen sid e handled readCh g = Some g' -> gw_readCh g = handled ++ readCh -> gw_writing g = [] ->
  gw_over g = false -> wires (mkLink g down up a) -> wires (mkLink g' down up a).
Proof.
  intros (Hseen & HCh & Hrd & ms & lost2 & Hl2 & Hw & Hwr)%gateway_turn_facts Hr Hnw Ho ((lost & Hl & Hu) & (lost' & Hl' & Hd) & []).
  assert (lost' = []) as -> by (destruct Hl'; [done | congruence]). cbn [lk_agent lk_gateway lk_down lk_up] in *. split; [|split].
  - exists lost. split; [done |]. by rewrite Hseen, HCh, Hrd, Hu, Hr, !app_assoc.
  - exists lost2. split; [done |]. rewrite Hwr, Hd, Hnw, Hw. cbn [app]. by rewrite !app_nil_r, !app_assoc.
  - split; cbn; auto. rewrite HCh. rewrite Hr, length_app in sz_readCh0. lia.
Qed.

Lemma gateway_step_wires act s s' : gateway_step capDown hasAgents canOpen sid act s = Some s' -> wires s -> wires s'.
Proof.
  destruct s as [g down up a]. unfold gateway_step. destruct (gw_over g) eqn:Ho; [done |]. destruct act as [now opened| | | | | |].
  - destruct (gw_writing g) eqn:Hw; [|done]. destruct (gw_readCh g) as [|m readCh] eqn:Hr; [done |].
    destruct (gateway_turn _ _ _ _ [m] readCh g) as [g'|] eqn:Ht; [|done]. intros [= <-]. by apply (gateway_turn_wires _ _ _ _ _ _ _ _ Ht).
  - destruct (gw_writing g) eqn:Hw; [|done]. destruct (gateway_turn _ _ _ _ [] _ g) as [g'|] eqn:Ht; [|done]. intros [= <-].
    by apply (gateway_turn_wires _ _ _ _ _ _ _ _ Ht).
  - destruct (gw_writing g) eqn:Hw; [|done]. destruct (gateway_turn _ _ _ _ [] _ g) as [g'|] eqn:Ht; [|done]. intros [= <-].
    by apply (gateway_turn_wires _ _ _ _ _ _ _ _ Ht).
  - destruct (gw_writing g) as [|m ms] eqn:Hw; [done |]. destruct (has_space capDown down) eqn:Hsp; [|done]. apply has_space_length in Hsp.
    intros [= <-] (Hu & (lost' & Hl' & Hd) & []). split; [exact Hu | split].
    + exists lost'. rewrite Ho in Hl'. split; [exact Hl' |]. cbn. by rewrite Hd, Hw, <- !app_assoc.
    + split; cbn in *; auto. rewrite length_app. cbn. lia.
  - destruct (gw_reader g) eqn:Hr; [done |]. destruct up as [|m up]; [done |]. destruct (too_long _ m); [done |]. intros [= <-] ((lost & Hl & Hu) & (lost' & Hl' & Hd) & []). rewrite Ho in Hl'.
    split; [|split; [by exists lost' | split; cbn in *; auto; lia]]. exists lost. split; [exact Hl |]. cbn in *. by rewrite Hu, Hr.
  - destruct (gw_reader g) eqn:Hr; [done |]. destruct (next_too_long _ up); [|done]. intros [= <-] ((lost & Hl & Hu) & (lost' & Hl' & Hd) & []).
    split; [|split; [|split; cbn in *; auto]].
    + exists lost. split; [exact Hl |]. cbn in *. by rewrite Hu, Hr.
    + exists (gw_writing g ++ lost'). split; [by right |]. exact Hd.
  - destruct (gw_reader g) as [m|] eqn:Hr; [|done]. destruct (has_space readChCapacity (gw_readCh g)) eqn:Hsp; [|done].
    apply has_space_length in Hsp. intros [= <-] ((lost & Hl & Hu) & (lost' & Hl' & Hd) & []). rewrite Ho in Hl'.
    split; [|split; [by exists lost' | split; cbn in *; auto; rewrite length_app; cbn; lia]].
    exists lost. split; [exact Hl |]. cbn in *. by rewrite Hu, Hr, <- !app_assoc.
Qed.

Lemma outside_step_wires act s s' : outside_step sid act s = Some s' -> wires s -> wires s'.
Proof.
  destruct s as [g down up a]. intros Hs (Hu & Hd & []). pose proof Hu as (lost & Hl & Hu'). pose proof Hd as (lost' & Hl' & Hd').
  destruct act; cbn [outside_step] in Hs; simplify_option_eq; (split; [|split; [|split; cbn in *; auto]]); try exact Hu; try exact Hd.
  - exists (gw_writing g ++ lost'). split; [by right | exact Hd'].
  - exists lost. split; [cbn; naive_solver | exact Hu'].
Qed.

Lemma agent_step_wires act s s' : agent_step addr n capUp act s = Some s' -> wires s -> wires s'.
Proof.
  destruct s as [g down up a]. intros Hs Hi. destruct act; cbn [agent_step] in Hs.
  1-5: destruct (loop_step n _ _ down a) as [[down' a']|] eqn:Hst; [|done]; injection Hs as <-;
    apply loop_step_flow in Hst as (read & q & Hdown & Hf); by eapply wires_flow.
  1-5: destruct (worker_step addr _ a) as [a'|] eqn:Hst; [|done]; injection Hs as <-;
    apply (worker_step_flow n) in Hst as (q & Hf); by eapply wires_flow.
  all: destruct (writer_step capUp _ _ up a) as [[up' a']|] eqn:Hst; [|done]; injection Hs as <-; by eapply writer_step_wires.
Qed.
End wires.

(** ** Every run *)

Section runs.
Context (addr : gostring) (n capDown capUp : nat) (hasAgents canOpen : bool) (sid : gostring).
Abbreviation step := (link_step addr n capDown capUp hasAgents canOpen sid).
Abbreviation runs_to := (rtc (step_by addr n capDown capUp hasAgents canOpen sid (fun _ => true))).

Record link_ok (s : link) : Prop := mkLinkOk {
  lo_jobs : jobs_inv addr (lk_agent s);
  lo_requests : requests_inv (lk_agent s);
  lo_wires : wires n capDown capUp s;
  lo_world : exists c, inv c /\ cw c = sv_world (gw_serving (lk_gateway s))
}.

Lemma gateway_turn_world e handled readCh g g' :
  gateway_turn hasAgents canOpen sid e handled readCh g = Some g' -> (exists c, inv c /\ cw c = sv_world (gw_serving g)) ->
  exists c, inv c /\ cw c = sv_world (gw_serving g').
Proof.
  unfold gateway_turn. destruct (serve_turn _ _ _ e (gw_serving g)) as [v|] eqn:Hv; [|done]. cbn [mbind option_bind].
  intros Hg (c & Hi & Hc). destruct (serve_turn_reaches _ _ _ _ _ _ _ Hi Hc Hv) as [_ (c' & Hst & Hc')].
  exists c'. split; [by eapply inv_steps |]. destruct v; [| |done]; injection Hg as <-; exact Hc'.
Qed.

Lemma gateway_step_world act s s' :
  gateway_step capDown hasAgents canOpen sid act s = Some s' -> (exists c, inv c /\ cw c = sv_world (gw_serving (lk_gateway s))) ->
  exists c, inv c /\ cw c = sv_world (gw_serving (lk_gateway s')).
Proof.
  destruct s as [g down up a]. unfold gateway_step. destruct (gw_over g); [done |].
  destruct act as [now opened| | | | | |]; destruct (gw_writing g) as [|w ws]; try done; repeat case_match; try done; intros Hs Hw;
    try (injection Hs as <-; exact Hw);
    match type of Hs with context [gateway_turn ?h ?o ?i ?e ?hd ?r ?g] => destruct (gateway_turn h o i e hd r g) as [g'|] eqn:Ht; [|done] end;
    injection Hs as <-; by eapply gateway_turn_world.
Qed.

Lemma outside_step_world act s s' :
  outside_step sid act s = Some s' -> (exists c, inv c /\ cw c = sv_world (gw_serving (lk_gateway s))) ->
  exists c, inv c /\ cw c = sv_world (gw_serving (lk_gateway s')).
Proof.
  destruct s as [g down up a]. intros Hs (c & Hi & Hc). cbn [lk_gateway] in Hc. destruct act as [m|id|id| |]; cbn [outside_step] in Hs.
  - destruct (outbound_of sid _) as [q|]; [|done]. cbn in Hs. destruct (trysend_out q m _) as [w|] eqn:Ht; [|done]. injection Hs as <-.
    rewrite <- Hc in Ht. eexists. split; [exact (inv_step _ _ Hi (step_Send c q m w Ht)) | done].
  - injection Hs as <-. rewrite <- Hc. eexists. split; [exact (inv_step _ _ Hi (step_RegisterRequest c sid id)) | done].
  - injection Hs as <-. rewrite <- Hc. eexists. split; [exact (inv_step _ _ Hi (step_CancelRequest c id)) | done].
  - injection Hs as <-. by exists c.
  - injection Hs as <-. by exists c.
Qed.

(** The rest of the world can only end the agent's session. *)
Lemma gateway_step_agent act s s' : gateway_step capDown hasAgents canOpen sid act s = Some s' -> lk_agent s' = lk_agent s.
Proof. destruct s as [g down up a]. unfold gateway_step. intros Hs. repeat case_match; try done; simplify_option_eq; done. Qed.
Lemma outside_step_agent act s s' : outside_step sid act s = Some s' -> lk_agent s' = lk_agent s \/ lk_agent s' = set_over (lk_agent s).
Proof. destruct s as [g down up a]. intros Hs. destruct act; cbn [outside_step] in Hs; simplify_option_eq; auto. Qed.

(** What the agent's goroutines and the end of its session preserve holds of the
    agent's side throughout. *)
Lemma agent_preserves (P : agent_side -> Prop) act s s' :
  (forall act closed down a down' a', loop_step n act closed down a = Some (down', a') -> P a -> P a') ->
  (forall act a a', worker_step addr act a = Some a' -> P a -> P a') ->
  (forall act closed up a up' a', writer_step capUp act closed up a = Some (up', a') -> P a -> P a') ->
  (forall a, P a -> P (set_over a)) ->
  step act s = Some s' -> P (lk_agent s) -> P (lk_agent s').
Proof.
  intros Hloop Hworker Hwriter Hover Hs Ha. destruct act as [act|act|act]; cbn [link_step] in Hs.
  - destruct s as [g down up a]. destruct act; cbn [agent_step] in Hs.
    1-5: destruct (loop_step n _ _ down a) as [[down' a']|] eqn:Hst; [|done]; injection Hs as <-; by eapply Hloop.
    1-5: destruct (worker_step addr _ a) as [a'|] eqn:Hst; [|done]; injection Hs as <-; by eapply Hworker.
    all: destruct (writer_step capUp _ _ up a) as [[up' a']|] eqn:Hst; [|done]; injection Hs as <-; by eapply Hwriter.
  - by rewrite (gateway_step_agent _ _ _ Hs).
  - destruct (outside_step_agent _ _ _ Hs) as [->| ->]; auto.
Qed.

Lemma agent_step_gateway act s s' : agent_step addr n capUp act s = Some s' -> lk_gateway s' = lk_gateway s.
Proof. destruct s as [g down up a]. intros Hs. destruct act; cbn [agent_step] in Hs; simplify_option_eq; repeat case_match; by simplify_eq. Qed.

Lemma link_ok_step act s s' : step act s = Some s' -> link_ok s -> link_ok s'.
Proof.
  intros Hs [Hj Hr Hw Hc]. split.
  - eapply agent_preserves; [..|exact Hs | exact Hj]; [apply loop_step_jobs | apply worker_step_jobs | apply writer_step_jobs |].
    intros a Ha. by apply jobs_inv_frame with a.
  - eapply agent_preserves; [..|exact Hs | exact Hr]; [apply loop_step_requests | apply worker_step_requests | apply writer_step_requests |].
    intros a Ha. by apply requests_inv_frame with a.
  - destruct act; [by eapply agent_step_wires | by eapply gateway_step_wires | by eapply outside_step_wires].
  - destruct act; [by rewrite (agent_step_gateway _ _ _ Hs) | by eapply gateway_step_world | by eapply outside_step_world].
Qed.

Lemma link_ok_new c : inv c -> link_ok (new_session addr n sid (cw c)).
Proof.
  intros Hi. unfold new_session. set (o := match open_tunnel addr sid with Some m => [mkOutbound MessageText m] | None => [] end).
  assert (Ho : (length o <= 1)%nat) by (unfold o; destruct (open_tunnel addr sid); cbn; lia).
  assert (Hnone : forall k, from_job k ((fun m => (None, m)) <$> o) = []).
  { intros k. unfold o. destruct (open_tunnel addr sid); [|done]. cbn [fmap list_fmap]. rewrite from_job_one. by destruct (decide _). }
  assert (Hrun : running (replicate n Idle) = []) by (induction n as [|k IH]; [done | exact IH]).
  split; cbn [lk_agent lk_gateway gw_serving sv_world].
  - apply jobs_inv_intro; [|by intros r ?%not_elem_of_nil]. unfold waiting, started. cbn [ag_done ag_jobs ag_workers ag_loop loop_job queued ag_client ag_sent ag_over].
    rewrite Hrun. split; cbn; auto; try lia; try (by intros ? ?%not_elem_of_nil); try (by intros ? ? ?%not_elem_of_nil); try by intros _ ? ?%not_elem_of_nil.
  - by split.
  - split; [|split].
    + exists []. split; [by left |]. cbn. rewrite <- list_fmap_compose. rewrite (list_fmap_ext _ id); [by rewrite list_fmap_id | done].
    + exists []. split; [by left | done].
    + split; cbn; try lia; [apply length_replicate | unfold outboundQueueCapacity; lia].
  - eauto.
Qed.

Lemma link_ok_runs c s : inv c -> runs_to (new_session addr n sid (cw c)) s -> link_ok s.
Proof.
  intros Hi Hr. pose proof (link_ok_new c Hi) as H0. induction Hr as [|x y z (act & _ & Hst) Hr IH]; [done |].
  apply IH. by eapply link_ok_step.
Qed.
End runs.

(** A run by a schedule: an action that is not possible is skipped. *)
Definition execute (step : action -> link -> option link) (acts : list action) (s : link) : link :=
  foldl (fun s act => default s (step act s)) s acts.

Lemma execute_runs addr n capDown capUp hasAgents canOpen sid P acts s :
  forallb P acts = true ->
  rtc (step_by addr n capDown capUp hasAgents canOpen sid P) s (execute (link_step addr n capDown capUp hasAgents canOpen sid) acts s).
Proof.
  revert s. induction acts as [|act acts IH]; intros s; [intros; apply rtc_refl |]. cbn [forallb]. intros [HP Hr]%andb_prop.
  unfold execute. cbn [foldl]. destruct (link_step _ _ _ _ _ _ _ act s) as [s'|] eqn:Hs; cbn [default from_option id]; [|by apply IH].
  eapply rtc_l; [by exists act | by apply IH].
Qed.

(** The sends of the sequential job whose first sends had the outcomes [bs] and whose
    later ones are refused. *)
Definition job_output (addr : gostring) (r : jobrun) : list OutboundMessage :=
  sd_sent (job (jr_client r) addr (jr_request r) (mkSender (answering (jr_answers r) 0) 0 [])).
(** The sends of the sequential job in a session that stays open. *)
Definition full_output (addr : gostring) (r : jobrun) : list OutboundMessage :=
  sd_sent (job (jr_client r) addr (jr_request r) empty_queue).

Lemma job_output_told addr r : job_output addr r = told (jr_answers r) (script addr r).
Proof. unfold job_output. by rewrite interp_job, (interp_told (jr_answers r)). Qed.

Lemma interp_all_told {A} bs : forall (t : talk A) k ms,
  Forall (fun b => b = true) bs -> next_message (after bs t) = None -> sd_sent (interp t (mkSender (fun _ => true) k ms)).2 = ms ++ told bs t.
Proof.
  induction bs as [|b bs IH]; intros [a|m kt] k ms Hall Hn; cbn in *; rewrite ?app_nil_r; try done.
  inversion Hall; subst. rewrite IH by done. by rewrite <- app_assoc.
Qed.

(** C4 (invariant).  Whatever the order in which the goroutines of a session, the
    public handlers and the end of the session act, every request is served once:
    the requests are those the sequential read loop makes of what the gateway wrote;
    the jobs that were started are the first ones, each with its own request; the
    others wait in order; each job has queued exactly what the sequential [job]
    sends under the same outcomes, and a finished job of an open session all of it. *)
Theorem requests_served_once (addr : gostring) (n capDown capUp : nat) (hasAgents canOpen : bool) (sid : gostring) (c : cstate) (s : link) :
  reachable c ->
  rtc (step_by addr n capDown capUp hasAgents canOpen sid (fun _ => true)) (new_session addr n sid (cw c)) s ->
  let a := lk_agent s in
  queued (ag_client a) = queued (loop_state (read_loop (ag_read a) no_requests))
  /\ ag_read a `prefix_of` sv_written (gw_serving (lk_gateway s))
  /\ (jr_number <$> started a ≡ₚ seq 0 (length (started a)))
  /\ (forall r, r ∈ started a -> queued (ag_client a) !! jr_number r = Some (jr_request r)
        /\ from_job (jr_number r) (ag_sent a) = job_output addr r)
  /\ (ag_over a = false ->
        waiting a = imap (fun i q => (length (started a) + i, q)%nat) (drop (length (started a)) (queued (ag_client a)))
        /\ forall r, r ∈ ag_done a -> from_job (jr_number r) (ag_sent a) = full_output addr r).
Proof.
  intros Hc Hr a. destruct (link_ok_runs _ _ _ _ _ _ _ _ _ (inv_reachable c Hc) Hr) as [(lost & Hl & Hok & Hd) Hq (_ & Hdown & _) _].
  fold a in Hl, Hok, Hd, Hq. pose proof Hok as [H1 H2 H3 H4 H5 H6 H7 H8]. split_and!.
  - unfold requests_inv in Hq. destruct (read_loop (ag_read a) no_requests); cbn; [apply Hq | apply Hq].
  - unfold a. destruct s as [g down up a']. destruct Hdown as (lost' & _ & Hdn). cbn [lk_agent lk_gateway]. rewrite Hdn. by apply prefix_app_r.
  - exact H3.
  - intros r Hin. split; [by apply H5 |]. by rewrite H6, job_output_told.
  - intros Ho. assert (lost = []) as -> by (destruct Hl as [|[? _]]; [done | congruence]). rewrite app_nil_r in *. split.
    + by apply jobs_ok_waiting with (1 := Hok).
    + intros r Hin. assert (Hs : r ∈ started a) by (apply elem_of_app; by left).
      rewrite (H6 r Hs). unfold full_output. rewrite interp_job. symmetry. apply (interp_all_told (jr_answers r) (script addr r) 0 []); [by apply H8 | by apply Hd].
Qed.

(** C5 (refinement).  The connection between the two loops is a bounded queue: what the
    gateway has handled is a prefix of what the agent has queued, in order, and while
    the session is open the rest is on its way, held in buffers of a bounded size:
    the agent's queue, the writer, the connection, the gateway's reader and its
    channel.  The same holds in the other direction. *)
Theorem messages_in_order (addr : gostring) (n capDown capUp : nat) (hasAgents canOpen : bool) (sid : gostring) (c : cstate) (s : link) :
  reachable c ->
  rtc (step_by addr n capDown capUp hasAgents canOpen sid (fun _ => true)) (new_session addr n sid (cw c)) s ->
  let g := lk_gateway s in let a := lk_agent s in
  exists rest rest', (ag_sent a).*2 = gw_seen g ++ rest /\ sv_written (gw_serving g) = ag_read a ++ rest'
    /\ (ag_over a = false -> rest = gw_readCh g ++ option_list (gw_reader g) ++ lk_up s ++ busy (ag_writer a) ++ ag_outbound a
          /\ (length rest <= outboundQueueCapacity + capUp + 3)%nat)
    /\ (gw_over g = false -> rest' = lk_down s ++ gw_writing g)
    /\ (length (lk_down s) <= capDown)%nat /\ length (ag_workers a) = n /\ (length (ag_jobs a) <= n)%nat.
Proof.
  intros Hc Hr. destruct (link_ok_runs _ _ _ _ _ _ _ _ _ (inv_reachable c Hc) Hr) as [_ _ (Hup & Hdown & []) _].
  destruct s as [g down up a]. cbn [lk_agent lk_gateway lk_down lk_up] in *.
  destruct Hup as (lost & Hl & Hu), Hdown as (lost' & Hl' & Hd). do 2 eexists. split_and!; [exact Hu | exact Hd | | | done..].
  - intros Ho. assert (lost = []) as -> by (destruct Hl as [|[? _]]; [done | congruence]). split; [done |]. cbn [app].
    rewrite !length_app. unfold readChCapacity in *. destruct (gw_reader g); destruct (ag_writer a); cbn; unfold outboundQueueCapacity in *; lia.
  - intros Ho. assert (lost' = []) as -> by (destruct Hl' as [|]; [done | congruence]). by rewrite app_nil_r.
Qed.

(** ** A sample session *)

Definition sample_state : cstate := set_cw (open_session 0 ($"ses_1") ($"agt_1") [] (cw initial)) initial.
Lemma sample_reachable : reachable sample_state.
Proof. apply rtc_once. by apply step_Register. Qed.

Definition sample_service : http_client :=
  mkClient (fun _ _ => None) (fun _ _ _ _ => Ok (200, ∅, (fun b => ([b], None)) <$> $"abcd")).
Definition sample_id (k : nat) : gostring := $"req_" ++ print_int (Z.of_nat k).
Definition sample_messages (k : nat) : list OutboundMessage :=
  [mkOutbound MessageText (Envelope HTTPRequestStart (Some (enc_HTTPRequestPayload (mkHTTPRequest (sample_id k) ($"GET") ($"/") (Some ∅) 0))));
   mkOutbound MessageText (Envelope HTTPRequestEnd (Some (HTTPRequestEndPayload (sample_id k))))].

Definition to_agent (m : OutboundMessage) : list action :=
  [OutsideAct (Enqueue m); GatewayAct GatewayOutbound; GatewayAct GatewayWrite; AgentAct LoopRead].
Definition to_gateway : list action :=
  [AgentAct WriterTake; AgentAct WriterWrite; GatewayAct GatewayRead; GatewayAct GatewayOffer].
Definition handled (opened : result unit TunnelOpenedPayload) : list action := to_gateway ++ [GatewayAct (GatewayInbound 0 opened)].

(** The agent asks for its tunnel and is told. *)
Definition opening : list action :=
  handled (Ok (mkTunnelOpened [] ($"tun_1") ($"quiet-otter") ($"https://quiet-otter.t.io")))
  ++ [GatewayAct GatewayOutbound; GatewayAct GatewayWrite; AgentAct LoopRead].
Definition request_arrives (k : nat) : list action :=
  OutsideAct (RegisterOne (sample_id k)) :: (sample_messages k ≫= to_agent) ++ [AgentAct LoopQueue].

(** Two requests arrive; the second one is answered first, and then the first. *)
Definition sample_run : list action :=
  opening ++ request_arrives 1 ++ request_arrives 2 ++ [AgentAct (WorkerTake 0 sample_service); AgentAct (WorkerTake 1 sample_service)]
  ++ ((fun _ => AgentAct (WorkerSend 1)) <$> seq 0 6) ++ ((fun _ => AgentAct (WorkerSend 0)) <$> seq 0 6)
  ++ [AgentAct (WorkerFinish 0); AgentAct (WorkerFinish 1)] ++ (seq 0 12 ≫= fun _ => handled (Err tt)).
Definition sample_end : link :=
  execute (link_step ($"3000") 2 4 4 true true ($"ses_1")) sample_run (new_session ($"3000") 2 ($"ses_1") (cw sample_state)).

Lemma sample_runs : rtc (step_by ($"3000") 2 4 4 true true ($"ses_1") (fun _ => true)) (new_session ($"3000") 2 ($"ses_1") (cw sample_state)) sample_end.
Proof. by apply execute_runs. Qed.

Lemma requests_served_once_witness :
  exists r, ag_done (lk_agent sample_end) !! 0%nat = Some r /\ jr_number r = 0%nat
    /\ from_job 0 (ag_sent (lk_agent sample_end)) = full_output ($"3000") r /\ length (full_output ($"3000") r) = 6%nat.
Proof.
  destruct (requests_served_once ($"3000") 2 4 4 true true ($"ses_1") sample_state sample_end sample_reachable sample_runs)
    as (_ & _ & _ & _ & Hopen).
  destruct Hopen as [_ Hdone]; [by vm_compute |].
  destruct (ag_done (lk_agent sample_end) !! 0%nat) as [r|] eqn:Hr; [|by vm_compute in Hr].
  assert (Hn : jr_number r = 0%nat) by (vm_compute in Hr; by injection Hr as <-).
  exists r. split_and!; [done | done | rewrite <- Hn; apply Hdone; by eapply list_elem_of_lookup_2 |].
  vm_compute in Hr. injection Hr as <-. by vm_compute.
Defined.

Lemma messages_in_order_witness :
  exists rest, (ag_sent (lk_agent sample_end)).*2 = gw_seen (lk_gateway sample_end) ++ rest /\ rest = [] /\ length (gw_seen (lk_gateway sample_end)) = 13%nat.
Proof.
  destruct (messages_in_order ($"3000") 2 4 4 true true ($"ses_1") sample_state sample_end sample_reachable sample_runs)
    as (rest & rest' & H1 & _ & H3 & _).
  destruct H3 as [-> _]; [by vm_compute |]. eexists. split; [exact H1 |]. split; by vm_compute.
Defined.
