(* ===== verification/LinkWaits.v ===== *)
(** * Waiting in a session

    The goroutines of [Link] wait for each other.  This file shows when all of them
    can be waiting: when there is nothing to do, or when the two ends wait for each
    other in a circle, which no goroutine of the session leaves again.  A session
    that is over is different: its goroutines at the agent all come to their end. *)

From S2P Require Import Prelude GoStrings Headers Frame ChunkAssembler Json Messages Reader.
From S2P Require Import SessionManager SessionSteps AgentConnect LocalHTTP AgentClient JobScript Link LinkRuns.

(** ** Goroutines that ended *)

(** While the session is not over, the agent's goroutines are all there. *)
Definition all_there (a : agent_side) : Prop :=
  ag_over a = true \/ (ag_loop a <> Returned /\ ag_writer a <> WriterGone /\ Gone ∉ ag_workers a).

Lemma all_there_frame a a' :
  all_there a -> (ag_over a = true -> ag_over a' = true) -> (ag_loop a <> Returned -> ag_loop a' <> Returned) ->
  (ag_writer a <> WriterGone -> ag_writer a' <> WriterGone) -> (Gone ∉ ag_workers a -> Gone ∉ ag_workers a') -> all_there a'.
Proof. unfold all_there. naive_solver. Qed.

Lemma insert_not_gone i k (ws : list worker) : k <> Gone -> Gone ∉ ws -> Gone ∉ <[i := k]> ws.
Proof.
  intros Hk Hn (j & Hj)%list_elem_of_lookup. apply list_lookup_insert_Some in Hj as [(_ & Hj & _)|[_ Hj]]; [done |].
  apply Hn. by eapply list_elem_of_lookup_2.
Qed.

Lemma loop_read_there m a : all_there a -> all_there (loop_read m (add_read m a)).
Proof.
  intros Ha. unfold loop_read. destruct (read_turn false m _); [|by left]. by eapply all_there_frame.
Qed.

Lemma loop_step_there n act closed down a down' a' : loop_step n act closed down a = Some (down', a') -> all_there a -> all_there a'.
Proof.
  unfold loop_step, queue_message. intros Hs Hi. destruct act; try done; destruct (ag_loop a) as [[|m ms] [job|]|] eqn:Hl; try done.
  1: { destruct down as [|m down]; [done |]. destruct (ag_over a || _); [done |]. injection Hs as _ <-. by apply loop_read_there. }
  all: repeat case_match; try done; injection Hs as _ <-; first [by left | by eapply all_there_frame].
Qed.

Lemma worker_step_there addr act a a' : worker_step addr act a = Some a' -> all_there a -> all_there a'.
Proof.
  unfold worker_step, queue_message. intros Hs Hi. destruct act as [| | | | |i client|i|i|i|i| | | |]; try done;
    destruct (ag_workers a !! i) as [[|r|]|]; try done; repeat case_match; try done; simplify_option_eq;
    first [by left | eapply all_there_frame; [exact Hi | done..|]; intros; by apply insert_not_gone].
Qed.

Lemma writer_step_there cap act closed up a up' a' : writer_step cap act closed up a = Some (up', a') -> all_there a -> all_there a'.
Proof.
  unfold writer_step. intros Hs Hi. destruct act; try done; destruct (ag_writer a) as [|m|] eqn:Hw; try done;
    repeat case_match; simplify_eq; first [by left | by eapply all_there_frame].
Qed.

Section waits.
Context (addr : gostring) (n capDown capUp : nat) (hasAgents canOpen : bool) (sid : gostring).
Abbreviation step := (link_step addr n capDown capUp hasAgents canOpen sid).
Abbreviation by_actions := (step_by addr n capDown capUp hasAgents canOpen sid).
Abbreviation runs_to := (rtc (by_actions (fun _ => true))).

Lemma all_there_step act s s' : step act s = Some s' -> all_there (lk_agent s) -> all_there (lk_agent s').
Proof.
  apply agent_preserves; [apply loop_step_there | apply worker_step_there | apply writer_step_there |]. intros a _. by left.
Qed.

Lemma all_there_runs w s : runs_to (new_session addr n sid w) s -> all_there (lk_agent s).
Proof.
  assert (H0 : all_there (lk_agent (new_session addr n sid w))).
  { right. cbn. split_and!; try done. by intros [? _]%elem_of_replicate. }
  intros Hr. revert H0. induction Hr as [|x y z (act & _ & Hst) Hr IH]; [done |]. intros H0. apply IH. by eapply all_there_step.
Qed.

(** ** When everybody waits *)

(** No goroutine of the session can act; the ticker and the outside still can. *)
Definition stalled (s : link) : Prop := forall act, internal act = true -> step act s = None.

(** Nothing is left to do. *)
Definition at_rest (s : link) : Prop :=
  let '(mkLink g down up a) := s in
  ag_loop a = Loop [] None /\ down = [] /\ ag_jobs a = [] /\ Forall (fun k => k = Idle) (ag_workers a)
  /\ ag_outbound a = [] /\ ag_writer a = WriterIdle /\ up = [] /\ gw_reader g = None /\ gw_readCh g = [] /\ gw_writing g = []
  /\ receive_outbound sid (sv_world (gw_serving g)) = None.

(** A worker that waits to queue a message. *)
Definition held (k : worker) : Prop := exists r, k = Running r /\ is_Some (next_send addr r).

(** The agent's loop waits for room in the queue of messages, or for room in that of
    jobs while all workers wait for room in that of messages. *)
Definition loop_held (a : agent_side) : Prop :=
  (exists m ms job, ag_loop a = Loop (m :: ms) job)
  \/ (exists job, ag_loop a = Loop [] (Some job)) /\ length (ag_jobs a) = n /\ Forall held (ag_workers a).

(** The two ends wait for each other: the gateway to write and the agent to write. *)
Definition circular_wait (s : link) : Prop :=
  let '(mkLink g down up a) := s in
  gw_writing g <> [] /\ length down = capDown /\ loop_held a /\ length (ag_outbound a) = outboundQueueCapacity
  /\ (exists m, ag_writer a = WriterBusy m) /\ length up = capUp /\ is_Some (gw_reader g) /\ length (gw_readCh g) = readChCapacity.

Definition session_open (s : link) : Prop := gw_over (lk_gateway s) = false /\ ag_over (lk_agent s) = false.

(** A queue that refuses is full. *)
Lemma full {A} cap (l : list A) : (length l <= cap)%nat -> has_space cap l = false -> length l = cap.
Proof. unfold has_space. intros H ?%Nat.ltb_ge. lia. Qed.

(** The loop of the gateway handles any message it is given. *)
Lemma gateway_inbound_enabled g e handled readCh c :
  inv c -> cw c = sv_world (gw_serving g) -> is_Some (serve_turn hasAgents canOpen sid e (gw_serving g)) ->
  is_Some (gateway_turn hasAgents canOpen sid e handled readCh g).
Proof.
  intros Hi Hc [v Hv]. unfold gateway_turn. rewrite Hv. cbn [mbind option_bind].
  destruct (serve_turn_reaches _ _ _ _ _ _ _ Hi Hc Hv) as [Hns _]. destruct v; [by eexists.. | done].
Qed.

(** What each goroutine waits for. *)
Lemma stalled_writer g down up a : stalled (mkLink g down up a) ->
  match ag_writer a with
  | WriterIdle => ag_outbound a = []
  | WriterBusy _ => has_space capUp up = false
  | WriterGone => True
  end.
Proof.
  intros Hs. pose proof (Hs (AgentAct WriterTake) eq_refl) as H1. pose proof (Hs (AgentAct WriterWrite) eq_refl) as H2.
  cbn [link_step agent_step writer_step] in H1, H2. destruct (ag_writer a) as [|m|]; [|by destruct (has_space capUp up) | done].
  by destruct (ag_outbound a).
Qed.

Lemma stalled_worker g down up a i k : stalled (mkLink g down up a) -> ag_workers a !! i = Some k ->
  match k with
  | Idle => ag_jobs a = []
  | Running r => held k /\ has_space outboundQueueCapacity (ag_outbound a) = false
  | Gone => True
  end.
Proof.
  intros Hs Hk. pose proof (fun client => Hs (AgentAct (WorkerTake i client)) eq_refl) as H1.
  pose proof (Hs (AgentAct (WorkerSend i)) eq_refl) as H2. pose proof (Hs (AgentAct (WorkerFinish i)) eq_refl) as H3.
  cbn [link_step agent_step worker_step] in H1, H2, H3. rewrite Hk in H1, H2, H3. destruct k as [|r|]; [| |done].
  - specialize (H1 (mkClient (fun _ _ => None) (fun _ _ _ _ => Err []))). by destruct (ag_jobs a) as [|[]].
  - destruct (next_send addr r) as [m|] eqn:Hm; [|done]. split; [by exists r; eauto |].
    cbn [mbind option_bind] in H2. unfold queue_message in H2. by destruct (has_space _ _).
Qed.

Lemma stalled_loop g down up a : stalled (mkLink g down up a) -> ag_over a = false ->
  match ag_loop a with
  | Loop (m :: ms) _ => has_space outboundQueueCapacity (ag_outbound a) = false
  | Loop [] (Some _) => has_space n (ag_jobs a) = false
  | Loop [] None => down = []
  | Returned => True
  end.
Proof.
  intros Hs Ho. pose proof (Hs (AgentAct LoopRead) eq_refl) as H1. pose proof (Hs (AgentAct LoopSend) eq_refl) as H2.
  pose proof (Hs (AgentAct LoopQueue) eq_refl) as H3. pose proof (Hs (AgentAct LoopStop) eq_refl) as H4.
  cbn [link_step agent_step loop_step] in H1, H2, H3, H4. rewrite Ho in H1.
  destruct (ag_loop a) as [[|m ms] [job|]|]; try done.
  - by destruct (has_space n _).
  - destruct down as [|m down]; [done |]. rewrite Ho in H4. cbn in H1, H4. destruct (too_long _ m); [|done]. by rewrite orb_true_r in H4.
  - unfold queue_message in H2. by destruct (has_space _ _).
  - unfold queue_message in H2. by destruct (has_space _ _).
Qed.

Lemma stalled_reader g down up a : stalled (mkLink g down up a) -> gw_over g = false ->
  match gw_reader g with None => up = [] | Some _ => has_space readChCapacity (gw_readCh g) = false end.
Proof.
  intros Hs Ho. pose proof (Hs (GatewayAct GatewayRead) eq_refl) as H1. pose proof (Hs (GatewayAct GatewayOffer) eq_refl) as H2.
  pose proof (Hs (GatewayAct GatewayReadFail) eq_refl) as H3. cbn [link_step gateway_step] in H1, H2, H3. rewrite Ho in H1, H2, H3.
  destruct (gw_reader g); [by destruct (has_space _ _) |]. destruct up as [|m up]; [done |]. cbn in H3. by destruct (too_long _ m).
Qed.

Lemma stalled_gateway g down up a c : stalled (mkLink g down up a) -> gw_over g = false -> inv c -> cw c = sv_world (gw_serving g) ->
  match gw_writing g with
  | [] => gw_readCh g = [] /\ receive_outbound sid (sv_world (gw_serving g)) = None
  | _ => has_space capDown down = false
  end.
Proof.
  intros Hs Ho Hi Hc. pose proof (Hs (GatewayAct (GatewayInbound 0 (Err tt))) eq_refl) as H1.
  pose proof (Hs (GatewayAct GatewayOutbound) eq_refl) as H2. pose proof (Hs (GatewayAct GatewayWrite) eq_refl) as H3.
  cbn [link_step gateway_step] in H1, H2, H3. rewrite Ho in H1, H2, H3.
  destruct (gw_writing g) as [|m ms]; [split | by destruct (has_space _ _)].
  - destruct (gw_readCh g) as [|m readCh]; [done |].
    destruct (gateway_inbound_enabled g (Inbound 0 (m_Type m) (m_Data m) true (Err tt)) [m] readCh c Hi Hc) as [g' Hg]; [by eexists |].
    by rewrite Hg in H1.
  - destruct (receive_outbound sid _) as [[m w]|] eqn:Hr; [|done].
    destruct (gateway_inbound_enabled g (Outbound true) [] (gw_readCh g) c Hi Hc) as [g' Hg]; [cbn; rewrite Hr; by eexists |].
    by rewrite Hg in H2.
Qed.

Lemma space_empty {A} cap (l : list A) : (1 <= cap)%nat -> has_space cap l = false -> l <> [].
Proof. unfold has_space. intros H Hl ->. apply Nat.ltb_ge in Hl. cbn in Hl. lia. Qed.

(** A full queue of messages, and the rest of the agent's way to the gateway. *)
Lemma way_blocked g down up a : (1 <= capUp)%nat -> link_ok addr n capDown capUp (mkLink g down up a) -> all_there a ->
  stalled (mkLink g down up a) -> session_open (mkLink g down up a) -> has_space outboundQueueCapacity (ag_outbound a) = false ->
  length (ag_outbound a) = outboundQueueCapacity /\ (exists m, ag_writer a = WriterBusy m) /\ length up = capUp
  /\ is_Some (gw_reader g) /\ length (gw_readCh g) = readChCapacity.
Proof.
  intros Hcap [_ _ (_ & _ & []) _] Hthere Hs [Hg Ho] Hfull. cbn [lk_agent lk_gateway lk_up lk_down] in *.
  assert (Hne : ag_outbound a <> []) by (apply (space_empty outboundQueueCapacity); [unfold outboundQueueCapacity; lia | done]).
  pose proof (stalled_writer _ _ _ _ Hs) as Hw. pose proof (stalled_reader _ _ _ _ Hs Hg) as Hr.
  destruct (ag_writer a) as [|m|] eqn:Ew; [done | | destruct Hthere as [|(_ & ? & _)]; congruence].
  destruct (gw_reader g) as [m'|]; [|by apply space_empty in Hw].
  split_and!; [by apply full | by eexists | by apply full | by eexists | by apply full].
Qed.

Lemma stalled_loop_held g down up a : (1 <= n)%nat -> link_ok addr n capDown capUp (mkLink g down up a) -> all_there a ->
  stalled (mkLink g down up a) -> ag_over a = false -> down <> [] ->
  loop_held a /\ has_space outboundQueueCapacity (ag_outbound a) = false.
Proof.
  intros Hn [_ _ (_ & _ & []) _] Hthere Hs Ho Hd. cbn [lk_agent lk_gateway lk_up lk_down] in *. destruct Hthere as [?|(Hl & _ & Hgone)]; [congruence |].
  pose proof (stalled_loop _ _ _ _ Hs Ho) as H. destruct (ag_loop a) as [[|m ms] [job|]|] eqn:El; [|done| | |done].
  - assert (Hne : ag_jobs a <> []) by (by apply (space_empty n)).
    assert (Hw : Forall (fun k => held k /\ has_space outboundQueueCapacity (ag_outbound a) = false) (ag_workers a)).
    { apply list.Forall_forall. intros k Hk. pose proof Hk as (i & Hi)%list_elem_of_lookup.
      pose proof (stalled_worker _ _ _ _ _ _ Hs Hi) as Hst. destruct k; [done | exact Hst | done]. }
    split.
    + right. split_and!; [by eexists | by apply full | eapply list.Forall_impl; [exact Hw | by intros ? []]].
    + destruct (ag_workers a) as [|k ws]; [cbn in *; lia |]. by apply list.Forall_cons in Hw as [[_ ?] _].
  - split; [left; by do 3 eexists | done].
  - split; [left; by do 3 eexists | done].
Qed.

Lemma stalled_at_rest g down up a : (1 <= n)%nat -> (1 <= capUp)%nat -> link_ok addr n capDown capUp (mkLink g down up a) -> all_there a ->
  stalled (mkLink g down up a) -> session_open (mkLink g down up a) -> gw_writing g = [] -> at_rest (mkLink g down up a).
Proof.
  intros Hn Hcap Hok Hthere Hs Hopen Hw. pose proof Hopen as [Hg Ho]. cbn [lk_agent lk_gateway] in Hg, Ho. pose proof Hok as [_ _ (_ & _ & []) (c & Hi & Hc)]. cbn [lk_agent lk_gateway lk_up lk_down] in *.
  pose proof (stalled_gateway _ _ _ _ c Hs Hg Hi Hc) as H1. rewrite Hw in H1. destruct H1 as [Hrd Hout].
  assert (Hspace : has_space outboundQueueCapacity (ag_outbound a) = true).
  { destruct (has_space _ _) eqn:E; [done |]. destruct (way_blocked g down up a Hcap Hok Hthere Hs Hopen E) as (_ & _ & _ & _ & HC).
    by rewrite Hrd in HC. }
  pose proof (stalled_reader _ _ _ _ Hs Hg) as H2. rewrite Hrd in H2. destruct (gw_reader g) eqn:Er; [done |].
  pose proof (stalled_writer _ _ _ _ Hs) as H3. destruct Hthere as [?|(Hl & Hwr & Hgone)]; [congruence |].
  destruct (ag_writer a) as [|m|] eqn:Ew; [|subst up; by apply space_empty in H3 | done].
  assert (Hidle : Forall (fun k => k = Idle) (ag_workers a)).
  { apply list.Forall_forall. intros k Hk. pose proof Hk as (i & Hk')%list_elem_of_lookup.
    pose proof (stalled_worker _ _ _ _ _ _ Hs Hk') as H. destruct k; [done | | done]. destruct H as [_ H]. congruence. }
  assert (Hjobs : ag_jobs a = []).
  { destruct (ag_workers a) as [|k ws] eqn:Ek; [cbn in *; lia |]. pose proof Hidle as Hk. apply list.Forall_cons in Hk as [-> _].
    apply (stalled_worker g down up a 0 Idle Hs). by rewrite Ek. }
  pose proof (stalled_loop _ _ _ _ Hs Ho) as H4. rewrite Hjobs, Hspace in H4.
  destruct (ag_loop a) as [[|m ms] [job|]|] eqn:El; try done. by apply space_empty in H4.
Qed.

(** ** A circle of waiting goroutines stays *)

Lemma held_stays a i r act a' : ag_workers a !! i = Some (Running r) -> is_Some (next_send addr r) ->
  has_space outboundQueueCapacity (ag_outbound a) = false -> ag_over a = false ->
  act = WorkerSend i \/ act = WorkerDrop i \/ act = WorkerFinish i -> worker_step addr act a = Some a' -> False.
Proof.
  intros Hi [m Hm] Hsp Ho [->|[->| ->]]; cbn [worker_step]; rewrite Hi, Hm; cbn [mbind option_bind]; [|by rewrite Ho | done].
  unfold queue_message. by rewrite Hsp.
Qed.

Lemma no_space {A} cap (l : list A) : length l = cap -> has_space cap l = false.
Proof. unfold has_space. intros <-. apply Nat.ltb_irrefl. Qed.

(** The agent's loop cannot move, and the workers only as far as they need not send. *)
Lemma circular_loop act g down up a : circular_wait (mkLink g down up a) -> ag_over a = false -> gw_over g = false ->
  loop_step n act (gw_over g) down a = None.
Proof.
  intros (_ & _ & Hl & Hout & _) Ho Hg. apply no_space in Hout. unfold loop_step, queue_message. rewrite Ho, Hg, Hout.
  destruct Hl as [(m & ms & job & ->)|[(job & ->) [Hj _]]]; destruct act; try done. by rewrite (no_space _ _ Hj).
Qed.

Lemma circular_writer act g down up a : circular_wait (mkLink g down up a) -> ag_over a = false -> gw_over g = false ->
  writer_step capUp act (gw_over g) up a = None.
Proof.
  intros (_ & _ & _ & _ & (m & Hw) & Hup & _) Ho Hg. unfold writer_step. rewrite Ho, Hg, Hw, (no_space _ _ Hup). by destruct act.
Qed.

Lemma circular_worker act g down up a a' : circular_wait (mkLink g down up a) -> ag_over a = false -> worker_step addr act a = Some a' ->
  ag_loop a' = ag_loop a /\ ag_outbound a' = ag_outbound a /\ ag_writer a' = ag_writer a /\ ag_over a' = false /\ loop_held a'
  /\ ag_sent a' = ag_sent a /\ ag_read a' = ag_read a.
Proof.
  intros (_ & _ & Hl & Hout & _) Ho Hs. apply no_space in Hout.
  destruct Hl as [Hl|(Hl & Hj & Hall)].
  - unfold worker_step, queue_message in Hs. rewrite Hout, Ho in Hs.
    destruct act as [| | | | |i client|i|i|i|i| | | |]; try done; destruct (ag_workers a !! i) as [[|r|]|]; try done.
    + destruct (ag_jobs a) as [|[]]; [done |]. injection Hs as <-. split_and!; try done. by left.
    + by destruct (next_send addr r).
    + by destruct (next_send addr r).
    + destruct (next_send addr r); [done |]. injection Hs as <-. split_and!; try done. by left.
  - exfalso. assert (Hh : forall i k, ag_workers a !! i = Some k -> held k).
    { intros i k Hk. rewrite list.Forall_forall in Hall. by eapply Hall, list_elem_of_lookup_2. }
    destruct act as [| | | | |i client|i|i|i|i| | | |]; try done;
      (destruct (ag_workers a !! i) as [k|] eqn:Hk; [|cbn [worker_step] in Hs; by rewrite Hk in Hs]);
      pose proof (Hh _ _ Hk) as (r & -> & Hr).
    1, 5: cbn [worker_step] in Hs; by rewrite Hk in Hs.
    all: eapply (held_stays a i r _ a' Hk Hr Hout Ho); [|exact Hs]; auto.
Qed.

Lemma circular_gateway act g down up a : circular_wait (mkLink g down up a) -> gateway_step capDown hasAgents canOpen sid act (mkLink g down up a) = None.
Proof.
  intros (Hw & Hd & _ & _ & _ & _ & (m & Hr) & HC). unfold gateway_step. destruct (gw_over g); [done |].
  destruct (gw_writing g); [done |]. rewrite Hr, (no_space _ _ Hd), (no_space _ _ HC). by destruct act.
Qed.

(** What the two loops have seen. *)
Definition progress_of (s : link) : list OutboundMessage * list OutboundMessage * list (option nat * OutboundMessage) :=
  (gw_seen (lk_gateway s), ag_read (lk_agent s), ag_sent (lk_agent s)).

Lemma circular_stays act s s' : session_open s -> circular_wait s -> ends_session act = false -> step act s = Some s' ->
  session_open s' /\ circular_wait s' /\ progress_of s' = progress_of s.
Proof.
  intros [Hg Ho] Hc He Hs. destruct s as [g down up a]. cbn [lk_gateway lk_agent] in Hg, Ho. destruct act as [act|act|act]; cbn [link_step] in Hs.
  - destruct act; cbn [agent_step] in Hs; rewrite ?(circular_loop _ _ _ _ _ Hc Ho Hg), ?(circular_writer _ _ _ _ _ Hc Ho Hg) in Hs; try done.
    all: match type of Hs with context [worker_step _ ?x ?b] => destruct (worker_step addr x b) as [a'|] eqn:Hst; [|done] end; injection Hs as <-;
      destruct (circular_worker _ _ _ _ _ _ Hc Ho Hst) as (H1 & H2 & H3 & H4 & H5 & H6 & H7);
      destruct Hc as (C1 & C2 & _ & C4 & C5 & C6 & C7 & C8); unfold session_open, circular_wait, progress_of; cbn;
      rewrite H2, H3, H6, H7; by split_and!.
  - by rewrite (circular_gateway _ _ _ _ _ Hc) in Hs.
  - destruct act as [m|id|id| |]; try done; cbn [outside_step] in Hs; simplify_option_eq; (split; [by split | split; [exact Hc | done]]).
Qed.

(** The circle is for good, whatever else happens, until one of the ends ends the session. *)
Lemma circular_for_good s s' : session_open s -> circular_wait s -> rtc (by_actions (fun act => negb (ends_session act))) s s' ->
  session_open s' /\ circular_wait s' /\ progress_of s' = progress_of s.
Proof.
  intros Ho Hc Hr. induction Hr as [|x y z (act & He%negb_true_iff & Hst) Hr IH]; [done |].
  destruct (circular_stays _ _ _ Ho Hc He Hst) as (Ho' & Hc' & <-). by apply IH.
Qed.

(** A session at rest is stalled. *)
Lemma at_rest_stalled s : session_open s -> at_rest s -> stalled s.
Proof.
  destruct s as [g down up a]. intros [Hg Ho] (H1 & H2 & H3 & H4 & H5 & H6 & H7 & H8 & H9 & H10 & H11) act Hint. cbn [lk_gateway lk_agent] in Hg, Ho.
  destruct act as [act|act|act]; [| |done]; cbn [link_step].
  - destruct act; cbn [agent_step loop_step worker_step writer_step]; rewrite ?H1, ?H2, ?H3, ?H5, ?H6, ?Ho, ?Hg; try done;
      (destruct (ag_workers a !! i) as [k|] eqn:Hk; [|done]); apply list_elem_of_lookup_2 in Hk; rewrite list.Forall_forall in H4;
      by rewrite (H4 k Hk).
  - cbn [gateway_step]. rewrite Hg, H7, H8, H9, H10. destruct act; try done. unfold gateway_turn. cbn [serve_turn]. by rewrite H11.
Qed.

(** The circle as a test. *)
Definition heldb (k : worker) : bool := match k with Running r => bool_decide (is_Some (next_send addr r)) | _ => false end.
Definition loop_heldb (a : agent_side) : bool :=
  match ag_loop a with
  | Loop (_ :: _) _ => true
  | Loop [] (Some _) => Nat.eqb (length (ag_jobs a)) n && forallb heldb (ag_workers a)
  | _ => false
  end.
Definition circular_waitb (s : link) : bool :=
  let '(mkLink g down up a) := s in
  bool_decide (gw_writing g <> []) && Nat.eqb (length down) capDown && loop_heldb a
  && Nat.eqb (length (ag_outbound a)) outboundQueueCapacity && (match ag_writer a with WriterBusy _ => true | _ => false end)
  && Nat.eqb (length up) capUp && bool_decide (is_Some (gw_reader g)) && Nat.eqb (length (gw_readCh g)) readChCapacity.

Lemma circular_waitb_true s : circular_waitb s = true -> circular_wait s.
Proof.
  destruct s as [g down up a]. unfold circular_waitb. intros H. repeat (apply andb_prop in H as [H ?]).
  unfold circular_wait. repeat match goal with
  | h : bool_decide _ = true |- _ => apply bool_decide_eq_true_1 in h
  | h : Nat.eqb _ _ = true |- _ => apply Nat.eqb_eq in h
  end. split_and!; try done.
  - match goal with h : loop_heldb a = true |- _ => revert h end. unfold loop_heldb, loop_held.
    destruct (ag_loop a) as [[|m ms] [job|]|]; try done; [intros [Hj%Nat.eqb_eq Hw]%andb_prop; right | left; by do 3 eexists | left; by do 3 eexists].
    rewrite <- Is_true_true in Hw. apply forallb_True in Hw.
    split_and!; [by eexists | done |]. eapply list.Forall_impl; [exact Hw |]. intros [|r|]; try done. intros Hr. exists r. split; [done |].
    exact (bool_decide_unpack _ Hr).
  - destruct (ag_writer a); try done. by eexists.
Qed.
End waits.

(** ** The theorems *)

(** C6 (liveness).  The goroutines of a session come to a halt in two ways only.  If the
    session is open and none of them can act, then either everything was done (no
    message, job or request is anywhere on its way) or all buffers are full and the
    two ends wait for each other: the gateway's loop in a write, the agent's loop for
    its own writer. *)
Theorem stalled_session_at_rest_or_circular (addr : gostring) (n capDown capUp : nat) (hasAgents canOpen : bool) (sid : gostring)
    (c : cstate) (s : link) :
  (1 <= n)%nat -> (1 <= capDown)%nat -> (1 <= capUp)%nat -> reachable c ->
  rtc (step_by addr n capDown capUp hasAgents canOpen sid (fun _ => true)) (new_session addr n sid (cw c)) s ->
  session_open s -> stalled addr n capDown capUp hasAgents canOpen sid s ->
  at_rest sid s \/ circular_wait addr n capDown capUp s.
Proof.
  intros Hn Hd Hu Hc Hr Hopen Hs. pose proof (link_ok_runs _ _ _ _ _ _ _ _ _ (inv_reachable c Hc) Hr) as Hok.
  pose proof (all_there_runs _ _ _ _ _ _ _ _ _ Hr) as Hthere. destruct s as [g down up a].
  destruct (gw_writing g) as [|m ms] eqn:Hw; [left; by apply (stalled_at_rest addr n capDown capUp hasAgents canOpen) | right].
  pose proof Hok as [_ _ (_ & _ & []) (c' & Hi & Hc')]. pose proof Hopen as [Hg Ho]. cbn [lk_agent lk_gateway lk_down lk_up] in *.
  pose proof (stalled_gateway _ _ _ _ _ _ _ _ _ _ _ c' Hs Hg Hi Hc') as Hfull. rewrite Hw in Hfull.
  destruct (stalled_loop_held _ _ _ _ _ _ _ _ _ _ _ Hn Hok Hthere Hs Ho (space_empty _ _ Hd Hfull)) as [Hl Hsp].
  destruct (way_blocked _ _ _ _ _ _ _ _ _ _ _ Hu Hok Hthere Hs Hopen Hsp) as (H1 & H2 & H3 & H4 & H5).
  unfold circular_wait. split_and!; try done; [by rewrite Hw | by apply full].
Qed.

(** ** A session that comes to the circle *)

(** With the default number of workers: 16 jobs run, 16 wait, and the loop holds one
    more; the jobs answer until every buffer towards the gateway is full, and more
    requests arrive until the gateway's loop waits in a write. *)
Definition sample_circle : list action :=
  opening
  ++ (seq 0 16 ≫= fun k => request_arrives k ++ [AgentAct (WorkerTake k sample_service)])
  ++ (seq 16 17 ≫= request_arrives)
  ++ (seq 0 4 ≫= fun _ => seq 0 16 ≫= fun i => AgentAct (WorkerSend i) :: to_gateway)
  ++ (seq 33 3 ≫= request_arrives).
Definition sample_circle_end : link :=
  execute (link_step ($"3000") 16 4 4 true true ($"ses_1")) sample_circle (new_session ($"3000") 16 ($"ses_1") (cw sample_state)).

(** C7 (safety).  Sessions can deadlock.  With the default of 16 workers an open session,
    in which every message was accepted and handled as it should be, can reach the
    state in which the gateway waits in a write for the agent to read and the agent
    waits for its own writer, which waits for the gateway to read; and until the
    connection is lost or an end is shut down, whatever the goroutines, the
    heartbeat and the public handlers do, neither loop reads another message. *)
Theorem session_can_deadlock :
  exists s, rtc (step_by ($"3000") (Z.to_nat defaultMaxConcurrentRequests) 4 4 true true ($"ses_1") (fun act => negb (ends_session act)))
              (new_session ($"3000") (Z.to_nat defaultMaxConcurrentRequests) ($"ses_1") (cw sample_state)) s
    /\ session_open s /\ circular_wait ($"3000") (Z.to_nat defaultMaxConcurrentRequests) 4 4 s
    /\ forall s', rtc (step_by ($"3000") (Z.to_nat defaultMaxConcurrentRequests) 4 4 true true ($"ses_1") (fun act => negb (ends_session act))) s s' ->
         session_open s' /\ progress_of s' = progress_of s.
Proof.
  change (Z.to_nat defaultMaxConcurrentRequests) with 16%nat. exists sample_circle_end.
  assert (Ho : session_open sample_circle_end) by (split; by vm_compute).
  assert (Hc : circular_wait ($"3000") 16 4 4 sample_circle_end) by (apply circular_waitb_true; by vm_compute).
  split_and!; [apply execute_runs; by vm_compute | exact Ho | exact Hc |].
  intros s' Hr. destruct (circular_for_good _ _ _ _ _ _ _ _ _ Ho Hc Hr) as (H1 & _ & H2). exact (conj H1 H2).
Qed.

Lemma stalled_session_at_rest_or_circular_witness :
  stalled ($"3000") 2 4 4 true true ($"ses_1") sample_end /\ (at_rest ($"ses_1") sample_end \/ circular_wait ($"3000") 2 4 4 sample_end).
Proof.
  assert (Ho : session_open sample_end) by (split; by vm_compute).
  assert (Hs : stalled ($"3000") 2 4 4 true true ($"ses_1") sample_end).
  { apply at_rest_stalled; [exact Ho |]. vm_compute. repeat split; repeat constructor. }
  split; [exact Hs |]. apply (stalled_session_at_rest_or_circular ($"3000") 2 4 4 true true ($"ses_1") sample_state); try lia; auto.
  - apply sample_reachable.
  - apply sample_runs.
Defined.

(** ** The end of a session *)

Section ending.
Context (addr : gostring) (n capDown capUp : nat) (hasAgents canOpen : bool) (sid : gostring).
Abbreviation runs_to := (rtc (step_by addr n capDown capUp hasAgents canOpen sid (fun _ => true))).

Definition by_agent (act : action) : bool := match act with AgentAct _ => true | _ => false end.

(** An action of the agent, after anything that the gateway and the outside do. *)
Definition agent_turn (s s' : link) : Prop :=
  exists s1, rtc (step_by addr n capDown capUp hasAgents canOpen sid (fun act => negb (by_agent act))) s s1
    /\ step_by addr n capDown capUp hasAgents canOpen sid by_agent s1 s'.

(** What an agent whose session is over has still to do at most: first the jobs that
    are not started, then the actions of the goroutines. *)
Definition worker_left (k : worker) : nat :=
  match k with Running r => 3 * depth (after (jr_answers r) (script addr r)) + 2 | Idle => 1 | Gone => 0 end.
Definition loop_left (l : loop) : nat :=
  match l with Loop ms job => 3 * length ms + (match job with Some _ => 2 | None => 1 end) | Returned => 0 end.
Definition writer_left (k : writer) : nat := match k with WriterBusy _ => 2 | WriterIdle => 1 | WriterGone => 0 end.
Definition left_now (a : agent_side) : nat :=
  loop_left (ag_loop a) + sum_list (worker_left <$> ag_workers a) + 2 * length (ag_outbound a) + writer_left (ag_writer a).
Definition less_left (a' a : agent_side) : Prop :=
  (length (waiting a') < length (waiting a))%nat \/ (length (waiting a') <= length (waiting a))%nat /\ (left_now a' < left_now a)%nat.

Lemma sum_insert i k k' (ws : list worker) : ws !! i = Some k ->
  (sum_list (worker_left <$> <[i := k']> ws) + worker_left k = sum_list (worker_left <$> ws) + worker_left k')%nat.
Proof.
  intros (w1 & w2 & -> & ->)%worker_split. rewrite !fmap_app, !fmap_cons. clear. induction w1 as [|x w1 IH]; cbn in *; lia.
Qed.

Lemma next_send_left r b m : next_send addr r = Some m -> (worker_left (Running (answered_with b r)) + 3 <= worker_left (Running r))%nat.
Proof.
  intros H. pose proof (depth_after (jr_answers r) b m (script addr r) H) as Hd. unfold worker_left.
  change (script addr (answered_with b r)) with (script addr r). change (jr_answers (answered_with b r)) with (jr_answers r ++ [b]). lia.
Qed.

Lemma loop_step_left act closed down a down' a' : ag_over a = true -> loop_step n act closed down a = Some (down', a') ->
  ag_over a' = true /\ less_left a' a.
Proof.
  unfold loop_step, queue_message, less_left, left_now, waiting. intros Ho Hs. rewrite Ho in Hs.
  destruct act; try done; destruct (ag_loop a) as [[|m ms] [job|]|] eqn:Hl; try done; try (by destruct down);
    repeat case_match; try done; injection Hs as _ <-; cbn; (split; [done | right]); rewrite ?length_app; cbn; lia.
Qed.

Lemma worker_step_left act a a' : ag_over a = true -> worker_step addr act a = Some a' -> ag_over a' = true /\ less_left a' a.
Proof.
  unfold worker_step, queue_message, less_left, left_now, waiting. intros Ho Hs. rewrite Ho in Hs.
  destruct act as [| | | | |i client|i|i|i|i| | | |]; try done; destruct (ag_workers a !! i) as [[|r|]|] eqn:Hi; try done;
    pose proof (fun k' => sum_insert i _ k' _ Hi) as Hsum.
  - destruct (ag_jobs a) as [|[number q] jobs] eqn:Hj; [done |]. injection Hs as <-. split; [done | left]. cbn. lia.
  - destruct (next_send addr r) as [m|] eqn:Hm; [|done]. cbn [mbind option_bind] in Hs. destruct (has_space _ _); [|done]. injection Hs as <-.
    split; [done | right]. pose proof (next_send_left r true m Hm). specialize (Hsum (Running (answered_with true r))).
    cbn [set_worker ag_loop ag_workers ag_outbound ag_writer ag_jobs]. rewrite !length_app. cbn [length] in *. lia.
  - destruct (next_send addr r) as [m|] eqn:Hm; [|done]. injection Hs as <-.
    split; [done | right]. pose proof (next_send_left r false m Hm). specialize (Hsum (Running (answered_with false r))).
    cbn [set_worker ag_loop ag_workers ag_outbound ag_writer ag_jobs]. lia.
  - destruct (next_send addr r); [done |]. injection Hs as <-. split; [done | right]. specialize (Hsum Idle).
    cbn [worker_left] in Hsum. cbn [add_done set_client set_worker ag_loop ag_workers ag_outbound ag_writer ag_jobs]. lia.
  - injection Hs as <-. split; [done | right]. specialize (Hsum Gone). cbn [worker_left] in Hsum.
    cbn [set_worker ag_loop ag_workers ag_outbound ag_writer ag_jobs]. lia.
Qed.

Lemma writer_step_left act closed up a up' a' : ag_over a = true -> writer_step capUp act closed up a = Some (up', a') ->
  ag_over a' = true /\ less_left a' a.
Proof.
  unfold writer_step, less_left, left_now, waiting. intros Ho Hs. rewrite Ho in Hs.
  destruct act; try done; destruct (ag_writer a) as [|m|] eqn:Hw; try done; repeat case_match; try done; injection Hs as _ <-;
    (split; [done | right]); cbn [set_writer set_over set_outbound ag_loop ag_workers ag_outbound ag_writer ag_jobs writer_left];
    cbn [length]; lia.
Qed.

Lemma agent_step_left act s s' : ag_over (lk_agent s) = true -> agent_step addr n capUp act s = Some s' ->
  ag_over (lk_agent s') = true /\ less_left (lk_agent s') (lk_agent s).
Proof.
  destruct s as [g down up a]. cbn [lk_agent]. intros Ho Hs. destruct act; cbn [agent_step] in Hs.
  1-5: destruct (loop_step n _ _ down a) as [[down' a']|] eqn:Hst; [|done]; injection Hs as <-; by eapply loop_step_left.
  1-5: destruct (worker_step addr _ a) as [a'|] eqn:Hst; [|done]; injection Hs as <-; by eapply worker_step_left.
  all: destruct (writer_step capUp _ _ up a) as [[up' a']|] eqn:Hst; [|done]; injection Hs as <-; by eapply writer_step_left.
Qed.

(** The rest of the world leaves an agent whose session is over as it is. *)
Lemma others_agent s s' : rtc (step_by addr n capDown capUp hasAgents canOpen sid (fun act => negb (by_agent act))) s s' ->
  ag_over (lk_agent s) = true -> lk_agent s' = lk_agent s.
Proof.
  induction 1 as [|x y z (act & Hact & Hst) _ IH]; [done |]. intros Ho.
  assert (Ha : lk_agent y = lk_agent x).
  { destruct act as [|act|act]; [done | by eapply gateway_step_agent |].
    destruct (outside_step_agent _ _ _ _ Hst) as [->| ->]; [done |]. destruct (lk_agent x). cbn in Ho |- *. by subst. }
  rewrite IH; by rewrite Ha.
Qed.

Lemma over_terminates k : forall m s, ag_over (lk_agent s) = true -> length (waiting (lk_agent s)) = k -> left_now (lk_agent s) = m ->
  sn agent_turn s.
Proof.
  induction (lt_wf k) as [k _ IHk]. intros m. induction (lt_wf m) as [m _ IHm]. intros s Ho Hk Hm.
  constructor. intros s' (s1 & Hr & act & Hact & Hst). destruct act as [act|act|act]; [|done..].
  pose proof (others_agent _ _ Hr Ho) as Ha. rewrite <- Ha in Ho, Hk, Hm.
  destruct (agent_step_left _ _ _ Ho Hst) as [Ho' [Hlt|[Hle Hlt]]].
  - eapply (IHk (length (waiting (lk_agent s')))); [lia | done..].
  - destruct (decide (length (waiting (lk_agent s')) = k)) as [He|Hne].
    + eapply (IHm (left_now (lk_agent s'))); [lia | done..].
    + eapply (IHk (length (waiting (lk_agent s')))); [lia | done..].
Qed.

(** Every goroutine of the agent has returned. *)
Definition all_gone (a : agent_side) : Prop := ag_loop a = Returned /\ ag_writer a = WriterGone /\ Forall (fun k => k = Gone) (ag_workers a).

Lemma over_stalled s : ag_over (lk_agent s) = true -> (forall act, agent_step addr n capUp act s = None) -> all_gone (lk_agent s).
Proof.
  destruct s as [g down up a]. cbn [lk_agent]. intros Ho Hs. split_and!.
  - pose proof (Hs LoopDrop) as H1. pose proof (Hs LoopStop) as H2. cbn [agent_step loop_step] in H1, H2. rewrite Ho in H1, H2.
    by destruct (ag_loop a) as [[|m ms] [job|]|].
  - pose proof (Hs WriterFail) as H1. pose proof (Hs WriterStop) as H2. cbn [agent_step writer_step] in H1, H2. rewrite Ho in H1, H2.
    by destruct (ag_writer a).
  - apply list.Forall_forall. intros k (i & Hi)%list_elem_of_lookup. pose proof (Hs (WorkerDrop i)) as H1. pose proof (Hs (WorkerFinish i)) as H2.
    pose proof (Hs (WorkerStop i)) as H3. cbn [agent_step worker_step] in H1, H2, H3. rewrite Hi, ?Ho in H1, H2, H3.
    destruct k as [|r|]; cbn in H1, H2, H3; [by rewrite Ho in H3 | | done]. destruct (next_send addr r); [by rewrite Ho in H1 | done].
Qed.
End ending.

(** C8 (termination).  A session that is over winds down.  Once the session's context is
    done, the agent's goroutines take finitely many actions, whatever the gateway and
    the outside do in between and however much of the connection is blocked; and they
    do not stop before the read loop, the writer and all workers have returned. *)
Theorem session_winds_down (addr : gostring) (n capDown capUp : nat) (hasAgents canOpen : bool) (sid : gostring) (s : link) :
  ag_over (lk_agent s) = true ->
  sn (agent_turn addr n capDown capUp hasAgents canOpen sid) s
  /\ forall s', rtc (step_by addr n capDown capUp hasAgents canOpen sid (fun _ => true)) s s' ->
       (forall act, agent_step addr n capUp act s' = None) -> all_gone (lk_agent s').
Proof.
  intros Ho. split; [by eapply over_terminates |]. intros s' Hr Hs. apply (over_stalled addr n capUp); [|exact Hs]. clear Hs.
  induction Hr as [|x y z (act & _ & Hst) _ IH]; [done |]. apply IH. destruct act as [act|act|act]; cbn [link_step] in Hst.
  - by apply (agent_step_left _ _ _ _ _ _ Ho Hst).
  - by rewrite (gateway_step_agent _ _ _ _ _ _ _ Hst).
  - by destruct (outside_step_agent _ _ _ _ Hst) as [->| ->].
Qed.

Definition sample_over : link := default sample_circle_end (link_step ($"3000") 16 4 4 true true ($"ses_1") (OutsideAct AgentEnd) sample_circle_end).
Lemma session_winds_down_witness : ag_over (lk_agent sample_over) = true /\ sn (agent_turn ($"3000") 16 4 4 true true ($"ses_1")) sample_over.
Proof.
  assert (Ho : ag_over (lk_agent sample_over) = true) by (by vm_compute).
  split; [exact Ho |]. exact (proj1 (session_winds_down ($"3000") 16 4 4 true true ($"ses_1") sample_over Ho)).
Defined.
