(* ===== verification/LinkDelivery.v ===== *)
(** * What a session at rest has delivered

    The wire formats and the goroutines put together: under every schedule, when a
    session has come to rest, each request that the agent has read was answered by
    one call of [DeliverResponse], with exactly the response of its local service. *)

From S2P Require Import Prelude GoStrings Headers Frame ChunkAssembler Json Messages Reader.
From S2P Require Import SessionManager SessionSteps AgentConnect LocalHTTP AgentClient EndToEnd Multiplex JobScript Link LinkRuns LinkWaits.

(** ** Messages and the streams they belong to *)

(** The ID of the response stream that the gateway takes a message to belong to. *)
Definition response_id (m : OutboundMessage) : option gostring :=
  match m_Type m with
  | MessageBinary => match ParseBinaryFrame (m_Data m) with Ok frame => Some (RequestID frame) | Err _ => None end
  | MessageText =>
      match Unmarshal (dec_Envelope dec_RawMessage) ([], None) (m_Data m) with
      | Some (type, raw) =>
          if bool_decide (type = HTTPResponseStart) then hr_RequestID <$> (j ← raw; dec_HTTPResponsePayload j zero_HTTPResponse)
          else if bool_decide (type = HTTPResponseEnd) then Unmarshal (dec_PayloadOnly HTTPResponseEndPayload) [] (m_Data m)
          else None
      | None => None
      end
  | MessageOther _ => None
  end.

(** A turn changes the entry of no other stream. *)
Lemma turn_other hasAgents canOpen sid now ok opened m st st' X :
  serve_turn hasAgents canOpen sid (Inbound now (m_Type m) (m_Data m) ok opened) st = Some (Continue st') -> response_id m <> Some X ->
  sv_responses st' !! X = sv_responses st !! X.
Proof.
  unfold response_id. cbn [serve_turn]. destruct (m_Type m); intros Hs; [injection Hs as Hs| injection Hs as Hs| done].
  - unfold handle_text in Hs. destruct (Unmarshal (dec_Envelope dec_RawMessage) _ _) as [[type raw]|]; [|done].
    case_bool_decide as H1.
    { unfold handle_response_start in Hs. destruct (j ← raw; dec_HTTPResponsePayload j zero_HTTPResponse) as [p|]; [|done].
      repeat case_match; try done; injection Hs as <-; cbn; intros Hne; apply lookup_insert_ne; congruence. }
    case_bool_decide as H2.
    { unfold handle_open_tunnel in Hs. repeat case_match; try done; by injection Hs as <-. }
    case_bool_decide as H3.
    { unfold handle_response_end in Hs. destruct (Unmarshal _ _ _) as [id|]; [|done]. destruct (sv_responses st !! id); [|done].
      repeat case_match; try done; injection Hs as <-; cbn; intros Hne; apply lookup_delete_ne; congruence. }
    intros _. repeat case_bool_decide; [| |by injection Hs as <-].
    + injection Hs as <-. unfold touch, touchAgent. by repeat case_match.
    + destruct ok; [|done]. injection Hs as <-. unfold touch, touchAgent. by repeat case_match.
  - unfold handle_binary in Hs. destruct (ParseBinaryFrame _) as [f|]; [|done]. destruct (sv_responses st !! RequestID f); [|done].
    repeat case_match; try done; injection Hs as <-; cbn; intros Hne; apply lookup_insert_ne; congruence.
Qed.

(** What a turn does with a message of a stream depends on nothing else. *)
Lemma turn_plain hasAgents canOpen sid now ok opened m st id :
  response_id m = Some id ->
  serve_turn hasAgents canOpen sid (Inbound now (m_Type m) (m_Data m) ok opened) st = serve_turn hasAgents canOpen sid (inbound m) st.
Proof.
  unfold response_id, inbound. cbn [serve_turn]. destruct (m_Type m); [|done..].
  unfold handle_text. destruct (Unmarshal (dec_Envelope dec_RawMessage) _ _) as [[type raw]|]; [|done].
  case_bool_decide as H1; [done |]. case_bool_decide as H3; [|done]. subst type. by case_bool_decide.
Qed.

Lemma serve_one hasAgents canOpen sid m st st' :
  serveSession hasAgents canOpen sid [inbound m] st = Continue st' <-> serve_turn hasAgents canOpen sid (inbound m) st = Some (Continue st').
Proof.
  cbn [serveSession]. destruct (serve_turn hasAgents canOpen sid (inbound m) st) as [[]|] eqn:Hs; split; first [done | congruence].
Qed.

Lemma chunk_id id ps n m : id_ok id -> Forall chunk_ok ps -> m ∈ chunk_messages ResponseBodyChunk id n ps -> response_id m = Some id.
Proof.
  intros Hid Hps. revert n. induction Hps as [|p ps Hp _ IH]; intros n; cbn [chunk_messages]; [by intros ?%not_elem_of_nil |].
  intros [->|Hm]%elem_of_cons; [|by eapply IH]. unfold response_id. cbn [m_Type m_Data].
  by rewrite codec_decode by (apply chunk_frame_wf; auto).
Qed.

(** The messages of a stream carry its ID. *)
Lemma stream_id d m : rs_ok d -> m ∈ rs_left (d, Unsent) -> response_id m = Some (rs_id d).
Proof.
  intros (Hs & Hid & Hps & _). unfold rs_left, left_of. cbn [fst snd]. rewrite elem_of_cons, elem_of_app, list_elem_of_singleton.
  intros [-> |[Hm| ->]].
  - unfold response_id, rs_start. cbn [m_Type m_Data]. destruct (response_start_wire (rs_p d) Hs) as (raw & -> & H2).
    rewrite bool_decide_eq_true_2 by done. cbn [mbind option_bind]. rewrite H2. cbn. f_equal. apply Hid.
  - by apply (chunk_id (rs_id d) (rs_ps d) 0).
  - unfold response_id, end_of_response, httpResponseEndPayload. cbn [m_Type m_Data].
    destruct (response_end_wire httpResponseEndType (rs_id d)) as (raw & -> & ->).
    change (coerce httpResponseEndType) with HTTPResponseEnd. change (bool_decide (HTTPResponseEnd = HTTPResponseStart)) with false.
    change (bool_decide (HTTPResponseEnd = HTTPResponseEnd)) with true. cbv iota. f_equal. apply Hid.
Qed.

(** ** One stream *)

#[global] Instance stage_eq_dec : EqDecision stage.
Proof. solve_decision. Defined.

(** The entry of a stream in the gateway's table. *)
Definition entry_at (d : rstream) (s : stage) : option responseAssembly := match s with Sent k => Some (rs_entry d k) | _ => None end.

Section stream.
Context (hasAgents canOpen : bool) (sid : gostring) (d : rstream) (d_ok : rs_ok d).

Lemma start_accepted st st' : serve_turn hasAgents canOpen sid (inbound (rs_start d)) st = Some (Continue st') ->
  sv_responses st' !! rs_id d = Some (rs_entry d 0) /\ sv_world st' = sv_world st.
Proof.
  destruct d_ok as (Hs & [_ Hu] & _ & _ & _). destruct (response_start_wire (rs_p d) Hs) as (raw & H1 & H2).
  unfold inbound, rs_start. cbn [m_Type m_Data serve_turn]. unfold handle_text. rewrite H1.
  change (bool_decide (HTTPResponseStart = HTTPResponseStart)) with true. cbv iota. unfold handle_response_start.
  cbn [mbind option_bind]. rewrite H2. destruct (_ || _); [done |]. destruct (_ && _); [done |]. intros [= <-].
  cbn [set_responses sv_responses sv_world]. split; [|done]. apply lookup_insert_Some. left. split; [exact Hu | reflexivity].
Qed.

Lemma stream_turn s m rest now ok opened st st' c :
  rs_left (d, s) = m :: rest -> sv_responses st !! rs_id d = entry_at d s -> inv c -> cw c = sv_world st ->
  serve_turn hasAgents canOpen sid (Inbound now (m_Type m) (m_Data m) ok opened) st = Some (Continue st') ->
  exists s', rs_left (d, s') = rest /\ sv_responses st' !! rs_id d = entry_at d s'
    /\ (s' = Ended -> exists b, DeliverResponse (rs_id d) (rs_response d) (sv_world st) = Returns b (sv_world st'))
    /\ (s' <> Ended -> sv_world st' = sv_world st).
Proof.
  intros Hm Hst Hi Hc. pose proof d_ok as (Hs & Hid & Hps & Hmax & Hcl). unfold rs_left in Hm. cbn [fst snd] in Hm.
  apply left_of_cases in Hm as [(-> & -> & ->) | [(k & p & -> & Hp & Hmsg & ->) | (k & -> & Hdone & -> & ->)]].
  - rewrite (turn_plain _ _ _ _ _ _ _ _ (rs_id d)) by (apply stream_id; [done |]; apply elem_of_cons; by left).
    intros [Hst' Hw]%start_accepted. by exists (Sent 0).
  - assert (Hid' : response_id m = Some (rs_id d)).
    { apply (chunk_id (rs_id d) [p] (Z.of_nat k)); [done | | rewrite <- Hmsg; by left]. constructor; [by eapply Forall_lookup_1 | done]. }
    rewrite (turn_plain _ _ _ _ _ _ _ _ _ Hid'), <- serve_one. change [inbound m] with (inbound <$> [m]). rewrite Hmsg.
    assert (Hcl' : ar_ContentLength (rs_p d) = -1) by (destruct Hcl as [?|[_ Hnil]]; [done | by rewrite Hnil in Hp]).
    assert (Hlen' : zlen (concat (take k (rs_ps d))) + zlen (concat [p]) <= maxTunnelResponseBodyBytes).
    { rewrite <- (take_drop (S k) (rs_ps d)), (take_snoc _ _ _ Hp), !concat_app, !zlen_app in Hmax.
      pose proof (zlen_nonneg (concat (drop (S k) (rs_ps d)))). lia. }
    erewrite (serve_response_chunks _ _ _ _ [p]); [| done | | exact Hst | exact Hcl' | exact Hlen'].
    2: { constructor; [|done]. by eapply Forall_lookup_1. }
    intros [= <-]. exists (Sent (S k)). split; [done |]. split; [|done]. cbn [set_responses sv_responses]. rewrite lookup_insert_eq.
    unfold entry_at, rs_entry. rewrite (take_snoc _ _ _ Hp), concat_app. do 2 f_equal. f_equal. unfold zlen. cbn. lia.
  - assert (Hall : take k (rs_ps d) = rs_ps d) by (rewrite <- (take_drop k (rs_ps d)) at 2; by rewrite Hdone, app_nil_r).
    destruct (serve_response_end hasAgents canOpen sid (rs_id d) (rs_entry d k) st c) as (b & w' & Hd & Hserve); auto.
    { unfold rs_entry. cbn. rewrite Hall. destruct Hcl as [?|[Hcl Hnil]]; [by left |]. right. by rewrite Hcl, Hnil. }
    unfold rs_entry in Hd. cbn [asm_payload asm_body response_on_wire hr_StatusCode hr_Headers hr_Error] in Hd.
    rewrite Hall in Hd. change (mkResponse _ _ _ _) with (rs_response d) in Hd.
    rewrite (turn_plain _ _ _ _ _ _ _ _ (rs_id d)), <- serve_one.
    2: { apply stream_id; [done |]. unfold rs_left. cbn. rewrite elem_of_cons, elem_of_app, list_elem_of_singleton. auto. }
    unfold end_of_response. rewrite Hserve. intros [= <-]. exists Ended. split; [done |]. cbn [sv_responses sv_world].
    rewrite lookup_delete_eq. split; [done |]. split; [intros _; by exists b | done].
Qed.
End stream.

(** ** Those who wait *)

(** The channel of the request that waits under [id] is left alone, ... *)
Definition keeps_waiting (id : gostring) (w w' : world) : Prop :=
  pending (mgr w') !! id = pending (mgr w) !! id
  /\ forall p, pending (mgr w) !! id = Some p -> respq w' !! p_response p = respq w !! p_response p.
(** ... and so are the responses that were delivered. *)
Definition keeps_delivered (w w' : world) : Prop :=
  forall l cap r rs, respq w !! l = Some (mkChan cap (r :: rs)) -> respq w' !! l = Some (mkChan cap (r :: rs)).

Lemma keeps_same id w w' : pending (mgr w') = pending (mgr w) -> respq w' = respq w -> keeps_waiting id w w' /\ keeps_delivered w w'.
Proof. unfold keeps_waiting, keeps_delivered. by intros -> ->. Qed.

Section waiting.
Context (c : cstate) (c_inv : inv c).

Lemma waiting_empty id p : pending (mgr (cw c)) !! id = Some p -> respq (cw c) !! p_response p = Some (mkChan 1 []).
Proof. intros Hp. apply (inv_empty c c_inv), elem_of_app. left. apply pending_locs_elem. by exists id, p. Qed.

Lemma waiting_apart id id' p p' : pending (mgr (cw c)) !! id = Some p -> pending (mgr (cw c)) !! id' = Some p' -> id <> id' ->
  p_response p <> p_response p'.
Proof. intros Hp Hp' Hne Heq. apply (inv_pend c c_inv) in Hp, Hp'. rewrite Heq in Hp. congruence. Qed.

(** [DeliverResponse] fills the channel of the request that waits, ... *)
Lemma deliver_waiting id p r b w : pending (mgr (cw c)) !! id = Some p -> DeliverResponse id r (cw c) = Returns b w ->
  respq w !! p_response p = Some (mkChan 1 [r]).
Proof.
  intros Hp. unfold DeliverResponse, DeliverResponse_take, send_response. rewrite Hp. cbn [set_mgr respq]. rewrite (waiting_empty id p Hp).
  intros [= _ <-]. cbn. by rewrite lookup_insert_eq.
Qed.

(** ... and nothing else. *)
Lemma deliver_other id id' r b w : DeliverResponse id' r (cw c) = Returns b w ->
  (id' <> id -> keeps_waiting id (cw c) w) /\ keeps_delivered (cw c) w.
Proof.
  unfold DeliverResponse, DeliverResponse_take, send_response.
  destruct (pending (mgr (cw c)) !! id') as [p'|] eqn:Hp'; [|intros [= _ <-]; split; [intros _|]; by apply (keeps_same id)].
  cbn [set_mgr respq]. rewrite (waiting_empty id' p' Hp'). intros [= _ <-]. split.
  - intros Hne. split; cbn; [by rewrite lookup_delete_ne |]. intros p Hp. apply lookup_insert_ne. by eapply waiting_apart.
  - intros l cap r' rs Hl. cbn. rewrite lookup_insert_ne; [done |]. intros <-. rewrite (waiting_empty id' p' Hp') in Hl. done.
Qed.

Lemma register_other sid id id' :
  (id' <> id -> keeps_waiting id (cw c) (RegisterRequest sid id' (cw c)).2) /\ keeps_delivered (cw c) (RegisterRequest sid id' (cw c)).2.
Proof.
  pose proof (inv_fresh c c_inv (next_loc (cw c)) (le_n _)) as Hf. split.
  - intros Hne. split; cbn; [by rewrite lookup_insert_ne |]. intros p Hp. apply lookup_insert_ne. intros Heq.
    rewrite Heq, (waiting_empty id p Hp) in Hf. done.
  - intros l cap r rs Hl. cbn. rewrite lookup_insert_ne; [done |]. intros <-. congruence.
Qed.
End waiting.

(** A turn on a message of another stream. *)
Lemma turn_keeps hasAgents canOpen sid now ok opened m st st' X c :
  serve_turn hasAgents canOpen sid (Inbound now (m_Type m) (m_Data m) ok opened) st = Some (Continue st') -> response_id m <> Some X ->
  inv c -> cw c = sv_world st -> keeps_waiting X (sv_world st) (sv_world st') /\ keeps_delivered (sv_world st) (sv_world st').
Proof.
  unfold response_id. cbn [serve_turn]. intros Hs Hne Hi Hc. destruct (m_Type m); [injection Hs as Hs| injection Hs as Hs| done].
  - unfold handle_text in Hs. destruct (Unmarshal (dec_Envelope dec_RawMessage) _ _) as [[type raw]|]; [|done].
    assert (Htouch : forall st, keeps_waiting X (sv_world st) (sv_world (touch hasAgents sid now st))
                       /\ keeps_delivered (sv_world st) (sv_world (touch hasAgents sid now st))).
    { intros st0. rewrite touch_world. destruct (Touch_frame now sid (sv_world st0)) as (? & _ & ? & _). by apply keeps_same. }
    destruct (bool_decide (type = HTTPResponseStart)) eqn:H1.
    { unfold handle_response_start in Hs. repeat case_match; try done. injection Hs as <-. by apply keeps_same. }
    destruct (bool_decide (type = OpenTunnel)) eqn:H2.
    { unfold handle_open_tunnel in Hs. destruct (negb canOpen); [done |]. destruct (j ← raw; _) as [p|]; [|done].
      destruct (_ || _); [done |]. destruct (AgentID sid _); [|done]. destruct opened as [o|]; [|done]. unfold Send in Hs.
      destruct (outbound_of sid _) as [q|]; [|done]. destruct (trysend_out q _ _) as [w|] eqn:Ht; [|done]. injection Hs as <-.
      apply trysend_out_frame in Ht as (Hm & Hr & _). apply keeps_same; cbn; [by rewrite Hm | done]. }
    destruct (bool_decide (type = HTTPResponseEnd)) eqn:H3.
    { unfold handle_response_end in Hs. destruct (Unmarshal _ _ _) as [id|]; [|done]. destruct (sv_responses st !! id); [|done].
      destruct (_ && _); [done |]. destruct (DeliverResponse _ _ _) as [b w|] eqn:Hd; [|done]. injection Hs as <-. cbn [set_responses sv_world set_world] in *.
      rewrite <- Hc in Hd |- *. destruct (deliver_other c Hi X _ _ _ _ Hd) as [Hw Hk]. split; [|done]. apply Hw. congruence. }
    destruct (bool_decide (type = Pong)); [injection Hs as <-; apply Htouch |].
    destruct (bool_decide (type = Ping)); [|injection Hs as <-; by apply keeps_same].
    destruct ok; [|done]. injection Hs as <-. apply (Htouch (write _ st)).
  - unfold handle_binary in Hs. repeat case_match; try done. injection Hs as <-. by apply keeps_same.
Qed.

(** ** What the agent's loop says *)

Lemma pong_id : response_id (mkOutbound MessageText (envelope Pong None)) = None.
Proof. by vm_compute. Qed.

Lemma open_id addr sid m : open_tunnel addr sid = Some m -> response_id (mkOutbound MessageText m) = None.
Proof.
  unfold open_tunnel. case_bool_decide; [done |]. intros [= <-]. unfold response_id. cbn [m_Type m_Data]. unfold envelope.
  rewrite Unmarshal_Envelope by (by cbn || by vm_compute). unfold dec_Envelope, OpenTunnel. run_store. reflexivity.
Qed.

Lemma read_turn_says m st : c_sender st = empty_queue ->
  Forall (fun m => response_id m = None) (sd_sent (c_sender (loop_state (read_turn false m st)))).
Proof.
  intros Hs. assert (H0 : Forall (fun m => response_id m = None) (sd_sent (c_sender st))) by (rewrite Hs; constructor).
  unfold read_turn. destruct (m_Type m); [| |exact H0].
  - unfold read_text. destruct (Unmarshal _ _ _) as [[type payload]|]; [|exact H0].
    assert (Hp : Forall (fun m => response_id m = None) (sd_sent (c_sender (handle_ping type st)))).
    { unfold handle_ping. case_bool_decide; [|exact H0]. cbn [c_sender]. rewrite Hs. cbn. constructor; [apply pong_id | constructor]. }
    revert Hp. generalize (handle_ping type st). intros s1 Hp. repeat case_bool_decide; try exact Hp.
    + unfold handle_start. repeat case_bool_decide; try exact Hp. destruct (Nat.leb _ _); [exact Hp |]. by destruct (newChunkAssembler _).
    + unfold handle_end. destruct (Unmarshal _ _ _) as [id|]; [|exact Hp]. destruct (pendingRequests s1 !! id) as [[p asm]|]; [|exact Hp].
      by destruct (complete asm).
  - unfold read_binary. destruct (parseBinaryFrame _) as [f|]; [|exact H0]. case_bool_decide; [exact H0 |].
    destruct (pendingRequests st !! _) as [[p asm]|]; [|exact H0]. by destruct (add asm f) as [[dn asm']|].
Qed.

(** The loop's own messages belong to no stream. *)
Definition loop_says (a : agent_side) : Prop :=
  Forall (fun x => x.1 = None -> response_id x.2 = None) (ag_sent a)
  /\ match ag_loop a with Loop ms _ => Forall (fun m => response_id m = None) ms | Returned => True end.

Lemma loop_says_queue from m a a' : queue_message from m a = Some a' -> (from = None -> response_id m = None) ->
  Forall (fun x => x.1 = None -> response_id x.2 = None) (ag_sent a) -> Forall (fun x => x.1 = None -> response_id x.2 = None) (ag_sent a').
Proof.
  unfold queue_message. destruct (has_space _ _); [|done]. intros [= <-] Hm Ha. cbn. apply list.Forall_app. split; [done |].
  constructor; [exact Hm | constructor].
Qed.

Lemma queue_message_loop from m a a' : queue_message from m a = Some a' -> ag_loop a' = ag_loop a.
Proof. unfold queue_message. destruct (has_space _ _); [|done]. by intros [= <-]. Qed.

Lemma loop_step_says n act closed down a down' a' : loop_step n act closed down a = Some (down', a') -> loop_says a -> loop_says a'.
Proof.
  unfold loop_step, loop_says. intros Hs [H1 H2]. destruct act; try done; destruct (ag_loop a) as [[|m ms] [job|]|] eqn:Hl; try done.
  1: { destruct down as [|m down]; [done |]. destruct (ag_over a || _); [done |]. injection Hs as _ <-. unfold loop_read.
       match goal with |- context [read_turn false m ?st] => pose proof (read_turn_says m st eq_refl) as Hsay; destruct (read_turn false m st) end; by split. }
  1-2: apply list.Forall_cons in H2 as [Hm Hms]; destruct (queue_message None m a) as [a1|] eqn:Hq; [|done]; injection Hs as _ <-;
    (split; [by eapply (loop_says_queue None m a a1) | done]).
  1-2: apply list.Forall_cons in H2 as [Hm Hms]; destruct (ag_over a); [|done]; injection Hs as _ <-; by split.
  - destruct (has_space n (ag_jobs a)); [|done]. injection Hs as _ <-. split; [exact H1 | constructor].
  - destruct (ag_over a); [|done]. injection Hs as _ <-. by split.
  - destruct (ag_over a || closed || _); [|done]. injection Hs as _ <-. by split.
Qed.

Lemma loop_says_frame a a' : loop_says a -> ag_sent a' = ag_sent a -> ag_loop a' = ag_loop a -> loop_says a'.
Proof. unfold loop_says. by intros H -> ->. Qed.

Lemma worker_step_says addr act a a' : worker_step addr act a = Some a' -> loop_says a -> loop_says a'.
Proof.
  unfold worker_step. intros Hs Ha. destruct act as [| | | | |i client|i|i|i|i| | | |]; try done; destruct (ag_workers a !! i) as [[|r|]|]; try done.
  - destruct (ag_jobs a) as [|[]]; [done |]. injection Hs as <-. by eapply loop_says_frame.
  - destruct (next_send addr r) as [m|]; [|done]. cbn in Hs. destruct (queue_message _ m a) as [a1|] eqn:Hq; [|done]. injection Hs as <-.
    destruct Ha as [H1 H2]. split; [exact (loop_says_queue _ _ _ _ Hq ltac:(done) H1) |].
    cbn. by rewrite (queue_message_loop _ _ _ _ Hq).
  - destruct (next_send addr r); [|done]. cbn in Hs. destruct (ag_over a); [|done]. injection Hs as <-. by eapply loop_says_frame.
  - destruct (next_send addr r); [done |]. injection Hs as <-. by eapply loop_says_frame.
  - destruct (ag_over a); [|done]. injection Hs as <-. by eapply loop_says_frame.
Qed.

Lemma writer_step_says cap act closed up a up' a' : writer_step cap act closed up a = Some (up', a') -> loop_says a -> loop_says a'.
Proof.
  unfold writer_step. intros Hs Hi. destruct act; try done; destruct (ag_writer a) as [|m|]; try done; repeat case_match; by simplify_eq.
Qed.

(** ** Runs *)

Section delivery.
Context (addr : gostring) (n capDown capUp : nat) (hasAgents canOpen : bool) (sid : gostring) (c : cstate) (c_reachable : reachable c).
Abbreviation step := (link_step addr n capDown capUp hasAgents canOpen sid).
Abbreviation any_step := (step_by addr n capDown capUp hasAgents canOpen sid (fun _ => true)).
Abbreviation start := (new_session addr n sid (cw c)).

Lemma loop_says_runs s : rtc any_step start s -> loop_says (lk_agent s).
Proof.
  assert (H0 : loop_says (lk_agent start)).
  { split; cbn; [|constructor]. destruct (open_tunnel addr sid) as [m|] eqn:Ho; [|constructor].
    constructor; [|constructor]. intros _. by eapply open_id. }
  intros Hr. revert H0. induction Hr as [|x y z (act & _ & Hst) Hr IH]; [done |]. intros H0. apply IH.
  eapply agent_preserves; [apply loop_step_says | apply worker_step_says | apply writer_step_says | | exact Hst | exact H0]. by intros a.
Qed.

(** The history only grows. *)
Lemma queue_message_sent from m a a' : queue_message from m a = Some a' -> ag_sent a `prefix_of` ag_sent a'.
Proof. unfold queue_message. destruct (has_space _ _); [|done]. intros [= <-]. by apply prefix_app_r. Qed.

Lemma sent_grows act s s' : step act s = Some s' -> ag_sent (lk_agent s) `prefix_of` ag_sent (lk_agent s').
Proof.
  intros Hs. eapply (agent_preserves addr n capDown capUp hasAgents canOpen sid (fun a => ag_sent (lk_agent s) `prefix_of` ag_sent a)); [..|exact Hs | done].
  - intros act' closed down a down' a' Hst Ha. etrans; [exact Ha |]. unfold loop_step in Hst.
    destruct act'; try done; destruct (ag_loop a) as [[|m ms] [job|]|]; try done.
    1: { destruct down; [done |]. destruct (ag_over a || _); [done |]. injection Hst as _ <-. unfold loop_read. by destruct (read_turn _ _ _). }
    1-2: destruct (queue_message None m a) as [a1|] eqn:Hq; [|done]; injection Hst as _ <-; by apply queue_message_sent in Hq.
    all: repeat case_match; try done; by injection Hst as _ <-.
  - intros act' a a' Hst Ha. etrans; [exact Ha |]. unfold worker_step in Hst. destruct act' as [| | | | |i client|i|i|i|i| | | |]; try done;
      destruct (ag_workers a !! i) as [[|r|]|]; try done; repeat case_match; try done; simplify_option_eq; try done.
    match goal with Hq : queue_message _ _ _ = Some _ |- _ => by apply queue_message_sent in Hq end.
  - intros act' closed up a up' a' Hst Ha. unfold writer_step in Hst.
    destruct act'; try done; destruct (ag_writer a); try done; repeat case_match; by simplify_eq.
  - done.
Qed.

Lemma sent_grows_runs s s' : rtc any_step s s' -> ag_sent (lk_agent s) `prefix_of` ag_sent (lk_agent s').
Proof. induction 1 as [|x y z (act & _ & Hst) _ IH]; [done |]. etrans; [by eapply sent_grows | exact IH]. Qed.

(** The requests that the agent has read are only added to. *)
Lemma queued_grows act s s' : step act s = Some s' -> queued (ag_client (lk_agent s)) `prefix_of` queued (ag_client (lk_agent s')).
Proof.
  intros Hs.
  eapply (agent_preserves addr n capDown capUp hasAgents canOpen sid (fun a => queued (ag_client (lk_agent s)) `prefix_of` queued (ag_client a)));
    [..|exact Hs | done].
  - intros act' closed down a down' a' Hst Ha. etrans; [exact Ha |]. unfold loop_step, queue_message in Hst.
    destruct act'; try done; destruct (ag_loop a) as [[|m ms] [job|]|]; try done.
    1: { destruct down as [|m down]; [done |]. destruct (ag_over a || _); [done |]. injection Hst as _ <-. unfold loop_read.
         match goal with |- context [read_turn false m ?st] => pose proof (read_turn_queued m st) as Hq; destruct (read_turn false m st) end;
           cbn in Hq |- *; [destruct Hq as [->|[q ->]]; [done | by apply prefix_app_r] | by rewrite Hq]. }
    all: repeat case_match; try done; by injection Hst as _ <-.
  - intros act' a a' Hst Ha. etrans; [exact Ha |]. unfold worker_step, queue_message in Hst. destruct act' as [| | | | |i client|i|i|i|i| | | |]; try done;
      destruct (ag_workers a !! i) as [[|r|]|]; try done; repeat case_match; try done; simplify_option_eq; done.
  - intros act' closed up a up' a' Hst Ha. unfold writer_step in Hst.
    destruct act'; try done; destruct (ag_writer a); try done; repeat case_match; by simplify_eq.
  - done.
Qed.

Lemma queued_grows_runs s s' : rtc any_step s s' -> queued (ag_client (lk_agent s)) `prefix_of` queued (ag_client (lk_agent s')).
Proof. induction 1 as [|x y z (act & _ & Hst) _ IH]; [done |]. etrans; [by eapply queued_grows | exact IH]. Qed.

Abbreviation world_of s := (sv_world (gw_serving (lk_gateway s))).

(** The actions by which a handler registers a request or gives it up. *)
Definition touches (id : gostring) (act : action) : bool :=
  match act with OutsideAct (RegisterOne k) | OutsideAct (CancelOne k) => bool_decide (k = id) | _ => false end.

(** What a step does to the gateway that goes on: it leaves the table of responses and
    those who wait for them alone, or handles one message. *)
Lemma gateway_progress act s s' X c' : step act s = Some s' -> gw_over (lk_gateway s') = false -> inv c' -> cw c' = world_of s ->
  gw_over (lk_gateway s) = false
  /\ ((gw_seen (lk_gateway s') = gw_seen (lk_gateway s) /\ sv_responses (gw_serving (lk_gateway s')) = sv_responses (gw_serving (lk_gateway s))
        /\ (touches X act = false -> keeps_waiting X (world_of s) (world_of s')) /\ keeps_delivered (world_of s) (world_of s'))
      \/ exists m now opened, gw_seen (lk_gateway s') = gw_seen (lk_gateway s) ++ [m]
           /\ serve_turn hasAgents canOpen sid (Inbound now (m_Type m) (m_Data m) true opened) (gw_serving (lk_gateway s))
              = Some (Continue (gw_serving (lk_gateway s')))).
Proof.
  intros Hs Ho Hi Hc. destruct act as [act|act|act]; cbn [link_step] in Hs.
  - rewrite (agent_step_gateway _ _ _ _ _ _ Hs) in Ho |- *. split; [done |]. left. split_and!; try done; by apply (keeps_same X).
  - destruct s as [g down up a]. unfold gateway_step in Hs. destruct (gw_over g) eqn:Hg; [done |]. split; [exact Hg |]. cbn [lk_gateway].
    destruct act as [now opened| | | | | |].
    + destruct (gw_writing g); [|done]. destruct (gw_readCh g) as [|m readCh]; [done |]. right. exists m, now, opened. unfold gateway_turn in Hs.
      destruct (serve_turn _ _ _ (Inbound now _ _ _ _) (gw_serving g)) as [[st|ok cl st|]|]; try done; cbn in Hs; injection Hs as <-; done.
    + left. destruct (gw_writing g); [|done]. unfold gateway_turn in Hs. cbn [serve_turn] in Hs.
      destruct (receive_outbound _ _) as [[m w]|] eqn:Hr; [|done]. cbn in Hs. injection Hs as <-. cbn. rewrite app_nil_r.
      unfold receive_outbound in Hr. simplify_option_eq. case_match; [done |]. simplify_eq. split_and!; try done; by apply (keeps_same X).
    + left. destruct (gw_writing g); [|done]. cbn in Hs. injection Hs as <-. cbn. rewrite app_nil_r. split_and!; try done; by apply (keeps_same X).
    + left. destruct (gw_writing g); [done |]. destruct (has_space _ _); [|done]. injection Hs as <-. split_and!; try done; by apply (keeps_same X).
    + left. destruct (gw_reader g); [done |]. destruct up; [done |]. destruct (too_long _ _); [done |]. injection Hs as <-.
      split_and!; try done; by apply (keeps_same X).
    + destruct (gw_reader g); [done |]. destruct (next_too_long _ _); [|done]. by injection Hs as <-.
    + left. destruct (gw_reader g); [|done]. destruct (has_space _ _); [|done]. injection Hs as <-. split_and!; try done; by apply (keeps_same X).
  - destruct s as [g down up a]. cbn [lk_gateway] in Hc. destruct act as [m|k|k| |]; cbn [outside_step] in Hs.
    + simplify_option_eq. split; [done |]. left. split_and!; try done;
        match goal with H : trysend_out _ _ _ = Some _ |- _ => apply trysend_out_frame in H as (Hm & Hr & _) end;
        intros; apply (keeps_same X); cbn; congruence.
    + injection Hs as <-. split; [done |]. left. cbn. rewrite <- Hc. destruct (register_other c' Hi sid X k) as [Hw Hk].
      split_and!; [done | done | | exact Hk]. intros Hne%bool_decide_eq_false. by apply Hw.
    + injection Hs as <-. split; [done |]. left. cbn. split_and!; [done | done | | by intros ? ? ? ? ?]. intros Hne%bool_decide_eq_false.
      split; cbn; [by rewrite lookup_delete_ne | done].
    + by injection Hs as <-.
    + injection Hs as <-. split; [done |]. left. cbn. split_and!; try done; by apply (keeps_same X).
Qed.

Lemma world_inv s : rtc any_step start s -> exists c', inv c' /\ cw c' = world_of s.
Proof. intros Hr. by destruct (link_ok_runs _ _ _ _ _ _ _ _ _ (inv_reachable c c_reachable) Hr) as [_ _ _ Hc]. Qed.

Lemma open_before s s' : rtc any_step start s -> rtc any_step s s' -> gw_over (lk_gateway s') = false -> gw_over (lk_gateway s) = false.
Proof.
  intros Hs Hr. revert Hs. induction Hr as [|x y z (act & _ & Hst) _ IH]; [done |]. intros Hs Ho.
  destruct (world_inv x Hs) as (c' & Hi & Hc).
  apply (gateway_progress act x y [] c' Hst); [|done | done]. apply IH; [|done]. eapply rtc_r; [exact Hs |]. by exists act.
Qed.

(** In the run to [s] the gateway has called [DeliverResponse] with this response. *)
Definition called (s : link) (id : gostring) (r : Response) : Prop :=
  exists s1 s2 b, rtc any_step start s1 /\ any_step s1 s2 /\ rtc any_step s2 s /\ DeliverResponse id r (world_of s1) = Returns b (world_of s2).

Lemma called_later s s' id r : any_step s s' -> called s id r -> called s' id r.
Proof. intros Hs (s1 & s2 & b & H1 & H2 & H3 & H4). exists s1, s2, b. split_and!; [done | done | by eapply rtc_r | done]. Qed.

(** A stream of job [i] among the messages [sent] that a run is going to queue. *)
Section one_stream.
Context (i : nat) (d : rstream) (d_ok : rs_ok d) (sent : list (option nat * OutboundMessage)).
Context (sent_i : from_job i sent `prefix_of` rs_left (d, Unsent)).
Context (sent_j : forall k j m, sent !! k = Some (Some j, m) -> j <> i -> response_id m <> Some (rs_id d)).
Context (sent_none : forall k m, sent !! k = Some (None, m) -> response_id m = None).

Definition stream_at (s : link) (stg : stage) : Prop :=
  sv_responses (gw_serving (lk_gateway s)) !! rs_id d = entry_at d stg
  /\ from_job i (take (length (gw_seen (lk_gateway s))) sent) ++ rs_left (d, stg) = rs_left (d, Unsent).

(** What a step does to those who wait: it delivers the response of the stream, which
    ends, or it leaves them alone. *)
Definition effect (act : action) (s s' : link) (stg stg' : stage) : Prop :=
  (stg' = Ended /\ exists b, DeliverResponse (rs_id d) (rs_response d) (world_of s) = Returns b (world_of s'))
  \/ ((stg' = Ended -> stg = Ended) /\ (stg = Ended -> stg' = Ended)
      /\ (touches (rs_id d) act = false -> keeps_waiting (rs_id d) (world_of s) (world_of s')) /\ keeps_delivered (world_of s) (world_of s')).

(** The next message handled is the next one of the history. *)
Lemma next_seen s s' m : rtc any_step start s' -> ag_sent (lk_agent s') `prefix_of` sent ->
  gw_seen (lk_gateway s') = gw_seen (lk_gateway s) ++ [m] ->
  exists tag, sent !! length (gw_seen (lk_gateway s)) = Some (tag, m)
    /\ take (length (gw_seen (lk_gateway s'))) sent = take (length (gw_seen (lk_gateway s))) sent ++ [(tag, m)].
Proof.
  intros Hr [rest ->] Hs. destruct (link_ok_runs _ _ _ _ _ _ _ _ _ (inv_reachable c c_reachable) Hr) as [_ _ (Hup & _) _].
  destruct s' as [g down up a]. destruct Hup as (lost & _ & Hup). cbn [lk_gateway lk_agent] in *. rewrite Hs, <- app_assoc in Hup.
  set (k := length (gw_seen (lk_gateway s))).
  assert (Hk : (ag_sent a).*2 !! k = Some m) by (rewrite Hup; apply list_lookup_middle; done).
  apply list_lookup_fmap_Some in Hk as ([tag m'] & -> & Hk). exists tag. cbn [snd].
  assert (Hk' : (ag_sent a ++ rest) !! k = Some (tag, m')) by (by apply lookup_app_l_Some).
  split; [exact Hk' |]. rewrite Hs, length_app. cbn [length]. rewrite Nat.add_1_r. by apply take_S_r.
Qed.

Lemma stream_handles act s s' m now opened stg c' :
  stream_at s stg -> rtc any_step start s -> step act s = Some s' -> ag_sent (lk_agent s') `prefix_of` sent ->
  inv c' -> cw c' = world_of s -> gw_seen (lk_gateway s') = gw_seen (lk_gateway s) ++ [m] ->
  serve_turn hasAgents canOpen sid (Inbound now (m_Type m) (m_Data m) true opened) (gw_serving (lk_gateway s))
    = Some (Continue (gw_serving (lk_gateway s'))) -> exists stg', stream_at s' stg' /\ effect act s s' stg stg'.
Proof.
  intros (He & Hl) Hr Hst Hp Hi Hc Hseen Hturn.
  destruct (next_seen s s' m) as (tag & Hk & Htake); [eapply rtc_r; [exact Hr |]; by exists act | done | done |].
  destruct (decide (tag = Some i)) as [->|Hne].
  - assert (Hm : from_job i (take (length (gw_seen (lk_gateway s'))) sent) = from_job i (take (length (gw_seen (lk_gateway s))) sent) ++ [m]).
    { rewrite Htake, from_job_app, from_job_one. by destruct (decide _). }
    assert (Hleft : exists rest, rs_left (d, stg) = m :: rest).
    { assert (Hpre : from_job i (take (length (gw_seen (lk_gateway s'))) sent) `prefix_of` rs_left (d, Unsent)).
      { etrans; [|exact sent_i]. rewrite <- (take_drop (length (gw_seen (lk_gateway s'))) sent) at 2. rewrite from_job_app. by apply prefix_app_r. }
      rewrite Hm, <- Hl in Hpre. apply prefix_app_inv in Hpre as [rest Hrest]. by exists rest. }
    destruct Hleft as [rest Hleft].
    destruct (stream_turn hasAgents canOpen sid d d_ok stg m rest now true opened _ _ c' Hleft He Hi Hc Hturn) as (stg' & Hrest & He' & Hdel & Hsame).
    exists stg'. split; [split; [done |]; rewrite Hm, <- app_assoc, <- Hl, Hleft, Hrest; done |].
    destruct (decide (stg' = Ended)) as [Hx|Hx]; [left; auto | right].
    assert (stg <> Ended) by (intros ->; by cbn in Hleft).
    destruct (keeps_same (rs_id d) (world_of s) (world_of s')) as [H1 H2]; [by rewrite (Hsame Hx).. |]. by split_and!.
  - assert (Hid : response_id m <> Some (rs_id d)).
    { destruct tag as [j|]; [apply (sent_j _ j m Hk); congruence | by rewrite (sent_none _ m Hk)]. }
    exists stg. split.
    + split; [by rewrite (turn_other _ _ _ _ _ _ _ _ _ _ Hturn Hid) |].
      rewrite Htake, from_job_app, from_job_one. destruct (decide _); [done |]. by rewrite app_nil_r.
    + right. destruct (turn_keeps _ _ _ _ _ _ _ _ _ _ c' Hturn Hid Hi Hc). by split_and!.
Qed.

Lemma stream_step act s s' stg : stream_at s stg -> rtc any_step start s -> step act s = Some s' -> ag_sent (lk_agent s') `prefix_of` sent ->
  gw_over (lk_gateway s') = false -> exists stg', stream_at s' stg' /\ effect act s s' stg stg'.
Proof.
  intros Hat Hr Hst Hp Ho. destruct (world_inv s Hr) as (c' & Hi & Hc).
  destruct (gateway_progress act s s' (rs_id d) c' Hst Ho Hi Hc) as [_ [(Hseen & Htab & Hw & Hk)|(m & now & opened & Hseen & Hturn)]];
    [|by eapply stream_handles].
  exists stg. split; [unfold stream_at; by rewrite Hseen, Htab | right; by split_and!].
Qed.

Lemma stream_run s : rtc any_step start s -> ag_sent (lk_agent s) `prefix_of` sent -> gw_over (lk_gateway s) = false ->
  exists stg, stream_at s stg /\ (stg = Ended -> called s (rs_id d) (rs_response d)).
Proof.
  revert s. apply (rtc_ind_r (fun s => ag_sent (lk_agent s) `prefix_of` sent -> gw_over (lk_gateway s) = false ->
    exists stg, stream_at s stg /\ (stg = Ended -> called s (rs_id d) (rs_response d)))).
  - intros _ _. exists Unsent. by split.
  - intros s s' Hr (act & _ & Hst) IH Hp Ho. assert (Hstep : any_step s s') by (by exists act).
    destruct IH as (stg & Hat & Hend); [etrans; [by eapply sent_grows | exact Hp] | by eapply open_before; [exact Hr | by apply rtc_once |] |].
    destruct (stream_step act s s' stg Hat Hr Hst Hp Ho) as (stg' & Hat' & [(-> & b & Hdel)|(He & _)]).
    + exists Ended. split; [done |]. intros _. exists s, s', b. by split_and!; [| |apply rtc_refl |].
    + exists stg'. split; [done |]. intros Hx. eapply called_later; [exact Hstep | auto].
Qed.

(** ** The channel of a request that waits *)

(** The handler waits on channel [l], or the response is in it. *)
Definition mail (l : loc) (s : link) (stg : stage) : Prop :=
  match stg with
  | Ended => respq (world_of s) !! l = Some (mkChan 1 [rs_response d])
  | _ => exists p, pending (mgr (world_of s)) !! rs_id d = Some p /\ p_response p = l
  end.

(** The handler does not give the request up before its channel is filled. *)
Definition filled (l : loc) (s : link) : bool :=
  match respq (world_of s) !! l with Some (mkChan _ (_ :: _)) => true | _ => false end.
Fixpoint patient (id : gostring) (l : loc) (acts : list action) (s : link) : bool :=
  match acts with
  | [] => true
  | act :: acts => (negb (touches id act) || filled l s) && match step act s with Some s => patient id l acts s | None => false end
  end.

Lemma mail_step act l s s' stg stg' : rtc any_step start s -> mail l s stg -> effect act s s' stg stg' ->
  negb (touches (rs_id d) act) || filled l s = true -> mail l s' stg'.
Proof.
  intros Hr Hm Heff Hpat. destruct (world_inv s Hr) as (c' & Hi & Hc).
  assert (Hwait : stg <> Ended -> exists p, pending (mgr (world_of s)) !! rs_id d = Some p /\ p_response p = l) by (by destruct stg).
  destruct Heff as [(-> & b & Hdel)|(H1 & H2 & Hw & Hk)].
  - destruct (decide (stg = Ended)) as [->|Hne].
    + cbn [mail] in *. rewrite <- Hc in *. destruct (deliver_other c' Hi (rs_id d) _ _ _ _ Hdel) as [_ Hk]. by apply Hk.
    + destruct (Hwait Hne) as (p & Hp & <-). rewrite <- Hc in *. cbn [mail]. by eapply deliver_waiting.
  - destruct (decide (stg = Ended)) as [->|Hne]; [rewrite (H2 eq_refl); by apply Hk |].
    destruct (Hwait Hne) as (p & Hp & <-). assert (Hempty : filled (p_response p) s = false).
    { unfold filled. rewrite <- Hc in *. by rewrite (waiting_empty c' Hi _ _ Hp). }
    rewrite Hempty, orb_false_r in Hpat. apply negb_true_iff in Hpat. destruct (Hw Hpat) as [Hw1 _].
    assert (stg' <> Ended) by auto. enough (exists p', pending (mgr (world_of s')) !! rs_id d = Some p' /\ p_response p' = p_response p) by (by destruct stg').
    exists p. by rewrite Hw1.
Qed.
End one_stream.
End delivery.

(** ** At rest *)

Lemma rs_left_nil d stg : rs_left (d, stg) = [] -> stg = Ended.
Proof. unfold rs_left, left_of. destruct stg as [|k|]; cbn; [done | | done]. by intros [_ ?]%app_nil. Qed.

Lemma from_job_elem j k m sent : sent !! k = Some (Some j, m) -> m ∈ from_job j sent.
Proof.
  intros H%list_elem_of_lookup_2. apply list_elem_of_fmap. exists (Some j, m). split; [done |]. by apply list_elem_of_filter.
Qed.

(** Everything that was read was done, and everything that was queued was handled. *)
Lemma rest_accounts addr n capDown capUp sid s : link_ok addr n capDown capUp s -> session_open s -> at_rest sid s ->
  let a := lk_agent s in
  (ag_sent a).*2 = gw_seen (lk_gateway s)
  /\ jobs_ok addr (queued (ag_client a)) [] (ag_done a) (ag_sent a) false
  /\ length (queued (ag_client a)) = length (ag_done a)
  /\ forall r, r ∈ ag_done a -> from_job (jr_number r) (ag_sent a) = full_output addr r.
Proof.
  destruct s as [g down up a]. intros [(lost & Hl & Hok & Hd) _ (Hup & _) _] [_ Ho] (H1 & H2 & H3 & H4 & H5 & H6 & H7 & H8 & H9 & _).
  destruct Hup as (lost' & Hl' & Hup). cbn [lk_agent lk_gateway] in *.
  assert (lost = []) as -> by (destruct Hl as [|[? _]]; [done | congruence]).
  assert (lost' = []) as -> by (destruct Hl' as [|[? _]]; [done | congruence]).
  assert (Hrun : running (ag_workers a) = []).
  { clear -H4. induction (ag_workers a) as [|k ws IH]; [done |]. apply list.Forall_cons in H4 as [-> H4]. by apply IH. }
  unfold waiting, started in Hok. rewrite H1, H3, Hrun, !app_nil_r, Ho in Hok. cbn [loop_job app] in Hok.
  split; [rewrite Hup, H5, H6, H7, H8, H9; by rewrite !app_nil_r |]. split; [exact Hok |]. split.
  - pose proof (jo_waiting _ _ _ _ _ _ Hok) as Hw. pose proof (jo_length _ _ _ _ _ _ Hok).
    apply (f_equal length) in Hw. rewrite length_seq in Hw. cbn in Hw. lia.
  - intros r Hr. rewrite (jo_sent _ _ _ _ _ _ Hok r Hr). unfold full_output. rewrite interp_job. symmetry.
    apply (interp_all_told (jr_answers r) (script addr r) 0 []); [by apply (jo_success _ _ _ _ _ _ Hok) | by apply Hd].
Qed.

(** At rest each job has queued one whole stream, and nobody else a message of it. *)
Section rest.
Context (addr : gostring) (n capDown capUp : nat) (hasAgents canOpen : bool) (sid : gostring) (c : cstate) (s : link).
Context (c_reachable : reachable c) (addr_set : addr <> []).
Context (s_run : rtc (step_by addr n capDown capUp hasAgents canOpen sid (fun _ => true)) (new_session addr n sid (cw c)) s).
Context (s_open : session_open s) (s_rest : at_rest sid s).
Context (s_ids : NoDup (q_ID <$> queued (ag_client (lk_agent s)))).
Context (s_ids_ok : Forall (fun q => id_ok (q_ID q)) (queued (ag_client (lk_agent s)))).
Context (s_local : Forall (fun r => local_ok (jr_client r) addr (jr_request r)) (ag_done (lk_agent s))).
Abbreviation a := (lk_agent s).

Lemma rest_all_seen : take (length (gw_seen (lk_gateway s))) (ag_sent a) = ag_sent a.
Proof.
  destruct (rest_accounts _ _ _ _ _ _ (link_ok_runs _ _ _ _ _ _ _ _ _ (inv_reachable c c_reachable) s_run) s_open s_rest) as (Hseen & _).
  apply take_ge. by rewrite <- Hseen, length_fmap.
Qed.

Lemma rest_job j : (j < length (queued (ag_client a)))%nat ->
  exists r, r ∈ ag_done a /\ jr_number r = j /\ queued (ag_client a) !! j = Some (jr_request r).
Proof.
  destruct (rest_accounts _ _ _ _ _ _ (link_ok_runs _ _ _ _ _ _ _ _ _ (inv_reachable c c_reachable) s_run) s_open s_rest) as (_ & Hok & Hlen & _).
  intros Hj. assert (Hin : j ∈ jr_number <$> ag_done a) by (rewrite (jo_started _ _ _ _ _ _ Hok); apply elem_of_seq; lia).
  apply list_elem_of_fmap in Hin as (r & -> & Hin). exists r. split_and!; [done | done | by apply (jo_request_s _ _ _ _ _ _ Hok)].
Qed.

Lemma rest_stream r : r ∈ ag_done a -> exists d, rs_ok d /\ rs_id d = q_ID (jr_request r)
  /\ rs_response d = expected_response (jr_client r) addr (jr_request r) /\ from_job (jr_number r) (ag_sent a) = rs_left (d, Unsent).
Proof.
  destruct (rest_accounts _ _ _ _ _ _ (link_ok_runs _ _ _ _ _ _ _ _ _ (inv_reachable c c_reachable) s_run) s_open s_rest) as (_ & Hok & _ & Hfull).
  intros Hin. pose proof (jo_request_s _ _ _ _ _ _ Hok r Hin) as Hreq%list_elem_of_lookup_2.
  rewrite list.Forall_forall in s_ids_ok. rewrite list.Forall_forall in s_local.
  destruct (job_stream (jr_client r) addr (jr_request r) (s_ids_ok _ Hreq) addr_set (s_local r Hin)) as (d & _ & H1 & H2 & H3 & H4).
  exists d. split_and!; [done | done | done |]. by rewrite (Hfull r Hin).
Qed.

Lemma rest_others i d q : rs_id d = q_ID q -> queued (ag_client a) !! i = Some q ->
  forall k j m, ag_sent a !! k = Some (Some j, m) -> j <> i -> response_id m <> Some (rs_id d).
Proof.
  destruct (rest_accounts _ _ _ _ _ _ (link_ok_runs _ _ _ _ _ _ _ _ _ (inv_reachable c c_reachable) s_run) s_open s_rest) as (_ & Hok & Hlen & _).
  intros Hd Hq k j m Hk Hji. pose proof (from_job_elem _ _ _ _ Hk) as Hm.
  assert (Hj : (j < length (ag_done a))%nat).
  { destruct (decide (length (ag_done a) <= j)%nat) as [Hge|]; [|lia]. rewrite (jo_unsent _ _ _ _ _ _ Hok j Hge) in Hm. by apply not_elem_of_nil in Hm. }
  destruct (rest_job j) as (r' & Hin' & <- & Hreq'); [by rewrite Hlen |]. destruct (rest_stream r' Hin') as (d' & Hd' & Hdid' & _ & Hfrom').
  rewrite Hfrom' in Hm. rewrite (stream_id d' m Hd' Hm), Hdid', Hd. intros [= Heq]. apply Hji.
  eapply NoDup_lookup; [exact s_ids | by rewrite list_lookup_fmap, Hreq' |]. rewrite list_lookup_fmap, Hq. cbn. by rewrite Heq.
Qed.

Lemma rest_loop k m : ag_sent a !! k = Some (None, m) -> response_id m = None.
Proof.
  intros Hk. destruct (loop_says_runs _ _ _ _ _ _ _ c s s_run) as [Hsay _]. rewrite list.Forall_forall in Hsay.
  apply (Hsay (None, m)); [by eapply list_elem_of_lookup_2 | done].
Qed.

(** At rest every stream has ended. *)
Lemma rest_ended i d stg : from_job i (ag_sent a) = rs_left (d, Unsent) -> stream_at i d (ag_sent a) s stg -> stg = Ended.
Proof.
  intros Hfrom [_ Hl]. rewrite rest_all_seen, Hfrom in Hl. rewrite <- (app_nil_r (rs_left (d, Unsent))) in Hl at 2.
  apply app_inv_head in Hl. by apply rs_left_nil in Hl.
Qed.
End rest.

(** A session delivers.  Whatever the order in which the goroutines of
    an open session, the public handlers and the heartbeat have acted, when the session
    has come to rest every request that the agent has read was run once, and in the
    run the gateway has called [DeliverResponse] under the ID of the request with
    exactly the response of its local service: if the IDs of the requests differ, as
    those the gateway makes up do, and the local service keeps within the limits. *)
Theorem session_delivers (addr : gostring) (n capDown capUp : nat) (hasAgents canOpen : bool) (sid : gostring) (c : cstate) (s : link) :
  reachable c -> rtc (step_by addr n capDown capUp hasAgents canOpen sid (fun _ => true)) (new_session addr n sid (cw c)) s ->
  session_open s -> at_rest sid s -> addr <> [] ->
  NoDup (q_ID <$> queued (ag_client (lk_agent s))) -> Forall (fun q => id_ok (q_ID q)) (queued (ag_client (lk_agent s))) ->
  Forall (fun r => local_ok (jr_client r) addr (jr_request r)) (ag_done (lk_agent s)) ->
  forall i q, queued (ag_client (lk_agent s)) !! i = Some q ->
  exists r, r ∈ ag_done (lk_agent s) /\ jr_number r = i /\ jr_request r = q
    /\ called addr n capDown capUp hasAgents canOpen sid c s (q_ID q) (expected_response (jr_client r) addr q).
Proof.
  intros Hc Hr Hopen Hrest Ha Hids Hidok Hserv i q Hq.
  destruct (rest_job addr n capDown capUp hasAgents canOpen sid c s Hc Hr Hopen Hrest i) as (r & Hin & Hnum & Hreq); [by eapply lookup_lt_Some |].
  assert (jr_request r = q) as <- by congruence.
  destruct (rest_stream addr n capDown capUp hasAgents canOpen sid c s Hc Ha Hr Hopen Hrest Hidok Hserv r Hin) as (d & Hd & Hdid & Hresp & Hfrom).
  rewrite Hnum in Hfrom.
  destruct (stream_run addr n capDown capUp hasAgents canOpen sid c Hc i d Hd (ag_sent (lk_agent s))) with (s := s) as (stg & Hat & Hend).
  - by rewrite Hfrom.
  - by eapply (rest_others addr n capDown capUp hasAgents canOpen sid c s).
  - by eapply (rest_loop addr n capDown capUp hasAgents canOpen sid c s).
  - exact Hr.
  - done.
  - apply Hopen.
  - exists r. split_and!; [done | done | done |]. rewrite <- Hresp, <- Hdid. apply Hend.
    by eapply (rest_ended addr n capDown capUp hasAgents canOpen sid c s).
Qed.

Lemma sample_local_ok q : local_roundtrip sample_service ($"3000") q = Ok (200, ∅, (fun b => ([b], None)) <$> $"abcd") ->
  local_ok sample_service ($"3000") q.
Proof.
  intros Hl. unfold local_ok. rewrite Hl. split; [by vm_compute |]. split; [|by vm_compute]. intros k [v Hv].
  change (agent_withoutHopByHopHeaders ∅) with (withoutHopByHopHeaders ∅) in Hv. rewrite withoutHopByHop_lookup in Hv.
  by destruct (_ || _) in Hv.
Qed.

Lemma sample_services_ok : Forall (fun r => local_ok (jr_client r) ($"3000") (jr_request r)) (ag_done (lk_agent sample_end)).
Proof.
  assert (Hd : exists a0 a1 q0 q1, ag_done (lk_agent sample_end) = [mkJobrun 0 sample_service q0 a0; mkJobrun 1 sample_service q1 a1]
            /\ local_roundtrip sample_service ($"3000") q0 = Ok (200, ∅, (fun b => ([b], None)) <$> $"abcd")
            /\ local_roundtrip sample_service ($"3000") q1 = Ok (200, ∅, (fun b => ([b], None)) <$> $"abcd")).
  { do 4 eexists. split; [vm_compute; reflexivity |]. split; vm_compute; reflexivity. }
  destruct Hd as (a0 & a1 & q0 & q1 & -> & H0 & H1).
  apply Forall_cons; [exact (sample_local_ok q0 H0) |]. apply Forall_cons; [exact (sample_local_ok q1 H1) | apply Forall_nil].
Qed.

Lemma ids_okb qs :
  forallb (fun q => (1 <=? zlen (q_ID q)) && (zlen (q_ID q) <? 2 ^ 16) && bool_decide (coerce (q_ID q) = q_ID q)) qs = true ->
  Forall (fun q => id_ok (q_ID q)) qs.
Proof.
  rewrite forallb_forall. intros H. apply list.Forall_forall. intros q Hq%list_elem_of_In. specialize (H q Hq). prop_guards. by split.
Qed.

Lemma session_delivers_witness :
  exists r, r ∈ ag_done (lk_agent sample_end)
    /\ called ($"3000") 2 4 4 true true ($"ses_1") sample_state sample_end ($"req_2") (expected_response (jr_client r) ($"3000") (jr_request r))
    /\ Body (expected_response sample_service ($"3000") (jr_request r)) = $"abcd".
Proof.
  destruct (queued (ag_client (lk_agent sample_end)) !! 1%nat) as [q|] eqn:Hq; [|by vm_compute in Hq].
  destruct (session_delivers ($"3000") 2 4 4 true true ($"ses_1") sample_state sample_end sample_reachable sample_runs) with (i := 1%nat) (q := q)
    as (r & Hin & Hn & Hreq & Hcall).
  - split; by vm_compute.
  - vm_compute. repeat split; repeat constructor.
  - done.
  - by apply (bool_decide_eq_true_1 (NoDup _)); vm_compute.
  - apply ids_okb. by vm_compute.
  - exact sample_services_ok.
  - exact Hq.
  - exists r. rewrite Hreq. split; [exact Hin |]. vm_compute in Hq. injection Hq as <-. split; [exact Hcall | by vm_compute].
Defined.

(** ** More workers than streams *)

(** The agent can be configured with up to 64 workers, the gateway holds 32 response
    streams: with 33 workers, 33 requests whose responses have all begun end the
    session. *)
Definition crowded_run : list action :=
  opening ++ (seq 0 33 ≫= fun k => request_arrives k ++ [AgentAct (WorkerTake k sample_service)])
  ++ (seq 0 33 ≫= fun k => AgentAct (WorkerSend k) :: handled (Err tt)).

Lemma too_many_workers :
  33 <= maxConcurrentRequests
  /\ exists s, rtc (step_by ($"3000") 33 4 4 true true ($"ses_1") (fun act => negb (ends_session act))) (new_session ($"3000") 33 ($"ses_1") (cw sample_state)) s
       /\ gw_over (lk_gateway s) = true.
Proof.
  split; [by vm_compute |]. eexists. split; [apply (execute_runs _ _ _ _ _ _ _ _ crowded_run); by vm_compute |]. vm_compute. reflexivity.
Qed.
