(* ===== verification/LinkRequests.v ===== *)
(** * What the agent makes of the public handlers' messages

    Public handlers put messages into the queue of a session whenever they like; the
    gateway's loop writes them to the connection between messages of its own, and the
    agent's loop reads them.  Whatever the schedule, the messages of a request reach
    the agent's loop in order and unchanged, and a request whose handler has queued
    all of them becomes exactly one job. *)

From S2P Require Import Prelude GoStrings Headers Frame ChunkAssembler Json Messages Reader.
From S2P Require Import SessionManager SessionSteps AgentConnect LocalHTTP AgentClient PublicHandler EndToEnd Multiplex.
From S2P Require Import JobScript Link LinkRuns LinkWaits.

(** ** Messages and the requests they belong to *)

(** The ID of the request that the agent takes a message to belong to. *)
Definition request_id (m : OutboundMessage) : option gostring :=
  match m_Type m with
  | MessageBinary => match parseBinaryFrame (m_Data m) with Ok frame => Some (RequestID frame) | Err _ => None end
  | MessageText =>
      match Unmarshal (dec_Envelope dec_httpRequestPayload) ([], zero_httpRequest) (m_Data m) with
      | Some (type, payload) =>
          if bool_decide (type = httpRequestStartType) then Some (aq_RequestID payload)
          else if bool_decide (type = httpRequestEndType) then Unmarshal (dec_PayloadOnly httpRequestEndPayload) [] (m_Data m)
          else if bool_decide (type = cancelRequestType) then Some (aq_RequestID payload)
          else None
      | None => None
      end
  | MessageOther _ => None
  end.

(** The messages of one request. *)
Definition under (id : gostring) : list OutboundMessage -> list OutboundMessage := filter (fun m => request_id m = Some id).

Lemma under_app id ms ms' : under id (ms ++ ms') = under id ms ++ under id ms'.
Proof. apply list.filter_app. Qed.
Lemma under_one id m : under id [m] = if decide (request_id m = Some id) then [m] else [].
Proof. unfold under. rewrite filter_cons. by destruct (decide _). Qed.
Lemma under_all id ms : (forall m, m ∈ ms -> request_id m = Some id) -> under id ms = ms.
Proof.
  induction ms as [|m ms IH]; [done |]. intros H. unfold under. rewrite filter_cons_True by (apply H; by left). f_equal. apply IH.
  intros m' Hm'. apply H. by right.
Qed.

(** ** The messages a turn of the agent's loop handles *)

(** The jobs queued for one request. *)
Definition jobs_of (id : gostring) (st : client_state) : list Request := filter (fun q => q_ID q = id) (queued st).

(** A request is kept under its own ID. *)
Definition keyed (st : client_state) : Prop := map_Forall (fun id e => aq_RequestID e.1 = id) (pendingRequests st).

Lemma handle_ping_requests type st : pendingRequests (handle_ping type st) = pendingRequests st /\ queued (handle_ping type st) = queued st.
Proof. unfold handle_ping. by case_bool_decide. Qed.

Lemma read_turn_keyed m st st' : read_turn false m st = Next st' -> keyed st -> keyed st'.
Proof.
  unfold read_turn, keyed. intros Hs Hk. destruct (m_Type m); [| |done].
  - unfold read_text in Hs. destruct (Unmarshal _ _ _) as [[type payload]|]; [|done].
    destruct (handle_ping_requests type st) as [Hp _]. rewrite <- Hp in Hk. revert Hs Hk. generalize (handle_ping type st). intros s1 Hs Hk.
    repeat case_bool_decide; [| | |by injection Hs as <-].
    + unfold handle_start in Hs. repeat case_match; try done. injection Hs as <-. cbn. by apply map_Forall_insert_2.
    + unfold handle_end in Hs. repeat case_match; try done. injection Hs as <-. cbn. by apply map_Forall_delete.
    + injection Hs as <-. cbn. by apply map_Forall_delete.
  - unfold read_binary in Hs. destruct (parseBinaryFrame _) as [f|]; [|done]. case_bool_decide; [done |].
    destruct (pendingRequests st !! RequestID f) as [[p asm]|] eqn:Hl; [|done]. destruct (add asm f) as [[? asm']|]; [|done].
    injection Hs as <-. cbn. apply map_Forall_insert_2; [|done]. exact (Hk _ _ Hl).
Qed.

(** A turn does nothing to the requests that its message does not belong to. *)
Lemma read_turn_other m st st' X : read_turn false m st = Next st' -> keyed st -> request_id m <> Some X ->
  pendingRequests st' !! X = pendingRequests st !! X /\ jobs_of X st' = jobs_of X st.
Proof.
  unfold read_turn, request_id, jobs_of. intros Hs Hk. destruct (m_Type m); [| |done].
  - unfold read_text in Hs. destruct (Unmarshal (dec_Envelope _) _ _) as [[type payload]|]; [|done].
    destruct (handle_ping_requests type st) as [Hp Hq]. unfold keyed in Hk. rewrite <- Hp in Hk |- *. rewrite <- Hq.
    revert Hs Hk. generalize (handle_ping type st). clear Hp Hq. intros s1 Hs Hk Hne.
    repeat case_bool_decide; [| | |by injection Hs as <-].
    + unfold handle_start in Hs. repeat case_match; try done. injection Hs as <-. cbn. split; [|done]. apply lookup_insert_ne. congruence.
    + unfold handle_end in Hs. destruct (Unmarshal (dec_PayloadOnly _) _ _) as [id|]; [|done].
      destruct (pendingRequests s1 !! id) as [[p asm]|] eqn:Hl; [|done]. destruct (complete asm); [|done]. injection Hs as <-. cbn.
      split; [apply lookup_delete_ne; congruence |]. rewrite list.filter_app, filter_cons_False; [by rewrite app_nil_r |].
      pose proof (Hk _ _ Hl) as Hid. cbn in *. congruence.
    + injection Hs as <-. cbn. split; [|done]. apply lookup_delete_ne. congruence.
  - unfold read_binary in Hs. destruct (parseBinaryFrame _) as [f|]; [|done]. case_bool_decide; [done |].
    destruct (pendingRequests st !! RequestID f) as [[p asm]|]; [|done]. destruct (add asm f) as [[? asm']|]; [|done].
    injection Hs as <-. cbn. intros Hne. split; [|done]. apply lookup_insert_ne. congruence.
Qed.

Lemma cancel_id id : coerce id = id -> request_id (cancel_message id) = Some id.
Proof.
  intros Hu. unfold request_id, cancel_message, CancelRequestPayload. cbn [m_Type m_Data].
  destruct (request_id_wire Messages.CancelRequest id) as [-> _].
  change (coerce Messages.CancelRequest) with Messages.CancelRequest. cbn [aq_RequestID]. by rewrite Hu.
Qed.

Lemma read_cancel id st : coerce id = id -> read_turn false (cancel_message id) st = Next (handle_cancel id st).
Proof.
  intros Hu. unfold read_turn, cancel_message, CancelRequestPayload. cbn [m_Type m_Data]. unfold read_text.
  destruct (request_id_wire Messages.CancelRequest id) as [-> _].
  change (coerce Messages.CancelRequest) with Messages.CancelRequest. cbn [aq_RequestID]. by rewrite Hu.
Qed.

(** ** One request *)

Section stream.
Context (lower : Z -> Z) (d : qstream) (d_ok : qs_ok lower d).
Abbreviation left stg := (qs_left lower (d, stg)).

Lemma request_chunk_id ps n m : Forall chunk_ok ps -> m ∈ chunk_messages RequestBodyChunk (qs_id d) n ps -> request_id m = Some (qs_id d).
Proof.
  intros Hps. destruct d_ok as (_ & Hid & _). revert n. induction Hps as [|p ps Hp _ IH]; intros n; cbn [chunk_messages]; [by intros ?%not_elem_of_nil |].
  intros [->|Hm]%elem_of_cons; [|by eapply IH]. unfold request_id. cbn [m_Type m_Data].
  by rewrite codec_decode by (apply chunk_frame_wf; auto).
Qed.

(** The messages of a request carry its ID. *)
Lemma request_stream_id m : m ∈ left Unsent -> request_id m = Some (qs_id d).
Proof.
  destruct d_ok as (Hs & Hid & Hps & _). pose proof Hid as [_ Hu]. unfold qs_left, left_of. cbn [fst snd].
  rewrite elem_of_cons, elem_of_app, list_elem_of_singleton. intros [-> |[Hm| ->]].
  - unfold request_id. cbn [m_Type m_Data]. unfold start_message. fold (qs_payload lower d). rewrite request_start_wire by done.
    change (bool_decide (HTTPRequestStart = httpRequestStartType)) with true. cbv iota. f_equal. exact Hu.
  - by eapply request_chunk_id.
  - unfold request_id, end_of_request, HTTPRequestEndPayload. cbn [m_Type m_Data].
    destruct (request_id_wire HTTPRequestEnd (qs_id d)) as [-> H2]. unfold httpRequestEndPayload. rewrite H2.
    change (coerce HTTPRequestEnd) with HTTPRequestEnd. f_equal. exact Hu.
Qed.

(** What the agent holds of a request. *)
Definition request_at (st : client_state) (stg : stage) : Prop :=
  pendingRequests st !! qs_id d = match stg with Sent k => Some (qs_entry lower d k) | _ => None end
  /\ jobs_of (qs_id d) st = match stg with Ended => [pb_forwarded lower (qs_public d)] | _ => [] end.

Lemma request_start_accepted st st' :
  pendingRequests st !! qs_id d = None ->
  read_turn false (mkOutbound MessageText (start_message lower (qs_id d) (pb_r (qs_public d)))) st = Next st' ->
  st' = set_pendingRequests (<[qs_id d := qs_entry lower d 0]> (pendingRequests st)) st.
Proof.
  destruct d_ok as (Hs & Hid & _ & _ & Hcl). intros Hnone. pose proof (zlen_nonneg (pb_data (qs_public d))).
  change (start_message lower (qs_id d) (pb_r (qs_public d)))
    with (Envelope HTTPRequestStart (Some (enc_HTTPRequestPayload (qs_payload lower d)))).
  destruct (decide (size (pendingRequests st) < maxPendingRequestStreams)%nat) as [Hsz|Hsz].
  - rewrite (read_start (qs_payload lower d)); [|done | done | cbn; lia | done | done]. by intros [= <-].
  - unfold read_turn. cbn [m_Type m_Data]. unfold read_text. rewrite request_start_wire by done.
    change (bool_decide (HTTPRequestStart = httpRequestStartType)) with true. cbv iota. unfold handle_start.
    destruct (handle_ping_requests HTTPRequestStart st) as [-> _]. repeat case_bool_decide; try done.
    destruct (Nat.leb _ _) eqn:Hl; [done |]. apply Nat.leb_gt in Hl. lia.
Qed.

(** The next message of the request takes it to its next stage. *)
Lemma request_turn stg m rest st st' :
  left stg = m :: rest -> request_at st stg -> read_turn false m st = Next st' -> exists stg', left stg' = rest /\ request_at st' stg'.
Proof.
  intros Hm [Hp Hj] Hs. pose proof d_ok as (Hsend & Hid & Hps & Hcat & Hcl). unfold qs_left in Hm. cbn [fst snd] in Hm.
  apply left_of_cases in Hm as [(-> & -> & ->) | [(k & p & -> & Hpk & Hmsg & ->) | (k & -> & Hdone & -> & ->)]].
  - exists (Sent 0). split; [done |]. rewrite (request_start_accepted _ _ Hp Hs). by split; [apply lookup_insert_eq |].
  - exists (Sent (S k)). split; [done |].
    assert (Hread : read_loop [m] st = Next st') by (cbn [read_loop]; by rewrite Hs). rewrite Hmsg in Hread.
    erewrite (read_request_chunks (qs_id d) [p]) in Hread; [| done | | exact Hp | ].
    2: { constructor; [|done]. by eapply Forall_lookup_1. }
    2: { rewrite <- Hcat, <- (take_drop (S k) (qs_ps d)), (take_snoc _ _ _ Hpk), !concat_app, !zlen_app in Hcl.
         pose proof (zlen_nonneg (concat (drop (S k) (qs_ps d)))). lia. }
    injection Hread as <-. split; [|exact Hj]. cbn [set_pendingRequests pendingRequests]. rewrite lookup_insert_eq.
    unfold qs_entry. rewrite (take_snoc _ _ _ Hpk), concat_app. repeat f_equal. unfold zlen. cbn. lia.
  - assert (Hall : take k (qs_ps d) = qs_ps d) by (rewrite <- (take_drop k (qs_ps d)) at 2; by rewrite Hdone, app_nil_r).
    exists Ended. split; [done |]. unfold qs_entry in Hp. rewrite Hall, Hcat in Hp.
    erewrite read_end in Hs; [|done | exact Hp | lia]. injection Hs as <-. split; [apply lookup_delete_eq |].
    unfold jobs_of in *. cbn [queued]. rewrite list.filter_app, Hj. destruct Hid as [_ Hu].
    rewrite filter_cons_True; cbn [request_on_wire aq_RequestID aq_Method aq_Path aq_Headers qs_payload hq_RequestID hq_Method hq_Path
      hq_Headers fmap option_fmap option_map default from_option q_ID]; [|by rewrite Hu].
    unfold pb_forwarded, forwarded_request. by rewrite Hu.
Qed.

Lemma read_loop_keyed ms st : read_loop ms no_requests = Next st -> keyed st.
Proof.
  revert st. induction ms as [|m ms IH] using rev_ind; intros st; [intros [= <-]; by intros ? ? ? |].
  rewrite read_loop_snoc. destruct (read_loop ms no_requests) as [st1|]; [|done]. intros Hs. by eapply read_turn_keyed, IH.
Qed.

(** The messages of the request that were read determine what the agent holds of it. *)
Lemma request_read ms rest st : read_loop ms no_requests = Next st -> under (qs_id d) ms ++ rest = left Unsent ->
  exists stg, left stg = rest /\ request_at st stg.
Proof.
  revert rest st. induction ms as [|m ms IH] using rev_ind; intros rest st.
  - intros [= <-] Hr. exists Unsent. by split.
  - rewrite read_loop_snoc. destruct (read_loop ms no_requests) as [st1|] eqn:Hl; [|done]. intros Hs. rewrite under_app, under_one.
    destruct (decide _) as [Hid|Hid]; rewrite <- app_assoc; cbn [app]; intros Hr; destruct (IH _ _ eq_refl Hr) as (stg & Hleft & Hat).
    + by eapply request_turn.
    + exists stg. split; [done |]. destruct (read_turn_other _ _ _ _ Hs (read_loop_keyed _ _ Hl) Hid) as [H1 H2].
      unfold request_at. by rewrite H1, H2.
Qed.

Lemma request_read_cancelled ms sent st : read_loop ms no_requests = Next st -> sent `prefix_of` left Unsent ->
  under (qs_id d) ms = sent ++ [cancel_message (qs_id d)] ->
  exists stg, jobs_of (qs_id d) st = match stg with Ended => [pb_forwarded lower (qs_public d)] | _ => [] end.
Proof.
  intros Hr [rest Hsent] Hu. revert st Hr. induction ms as [|m ms IH] using rev_ind; intros st Hr; [by destruct sent |].
  rewrite read_loop_snoc in Hr. destruct (read_loop ms no_requests) as [st1|] eqn:Hl; [|done].
  rewrite under_app, under_one in Hu. destruct (decide _) as [Hid|Hid].
  - apply app_inj_tail in Hu as [Hu ->]. destruct d_ok as (_ & [_ Hc] & _). rewrite read_cancel in Hr by done. injection Hr as <-.
    rewrite <- Hu in Hsent. destruct (request_read ms rest st1 Hl (eq_sym Hsent)) as (stg & _ & _ & Hj). by exists stg.
  - rewrite app_nil_r in Hu. destruct (IH Hu st1 eq_refl) as [stg Hj]. exists stg.
    by destruct (read_turn_other _ _ _ _ Hr (read_loop_keyed _ _ Hl) Hid) as [_ ->].
Qed.
End stream.

(** Without a message of a request there is no job for it. *)
Lemma unread_no_job ms id : under id ms = [] -> jobs_of id (loop_state (read_loop ms no_requests)) = [].
Proof.
  induction ms as [|m ms IH] using rev_ind; [done |]. rewrite read_loop_snoc, under_app, under_one.
  destruct (decide _) as [Hid|Hid]; [by intros [_ ?]%app_nil |]. rewrite app_nil_r. intros Hu. specialize (IH Hu).
  destruct (read_loop ms no_requests) as [st1|] eqn:Hl; [|done]. pose proof (read_turn_queued m st1) as Hq.
  destruct (read_turn false m st1) as [st2|] eqn:Hs; cbn [loop_state] in *.
  - by destruct (read_turn_other _ _ _ _ Hs (read_loop_keyed _ _ Hl) Hid) as [_ ->].
  - unfold jobs_of in *. by rewrite Hq.
Qed.

(** ** From the handlers to the agent's loop *)

(** What waits in the queue of a session. *)
Definition outbox (sid : gostring) (w : world) : list OutboundMessage :=
  match outbound_of sid w with
  | Some q => match outq w !! q with Some c => ch_buf c | None => [] end
  | None => []
  end.

Lemma outbox_same sid w w' : outbound_of sid w' = outbound_of sid w -> outq w' = outq w -> outbox sid w' = outbox sid w.
Proof. unfold outbox. by intros -> ->. Qed.

Lemma outbox_push sid q m w w' : outbound_of sid w = Some q -> trysend_out q m w = Some w' -> outbox sid w' = outbox sid w ++ [m].
Proof.
  intros Hq (Hm & _ & _ & _ & ch & Hch & _ & Ho)%trysend_out_frame. unfold outbox, outbound_of in *. rewrite Hm, Hq, Ho, Hch.
  by rewrite lookup_insert_eq.
Qed.

Lemma outbox_Send sid message w w' : Send sid message w = (true, w') -> outbox sid w' = outbox sid w ++ [mkOutbound MessageText message].
Proof.
  unfold Send. destruct (outbound_of sid w) as [q|] eqn:Hq; [|done]. destruct (trysend_out q _ w) as [w1|] eqn:Ht; [|done].
  intros [= <-]. by eapply outbox_push.
Qed.

Lemma outbox_Deliver sid id r w b w' : DeliverResponse id r w = Returns b w' -> outbox sid w' = outbox sid w.
Proof.
  unfold DeliverResponse, DeliverResponse_take, send_response. destruct (pending (mgr w) !! id); [|by intros [= _ <-]].
  cbn [set_mgr respq]. destruct (respq w !! _) as [ch|]; [|done]. destruct (has_room ch); [|done]. by intros [= _ <-].
Qed.

Lemma outbox_touch hasAgents sid now st : outbox sid (sv_world (touch hasAgents sid now st)) = outbox sid (sv_world st).
Proof.
  rewrite touch_world. destruct (Touch_frame now sid (sv_world st)) as (_ & Ho & _ & _ & _ & _ & _ & Hb).
  apply outbox_same; [apply Hb | done].
Qed.

Lemma written_touch hasAgents sid now st : sv_written (touch hasAgents sid now st) = sv_written st.
Proof. unfold touch, touchAgent. by repeat case_match. Qed.

Lemma outbox_receive sid m w w' : receive_outbound sid w = Some (m, w') -> outbox sid w = m :: outbox sid w'.
Proof.
  unfold receive_outbound, outbox. destruct (outbound_of sid w) as [q|] eqn:Hq; [|done]. cbn. destruct (outq w !! q) as [ch|] eqn:Hch; [|done].
  cbn. destruct (ch_buf ch) as [|m' rest]; [done |]. intros [= <- <-]. unfold outbound_of in *. cbn [mgr outq]. rewrite Hq.
  by rewrite lookup_insert_eq.
Qed.

Lemma outbox_drained sid w : receive_outbound sid w = None -> outbox sid w = [].
Proof.
  unfold receive_outbound, outbox. destruct (outbound_of sid w) as [q|]; [|done]. cbn. destruct (outq w !! q) as [ch|]; [|done].
  cbn. by destruct (ch_buf ch).
Qed.

(** The gateway's own messages belong to no request. *)
Lemma ping_id : request_id (mkOutbound MessageText (Envelope Ping None)) = None.
Proof. by vm_compute. Qed.
Lemma gateway_pong_id : request_id (mkOutbound MessageText (Envelope Pong None)) = None.
Proof. by vm_compute. Qed.

Lemma tunnel_opened_id o : request_id (mkOutbound MessageText (Envelope TunnelOpened (Some (enc_TunnelOpenedPayload o)))) = None.
Proof.
  unfold request_id. cbn [m_Type m_Data]. rewrite Unmarshal_Envelope by (by cbn || by vm_compute).
  unfold dec_Envelope, dec_httpRequestPayload, enc_TunnelOpenedPayload, TunnelOpened. run_store.
  repeat match goal with
         | |- context [match_field ?n (lit ?s)] =>
             let r := eval vm_compute in (match_field n (lit s)) in
             match r with None => change (match_field n (lit s)) with (@None gostring) end; run_store
         end.
  reflexivity.
Qed.

(** A run as the list of its actions. *)
Fixpoint perform (step : action -> link -> option link) (acts : list action) (s : link) : option link :=
  match acts with
  | [] => Some s
  | act :: acts => s ← step act s; perform step acts s
  end.

(** The messages that public handlers queue in it. *)
Definition enqueued : list action -> list OutboundMessage :=
  omap (fun act => match act with OutsideAct (Enqueue m) => Some m | _ => None end).

Lemma perform_app step acts acts' s : perform step (acts ++ acts') s = perform step acts s ≫= perform step acts'.
Proof. revert s. induction acts as [|act acts IH]; intros s; [done |]. cbn. destruct (step act s); [apply IH | done]. Qed.

Lemma perform_snoc step acts act s s' : perform step (acts ++ [act]) s = Some s' ->
  exists s1, perform step acts s = Some s1 /\ step act s1 = Some s'.
Proof.
  rewrite perform_app. destruct (perform step acts s) as [s1|]; [|done]. cbn. intros H. exists s1. split; [done |].
  by destruct (step act s1); simplify_eq/=.
Qed.

Lemma enqueued_app acts acts' : enqueued (acts ++ acts') = enqueued acts ++ enqueued acts'.
Proof. apply omap_app. Qed.

Section relay.
Context (addr : gostring) (n capDown capUp : nat) (hasAgents canOpen : bool) (sid : gostring).
Abbreviation step := (link_step addr n capDown capUp hasAgents canOpen sid).

Lemma perform_runs acts s s' : perform step acts s = Some s' -> rtc (step_by addr n capDown capUp hasAgents canOpen sid (fun _ => true)) s s'.
Proof.
  revert s. induction acts as [|act acts IH]; intros s; cbn; [intros [= <-]; apply rtc_refl |].
  destruct (step act s) as [s1|] eqn:Hs; [|done]. intros Hp. eapply rtc_l; [by exists act | by apply IH].
Qed.

(** What the loop has written and what is still in its queue. *)
Definition relay (st : serving) : list OutboundMessage := sv_written st ++ outbox sid (sv_world st).

Lemma turn_relays e st st' id : serve_turn hasAgents canOpen sid e st = Some (Continue st') -> under id (relay st') = under id (relay st).
Proof.
  unfold relay. destruct e as [|wok|wok|now type data wok opened|]; cbn [serve_turn]; try done.
  - destruct wok; [|done]. intros [= <-]. cbn [write sv_written sv_world]. rewrite !under_app, (under_one id), ping_id. cbn. by rewrite app_nil_r.
  - destruct (receive_outbound sid _) as [[m w]|] eqn:Hr; [|done]. cbn. destruct wok; [|done]. intros [= <-]. cbn.
    by rewrite (outbox_receive _ _ _ _ Hr), <- app_assoc.
  - destruct type; [| |done]; intros [= Hs].
    + unfold handle_text in Hs. destruct (Unmarshal _ _ _) as [[type raw]|]; [|done]. repeat case_bool_decide.
      * unfold handle_response_start in Hs. repeat case_match; try done. by injection Hs as <-.
      * unfold handle_open_tunnel in Hs. destruct (negb canOpen); [done |]. destruct (j ← raw; _) as [p|]; [|done].
        destruct (_ || _); [done |]. destruct (AgentID sid _); [|done]. destruct opened as [o|]; [|done].
        destruct (Send sid _ (sv_world st)) as [[|] w] eqn:Hsend; [|done]. injection Hs as <-. cbn.
        rewrite (outbox_Send _ _ _ _ Hsend), app_assoc, under_app, under_one, tunnel_opened_id. by rewrite app_nil_r.
      * unfold handle_response_end in Hs. destruct (Unmarshal _ _ _); [|done]. destruct (sv_responses st !! _); [|done].
        destruct (_ && _); [done |]. destruct (DeliverResponse _ _ _) as [b w|] eqn:Hd; [|done]. injection Hs as <-. cbn.
        by rewrite (outbox_Deliver _ _ _ _ _ _ Hd).
      * injection Hs as <-. by rewrite written_touch, outbox_touch.
      * destruct wok; [|done]. injection Hs as <-. rewrite written_touch, outbox_touch. cbn [write sv_written sv_world].
        rewrite !under_app, (under_one id), gateway_pong_id. cbn. by rewrite app_nil_r.
      * by injection Hs as <-.
    + unfold handle_binary in Hs. repeat case_match; try done. by injection Hs as <-.
Qed.

Lemma gateway_turn_relays e handled readCh g g' id : gateway_turn hasAgents canOpen sid e handled readCh g = Some g' -> gw_over g' = false ->
  under id (relay (gw_serving g')) = under id (relay (gw_serving g)).
Proof.
  unfold gateway_turn. destruct (serve_turn _ _ _ e (gw_serving g)) as [[st|ok cl st|]|] eqn:Hv; [| |done..]; cbn; intros [= <-]; [|done].
  intros _. cbn. by eapply turn_relays.
Qed.

(** A step relays the messages of every request in order. *)
Lemma step_relays act s s' id : step act s = Some s' -> gw_over (lk_gateway s') = false ->
  gw_over (lk_gateway s) = false
  /\ under id (relay (gw_serving (lk_gateway s'))) = under id (relay (gw_serving (lk_gateway s)) ++ enqueued [act]).
Proof.
  intros Hs Ho. rewrite under_app. destruct act as [act|act|act]; cbn [link_step enqueued omap list_omap] in *.
  - rewrite (agent_step_gateway _ _ _ _ _ _ Hs) in *. by rewrite app_nil_r.
  - rewrite app_nil_r. destruct s as [g down up a]. unfold gateway_step in Hs. destruct (gw_over g) eqn:Hg; [done |]. split; [exact Hg |]. cbn [lk_gateway].
    destruct act as [now opened| | | | | |].
    1: destruct (gw_writing g); [|done]; destruct (gw_readCh g) as [|m readCh]; [done |].
    2-3: destruct (gw_writing g); [|done].
    1-3: destruct (gateway_turn _ _ _ _ _ _ g) as [g'|] eqn:Ht; [|done]; injection Hs as <-; by eapply gateway_turn_relays.
    all: repeat case_match; try done; by injection Hs as <-.
  - destruct s as [g down up a]. destruct act as [m|k|k| |]; cbn [outside_step] in Hs.
    + destruct (outbound_of sid _) as [q|] eqn:Hq; [|done]. cbn in Hs. destruct (trysend_out q m _) as [w|] eqn:Ht; [|done].
      injection Hs as <-. split; [exact Ho |]. unfold relay. cbn. by rewrite (outbox_push _ _ _ _ _ Hq Ht), app_assoc, under_app.
    + injection Hs as <-. by rewrite app_nil_r.
    + injection Hs as <-. by rewrite app_nil_r.
    + injection Hs as <-. done.
    + injection Hs as <-. by rewrite app_nil_r.
Qed.

Lemma run_relays w acts s id : outbox sid w = [] -> perform step acts (new_session addr n sid w) = Some s -> gw_over (lk_gateway s) = false ->
  under id (relay (gw_serving (lk_gateway s))) = under id (enqueued acts).
Proof.
  intros Hw. revert s. induction acts as [|act acts IH] using rev_ind; intros s.
  - intros [= <-] _. unfold relay. cbn. by rewrite Hw.
  - intros (s1 & H1 & Hs)%perform_snoc Ho. destruct (step_relays act s1 s id Hs Ho) as [Ho1 ->].
    by rewrite under_app, (IH s1 H1 Ho1), enqueued_app, under_app.
Qed.
End relay.

(** ** What public handlers queue *)

Lemma NoDup_fmap_count {A} (f : A -> gostring) (l : list A) :
  (forall x, x ∈ l -> (length (filter (fun y => f y = f x) l) <= 1)%nat) -> NoDup (f <$> l).
Proof.
  induction l as [|x l IH]; intros Hc; [constructor |]. rewrite fmap_cons. constructor.
  - intros (y & Hy & Hin)%list_elem_of_fmap. specialize (Hc x ltac:(by left)). rewrite filter_cons_True in Hc by done. cbn in Hc.
    assert (Hin' : y ∈ filter (fun y => f y = f x) l) by (by apply list_elem_of_filter).
    destruct (filter _ l); [by apply not_elem_of_nil in Hin' | cbn in Hc; lia].
  - apply IH. intros y Hy. specialize (Hc y ltac:(by right)). rewrite filter_cons in Hc. destruct (decide _); cbn in Hc; lia.
Qed.

Section traffic.
Context (lower : Z -> Z) (baseDomain : gostring).

(** The handler of a public request has queued all or the first of its messages, or
    it has given up and queued a cancellation after some of them. *)
Definition queued_by (x : public) (ms : list OutboundMessage) : Prop :=
  ms `prefix_of` pb_messages lower baseDomain x
  \/ exists first, first `prefix_of` pb_messages lower baseDomain x /\ ms = first ++ [cancel_message (pb_id x)].

(** The messages [ms] come from the handlers of the requests [reqs]. *)
Record traffic (reqs : list public) (ms : list OutboundMessage) : Prop := mkTraffic {
  tf_requests : Forall (forwardable lower baseDomain no_requests) reqs;
  tf_handlers : forall x, x ∈ reqs -> queued_by x (under (pb_id x) ms);
  tf_all : forall id, under id ms <> [] -> id ∈ pb_id <$> reqs
}.

Context (reqs : list public) (ms : list OutboundMessage) (ms_ok : traffic reqs ms).
Context (read : list OutboundMessage) (st : client_state) (st_read : read_loop read no_requests = Next st).
Context (read_all : forall id, under id read = under id ms).

(** A request whose handler has queued everything became exactly one job. *)
Lemma complete_one_job x : x ∈ reqs -> under (pb_id x) ms = pb_messages lower baseDomain x -> jobs_of (pb_id x) st = [pb_forwarded lower x].
Proof.
  intros Hx Hall. pose proof (tf_requests _ _ ms_ok) as Hf. rewrite list.Forall_forall in Hf.
  destruct (public_stream lower baseDomain no_requests x (Hf x Hx)) as (d & <- & Hd & Hms).
  destruct (request_read lower d Hd read [] st st_read) as (stg & Hleft & _ & Hj); [unfold qs_id; by rewrite app_nil_r, read_all, Hall |].
  assert (stg = Ended) as -> by (destruct stg as [|k|]; [done | by apply app_nil in Hleft as [_ ?] | done]). exact Hj.
Qed.

Lemma at_most_one_job x : x ∈ reqs -> jobs_of (pb_id x) st = [] \/ jobs_of (pb_id x) st = [pb_forwarded lower x].
Proof.
  intros Hx. pose proof (tf_requests _ _ ms_ok) as Hf. rewrite list.Forall_forall in Hf.
  destruct (public_stream lower baseDomain no_requests x (Hf x Hx)) as (d & <- & Hd & Hms).
  enough (exists stg, jobs_of (pb_id (qs_public d)) st = match stg with Ended => [pb_forwarded lower (qs_public d)] | _ => [] end) as [[|k|] ?] by auto.
  destruct (tf_handlers _ _ ms_ok _ Hx) as [[rest Hp]|(first & Hp & Hc)]; rewrite Hms in Hp.
  - destruct (request_read lower d Hd read rest st st_read) as (stg & _ & _ & Hj); [unfold qs_id; by rewrite Hp, read_all |]. by exists stg.
  - apply (request_read_cancelled lower d Hd read first st st_read Hp). unfold qs_id. by rewrite read_all.
Qed.

(** Every job was made of a public request. *)
Lemma job_is_public q : q ∈ queued st -> exists x, x ∈ reqs /\ q = pb_forwarded lower x /\ q_ID q = pb_id x.
Proof.
  intros Hq. assert (Hj : q ∈ jobs_of (q_ID q) st) by (by apply list_elem_of_filter).
  destruct (decide (under (q_ID q) ms = [])) as [Hu|Hu].
  - pose proof (unread_no_job read (q_ID q)) as Hnone. rewrite st_read, read_all in Hnone. cbn [loop_state] in Hnone.
    rewrite (Hnone Hu) in Hj. by apply not_elem_of_nil in Hj.
  - apply (tf_all _ _ ms_ok) in Hu. apply list_elem_of_fmap in Hu as (x & Hid & Hx). exists x. split; [done |]. split; [|done].
    rewrite Hid in Hj. destruct (at_most_one_job x Hx) as [Hj'|Hj']; rewrite Hj' in Hj; [by apply not_elem_of_nil in Hj |].
    by apply list_elem_of_singleton in Hj.
Qed.

Lemma jobs_id_ok : Forall (fun q => id_ok (q_ID q)) (queued st).
Proof.
  apply list.Forall_forall. intros q (x & Hx & _ & ->)%job_is_public. pose proof (tf_requests _ _ ms_ok) as Hf. rewrite list.Forall_forall in Hf.
  destruct (Hf x Hx) as [Hadm _ _ _ _ _]. by eapply publicRequestID_ok; apply Hadm.
Qed.

Lemma jobs_nodup : NoDup (q_ID <$> queued st).
Proof.
  apply NoDup_fmap_count. intros q (x & Hx & _ & Hid)%job_is_public. fold (jobs_of (q_ID q) st). rewrite Hid.
  destruct (at_most_one_job x Hx) as [->| ->]; cbn; lia.
Qed.
End traffic.

(** At rest the agent has read everything. *)
Lemma rest_read addr n capDown capUp sid s : link_ok addr n capDown capUp s -> session_open s -> at_rest sid s ->
  exists st, read_loop (ag_read (lk_agent s)) no_requests = Next st /\ same_requests (ag_client (lk_agent s)) st
    /\ ag_read (lk_agent s) = relay sid (gw_serving (lk_gateway s)).
Proof.
  destruct s as [g down up a]. intros [_ Hq (_ & Hdown & _) _] [Ho _] (H1 & H2 & _ & _ & _ & _ & _ & _ & _ & H10 & H11).
  cbn [lk_agent lk_gateway] in *. destruct Hdown as (lost & Hl & Hw). assert (lost = []) as -> by (destruct Hl as [|]; [done | congruence]).
  unfold requests_inv in Hq. destruct (read_loop (ag_read a) no_requests) as [st|e st]; [|by rewrite H1 in Hq; destruct Hq].
  exists st. split_and!; [done | done |]. unfold relay. rewrite (outbox_drained _ _ H11), Hw, H2, H10. cbn. by rewrite !app_nil_r.
Qed.

(** ** More requests than the agent holds *)

(** The gateway forwards any number of requests at a time, the agent ends a session with
    more than 32 that have begun and not ended. *)
Definition crowd_run : list action :=
  opening ++ (seq 0 33 ≫= fun k => OutsideAct (RegisterOne (sample_id k)) :: (take 1 (sample_messages k) ≫= to_agent)).

Lemma too_many_requests :
  exists s, rtc (step_by ($"3000") 2 4 4 true true ($"ses_1") (fun act => negb (ends_session act))) (new_session ($"3000") 2 ($"ses_1") (cw sample_state)) s
    /\ ag_over (lk_agent s) = true.
Proof. eexists. split; [apply (execute_runs _ _ _ _ _ _ _ _ crowd_run); by vm_compute |]. vm_compute. reflexivity. Qed.
