(* ===== verification/LinkRoom.v ===== *)
(** * Room for the responses

    The gateway holds at most 32 responses of a session at a time and closes a session
    that begins one more.  The agent has as many responses under way as it has
    workers, also when many of their messages are still on the connection: with up to
    32 workers the gateway accepts every message of every response. *)

From S2P Require Import Prelude GoStrings Headers Frame ChunkAssembler Json Messages Reader.
From S2P Require Import SessionManager SessionSteps AgentConnect LocalHTTP AgentClient EndToEnd Multiplex.
From S2P Require Import JobScript Link LinkRuns LinkWaits LinkDelivery.

(** ** A message is accepted when it is its turn *)

Lemma stream_accepts hasAgents canOpen sid d stg m rest now opened st c :
  rs_ok d -> rs_left (d, stg) = m :: rest -> sv_responses st !! rs_id d = entry_at d stg -> inv c -> cw c = sv_world st ->
  (stg = Unsent -> (size (sv_responses st) < maxPendingResponseStreams)%nat) ->
  exists st', serve_turn hasAgents canOpen sid (Inbound now (m_Type m) (m_Data m) true opened) st = Some (Continue st').
Proof.
  intros Hd Hm Hst Hi Hc Hroom. pose proof Hd as (Hs & Hid & Hps & Hmax & Hcl).
  enough (response_id m = Some (rs_id d) /\ exists st', serveSession hasAgents canOpen sid [inbound m] st = Continue st') as (Hid' & st' & Hst').
  { exists st'. rewrite (turn_plain _ _ _ _ _ _ _ _ _ Hid'). by apply serve_one. }
  unfold rs_left in Hm. cbn [fst snd] in Hm.
  apply left_of_cases in Hm as [(-> & -> & ->) | [(k & p & -> & Hp & Hmsg & ->) | (k & -> & Hdone & -> & ->)]].
  - split; [apply stream_id; [done |]; apply elem_of_cons; by left |]. eexists. apply serve_response_start; [done | done | | done | by apply Hroom].
    change maxTunnelResponseBodyBytes with 33554432. destruct Hcl as [?|[? _]]; lia.
  - split.
    { apply (chunk_id (rs_id d) [p] (Z.of_nat k)); [done | | rewrite <- Hmsg; by left]. constructor; [by eapply Forall_lookup_1 | done]. }
    assert (Hcl' : ar_ContentLength (rs_p d) = -1) by (destruct Hcl as [?|[_ Hnil]]; [done | by rewrite Hnil in Hp]).
    assert (Hlen' : zlen (concat (take k (rs_ps d))) + zlen (concat [p]) <= maxTunnelResponseBodyBytes).
    { rewrite <- (take_drop (S k) (rs_ps d)), (take_snoc _ _ _ Hp), !concat_app, !zlen_app in Hmax.
      pose proof (zlen_nonneg (concat (drop (S k) (rs_ps d)))). lia. }
    change [inbound m] with (inbound <$> [m]). rewrite Hmsg. eexists.
    eapply (serve_response_chunks _ _ _ _ [p]); [done | | exact Hst | exact Hcl' | exact Hlen']. constructor; [by eapply Forall_lookup_1 | done].
  - split; [apply stream_id; [done |]; unfold rs_left; cbn; rewrite elem_of_cons, elem_of_app, list_elem_of_singleton; auto |].
    assert (Hall : take k (rs_ps d) = rs_ps d) by (rewrite <- (take_drop k (rs_ps d)) at 2; by rewrite Hdone, app_nil_r).
    destruct (serve_response_end hasAgents canOpen sid (rs_id d) (rs_entry d k) st c) as (b & w' & _ & Hserve); auto.
    { unfold rs_entry. cbn. rewrite Hall. destruct Hcl as [?|[Hcl Hnil]]; [by left |]. right. by rewrite Hcl, Hnil. }
    by eexists.
Qed.

(** ** Jobs and their last message *)

Lemma start_is_not_end d : response_sendable (rs_p d) -> rs_start d <> end_of_response (rs_id d).
Proof.
  intros Hs Heq. destruct (response_start_wire (rs_p d) Hs) as (raw & H1 & _).
  destruct (response_end_wire httpResponseEndType (rs_id d)) as (raw' & H2 & _).
  unfold rs_start, end_of_response, httpResponseEndPayload in Heq. apply (f_equal m_Data) in Heq. cbn [m_Data] in Heq. rewrite Heq, H2 in H1.
  apply (f_equal (option_map fst)) in H1. by vm_compute in H1.
Qed.

Lemma chunk_is_not_end type id id' ps n : end_of_response id ∉ chunk_messages type id' n ps.
Proof. revert n. induction ps as [|p ps IH]; intros n; cbn; [apply not_elem_of_nil |]. intros [?|?]%elem_of_cons; [done | by eapply IH]. Qed.

(** A stream of which the last message is to come has been begun and not ended. *)
Lemma sent_open d k first : rs_ok d -> first ++ rs_left (d, Sent k) = rs_left (d, Unsent) -> first <> [] /\ end_of_response (rs_id d) ∉ first.
Proof.
  intros (Hs & _) H. split.
  - intros ->. apply (f_equal length) in H. cbn in H. unfold rs_left, left_of in H. cbn in H. rewrite !length_app in H. cbn in H.
    assert (Hlen : forall ps k', length (chunk_messages ResponseBodyChunk (rs_id d) k' ps) = length ps)
      by (induction ps as [|p ps IHp]; intros k'; cbn; [done | by rewrite IHp]).
    rewrite !Hlen, length_drop in H. lia.
  - unfold rs_left, left_of in H. cbn [fst snd] in H. rewrite app_assoc, app_comm_cons in H. apply app_inj_tail in H as [H _].
    intros Hin. assert (Hin' : end_of_response (rs_id d) ∈ rs_start d :: chunk_messages ResponseBodyChunk (rs_id d) 0 (rs_ps d)).
    { rewrite <- H. apply elem_of_app. by left. }
    apply elem_of_cons in Hin' as [Heq|Hin']; [by apply (start_is_not_end d Hs) | by eapply chunk_is_not_end].
Qed.

Lemma interp_extends {A} (t : talk A) : forall sd, exists rest, sd_sent (interp t sd).2 = sd_sent sd ++ rest.
Proof.
  induction t as [a|m k IH]; intros sd; cbn [interp]; [exists []; by rewrite app_nil_r |].
  destruct (offer m sd) as [b sd'] eqn:Ho. destruct (IH b sd') as [rest ->]. unfold offer in Ho. destruct (sd_oracle sd (sd_tries sd)); injection Ho as <- <-;
    cbn; [exists (m :: rest); by rewrite <- app_assoc | by exists rest].
Qed.

Lemma told_prefix {A} bs : forall (t : talk A) k ms,
  Forall (fun b => b = true) bs -> ms ++ told bs t `prefix_of` sd_sent (interp t (mkSender (fun _ => true) k ms)).2.
Proof.
  induction bs as [|b bs IH]; intros t k ms Hall.
  - cbn [told]. rewrite app_nil_r. destruct (interp_extends t (mkSender (fun _ => true) k ms)) as [rest ->]. by exists rest.
  - apply list.Forall_cons in Hall as [-> Hall]. destruct t as [a|m kt]; [cbn; by rewrite app_nil_r |].
    cbn [told interp offer sd_oracle sd_tries sd_sent]. rewrite app_assoc. by apply IH.
Qed.

(** A job that is let finish sends its last message. *)
Lemma job_ends client addr q : id_ok (q_ID q) -> addr <> [] -> end_of_response (q_ID q) ∈ sd_sent (job client addr q empty_queue).
Proof.
  intros Hid Ha. destruct (local_roundtrip client addr q) as [[[status h] stream]|e] eqn:Hl.
  - destruct (job_sends client addr q empty_queue status h stream Hid ltac:(done) Ha Hl) as (ps & _ & _ & ->).
    cbn. rewrite elem_of_cons, elem_of_app, list_elem_of_singleton. auto.
  - rewrite (job_sends_error client addr q empty_queue e ltac:(done) Ha Hl). cbn. rewrite !elem_of_cons. auto.
Qed.

(** ** The jobs under way at a point of the history *)

(** Job [j], for the request with ID [id], has been begun and not ended in [p]. *)
Definition under_way (id : gostring) (j : nat) (p : list (option nat * OutboundMessage)) : Prop :=
  from_job j p <> [] /\ end_of_response id ∉ from_job j p.

(** A job that is under way has a worker. *)
Lemma under_way_running addr a j q : jobs_inv addr a -> ag_over a = false -> addr <> [] -> queued (ag_client a) !! j = Some q -> id_ok (q_ID q) ->
  under_way (q_ID q) j (ag_sent a) -> j ∈ jr_number <$> running (ag_workers a).
Proof.
  intros (lost & Hl & Hok & Hdone) Ho Ha Hq Hid [Hne Hend].
  assert (Hj : (j < length (started a))%nat).
  { destruct (decide (length (started a) <= j)%nat) as [Hge|]; [|lia]. by rewrite (jo_unsent _ _ _ _ _ _ Hok j Hge) in Hne. }
  assert (Hin : j ∈ jr_number <$> started a) by (rewrite (jo_started _ _ _ _ _ _ Hok); apply elem_of_seq; lia).
  apply list_elem_of_fmap in Hin as (r & -> & Hin). pose proof Hin as Hin'. unfold started in Hin'. apply elem_of_app in Hin' as [Hd|Hd]; [|by apply list_elem_of_fmap_2].
  destruct Hend. rewrite (jo_sent _ _ _ _ _ _ Hok r Hin).
  pose proof (jo_request_s _ _ _ _ _ _ Hok r Hin) as Hr. assert (q = jr_request r) as -> by congruence.
  assert (Hfull : full_output addr r = told (jr_answers r) (script addr r)).
  { unfold full_output. rewrite interp_job. apply (interp_all_told (jr_answers r) (script addr r) 0 []); [by apply (jo_success _ _ _ _ _ _ Hok) | by apply Hdone]. }
  rewrite <- Hfull. by apply job_ends.
Qed.

Lemma running_length ws : (length (running ws) <= length ws)%nat.
Proof.
  induction ws as [|k ws IH]; [done |]. change (k :: ws) with ([k] ++ ws). rewrite running_app, length_app. destruct k; cbn in *; lia.
Qed.

Section room.
Context (addr : gostring) (n capDown capUp : nat) (hasAgents canOpen : bool) (sid : gostring) (c : cstate) (c_reachable : reachable c).
Abbreviation step := (link_step addr n capDown capUp hasAgents canOpen sid).
Abbreviation any_step := (step_by addr n capDown capUp hasAgents canOpen sid (fun _ => true)).
Abbreviation start := (new_session addr n sid (cw c)).

Lemma over_before s s' : rtc any_step s s' -> ag_over (lk_agent s') = false -> ag_over (lk_agent s) = false.
Proof.
  intros Hr Ho. destruct (ag_over (lk_agent s)) eqn:Hs; [|done]. rewrite <- Ho. symmetry.
  induction Hr as [|x y z (act & _ & Hst) _ IH]; [done |]. apply IH; [done |].
  eapply (agent_preserves addr n capDown capUp hasAgents canOpen sid (fun a => ag_over a = true)); [..|exact Hst | done].
  - intros act' closed down a down' a' Hl Ha. destruct (loop_step_flow _ _ _ _ _ _ _ Hl) as (? & ? & _ & []). auto.
  - intros act' a a' Hw Ha. destruct (worker_step_flow n _ _ _ _ Hw) as [? []]. auto.
  - intros act' closed up a up' a' Hw Ha. unfold writer_step in Hw. destruct act'; try done; destruct (ag_writer a); try done; repeat case_match; by simplify_eq.
  - done.
Qed.

(** A step queues at most one message. *)
Lemma queue_message_one from m a a' : queue_message from m a = Some a' -> ag_sent a' = ag_sent a ++ [(from, m)].
Proof. unfold queue_message. destruct (has_space _ _); [|done]. by intros [= <-]. Qed.

Lemma sent_one act s s' : step act s = Some s' ->
  ag_sent (lk_agent s') = ag_sent (lk_agent s) \/ exists x, ag_sent (lk_agent s') = ag_sent (lk_agent s) ++ [x].
Proof.
  destruct s as [g down up a]. intros Hs. destruct act as [act|act|act]; cbn [link_step] in Hs.
  - destruct act as [| | | | |i client|i|i|i|i| | | |]; cbn [agent_step] in Hs.
    1-5: destruct (loop_step n _ _ down a) as [[down' a']|] eqn:Hst; [|done]; injection Hs as <-; cbn [lk_agent]; unfold loop_step in Hst;
      destruct (ag_loop a) as [[|m ms] [job|]|]; try done.
    1: { destruct down as [|m down]; [done |]. destruct (ag_over a || _); [done |]. injection Hst as _ <-. unfold loop_read. left. by destruct (read_turn _ _ _). }
    1-2: destruct (queue_message None m a) as [a1|] eqn:Hq; [|done]; injection Hst as _ <-; right; eexists; exact (queue_message_one _ _ _ _ Hq).
    1-5: left; repeat case_match; try done; by injection Hst as _ <-.
    1-5: destruct (worker_step addr _ a) as [a'|] eqn:Hst; [|done]; injection Hs as <-; cbn [lk_agent]; unfold worker_step in Hst;
      destruct (ag_workers a !! i) as [[|r|]|]; try done.
    2: { destruct (next_send addr r) as [m|]; [|done]. cbn in Hst. destruct (queue_message _ m a) as [a1|] eqn:Hq; [|done]. injection Hst as <-.
         right. eexists. exact (queue_message_one _ _ _ _ Hq). }
    1-4: left; repeat case_match; try done; simplify_option_eq; done.
    all: left; destruct (writer_step capUp _ _ up a) as [[up' a']|] eqn:Hst; [|done]; injection Hs as <-; unfold writer_step in Hst;
      destruct (ag_writer a); try done; repeat case_match; by simplify_eq.
  - left. by rewrite (gateway_step_agent _ _ _ _ _ _ _ Hs).
  - left. by destruct (outside_step_agent _ _ _ _ Hs) as [->| ->].
Qed.

Lemma prefix_snoc_cases {A} (p l : list A) x : p `prefix_of` l ++ [x] -> p `prefix_of` l \/ p = l ++ [x].
Proof.
  intros [rest Hr]. destruct rest as [|y rest _] using rev_ind; [right; by rewrite app_nil_r in Hr |].
  rewrite app_assoc in Hr. apply app_inj_tail in Hr as [-> _]. left. by exists rest.
Qed.

(** Every point of the history was the present once. *)
Lemma history_state s p : rtc any_step start s -> p `prefix_of` ag_sent (lk_agent s) ->
  p = [] \/ exists s', rtc any_step start s' /\ rtc any_step s' s /\ ag_sent (lk_agent s') = p.
Proof.
  revert s. apply (rtc_ind_r (fun s => p `prefix_of` ag_sent (lk_agent s) ->
    p = [] \/ exists s', rtc any_step start s' /\ rtc any_step s' s /\ ag_sent (lk_agent s') = p)).
  - intros Hp. assert (Hcase : p = [] \/ p = ag_sent (lk_agent start)).
    { revert Hp. cbn. destruct (open_tunnel addr sid) as [m|]; cbn; [|intros ?%prefix_nil_inv; by left].
      intros [Hp|Hp]%(prefix_snoc_cases p []); [left; by apply prefix_nil_inv | by right]. }
    destruct Hcase as [->|Hp']; [by left | right]. exists start. split_and!; [apply rtc_refl | apply rtc_refl | done].
  - intros s s' Hr (act & Hact & Hst) IH Hp. assert (Hstep : any_step s s') by (by exists act).
    assert (Hpast : p `prefix_of` ag_sent (lk_agent s) -> p = [] \/ exists s0, rtc any_step start s0 /\ rtc any_step s0 s' /\ ag_sent (lk_agent s0) = p).
    { intros Hpre. destruct (IH Hpre) as [->|(s0 & H1 & H2 & H3)]; [by left |]. right. exists s0. split_and!; [done | by eapply rtc_r | done]. }
    destruct (sent_one act s s' Hst) as [Heq|[x Heq]]; rewrite Heq in Hp; [by apply Hpast |].
    apply prefix_snoc_cases in Hp as [Hp| ->]; [by apply Hpast |].
    right. exists s'. split_and!; [by eapply rtc_r | apply rtc_refl | done].
Qed.

(** The gateway holds nothing that no message began. *)
Lemma held_named s k : rtc any_step start s -> gw_over (lk_gateway s) = false -> is_Some (sv_responses (gw_serving (lk_gateway s)) !! k) ->
  exists m, m ∈ gw_seen (lk_gateway s) /\ response_id m = Some k.
Proof.
  revert s. apply (rtc_ind_r (fun s => gw_over (lk_gateway s) = false -> is_Some (sv_responses (gw_serving (lk_gateway s)) !! k) ->
    exists m, m ∈ gw_seen (lk_gateway s) /\ response_id m = Some k)).
  - intros _ [? H]. done.
  - intros s s' Hr (act & _ & Hst) IH Ho Hk. destruct (world_inv addr n capDown capUp hasAgents canOpen sid c c_reachable s Hr) as (c' & Hi & Hc).
    destruct (gateway_progress addr n capDown capUp hasAgents canOpen sid act s s' k c' Hst Ho Hi Hc) as [Ho1 [(-> & Htab & _)|(m & now & opened & -> & Hturn)]].
    + rewrite Htab in Hk. auto.
    + destruct (decide (response_id m = Some k)) as [Hid|Hid]; [exists m; split; [apply elem_of_app; right; by left | done] |].
      rewrite (turn_other _ _ _ _ _ _ _ _ _ _ Hturn Hid) in Hk. destruct (IH Ho1 Hk) as (m' & Hm' & Hid'). exists m'. split; [apply elem_of_app; by left | done].
Qed.

(** ** The bound *)

Context (s : link) (s_run : rtc any_step start s) (s_open : session_open s) (addr_set : addr <> []).
Context (s_ids : NoDup (q_ID <$> queued (ag_client (lk_agent s)))).
Context (s_ids_ok : Forall (fun q => id_ok (q_ID q)) (queued (ag_client (lk_agent s)))).
Context (s_local : Forall (fun r => local_ok (jr_client r) addr (jr_request r)) (started (lk_agent s))).
Abbreviation a := (lk_agent s).
Abbreviation g := (lk_gateway s).

(** At each point of the history at most [n] jobs were under way. *)
Lemma under_way_bound p ks : p `prefix_of` ag_sent a -> NoDup ks ->
  (forall k, k ∈ ks -> exists j q, queued (ag_client a) !! j = Some q /\ q_ID q = k /\ under_way k j p) -> (length ks <= n)%nat.
Proof.
  intros Hp Hnd Hks. destruct (history_state s p s_run Hp) as [->|(s' & Hr & Hr' & Hsent)].
  { destruct ks as [|k ks]; [cbn; lia |]. destruct (Hks k) as (j & q & _ & _ & Hne & _); [by left | done]. }
  destruct (link_ok_runs _ _ _ _ _ _ _ _ _ (inv_reachable c c_reachable) Hr) as [Hj _ (_ & _ & Hsz) _].
  set (name := fun j => default [] (q_ID <$> queued (ag_client a) !! j)).
  enough (ks ⊆+ name <$> (jr_number <$> running (ag_workers (lk_agent s')))) as Hsub.
  { apply submseteq_length in Hsub. rewrite !length_fmap in Hsub. pose proof (running_length (ag_workers (lk_agent s'))).
    pose proof (sz_workers _ _ _ _ Hsz). lia. }
  apply NoDup_submseteq; [done |]. intros k Hk. destruct (Hks k Hk) as (j & q & Hq & <- & Hway). apply list_elem_of_fmap. exists j.
  split; [unfold name; by rewrite Hq |]. rewrite <- Hsent in Hway. destruct Hway as [Hne Hend].
  assert (Hq' : queued (ag_client (lk_agent s')) !! j = Some q).
  { assert (Hlt : (j < length (queued (ag_client (lk_agent s'))))%nat).
    { destruct Hj as (lost & _ & Hok & _). pose proof (jo_length _ _ _ _ _ _ Hok).
      destruct (decide (length (started (lk_agent s')) <= j)%nat) as [Hge|]; [|lia]. by rewrite (jo_unsent _ _ _ _ _ _ Hok j Hge) in Hne. }
    apply lookup_lt_is_Some_2 in Hlt as [q' Hq']. rewrite Hq'.
    rewrite <- Hq. symmetry. by eapply prefix_lookup_Some, (queued_grows_runs addr n capDown capUp hasAgents canOpen sid). }
  eapply under_way_running; [exact Hj | by eapply over_before, s_open | done | exact Hq' | | done].
  rewrite list.Forall_forall in s_ids_ok. apply s_ids_ok. by eapply list_elem_of_lookup_2.
Qed.

Lemma room_jobs : jobs_ok addr (queued (ag_client a)) (waiting a) (started a) (ag_sent a) false.
Proof.
  destruct (link_ok_runs _ _ _ _ _ _ _ _ _ (inv_reachable c c_reachable) s_run) as [(lost & Hl & Hok & _) _ _ _].
  destruct s_open as [_ Ho]. rewrite Ho in Hok, Hl. assert (lost = []) as -> by (destruct Hl as [|[? _]]; done). by rewrite app_nil_r in Hok.
Qed.

(** What a job has queued is the beginning of a stream. *)
Lemma started_stream r : r ∈ started a -> exists d, rs_ok d /\ rs_id d = q_ID (jr_request r) /\ from_job (jr_number r) (ag_sent a) `prefix_of` rs_left (d, Unsent).
Proof.
  intros Hin. pose proof room_jobs as Hok. rewrite list.Forall_forall in s_local. rewrite list.Forall_forall in s_ids_ok.
  pose proof (jo_request_s _ _ _ _ _ _ Hok r Hin) as Hreq%list_elem_of_lookup_2.
  destruct (job_stream (jr_client r) addr (jr_request r) (s_ids_ok _ Hreq) addr_set (s_local r Hin)) as (d & _ & H1 & H2 & _ & H4).
  exists d. split_and!; [done | done |]. rewrite <- H4, interp_job, (jo_sent _ _ _ _ _ _ Hok r Hin).
  apply (told_prefix (jr_answers r) (script addr r) 0 []). by apply (jo_success _ _ _ _ _ _ Hok).
Qed.

(** A message of a job carries the ID of its request. *)
Lemma tagged_message k j m : ag_sent a !! k = Some (Some j, m) -> exists r d, r ∈ started a /\ jr_number r = j /\ rs_ok d
  /\ rs_id d = q_ID (jr_request r) /\ queued (ag_client a) !! j = Some (jr_request r) /\ response_id m = Some (rs_id d)
  /\ from_job j (ag_sent a) `prefix_of` rs_left (d, Unsent).
Proof.
  intros Hk. pose proof (from_job_elem _ _ _ _ Hk) as Hm. pose proof room_jobs as Hok.
  assert (Hj : (j < length (started a))%nat).
  { destruct (decide (length (started a) <= j)%nat) as [Hge|]; [|lia]. rewrite (jo_unsent _ _ _ _ _ _ Hok j Hge) in Hm. by apply not_elem_of_nil in Hm. }
  assert (Hin : j ∈ jr_number <$> started a) by (rewrite (jo_started _ _ _ _ _ _ Hok); apply elem_of_seq; lia).
  apply list_elem_of_fmap in Hin as (r & -> & Hin). destruct (started_stream r Hin) as (d & Hd & Hid & Hpre). exists r, d.
  split_and!; try done; [by apply (jo_request_s _ _ _ _ _ _ Hok) |]. apply stream_id; [done |].
  destruct Hpre as [rest ->]. apply elem_of_app. by left.
Qed.

Lemma room_others i q : queued (ag_client a) !! i = Some q -> forall k j m, ag_sent a !! k = Some (Some j, m) -> j <> i -> response_id m <> Some (q_ID q).
Proof.
  intros Hq k j m Hk Hji. destruct (tagged_message k j m Hk) as (r & d & _ & _ & _ & Hid & Hreq & -> & _). rewrite Hid. intros [= Heq]. apply Hji.
  eapply NoDup_lookup; [exact s_ids | by rewrite list_lookup_fmap, Hreq |]. rewrite list_lookup_fmap, Hq. cbn. by rewrite Heq.
Qed.

(** The stage of the stream a message belongs to. *)
Lemma message_stream k j m : ag_sent a !! k = Some (Some j, m) -> exists q d stg, queued (ag_client a) !! j = Some q /\ rs_ok d /\ rs_id d = q_ID q
  /\ response_id m = Some (rs_id d) /\ from_job j (ag_sent a) `prefix_of` rs_left (d, Unsent) /\ stream_at j d (ag_sent a) s stg.
Proof.
  intros Hk. destruct (tagged_message k j m Hk) as (r & d & Hin & Hn & Hd & Hid & Hq & Hm & Hpre).
  destruct (stream_run addr n capDown capUp hasAgents canOpen sid c c_reachable j d Hd (ag_sent a) Hpre) with (s := s) as (stg & Hat & _).
  - rewrite Hid. by apply room_others.
  - by eapply (rest_loop addr n capDown capUp hasAgents canOpen sid c s).
  - exact s_run.
  - done.
  - apply s_open.
  - by exists (jr_request r), d, stg.
Qed.

Lemma seen_sent : exists rest, (ag_sent a).*2 = gw_seen g ++ gw_readCh g ++ rest.
Proof.
  destruct (link_ok_runs _ _ _ _ _ _ _ _ _ (inv_reachable c c_reachable) s_run) as [_ _ (Hup & _) _].
  revert Hup. generalize s. intros [g' down up a'] (lost & _ & Hup). eexists. exact Hup.
Qed.

(** What the gateway holds is under way. *)
Lemma held_under_way k : is_Some (sv_responses (gw_serving g) !! k) ->
  exists j q, queued (ag_client a) !! j = Some q /\ q_ID q = k /\ under_way k j (take (length (gw_seen g)) (ag_sent a)).
Proof.
  intros Hk. destruct (held_named s k s_run (proj1 s_open) Hk) as (m & [i Hi]%list_elem_of_lookup & Hid). destruct seen_sent as [rest Hsent].
  assert (Hm : (ag_sent a).*2 !! i = Some m) by (rewrite Hsent; by apply lookup_app_l_Some).
  apply list_lookup_fmap_Some in Hm as ([[j|] m'] & Heq & Hm); cbn in Heq; subst m'.
  2: { by rewrite (rest_loop addr n capDown capUp hasAgents canOpen sid c s s_run i m Hm) in Hid. }
  destruct (message_stream i j m Hm) as (q & d & stg & Hq & Hd & Hdid & Hmid & _ & He & Hl).
  assert (rs_id d = k) as <- by congruence. exists j, q. split_and!; [done | done |]. rewrite He in Hk.
  destruct stg as [|k'|]; [by destruct Hk | by eapply sent_open | by destruct Hk].
Qed.

Lemma held_bound : (size (sv_responses (gw_serving g)) <= n)%nat.
Proof.
  rewrite <- length_map_to_list, <- (length_fmap fst). apply (under_way_bound (take (length (gw_seen g)) (ag_sent a))); [apply prefix_take | apply NoDup_fst_map_to_list |].
  intros k ([k' e] & -> & He)%list_elem_of_fmap. apply held_under_way. apply elem_of_map_to_list in He. by exists e.
Qed.

(** A stream that is about to begin finds room. *)
Lemma begin_bound m j d q : ag_sent a !! length (gw_seen g) = Some (Some j, m) -> queued (ag_client a) !! j = Some q -> rs_id d = q_ID q -> rs_ok d ->
  from_job j (ag_sent a) `prefix_of` rs_left (d, Unsent) -> stream_at j d (ag_sent a) s Unsent -> (size (sv_responses (gw_serving g)) < n)%nat.
Proof.
  intros Hm Hq Hid Hd Hpre [He Hl]. set (k := length (gw_seen g)) in *.
  assert (Htake : take (S k) (ag_sent a) = take k (ag_sent a) ++ [(Some j, m)]) by (by apply take_S_r).
  assert (Hnone : from_job j (take k (ag_sent a)) = []).
  { apply (f_equal length) in Hl. rewrite length_app in Hl. apply length_zero_iff_nil. lia. }
  rewrite <- length_map_to_list, <- (length_fmap fst). apply (under_way_bound (take (S k) (ag_sent a)) (rs_id d :: _)); [apply prefix_take | |].
  - constructor; [|apply NoDup_fst_map_to_list]. intros ([k' e] & Heq & Hin%elem_of_map_to_list)%list_elem_of_fmap. cbn in Heq. subst k'.
    rewrite He in Hin. done.
  - intros k' [->|([k2 e] & -> & Hin%elem_of_map_to_list)%list_elem_of_fmap]%elem_of_cons.
    + exists j, q. split_and!; [done | done |]. unfold under_way. rewrite Htake, from_job_app, Hnone, from_job_one. destruct (decide _); [|done]. cbn [app].
      split; [done |]. rewrite list_elem_of_singleton. intros <-.
      destruct Hpre as [rest Hpre]. rewrite <- (take_drop (S k) (ag_sent a)), Htake, !from_job_app, Hnone, from_job_one in Hpre. destruct (decide _); [|done].
      cbn in Hpre. injection Hpre as Hpre _. destruct Hd as (Hs & _). by apply (start_is_not_end d Hs).
    + destruct (held_under_way k2 ltac:(by exists e)) as (j2 & q2 & Hq2 & Hid2 & Hway). exists j2, q2. split_and!; [done | done |].
      unfold under_way. rewrite Htake, from_job_app, from_job_one. destruct (decide (Some j = Some j2)) as [[= ->]|_]; [|by rewrite app_nil_r].
      destruct Hway as [Hne _]. by fold k in Hne; rewrite Hnone in Hne.
Qed.
End room.


(** A session in which the first message of a response has just arrived. *)
Definition room_run : list action :=
  opening ++ request_arrives 1 ++ [AgentAct (WorkerTake 0 sample_service); AgentAct (WorkerSend 0)] ++ to_gateway.
Definition room_state : link :=
  execute (link_step ($"3000") 2 4 4 true true ($"ses_1")) room_run (new_session ($"3000") 2 ($"ses_1") (cw sample_state)).

Lemma room_local_ok : Forall (fun r => local_ok (jr_client r) ($"3000") (jr_request r)) (started (lk_agent room_state)).
Proof.
  assert (Hd : jr_client <$> started (lk_agent room_state) = [sample_service]) by (by vm_compute).
  apply list.Forall_forall. intros r Hr. assert (Hc : jr_client r ∈ [sample_service]) by (rewrite <- Hd; by apply list_elem_of_fmap_2).
  apply list_elem_of_singleton in Hc. rewrite Hc. by apply sample_local_ok.
Qed.

