(* ===== verification/RoundTrip.v ===== *)
(** * From the public client to the local service and back

    All parts of the forwarding path put together: the public handlers, the goroutines
    at both ends of the connection, the wire formats, the local service and the
    channels on which the handlers wait.  Under every schedule, when a session has come
    to rest, each public request that was forwarded completely was run once by the
    agent, and its handler holds the response of the local service to it. *)

From S2P Require Import Prelude GoStrings Headers Frame ChunkAssembler Json Messages Reader.
From S2P Require Import SessionManager SessionSteps AgentConnect LocalHTTP AgentClient PublicHandler EndToEnd Multiplex.
From S2P Require Import JobScript Link LinkRuns LinkWaits LinkDelivery LinkRequests.

(** ** The reply to the public client *)

(** What the handler makes of the response it receives. *)
Definition reply_to (resp : Response) : served :=
  if bool_decide (Error resp <> []) then Replied (http_Error (Error resp) 502)
  else if (StatusCode resp <? 100) || (999 <? StatusCode resp) then Panicked
  else Replied (mkReply (final_status (StatusCode resp)) (copy_headers (SessionManager.Headers resp)) (Body resp)).

Lemma handler_replies lower baseDomain st x resp : forwardable lower baseDomain st x ->
  (ServeHTTP lower baseDomain (pb_now x) (Some (pb_random x)) (pb_r x) (pb_stream x) (GotResponse resp) (pb_gateway x)).1 = reply_to resp.
Proof.
  intros [Hadm Hbody Hlen _ _ _].
  destruct (ServeHTTP_admitted _ _ _ _ _ _ _ (pb_stream x) (GotResponse resp) _ Hadm) as (limiter & sd0 & Hw & _ & ->).
  assert (Hido : id_ok (pb_id x)) by (by eapply publicRequestID_ok; apply Hadm).
  destruct (sendRequestBody_chunks (pb_id x) (pb_stream x) sd0 Hido Hw) as (ps & sd1 & _ & _ & _ & _ & Hsend).
  rewrite (max_content_within (pb_stream x) maxTunnelBodyBytes (pb_data x)) in Hsend
    by (unfold pb_data in *; rewrite <- ?Hbody; auto; by destruct (content (pb_stream x))).
  cbn [snd] in Hsend. rewrite Hsend. cbn [fst snd]. unfold finish, reply_to. case_bool_decide; [done |]. by destruct (_ || _).
Qed.

(** ** The run of one request *)

Section trip.
Context (addr : gostring) (n capDown capUp : nat) (hasAgents canOpen : bool) (sid : gostring) (c : cstate) (c_reachable : reachable c).
Abbreviation step := (link_step addr n capDown capUp hasAgents canOpen sid).
Abbreviation any_step := (step_by addr n capDown capUp hasAgents canOpen sid (fun _ => true)).
Abbreviation start := (new_session addr n sid (cw c)).

(** A handler that does not give up keeps its channel until the response is in it. *)
Lemma mail_run i d sent l acts : forall s s' stg, rs_ok d ->
  from_job i sent `prefix_of` rs_left (d, Unsent) ->
  (forall k j m, sent !! k = Some (Some j, m) -> j <> i -> response_id m <> Some (rs_id d)) ->
  (forall k m, sent !! k = Some (None, m) -> response_id m = None) ->
  rtc any_step start s -> perform step acts s = Some s' -> ag_sent (lk_agent s') `prefix_of` sent -> gw_over (lk_gateway s') = false ->
  stream_at i d sent s stg -> mail d l s stg ->
  patient addr n capDown capUp hasAgents canOpen sid (rs_id d) l acts s = true ->
  exists stg', stream_at i d sent s' stg' /\ mail d l s' stg'.
Proof.
  induction acts as [|act acts IH]; intros s s' stg Hd H1 H2 H3 Hr Hp Hsent Ho Hat Hm Hpat; [injection Hp as <-; by exists stg |].
  cbn [perform patient] in Hp, Hpat. destruct (step act s) as [s1|] eqn:Hst; [|done]. cbn in Hp. apply andb_prop in Hpat as [Hpat1 Hpat2].
  assert (Hr1 : rtc any_step start s1) by (eapply rtc_r; [exact Hr |]; by exists act). pose proof (perform_runs _ _ _ _ _ _ _ _ _ _ Hp) as Hrest.
  destruct (stream_step addr n capDown capUp hasAgents canOpen sid c c_reachable i d Hd sent H1 H2 H3 act s s1 stg Hat Hr Hst)
    as (stg1 & Hat1 & Heff).
  - etrans; [|exact Hsent]. by eapply sent_grows_runs.
  - by eapply (open_before addr n capDown capUp hasAgents canOpen sid c c_reachable s1 s').
  - eapply (IH s1 s' stg1); try done. exact (mail_step addr n capDown capUp hasAgents canOpen sid c c_reachable d act l s s1 stg stg1 Hr Hm Heff Hpat1).
Qed.

(** A stream that is whole was not begun. *)
Lemma left_whole d stg : rs_left (d, stg) = rs_left (d, Unsent) -> stg = Unsent.
Proof.
  intros H%(f_equal length). unfold rs_left, left_of in H. cbn [fst snd] in H. destruct stg as [|k|]; [done | exfalso | exfalso; cbn in H; lia].
  rewrite !length_app in H. cbn [length] in H. rewrite length_app in H. cbn [length] in H.
  assert (Hlen : forall ps k', length (chunk_messages ResponseBodyChunk (rs_id d) k' ps) = length ps)
    by (induction ps as [|p ps IHp]; intros k'; cbn; [done | by rewrite IHp]).
  rewrite !Hlen, length_drop in H. lia.
Qed.

(** While no message of a request was queued, no message of its job was. *)
Lemma unqueued_unsent acts s s' i q : outbox sid (cw c) = [] -> perform step acts start = Some s -> gw_over (lk_gateway s) = false ->
  under (q_ID q) (enqueued acts) = [] -> rtc any_step s s' -> queued (ag_client (lk_agent s')) !! i = Some q -> from_job i (ag_sent (lk_agent s)) = [].
Proof.
  intros Hout Hp Ho Hu Hr Hq. pose proof (perform_runs _ _ _ _ _ _ _ _ _ _ Hp) as Hrun.
  destruct (link_ok_runs _ _ _ _ _ _ _ _ _ (inv_reachable c c_reachable) Hrun) as [(lost & _ & Hok & _) Hreq (_ & Hdown & _) _].
  apply (jo_unsent _ _ _ _ _ _ Hok). pose proof (jo_length _ _ _ _ _ _ Hok).
  enough (length (queued (ag_client (lk_agent s))) <= i)%nat by lia. apply Nat.nlt_ge. intros [q' Hq']%lookup_lt_is_Some_2.
  assert (q' = q) as -> by (pose proof (prefix_lookup_Some _ _ _ _ Hq' (queued_grows_runs _ _ _ _ _ _ _ _ _ Hr)); congruence).
  pose proof (run_relays _ _ _ _ _ _ _ _ _ _ (q_ID q) Hout Hp Ho) as Hrel. rewrite Hu in Hrel.
  assert (Hread : under (q_ID q) (ag_read (lk_agent s)) = []).
  { destruct s as [g down up a]. destruct Hdown as (lost' & _ & Hw). cbn [lk_agent lk_gateway] in *. unfold relay in Hrel.
    rewrite Hw, !under_app in Hrel. by repeat apply app_nil in Hrel as [Hrel _]. }
  assert (Hnone : jobs_of (q_ID q) (ag_client (lk_agent s)) = []).
  { unfold jobs_of. rewrite <- (unread_no_job _ _ Hread). unfold jobs_of. f_equal. unfold requests_inv in Hreq.
    destruct (read_loop (ag_read (lk_agent s)) no_requests); apply Hreq. }
  assert (Hin : q ∈ jobs_of (q_ID q) (ag_client (lk_agent s))) by (apply list_elem_of_filter; split; [done | by eapply list_elem_of_lookup_2]).
  rewrite Hnone in Hin. by apply not_elem_of_nil in Hin.
Qed.

(** The stream of a job of which nothing was sent was not begun at the gateway either. *)
Lemma unsent_at i d sent s stg : rtc any_step start s -> ag_sent (lk_agent s) `prefix_of` sent -> from_job i (ag_sent (lk_agent s)) = [] ->
  stream_at i d sent s stg -> stg = Unsent.
Proof.
  intros Hr [rest ->] Hnone [_ Hl]. destruct (link_ok_runs _ _ _ _ _ _ _ _ _ (inv_reachable c c_reachable) Hr) as [_ _ (Hup & _) _].
  destruct s as [g down up a]. destruct Hup as (lost & _ & Hup). cbn [lk_agent lk_gateway] in *.
  assert (Hlen : (length (gw_seen g) <= length (ag_sent a))%nat) by (rewrite <- (length_fmap snd (ag_sent a)), Hup, length_app; lia).
  rewrite take_app_le in Hl by done. rewrite <- (take_drop (length (gw_seen g)) (ag_sent a)), from_job_app in Hnone.
  apply app_nil in Hnone as [Hnone _]. rewrite Hnone in Hl. exact (left_whole d stg Hl).
Qed.

Lemma filter_one {A} (P : A -> Prop) `{forall x, Decision (P x)} (l : list A) r :
  NoDup l -> r ∈ l -> P r -> (forall r', r' ∈ l -> P r' -> r' = r) -> filter P l = [r].
Proof.
  intros Hnd Hr HP Huniq. assert (Hnd' : NoDup (filter P l)) by (by apply list.NoDup_filter).
  assert (Hin : forall r', r' ∈ filter P l <-> r' = r).
  { intros r'. rewrite list_elem_of_filter. split; [intros []; auto | by intros ->]. }
  destruct (filter P l) as [|y k]; [pose proof (proj2 (Hin r) eq_refl) as Hr'; by apply not_elem_of_nil in Hr' |].
  assert (y = r) as -> by (apply Hin; by left). apply list.NoDup_cons in Hnd' as [Hy _]. destruct k as [|z k]; [done |].
  destruct Hy. assert (z = r) as -> by (apply Hin; right; by left). by left.
Qed.

(** A request that became one job was run once. *)
Lemma rest_one_run s r : rtc any_step start s -> session_open s -> at_rest sid s -> NoDup (q_ID <$> queued (ag_client (lk_agent s))) ->
  r ∈ ag_done (lk_agent s) -> filter (fun r' => q_ID (jr_request r') = q_ID (jr_request r)) (ag_done (lk_agent s)) = [r].
Proof.
  intros Hr Ho Hrest Hids Hin.
  destruct (rest_accounts _ _ _ _ _ _ (link_ok_runs _ _ _ _ _ _ _ _ _ (inv_reachable c c_reachable) Hr) Ho Hrest) as (_ & Hok & _).
  assert (Hnd : NoDup (jr_number <$> ag_done (lk_agent s))) by (rewrite (jo_started _ _ _ _ _ _ Hok); apply NoDup_seq).
  apply filter_one; [by eapply NoDup_fmap_1 | done | done |]. intros r' Hin' Heq.
  pose proof (jo_request_s _ _ _ _ _ _ Hok r Hin) as H1. pose proof (jo_request_s _ _ _ _ _ _ Hok r' Hin') as H2.
  assert (Hn : jr_number r' = jr_number r).
  { eapply NoDup_lookup; [exact Hids | by rewrite list_lookup_fmap, H2 |]. rewrite list_lookup_fmap, H1. cbn. by rewrite Heq. }
  apply list_elem_of_lookup in Hin as [i Hi]. apply list_elem_of_lookup in Hin' as [j Hj].
  assert (j = i) as -> by (eapply NoDup_lookup; [exact Hnd | by rewrite list_lookup_fmap, Hj |]; rewrite list_lookup_fmap, Hi; cbn; by rewrite Hn).
  congruence.
Qed.

(** The jobs of a session at rest are those of the public requests. *)
Lemma rest_requests lower baseDomain reqs acts s : outbox sid (cw c) = [] -> perform step acts start = Some s ->
  session_open s -> at_rest sid s -> traffic lower baseDomain reqs (enqueued acts) ->
  NoDup (q_ID <$> queued (ag_client (lk_agent s))) /\ Forall (fun q => id_ok (q_ID q)) (queued (ag_client (lk_agent s)))
  /\ forall x, x ∈ reqs -> under (pb_id x) (enqueued acts) = pb_messages lower baseDomain x ->
     pb_forwarded lower x ∈ queued (ag_client (lk_agent s)).
Proof.
  intros Hout Hp Ho Hrest Htr. pose proof (perform_runs _ _ _ _ _ _ _ _ _ _ Hp) as Hr.
  destruct (rest_read _ _ _ _ _ _ (link_ok_runs _ _ _ _ _ _ _ _ _ (inv_reachable c c_reachable) Hr) Ho Hrest) as (st & Hst & [_ ->] & Hread).
  assert (Hall : forall id, under id (ag_read (lk_agent s)) = under id (enqueued acts)).
  { intros id. rewrite Hread. by apply (run_relays _ _ _ _ _ _ _ _ _ _ id Hout Hp), Ho. }
  split_and!; [by eapply jobs_nodup | by eapply jobs_id_ok |].
  intros x Hx Hu. assert (Hin : pb_forwarded lower x ∈ jobs_of (pb_id x) st).
  { rewrite (complete_one_job lower baseDomain reqs (enqueued acts) Htr _ st Hst Hall x Hx Hu). by left. }
  by apply list_elem_of_filter in Hin as [_ ?].
Qed.

(** The channel of a handler that registered before its job began, and was patient,
    holds the response at rest. *)
Lemma channel_filled after s1 s r p : addr <> [] -> rtc any_step start s1 -> perform step after s1 = Some s -> session_open s -> at_rest sid s ->
  NoDup (q_ID <$> queued (ag_client (lk_agent s))) -> Forall (fun q => id_ok (q_ID q)) (queued (ag_client (lk_agent s))) ->
  Forall (fun r => local_ok (jr_client r) addr (jr_request r)) (ag_done (lk_agent s)) ->
  r ∈ ag_done (lk_agent s) -> queued (ag_client (lk_agent s)) !! jr_number r = Some (jr_request r) -> from_job (jr_number r) (ag_sent (lk_agent s1)) = [] ->
  pending (mgr (sv_world (gw_serving (lk_gateway s1)))) !! q_ID (jr_request r) = Some p ->
  patient addr n capDown capUp hasAgents canOpen sid (q_ID (jr_request r)) (p_response p) after s1 = true ->
  respq (sv_world (gw_serving (lk_gateway s))) !! p_response p = Some (mkChan 1 [expected_response (jr_client r) addr (jr_request r)]).
Proof.
  intros Ha Hr1 Hafter Hopen Hrest Hids Hidok Hloc Hin Hq Hnone Hp Hpat. pose proof (perform_runs _ _ _ _ _ _ _ _ _ _ Hafter) as Hr2.
  assert (Hr : rtc any_step start s) by (by etrans). set (i := jr_number r) in *.
  destruct (rest_stream addr n capDown capUp hasAgents canOpen sid c s c_reachable Ha Hr Hopen Hrest Hidok Hloc r Hin) as (d & Hd & Hdid & Hresp & Hfrom).
  fold i in Hfrom. assert (Hi1 : from_job i (ag_sent (lk_agent s)) `prefix_of` rs_left (d, Unsent)) by (by rewrite Hfrom).
  pose proof (rest_others addr n capDown capUp hasAgents canOpen sid c s c_reachable Ha Hr Hopen Hrest Hids Hidok Hloc i d _ Hdid Hq) as Hi2.
  pose proof (rest_loop addr n capDown capUp hasAgents canOpen sid c s Hr) as Hi3.
  assert (Ho1 : gw_over (lk_gateway s1) = false) by (eapply (open_before addr n capDown capUp hasAgents canOpen sid c c_reachable s1 s); [done | done | apply Hopen]).
  assert (Hs1 : ag_sent (lk_agent s1) `prefix_of` ag_sent (lk_agent s)) by (by eapply sent_grows_runs).
  destruct (stream_run addr n capDown capUp hasAgents canOpen sid c c_reachable i d Hd (ag_sent (lk_agent s)) Hi1 Hi2 Hi3 s1 Hr1 Hs1 Ho1) as (stg & Hat & _).
  rewrite (unsent_at i d _ s1 stg Hr1 Hs1 Hnone Hat) in Hat. rewrite <- Hdid in Hp, Hpat.
  destruct (mail_run i d _ (p_response p) after s1 s Unsent Hd Hi1 Hi2 Hi3 Hr1 Hafter ltac:(done) (proj1 Hopen) Hat ltac:(by exists p) Hpat) as (stg' & Hat' & Hmail).
  rewrite (rest_ended addr n capDown capUp hasAgents canOpen sid c s c_reachable Hr Hopen Hrest i d stg' Hfrom Hat') in Hmail. by rewrite <- Hresp.
Qed.
End trip.

(** C1 (refinement).  The round trip.  Take any run of a session, by whatever schedule
    of its goroutines, its heartbeat and the public handlers, that has come to rest
    with the session open; let every message that handlers queued belong to a public
    request that can be forwarded, queued in order, in part or whole, or cancelled.
    If the handler of the request [x] registered itself, then queued all its messages,
    and did not give up before its channel was filled, then the agent has run
    exactly one job for it, which is [x] with its method, path, filtered headers and
    body; the channel of the handler holds exactly the response of the local service
    to that job; and with this response the handler replies to its client with the
    status, headers and body of the local service, or its error. *)
Theorem round_trip (lower : Z -> Z) (baseDomain addr : gostring) (n capDown capUp : nat) (hasAgents canOpen : bool) (sid : gostring)
    (c : cstate) (reqs : list public) (x : public) (before after : list action) (s0 s1 s : link) :
  let step := link_step addr n capDown capUp hasAgents canOpen sid in
  let l := (RegisterRequest sid (pb_id x) (sv_world (gw_serving (lk_gateway s0)))).1 in
  reachable c -> outbox sid (cw c) = [] -> addr <> [] ->
  perform step before (new_session addr n sid (cw c)) = Some s0 ->
  step (OutsideAct (RegisterOne (pb_id x))) s0 = Some s1 -> perform step after s1 = Some s ->
  session_open s -> at_rest sid s ->
  traffic lower baseDomain reqs (enqueued before ++ enqueued after) -> x ∈ reqs ->
  under (pb_id x) (enqueued before) = [] -> under (pb_id x) (enqueued after) = pb_messages lower baseDomain x ->
  patient addr n capDown capUp hasAgents canOpen sid (pb_id x) l after s1 = true ->
  Forall (fun r => local_ok (jr_client r) addr (jr_request r)) (ag_done (lk_agent s)) ->
  exists r, filter (fun r => q_ID (jr_request r) = pb_id x) (ag_done (lk_agent s)) = [r] /\ jr_request r = pb_forwarded lower x
    /\ let resp := expected_response (jr_client r) addr (pb_forwarded lower x) in
       respq (sv_world (gw_serving (lk_gateway s))) !! l = Some (mkChan 1 [resp])
       /\ (ServeHTTP lower baseDomain (pb_now x) (Some (pb_random x)) (pb_r x) (pb_stream x) (GotResponse resp) (pb_gateway x)).1
          = reply_to resp.
Proof.
  intros step l Hc Hout Ha Hbefore Hreg Hafter Hopen Hrest Htr Hx Hu1 Hu2 Hpat Hloc.
  set (acts := before ++ OutsideAct (RegisterOne (pb_id x)) :: after).
  assert (Hacts : enqueued acts = enqueued before ++ enqueued after) by (unfold acts; by rewrite enqueued_app).
  assert (Hp1 : perform step (before ++ [OutsideAct (RegisterOne (pb_id x))]) (new_session addr n sid (cw c)) = Some s1)
    by (rewrite perform_app, Hbefore; cbn [mbind option_bind perform]; by rewrite Hreg).
  assert (Hp : perform step acts (new_session addr n sid (cw c)) = Some s)
    by (unfold acts; rewrite cons_middle, app_assoc, perform_app, Hp1; exact Hafter).
  pose proof (perform_runs _ _ _ _ _ _ _ _ _ _ Hp) as Hr. pose proof (perform_runs _ _ _ _ _ _ _ _ _ _ Hp1) as Hr1.
  pose proof (perform_runs _ _ _ _ _ _ _ _ _ _ Hafter) as Hr2. rewrite <- Hacts in Htr.
  destruct (rest_requests addr n capDown capUp hasAgents canOpen sid c Hc lower baseDomain reqs acts s Hout Hp Hopen Hrest Htr) as (Hids & Hidok & Hjobs).
  destruct (list_elem_of_lookup_1 _ _ (Hjobs x Hx ltac:(by rewrite Hacts, under_app, Hu1))) as [i Hi].
  destruct (rest_job addr n capDown capUp hasAgents canOpen sid c s Hc Hr Hopen Hrest i) as (r & Hin & Hnum & Hreq); [by eapply lookup_lt_Some |].
  assert (Hq : jr_request r = pb_forwarded lower x) by congruence.
  exists r. cbv zeta. rewrite <- Hq. split; [|split; [done | split]].
  - rewrite <- (rest_one_run addr n capDown capUp hasAgents canOpen sid c Hc s r Hr Hopen Hrest Hids Hin). by rewrite Hq.
  - assert (Hpend : pending (mgr (sv_world (gw_serving (lk_gateway s1)))) !! q_ID (jr_request r) = Some (mkPending sid l)).
    { rewrite Hq. destruct s0 as [g down up a]. cbn in Hreg. injection Hreg as <-. cbn. by rewrite lookup_insert_eq. }
    eapply (channel_filled addr n capDown capUp hasAgents canOpen sid c Hc after s1 s r (mkPending sid l)); try done; [by rewrite Hnum | | by rewrite Hq].
    rewrite Hnum. eapply (unqueued_unsent addr n capDown capUp hasAgents canOpen sid c Hc _ s1 s i (pb_forwarded lower x)); try done.
    + by eapply (open_before addr n capDown capUp hasAgents canOpen sid c Hc s1 s), Hopen.
    + rewrite enqueued_app, under_app. by change (q_ID (pb_forwarded lower x)) with (pb_id x); rewrite Hu1.
  - pose proof (tf_requests _ _ _ _ Htr) as Hf. rewrite list.Forall_forall in Hf. by eapply handler_replies, Hf.
Qed.

(** ** An example *)

(** Two clients: the body of the first one arrives in full; the second one gives up
    when the agent has been told of its request and of a part of the body. *)
Definition first_public : public := demo_public Byte.x01 ($"ab").
Definition second_public : public := demo_public Byte.x02 ($"c").
Definition trip_messages (x : public) : list OutboundMessage := pb_messages (fun r => r) ($"t.io") x.

Definition trip_before : list action :=
  opening ++ [OutsideAct (RegisterOne (pb_id second_public))] ++ (take 1 (trip_messages second_public) ≫= to_agent).
Definition trip_after : list action :=
  (take 2 (trip_messages first_public) ≫= to_agent) ++ (take 1 (drop 1 (trip_messages second_public)) ≫= to_agent)
  ++ [OutsideAct (CancelOne (pb_id second_public))] ++ (drop 2 (trip_messages first_public) ≫= to_agent) ++ [AgentAct LoopQueue]
  ++ to_agent (cancel_message (pb_id second_public)) ++ [AgentAct (WorkerTake 0 sample_service)]
  ++ ((fun _ => AgentAct (WorkerSend 0)) <$> seq 0 6) ++ [AgentAct (WorkerFinish 0)] ++ (seq 0 6 ≫= fun _ => handled (Err tt))
  ++ [OutsideAct (CancelOne (pb_id first_public))].

Abbreviation trip_step := (link_step ($"3000") 2 4 4 true true ($"ses_1")).
Definition trip_start : link := new_session ($"3000") 2 ($"ses_1") (cw sample_state).
Definition trip_s0 : link := default trip_start (perform trip_step trip_before trip_start).
Definition trip_s1 : link := default trip_start (trip_step (OutsideAct (RegisterOne (pb_id first_public))) trip_s0).
Definition trip_end : link := default trip_start (perform trip_step trip_after trip_s1).

Lemma under_named id ms : under id ms <> [] -> id ∈ omap request_id ms.
Proof.
  intros Hne. destruct (under id ms) as [|m rest] eqn:Hu; [done |]. assert (Hm : m ∈ under id ms) by (rewrite Hu; by left).
  apply list_elem_of_filter in Hm as [Hid Hin]. apply list_elem_of_omap. eauto.
Qed.

Lemma trip_traffic : traffic (fun r => r) ($"t.io") [first_public; second_public] (enqueued trip_before ++ enqueued trip_after).
Proof.
  split.
  - apply list.Forall_cons; split; [|apply list.Forall_cons; split; [|done]];
      (split; [by split | reflexivity | by vm_compute | by left | apply demo_keys | reflexivity]).
  - intros x. rewrite !elem_of_cons. intros [->|[->|[]%not_elem_of_nil]].
    + left. exists []. rewrite app_nil_r. by vm_compute.
    + right. exists (take 2 (trip_messages second_public)). split; [|by vm_compute]. by apply prefix_take.
  - intros id Hid%under_named. revert id Hid. apply list.Forall_forall, (bool_decide_eq_true_1 (Forall _ _)). by vm_compute.
Qed.

Lemma trip_local_ok : Forall (fun r => local_ok (jr_client r) ($"3000") (jr_request r)) (ag_done (lk_agent trip_end)).
Proof.
  assert (Hd : jr_client <$> ag_done (lk_agent trip_end) = [sample_service]) by (by vm_compute).
  apply list.Forall_forall. intros r Hr. assert (Hc : jr_client r ∈ [sample_service]) by (rewrite <- Hd; by apply list_elem_of_fmap_2).
  apply list_elem_of_singleton in Hc. rewrite Hc. by apply sample_local_ok.
Qed.

Lemma defined {A} (o : option A) (x : A) : match o with Some _ => true | None => false end = true -> o = Some (default x o).
Proof. by destruct o. Qed.

Lemma round_trip_witness :
  exists r l, r ∈ ag_done (lk_agent trip_end) /\ jr_request r = pb_forwarded (fun r => r) first_public
    /\ respq (sv_world (gw_serving (lk_gateway trip_end))) !! l = Some (mkChan 1 [expected_response (jr_client r) ($"3000") (jr_request r)])
    /\ (ServeHTTP (fun r => r) ($"t.io") (pb_now first_public) (Some (pb_random first_public)) (pb_r first_public) (pb_stream first_public)
          (GotResponse (mkResponse 200 ∅ ($"abcd") [])) (pb_gateway first_public)).1 = Replied (mkReply 200 ∅ ($"abcd")).
Proof.
  destruct (round_trip (fun r => r) ($"t.io") ($"3000") 2 4 4 true true ($"ses_1") sample_state [first_public; second_public] first_public
              trip_before trip_after trip_s0 trip_s1 trip_end) as (r & Hf & Hq & Hresp & Hreply).
  - exact sample_reachable.
  - by vm_compute.
  - done.
  - apply defined. by vm_compute.
  - apply defined. by vm_compute.
  - apply defined. by vm_compute.
  - split; by vm_compute.
  - vm_compute. repeat split; repeat constructor.
  - exact trip_traffic.
  - by left.
  - by vm_compute.
  - by vm_compute.
  - by vm_compute.
  - exact trip_local_ok.
  - exists r. eexists. rewrite Hq. split; [|split; [done | split; [exact Hresp |]]].
    + assert (Hr : r ∈ [r]) by (by left). rewrite <- Hf in Hr. by apply list_elem_of_filter in Hr as [_ ?].
    + by vm_compute.
Defined.

(** ** A public client that ends a session *)

(** A public request with a header field of 64 KiB. *)
Definition verbose_http : http_request :=
  Headers.mkRequest ($"GET") ($"abcdefghij.t.io") ($"/x") {[$"Accept" := [replicate (Z.to_nat AgentClient.websocketReadLimit) Byte.x61]]} 0 ($"1.2.3.4:5") false.
Definition verbose_run : list action :=
  opening ++ [OutsideAct (RegisterOne demo_requestID); OutsideAct (Enqueue (mkOutbound MessageText (start_message (fun r => r) demo_requestID verbose_http)));
              GatewayAct GatewayOutbound; GatewayAct GatewayWrite; AgentAct LoopStop].

(** C39 (safety).  A public client can end the session of an agent.  The handler announces
    a request with all its header fields in one message, whatever their size; the
    agent reads messages of up to 64 KiB.  There is a request that passes every guard
    of the handler, and a run in which its handler queues the announcement, the
    gateway writes it, and the agent, which cannot read it, ends the session: nobody
    else has ended it. *)
Theorem long_announcement_ends_session :
  admitted (fun r => r) ($"t.io") demo_tunnel Minute demo_random demo_requestID verbose_http demo_gateway
  /\ forallb (fun act => negb (ends_session act)) verbose_run = true
  /\ exists s, perform trip_step verbose_run trip_start = Some s /\ ag_over (lk_agent s) = true.
Proof.
  split; [by split |]. split; [by vm_compute |]. exists (default trip_start (perform trip_step verbose_run trip_start)).
  split; [apply defined; by vm_compute | by vm_compute].
Qed.
