(* ===== verification/Samples.v ===== *)
(** * A small sample deployment

    Concrete stand-ins for the database's text conversions and for bcrypt that
    satisfy the laws the theorems assume, a clock with random bytes, and the
    account, session and agent they produce.  The witnesses of the theorems about
    the services evaluate on these. *)

From S2P Require Import Prelude GoStrings Crypto Effects Headers Json Messages Tables AuthService Reader Http.
From S2P Require Import AgentTokens Agents TunnelService.

#[global] Instance sample_pg : Postgres := {
  uuid_in s := if negb (bool_decide (s = [])) && forallb is_ascii s then Some s else None;
  inet_in s := Some s
}.

Lemma ascii_utf8 s : forallb is_ascii s = true -> valid_utf8 s.
Proof.
  induction s as [|b s IH]; [done |]. intros [Hb Hs]%andb_true_iff. unfold is_ascii in Hb.
  unfold valid_utf8. rewrite coerce_ascii by lia. f_equal. by apply IH.
Qed.

#[global] Instance sample_pg_laws : PostgresLaws.
Proof.
  split; intros s u H; cbn in *.
  - case_match eqn:Hg; [|done]. simplify_eq. by rewrite Hg.
  - case_match eqn:Hg; [|done]. simplify_eq. prop_guards. split; [done | by apply ascii_utf8].
Qed.

(** Not a hash, but enough to tell passwords apart. *)
Definition sample_hash (password : list byte) : gostring := $"hash-" ++ hex_encode password.

#[global] Instance sample_bcrypt : Bcrypt := {
  GenerateFromPassword salt password := if 72 <? zlen password then None else Some (sample_hash password);
  CompareHashAndPassword hash password := bool_decide (hash = sample_hash password)
}.

Lemma lowerhex_text n : 0 <= n < 16 -> is_ascii (lowerhex n) && negb (bool_decide (lowerhex n = Byte.x00)) = true.
Proof.
  intros Hn. unfold is_ascii, lowerhex. rewrite byte_to_of_Z.
  assert (Hz : byte_of_Z (if n <? 10 then 48 + n else 87 + n) <> Byte.x00).
  { intros Heq. apply (f_equal byte_to_Z) in Heq. rewrite byte_to_of_Z in Heq. change (byte_to_Z Byte.x00) with 0 in Heq.
    destruct (n <? 10) eqn:?; rewrite Z.mod_small in Heq; lia. }
  rewrite (bool_decide_eq_false_2 _ Hz). destruct (n <? 10) eqn:?; rewrite Z.mod_small; lia.
Qed.

#[global] Instance sample_bcrypt_laws : BcryptLaws.
Proof.
  split; intros salt password h; cbn [GenerateFromPassword CompareHashAndPassword sample_bcrypt]; case_match; [done | | done |]; intros [= <-].
  - by apply bool_decide_eq_true.
  - apply pg_text_ascii. unfold sample_hash. rewrite forallb_app. apply andb_true_iff. split; [reflexivity |].
    apply forallb_forall. intros c Hc%list_elem_of_In. unfold hex_encode in Hc. apply list_elem_of_bind in Hc as (b & Hc & _).
    pose proof (byte_to_Z_range b). rewrite !elem_of_cons, elem_of_nil in Hc.
    destruct Hc as [->|[->|[]]]; apply lowerhex_text; Z.to_euclidean_division_equations; lia.
Qed.

(** ** Answers *)

Definition sample_time : Z := (62135596800 + 1767225600) * Second.

(** One second passes between actions, ids are numbered, random bytes repeat the
    number of the action. *)
Definition sample_env (n : nat) : answer :=
  mkAnswer (sample_time + Z.of_nat n * Second) ($"id-" ++ print_int (Z.of_nat n))
    (Some (replicate 32 (byte_of_Z (Z.of_nat n)))) None.

Definition sample_service : Service := NewService ($"access") ($"refresh") (15 * Minute) (720 * 60 * Minute).

Definition sample_lower (r : Z) : Z := r.
Definition sample_email : gostring := $"alice@example.test".
Definition sample_password : gostring := $"correct horse".

(** An account, a session, an agent token and a registered agent. *)
Definition sample_setup : prog database (result auth_error (User * Tokens) * result token_error CreatedToken * result agent_error gostring) :=
  _ ← Register sample_lower ($"  Alice@Example.test ") sample_password;
  session ← Login sample_lower sample_service sample_email sample_password ($"agent/1.0") ($"192.0.2.1");
  token ← Create ($"id-1") ($"laptop");
  agent ← match token with
          | Ok t => Connect (ct_Plaintext t) (mkClientHello 1 ($"0.1.0") ($"host-1") ($"host-1") ($"linux") ($"amd64"))
          | Err _ => mret (Err MissingIdentity)
          end;
  mret (session, token, agent).

(** The state after the first [n] calls of the setup. *)
Definition sample_database : database := (run sample_env 0 sample_setup empty_database).1.2.

Lemma sample_setup_well_behaved : well_behaved sample_setup.
Proof.
  unfold sample_setup. apply well_behaved_bind; [apply Register_well_behaved | intros _].
  apply well_behaved_bind; [apply Login_well_behaved | intros session].
  apply well_behaved_bind; [apply Create_well_behaved | intros token].
  apply well_behaved_bind; [|intros agent; apply well_behaved_ret].
  case_match; [apply Connect_well_behaved | apply well_behaved_ret].
Qed.

Lemma sample_database_ok : schema_ok sample_database.
Proof. apply (run_advances sample_env 0 sample_setup empty_database sample_setup_well_behaved empty_schema_ok). Qed.

#[global] Opaque sample_database.
