(* ===== verification/Backend.v ===== *)
(** * The assembled gateway

    [run] and [flushTraffic] of backend/cmd/server/main.go: the services, the
    registry and the session manager wired together.  The callbacks handed to the
    agent connection handler, the periodic flush of traffic counters and the
    collectors of the metrics page are programs on the state of all of them. *)

From S2P Require Import Prelude GoStrings Crypto Effects Headers Json Messages Tables AuthService Reader Http.
From S2P Require Import AuthHTTP AgentTokens Agents TunnelService TrafficService AgentConnect Samples.
From S2P Require RateLimiter Registry SessionManager PublicHost Server.

(** ** State *)

Record backend := mkBackend {
  be_db : database;
  be_limiter : RateLimiter.authRateLimiter;
  be_registry : Registry.Registry;
  be_sessions : SessionManager.world
}.

Definition dbL : lens backend database :=
  mkLens be_db (fun d b => mkBackend d (be_limiter b) (be_registry b) (be_sessions b)).
Definition limiterL : lens backend RateLimiter.authRateLimiter :=
  mkLens be_limiter (fun l b => mkBackend (be_db b) l (be_registry b) (be_sessions b)).
Definition registryL : lens backend Registry.Registry :=
  mkLens be_registry (fun r b => mkBackend (be_db b) (be_limiter b) r (be_sessions b)).
Definition sessionsL : lens backend SessionManager.world :=
  mkLens be_sessions (fun w b => mkBackend (be_db b) (be_limiter b) (be_registry b) w).

#[global] Instance dbL_laws : LensLaws dbL.
Proof. split; [done | by intros [] | done]. Qed.
#[global] Instance limiterL_laws : LensLaws limiterL.
Proof. split; [done | by intros [] | done]. Qed.
#[global] Instance registryL_laws : LensLaws registryL.
Proof. split; [done | by intros [] | done]. Qed.
#[global] Instance sessionsL_laws : LensLaws sessionsL.
Proof. split; [done | by intros [] | done]. Qed.

(** A method of the registry, under its mutex. *)
Definition on_registry {B : Set} (f : Registry.Registry -> B * Registry.Registry) : prog backend B :=
  action (fun _ b => let '(x, r) := f (view registryL b) in (x, update registryL r b)).

(** ** Tunnels *)

Section wiring.
Context `{PG : Postgres} (baseDomain : gostring).

(** The [openTunnel] callback. *)
Definition openTunnel (sessionID agentID localAddress : gostring) : prog backend (result tunnel_error TunnelOpenedPayload) :=
  t ← lift dbL (ReopenForSession agentID localAddress);
  match t with
  | Err e => mret (Err e)
  | Ok (id, tunnel) =>
      _ ← on_registry (fun r => (tt, Registry.Open
            (Registry.mkTunnel id (tn_subdomain tunnel) agentID (tn_user_id tunnel) sessionID localAddress) r));
      mret (Ok (mkTunnelOpened [] id (tn_subdomain tunnel)
                  ($"https://" ++ tn_subdomain tunnel ++ $"." ++ baseDomain)))
  end.

(** The [cleanupSession] callback. *)
Definition cleanupSession (sessionID agentID : gostring) : prog backend unit :=
  _ ← on_registry (fun r => (tt, Registry.CloseSession sessionID r));
  lift dbL (CloseAgentTunnels agentID).

(** What the deferred function of [handshake] does once the session was removed:
    it calls back with the arguments [session_cleanup] names. *)
Definition after_session (sessionCancel : option SessionManager.loc) (sessionID agentID : gostring) : prog backend bool :=
  x ← action (fun _ b =>
        match session_cleanup true true sessionCancel sessionID agentID (view sessionsL b) with
        | SessionManager.Returns calls w => (Some calls, update sessionsL w b)
        | SessionManager.Blocks w => (None, update sessionsL w b)
        end);
  match x with
  | None => mret false
  | Some (cleanup, disconnect) =>
      _ ← match cleanup with Some (sid, aid) => cleanupSession sid aid | None => mret tt end;
      _ ← match disconnect with Some aid => lift dbL (agents_Disconnect aid) | None => mret tt end;
      mret true
  end.

(** ** Agents *)

(** The hello the handshake accepts. *)
Definition accepted_hello (data : list byte) : option ClientHelloPayload :=
  match Unmarshal (dec_Envelope dec_ClientHelloPayload) ([], zero_ClientHello) data with
  | Some (type, payload) =>
      if bool_decide (type <> ClientHello) || negb (ch_ProtocolVersion payload =? Version) then None else Some payload
  | None => None
  end.

(** An agent connects with the header [authorization] and sends [data]; [None] is
    the 401. *)
Definition connect_agent (authorization : gostring) (data : list byte) : prog backend (option greeting) :=
  let rawToken := TrimSpace (TrimPrefix authorization ($"Bearer ")) in
  ok ← (if HasPrefix rawToken ($"tkn_") then lift dbL (valid rawToken) else mret false);
  match authenticate authorization (fun _ => ok) with
  | None => mret None
  | Some rawToken =>
      random ← rand_Read 18;
      agents ← (match accepted_hello data, random with
                | Some hello, Some _ =>
                    r ← lift dbL (Connect rawToken hello);
                    mret (Some (match r with Ok id => Ok id | Err _ => Err tt end))
                | _, _ => mret None
                end);
      g ← action (fun a b =>
            let g := handshake Sum256 defaultHeartbeatInterval (a_now a) rawToken (Some data) random agents (view sessionsL b) in
            match g with
            | Registered _ _ _ w => (g, update sessionsL w b)
            | Refused _ => (g, b)
            end);
      mret (Some g)
  end.

(** ** Traffic *)

(** [range] visits the drained counters in an order the language leaves open; a
    write that fails is logged and the loop goes on. *)
Fixpoint flush_in (order : list (gostring * Registry.TrafficMetrics)) : prog backend unit :=
  match order with
  | [] => mret tt
  | (userID, delta) :: order =>
      _ ← lift dbL (AddDelta userID (mkMetrics (Registry.RequestsTotal delta) (Registry.RequestBytes delta)
                                       (Registry.ResponseBytes delta)));
      flush_in order
  end.

Definition flushTraffic_in (visit : gmap gostring Registry.TrafficMetrics -> list (gostring * Registry.TrafficMetrics)) :
    prog backend unit :=
  drained ← on_registry Registry.DrainUserDeltas;
  flush_in (visit drained).

Definition flushTraffic : prog backend unit := flushTraffic_in map_to_list.

(** What the public handler does once a response was copied. *)
Definition recordTraffic (tunnelID : gostring) (requestBytes responseBytes : Z) : prog backend unit :=
  on_registry (fun r => (tt, Registry.RecordTraffic tunnelID requestBytes responseBytes r)).

(** ** Metrics collectors *)

Definition gatewayCollector (b : backend) : Server.GatewayMetrics :=
  let snapshot := SessionManager.takeSnapshot (be_sessions b) in
  Server.mkGatewayMetrics (SessionManager.ActiveSessions snapshot) (SessionManager.PendingRequests snapshot)
    (SessionManager.ConnectionsTotal snapshot) (SessionManager.DisconnectionsTotal snapshot).

Definition tunnelTrafficCollector (b : backend) : Server.TunnelTrafficMetrics :=
  let traffic := Registry.Traffic (be_registry b) in
  Server.mkTunnelTraffic (Registry.RequestsTotal traffic) (Registry.RequestBytes traffic) (Registry.ResponseBytes traffic).
End wiring.

(** ** The HTTP server *)

(** The state of the process: the parts above, the metrics and the log. *)
Record process := mkProcess { pr_backend : backend; pr_metrics : Server.metric_values; pr_log : list Server.log_entry }.

Definition backendL : lens process backend := mkLens pr_backend (fun b p => mkProcess b (pr_metrics p) (pr_log p)).
Definition metricsL : lens process Server.metric_values := mkLens pr_metrics (fun m p => mkProcess (pr_backend p) m (pr_log p)).
Definition logL : lens process (list Server.log_entry) := mkLens pr_log (fun l p => mkProcess (pr_backend p) (pr_metrics p) l).

(** [db.Ping]. *)
Definition Ping : prog database bool :=
  action (fun a d => (match a_fault a with None => true | Some _ => false end, d)).

Section server.
Context `{PG : Postgres} `{BC : Bcrypt} (lower : Z -> Z) (marshal_time : Z -> json) (rand_error : gostring).
(** The configuration the handlers use. *)
Context (Environment accessSecret refreshSecret : gostring) (accessTTL refreshTTL : Z) (CORSAllowedOrigins : list gostring).
(** The handlers that hold on to their connection, and the mux's own responses. *)
Context (connect public : Server.handler process).
Context (redirect : gostring -> Request -> ResponseWriter -> ResponseWriter) (refuse : Z -> Request -> ResponseWriter -> ResponseWriter).

Definition authService : Service := NewService accessSecret refreshSecret accessTTL refreshTTL.

Definition on_backend (h : Request -> ResponseWriter -> prog backend ResponseWriter) : Server.handler process :=
  Server.total (fun r w => lift backendL (h r w)).

Definition http_services : Server.services :=
  Server.mkServices (lift backendL (lift dbL Ping))
    (on_backend (auth_ServeHTTP dbL limiterL lower authService (negb (bool_decide (Environment = $"development")))))
    (on_backend (tokens_ServeHTTP dbL sessionsL authService true marshal_time rand_error))
    connect
    (on_backend (agents_ServeHTTP dbL authService marshal_time))
    (on_backend (tunnels_ServeHTTP dbL authService marshal_time))
    (on_backend (traffic_ServeHTTP dbL authService))
    public redirect refuse.

Definition http_handler (escapedPath : gostring) : Server.handler process :=
  Server.NewHandler metricsL logL (Some (fun p => gatewayCollector (pr_backend p)))
    (Some (fun p => tunnelTrafficCollector (pr_backend p))) http_services CORSAllowedOrigins escapedPath.
End server.

(** ** The invariant of the whole state *)

(** A route leads to a stored tunnel with its ID, subdomain, agent and owner. *)
Definition backed `{PG : Postgres} (d : database) (t : Registry.ActiveTunnel) : Prop :=
  exists row, tunnels d !! Registry.ID t = Some row /\ tn_subdomain row = Registry.Subdomain t
    /\ tn_user_id row = Registry.UserID t /\ uuid_in (Registry.AgentID t) = Some (tn_agent_id row).

Record gateway_ok `{PG : Postgres} (b : backend) : Prop := {
  gw_schema : schema_ok (be_db b);
  gw_coherent : Registry.coherent (be_registry b);
  gw_backed : forall sd t, Registry.bySubdomain (be_registry b) !! sd = Some t -> backed (be_db b) t;
  gw_users : forall u, is_Some (Registry.perUser (be_registry b) !! u) -> is_Some (users (be_db b) !! u)
}.

Definition grows (b b' : backend) : Prop := evolves (be_db b) (be_db b').

#[export] Instance grows_po : PreOrder grows.
Proof. split; [by intros b | intros b1 b2 b3 H1 H2; unfold grows in *; by etrans]. Qed.

Section handlers.
Context `{PG : Postgres} `{PGL : !PostgresLaws}.

Lemma backed_evolves d d' t : evolves d d' -> backed d t -> backed d' t.
Proof.
  intros He (row & Hr & Hs & Hu & Ha). destruct (ev_tunnels _ _ He _ _ Hr) as (row' & Hr' & Hu' & Ha' & Hs' & _).
  exists row'. split_and!; congruence.
Qed.

(** Tables that evolved. *)
Lemma gateway_ok_db b d : gateway_ok b -> schema_ok d -> evolves (be_db b) d -> gateway_ok (update dbL d b).
Proof.
  intros [_ Hc Hb Hu] Hd He. split; cbn; [done | done | |].
  - intros sd t Ht. eapply backed_evolves; [done | by eapply Hb].
  - intros u [r Hr]%Hu. destruct (ev_users _ _ He _ _ Hr) as (r' & Hr' & _). by eexists.
Qed.

(** Two stored tunnels have the same ID exactly when they have the same
    subdomain: what [Registry.Open] relies on. *)
Lemma backed_compatible b t : gateway_ok b -> backed (be_db b) t ->
  Registry.Routes.compatible t (Registry.bySubdomain (be_registry b)).
Proof.
  intros Hb (row & Hr & Hs & _) sd t' Ht'. destruct (gw_backed _ Hb _ _ Ht') as (row' & Hr' & Hs' & _).
  destruct (proj2 (gw_coherent _ Hb) _ _ Ht') as [Hsd _]. split.
  - intros Heq. rewrite <- Hsd, <- Hs, <- Hs'. congruence.
  - intros ->. eapply (ok_subdomain _ (gw_schema _ Hb)); [done | done | congruence].
Qed.

Lemma gateway_ok_open b t : gateway_ok b -> backed (be_db b) t -> gateway_ok (update registryL (Registry.Open t (be_registry b)) b).
Proof.
  intros Hb Ht. split; cbn; [apply Hb | apply Registry.coherent_open; [apply Hb | by apply backed_compatible] | | apply Hb].
  intros sd t' [[_ <-]|[_ Ht']]%lookup_insert_Some; [done | by eapply Hb].
Qed.

Lemma gateway_ok_close b sid : gateway_ok b -> gateway_ok (update registryL (Registry.CloseSession sid (be_registry b)) b).
Proof.
  intros Hb. destruct (Registry.closeSession_spec sid _ _ (gw_coherent _ Hb) (Permutation_refl _)) as [Hc Hby].
  destruct (Registry.closeSession_frame sid (map_to_list (Registry.byID (be_registry b))) (be_registry b)) as [_ Hper].
  split; cbn; [apply Hb | exact Hc | |].
  - unfold Registry.CloseSession. rewrite Hby. intros sd t [Ht _]%map_lookup_filter_Some. by eapply Hb.
  - unfold Registry.CloseSession. rewrite Hper. apply Hb.
Qed.

Lemma gateway_ok_record b id rq rs : gateway_ok b ->
  gateway_ok (update registryL (Registry.RecordTraffic id rq rs (be_registry b)) b).
Proof.
  intros Hb. destruct (Registry.record_frame id rq rs (be_registry b)) as [E1 E2].
  split; cbn; [apply Hb | unfold Registry.coherent; rewrite E1, E2; apply Hb | rewrite E1; apply Hb |].
  unfold Registry.RecordTraffic. destruct (Registry.byID _ !! id) as [sd|] eqn:Hid; [|apply Hb].
  destruct (proj1 (gw_coherent _ Hb) _ _ Hid) as (t & Ht & _). rewrite Ht. cbn.
  case_match; [|apply Hb]. cbn. intros u [m [[<- _]|[_ Hm]]%lookup_insert_Some]; [|apply (gw_users _ Hb); by exists m].
  destruct (gw_backed _ Hb _ _ Ht) as (row & Hrow & _ & <- & _). by eapply (ok_tunnel_user _ (gw_schema _ Hb)).
Qed.

Lemma gateway_ok_drain b : gateway_ok b -> gateway_ok (update registryL (Registry.DrainUserDeltas (be_registry b)).2 b).
Proof.
  intros Hb. split; cbn; [apply Hb | apply Hb | apply Hb |]. intros u [m Hm]. by rewrite lookup_empty in Hm.
Qed.

(** ** Programs that keep it *)

(** A program on the whole state every action of which, in every interleaving,
    keeps the invariant and lets the tables evolve. *)
Definition safe {A} (m : prog backend A) : Prop :=
  forall b, gateway_ok b -> rg gateway_ok grows (fun _ _ => True) b m.

Lemma safe_ret {A} (a : A) : safe (Ret a).
Proof. done. Qed.

Lemma safe_bind {A B} (m : prog backend A) (k : A -> prog backend B) : safe m -> (forall a, safe (k a)) -> safe (m ≫= k).
Proof.
  intros Hm Hk b Hb. apply rg_bind. eapply (rg_weaken _ _); [done | by apply Hm |].
  intros a b' Hb' _ _. by apply Hk.
Qed.

Lemma rg_db {A} (post : A -> database -> Prop) (m : prog database A) b :
  rg schema_ok evolves post (be_db b) m -> rg gateway_ok grows (fun a b => post a (be_db b)) b (lift dbL m).
Proof.
  revert b. induction m as [x|B f k IH]; intros b; [done |]. intros Hm a b1 Hb1 Hr. unfold on_part.
  specialize (Hm a _ (gw_schema _ Hb1) Hr). cbn [view dbL]. destruct (f a (be_db b1)) as [x d].
  destruct Hm as (Hd & He & Hm). split_and!; [by apply gateway_ok_db | exact He | by apply IH].
Qed.

Lemma safe_lift {A} (m : prog database A) : well_behaved m -> safe (lift dbL m).
Proof. intros Hm b Hb. apply (rg_db (fun _ _ => True)), Hm, Hb. Qed.

(** An action that leaves the tables alone. *)
Lemma safe_action {B : Set} (f : answer -> backend -> B * backend) :
  (forall a b, be_db (f a b).2 = be_db b) -> (forall a b, gateway_ok b -> gateway_ok (f a b).2) -> safe (action f).
Proof.
  intros Hf Hok b _. apply rg_action. intros a b' Hb' _. split_and!; [by apply Hok | unfold grows; by rewrite Hf | done].
Qed.

(** An action that leaves the tables and the registry alone. *)
Lemma safe_aside {B : Set} (f : answer -> backend -> B * backend) :
  (forall a b, be_db (f a b).2 = be_db b) -> (forall a b, be_registry (f a b).2 = be_registry b) -> safe (action f).
Proof.
  intros Hd Hr. apply safe_action; [exact Hd |]. intros a b []. split; rewrite ?Hd, ?Hr; assumption.
Qed.

Lemma safe_registry {B : Set} (f : Registry.Registry -> B * Registry.Registry) :
  (forall b, gateway_ok b -> gateway_ok (update registryL (f (be_registry b)).2 b)) -> safe (on_registry f).
Proof.
  intros Hf. apply safe_action; cbn; intros a b; [by destruct (f (be_registry b)) |].
  intros Hb%Hf. by destruct (f (be_registry b)).
Qed.

Lemma safe_run {A} env n (m : prog backend A) b : safe m -> gateway_ok b ->
  gateway_ok (run env n m b).1.2 /\ grows b (run env n m b).1.2.
Proof.
  intros Hm Hb. destruct (run env n m b) as [[a b'] n'] eqn:Hrun.
  destruct (rg_run _ _ _ _ _ _ _ _ _ _ Hb (Hm b Hb) Hrun) as (H1 & H2 & _). by split.
Qed.

Ltac safe_walk :=
  repeat lazymatch goal with
  | |- safe (mret _) => apply safe_ret
  | |- safe (Ret _) => apply safe_ret
  | |- safe (mbind _ _) => apply safe_bind; [|intros ?]
  | |- safe (lift dbL _) => apply safe_lift
  | |- safe (on_registry _) => apply safe_registry; intros
  | |- safe (action _) => apply safe_aside; intros; cbn; repeat case_match; reflexivity
  | |- safe Now => apply safe_aside; reflexivity
  | |- safe (rand_Read _) => apply safe_aside; reflexivity
  | _ => first [progress cbv zeta | case_match]
  end.

Lemma openTunnel_safe baseDomain sessionID agentID localAddress : safe (openTunnel baseDomain sessionID agentID localAddress).
Proof.
  intros b Hb. unfold openTunnel. apply rg_bind. eapply (rg_weaken _ _); [exact Hb | apply rg_db, ReopenForSession_rg |].
  intros [[id row]|e] b1 Hb1 _ Hrow; [|done]. destruct Hrow as [Hrow Ha]. apply rg_bind, rg_action.
  intros a b2 Hb2 Hg. cbn. split_and!; [|done | done]. apply gateway_ok_open; [done |].
  eapply backed_evolves; [exact Hg |]. by exists row.
Qed.

Lemma cleanupSession_safe sessionID agentID : safe (cleanupSession sessionID agentID).
Proof.
  unfold cleanupSession. safe_walk; [by apply gateway_ok_close | apply CloseAgentTunnels_well_behaved].
Qed.

Lemma record_safe id rq rs : safe (recordTraffic id rq rs).
Proof. unfold recordTraffic. safe_walk. by apply gateway_ok_record. Qed.

Lemma after_session_safe cancel sessionID agentID : safe (after_session cancel sessionID agentID).
Proof.
  unfold after_session. safe_walk; [apply cleanupSession_safe | apply agents_Disconnect_well_behaved].
Qed.

Lemma connect_agent_safe authorization data : safe (connect_agent authorization data).
Proof. unfold connect_agent. safe_walk; [apply valid_well_behaved | apply Connect_well_behaved]. Qed.

Lemma flush_in_safe order : safe (flush_in order).
Proof.
  induction order as [|[u delta] order IH]; cbn [flush_in]; safe_walk; [apply AddDelta_well_behaved | exact IH].
Qed.

Lemma flushTraffic_safe visit : safe (flushTraffic_in visit).
Proof. unfold flushTraffic_in. safe_walk; [by apply gateway_ok_drain | apply flush_in_safe]. Qed.

Lemma auth_ServeHTTP_safe `{BC : Bcrypt} (lower : Z -> Z) (s : Service) secure r w :
  safe (auth_ServeHTTP dbL limiterL lower s secure r w).
Proof.
  assert (Hroute : safe (route dbL lower s secure r w)).
  { unfold route, register, login, refresh, logout, me. safe_walk.
    - apply Register_well_behaved.
    - apply Login_well_behaved.
    - apply Refresh_well_behaved.
    - apply Logout_well_behaved.
    - apply UserFromAccessToken_well_behaved. }
  unfold auth_ServeHTTP, limiter_allow. safe_walk; exact Hroute.
Qed.

Lemma tokens_ServeHTTP_safe s hasSessions marshal_time rand_error r w :
  safe (tokens_ServeHTTP dbL sessionsL s hasSessions marshal_time rand_error r w).
Proof.
  unfold tokens_ServeHTTP, tokens_list, tokens_create, tokens_revoke, disconnect. safe_walk.
  - apply UserFromAccessToken_well_behaved.
  - apply tokens_List_well_behaved.
  - apply Create_well_behaved.
  - apply Revoke_well_behaved.
Qed.

Lemma agents_ServeHTTP_safe s marshal_time r w : safe (agents_ServeHTTP dbL s marshal_time r w).
Proof. unfold agents_ServeHTTP. safe_walk; [apply UserFromAccessToken_well_behaved | apply agents_List_well_behaved]. Qed.

Lemma tunnels_ServeHTTP_safe s marshal_time r w : safe (tunnels_ServeHTTP dbL s marshal_time r w).
Proof. unfold tunnels_ServeHTTP. safe_walk; [apply UserFromAccessToken_well_behaved | apply tunnels_List_well_behaved]. Qed.

Lemma traffic_ServeHTTP_safe s r w : safe (traffic_ServeHTTP dbL s r w).
Proof. unfold traffic_ServeHTTP. safe_walk; [apply UserFromAccessToken_well_behaved | apply GetTotals_well_behaved]. Qed.
End handlers.

(** ** Every interleaving of service calls *)

Section calls.
Context `{PG : Postgres} `{BC : Bcrypt} (lower : Z -> Z) (s : Service).

(** The operations of the services, with any arguments. *)
Inductive service_call : thread database -> Prop :=
| call_Register email password : service_call (Thread (Register lower email password))
| call_Login email password userAgent ip : service_call (Thread (Login lower s email password userAgent ip))
| call_Refresh raw userAgent ip : service_call (Thread (Refresh s raw userAgent ip))
| call_Logout raw : service_call (Thread (Logout s raw))
| call_UserFromAccessToken token : service_call (Thread (UserFromAccessToken s token))
| call_Create userID name : service_call (Thread (Create userID name))
| call_tokens_List userID : service_call (Thread (tokens_List userID))
| call_Revoke userID tokenID : service_call (Thread (Revoke userID tokenID))
| call_Connect rawToken hello : service_call (Thread (Connect rawToken hello))
| call_Touch id : service_call (Thread (agents_Touch id))
| call_Disconnect id : service_call (Thread (agents_Disconnect id))
| call_agents_List userID : service_call (Thread (agents_List userID))
| call_valid rawToken : service_call (Thread (valid rawToken))
| call_CloseAgentTunnels agentID : service_call (Thread (CloseAgentTunnels agentID))
| call_ReopenForSession agentID localAddress : service_call (Thread (ReopenForSession agentID localAddress))
| call_tunnels_List userID : service_call (Thread (tunnels_List userID))
| call_AddDelta userID delta : service_call (Thread (AddDelta userID delta))
| call_GetTotals userID : service_call (Thread (GetTotals userID)).

Context `{PGL : !PostgresLaws}.

Lemma service_call_rg t d : service_call t -> schema_ok d -> thread_rg schema_ok evolves d t.
Proof.
  intros Ht Hd. destruct Ht; cbn.
  - by apply Register_well_behaved.
  - by apply Login_well_behaved.
  - by apply Refresh_well_behaved.
  - by apply Logout_well_behaved.
  - by apply UserFromAccessToken_well_behaved.
  - by apply Create_well_behaved.
  - by apply tokens_List_well_behaved.
  - by apply Revoke_well_behaved.
  - by apply Connect_well_behaved.
  - by apply agents_Touch_well_behaved.
  - by apply agents_Disconnect_well_behaved.
  - by apply agents_List_well_behaved.
  - by apply valid_well_behaved.
  - by apply CloseAgentTunnels_well_behaved.
  - by apply ReopenForSession_well_behaved.
  - by apply tunnels_List_well_behaved.
  - by apply AddDelta_well_behaved.
  - by apply GetTotals_well_behaved.
Qed.

Lemma calls_advance d d' ts : schema_ok d -> interleaves service_call (d, []) (d', ts) -> advances d d'.
Proof.
  intros Hd Hs. destruct (rg_steps schema_ok evolves service_call d [] d' ts) as (H1 & H2 & _); try done.
  intros t d1. by apply service_call_rg.
Qed.

(** *** Revoked agent tokens *)

Definition token_revoked (h : gostring) (d : database) : Prop :=
  exists id r, agent_tokens d !! id = Some r /\ at_token_hash r = h /\ is_Some (at_revoked_at r).

Lemma token_revoked_evolves h d d' : token_revoked h d -> evolves d d' -> token_revoked h d'.
Proof.
  intros (id & r & Hr & Hh & Hrev) He. destruct (ev_tokens _ _ He _ _ Hr) as (r' & Hr' & _ & _ & Hh' & _ & Hrev').
  exists id, r'. split_and!; [done | congruence | auto].
Qed.

Lemma revoked_not_usable h d now : schema_ok d -> token_revoked h d -> find_row (usable now h) (agent_tokens d) = None.
Proof.
  intros Hd (id & r & Hr & Hh & [t Ht]). apply find_row_None. intros id' r' Hr' (Hh' & Hn & _).
  assert (id' = id) as -> by (eapply (ok_token_hash _ Hd); [done | done | congruence]). congruence.
Qed.

Lemma revoked_refused raw d : schema_ok d -> token_revoked (hash raw) d ->
  (forall env n, (run env n (valid raw) d).1.1 = false)
  /\ (forall hello env n, exists e, run env n (Connect raw hello) d = (Err e, d, (run env n (Connect raw hello) d).2)).
Proof.
  intros Hd Hrev. split.
  - intros env n. unfold valid. rewrite run_bind. destruct (run env n (exec _) d) as [[[ok|e] d1] n1] eqn:Hr; [|done].
    apply run_exec_Ok in Hr as (_ & Hx & _). unfold exists_usable_token in Hx. rewrite revoked_not_usable in Hx by done.
    cbn. by simplify_eq.
  - intros hello env n. unfold Connect. case_match; [by eexists |]. rewrite run_bind.
    destruct (run env n (exec _) d) as [[[x|e] d1] n1] eqn:Hr.
    + apply run_exec_Ok in Hr as (_ & Hx & _). unfold select_usable_token in Hx. by rewrite revoked_not_usable in Hx.
    + apply run_exec_Err in Hr as [->|[x Hx]]; [by eexists |].
      unfold select_usable_token in Hx. by rewrite revoked_not_usable in Hx.
Qed.

Lemma Revoke_revokes userID tokenID env n d h d' n' :
  schema_ok d -> run env n (Revoke userID tokenID) d = (Ok (Some h), d', n') -> token_revoked h d'.
Proof.
  intros Hd. unfold Revoke. rewrite run_bind. destruct (run env n (exec _) d) as [[[x|[]] d1] n1] eqn:Hr; [|done..].
  cbn. intros [= <- <- <-]. apply run_exec_Ok in Hr as (_ & Hx & _). unfold revoke_token in Hx. stmt_inv.
  eexists _, _. split_and!; [apply lookup_insert_eq | done | done].
Qed.
End calls.

(** ** Every interleaving of the gateway's work *)

Section gateway.
Context `{PG : Postgres} `{BC : Bcrypt} (lower : Z -> Z) (s : Service) (secure : bool) (baseDomain : gostring).
Context (marshal_time : Z -> json) (rand_error : gostring).

(** The requests the gateway serves and what its connections and timers do. *)
Inductive gateway_call : thread backend -> Prop :=
| serves_auth r w : gateway_call (Thread (auth_ServeHTTP dbL limiterL lower s secure r w))
| serves_tokens r w : gateway_call (Thread (tokens_ServeHTTP dbL sessionsL s true marshal_time rand_error r w))
| serves_agents r w : gateway_call (Thread (agents_ServeHTTP dbL s marshal_time r w))
| serves_tunnels r w : gateway_call (Thread (tunnels_ServeHTTP dbL s marshal_time r w))
| serves_traffic r w : gateway_call (Thread (traffic_ServeHTTP dbL s r w))
| connects authorization data : gateway_call (Thread (connect_agent authorization data))
| touches id : gateway_call (Thread (lift dbL (agents_Touch id)))
| opens_tunnel sessionID agentID localAddress : gateway_call (Thread (openTunnel baseDomain sessionID agentID localAddress))
| ends_session cancel sessionID agentID : gateway_call (Thread (after_session cancel sessionID agentID))
| records tunnelID requestBytes responseBytes : gateway_call (Thread (recordTraffic tunnelID requestBytes responseBytes))
| flushes visit : gateway_call (Thread (flushTraffic_in visit)).

Lemma safe_thread `{PGL : !PostgresLaws} {A} (m : prog backend A) b : safe m -> gateway_ok b ->
  thread_rg gateway_ok grows b (Thread m).
Proof. intros Hm Hb. exact (Hm b Hb). Qed.

Lemma gateway_call_safe `{PGL : !PostgresLaws} t b : gateway_call t -> gateway_ok b -> thread_rg gateway_ok grows b t.
Proof.
  intros Ht Hb. destruct Ht; (apply safe_thread; [|exact Hb]).
  - apply auth_ServeHTTP_safe.
  - apply tokens_ServeHTTP_safe.
  - apply agents_ServeHTTP_safe.
  - apply tunnels_ServeHTTP_safe.
  - apply traffic_ServeHTTP_safe.
  - apply connect_agent_safe.
  - apply safe_lift, agents_Touch_well_behaved.
  - apply openTunnel_safe.
  - apply after_session_safe.
  - apply record_safe.
  - apply flushTraffic_safe.
Qed.

Lemma gateway_ok_start b : schema_ok (be_db b) -> be_registry b = Registry.NewRegistry -> gateway_ok b.
Proof.
  intros Hb Hreg. split; rewrite ?Hreg; [done | apply Registry.coherent_new | |].
  - intros sd t Ht. cbn in Ht. by rewrite lookup_empty in Ht.
  - intros u [m Hm]. cbn in Hm. by rewrite lookup_empty in Hm.
Qed.

Lemma gateway_steps `{PGL : !PostgresLaws} b b' ts : gateway_ok b -> interleaves gateway_call (b, []) (b', ts) ->
  gateway_ok b' /\ grows b b'.
Proof.
  intros Hb Hs. destruct (rg_steps gateway_ok grows gateway_call b [] b' ts
    (fun t b1 Ht Hb1 => gateway_call_safe t b1 Ht Hb1) Hs Hb) as (H1 & H2 & _); [apply list.Forall_nil_2 | by split].
Qed.
End gateway.

(** ** The sample gateway *)

Definition sample_token : gostring := $"tkn_" ++ base64url_encode (replicate 32 Byte.x09).

Definition sample_backend : backend :=
  mkBackend sample_database (RateLimiter.newAuthRateLimiter RateLimiter.authRateLimit RateLimiter.authRateWindow)
    Registry.NewRegistry (SessionManager.mkWorld SessionManager.NewSessionManager ∅ ∅ 0 ∅).

Definition sample_connect : prog backend (option greeting) :=
  connect_agent ($"Bearer " ++ sample_token)
    (Envelope ClientHello (Some (enc_clientHello (mkclientHello 1 ($"0.1.0") ($"host-1") ($"host-1") ($"linux") ($"amd64"))))).

Definition sample_revoke_request : Request :=
  mkReq ($"DELETE") ($"/api/v1/agent-tokens/id-10") ∅ ($"192.0.2.7:4711") [] [] false.

Definition sample_revoke : prog backend ResponseWriter :=
  tokens_revoke dbL sessionsL true sample_revoke_request (mkUser ($"id-1") sample_email) new_writer.

(** The sample with the agent connected. *)
Definition connected_backend : backend := (run sample_env 40 sample_connect sample_backend).1.2.

Lemma sample_steps :
  interleaves (gateway_call sample_lower sample_service true ($"tunnel.example.test") (fun _ => JNull) [])
    (sample_backend, [])
    ((run sample_env 40 sample_connect sample_backend).1.2,
     [Thread (Ret (S := backend) (run sample_env 40 sample_connect sample_backend).1.1)]).
Proof.
  eapply rtc_l; [apply (step_arrive _ _ [] (Thread sample_connect)), connects |].
  apply (run_steps _ sample_env 40 sample_connect sample_backend [] []).
Qed.

(** The sample's agent opens a tunnel. *)
Definition sample_opening : prog backend (result tunnel_error TunnelOpenedPayload) :=
  openTunnel ($"tunnel.example.test") ($"session-1") ($"id-12") ($"127.0.0.1:3000").

Lemma opening_steps :
  interleaves (gateway_call sample_lower sample_service true ($"tunnel.example.test") (fun _ => JNull) [])
    (sample_backend, [])
    ((run sample_env 50 sample_opening sample_backend).1.2,
     [Thread (Ret (S := backend) (run sample_env 50 sample_opening sample_backend).1.1)]).
Proof.
  eapply rtc_l; [apply (step_arrive _ _ [] (Thread sample_opening)), opens_tunnel |].
  apply (run_steps _ sample_env 50 sample_opening sample_backend [] []).
Qed.

(** ** Properties *)

(** C18 (type).  The tables stay well-formed: from a gateway that has just started
    on well-formed tables, in particular the empty ones, every interleaving of any
    number of API requests, agent connections, tunnel openings, proxied requests,
    session ends and traffic flushes, whatever the clock, the generators and the
    database's failures do, leads to tables that satisfy every declared constraint
    and in which each agent and tunnel belongs to the user of its token and agent;
    no row is lost, no owner changes and nothing that was revoked becomes valid
    again. *)
Theorem tables_well_formed `{PG : Postgres} `{PGL : !PostgresLaws} `{BC : Bcrypt} (lower : Z -> Z) (s : Service)
    (secure : bool) (baseDomain : gostring) (marshal_time : Z -> json) (rand_error : gostring)
    (b b' : backend) (ts : list (thread backend)) :
  schema_ok (be_db b) -> be_registry b = Registry.NewRegistry ->
  interleaves (gateway_call lower s secure baseDomain marshal_time rand_error) (b, []) (b', ts) ->
  schema_ok (be_db b') /\ evolves (be_db b) (be_db b').
Proof.
  intros Hb Hreg Hs. destruct (gateway_steps lower s secure baseDomain marshal_time rand_error b b' ts
    (gateway_ok_start b Hb Hreg) Hs) as [Hok Hg]. split; [apply Hok | exact Hg].
Qed.

Lemma tables_well_formed_witness :
  exists b', interleaves (gateway_call sample_lower sample_service true ($"tunnel.example.test") (fun _ => JNull) [])
               (sample_backend, []) (b', [Thread (Ret (S := backend) (run sample_env 40 sample_connect sample_backend).1.1)])
  /\ schema_ok (be_db b') /\ evolves sample_database (be_db b').
Proof.
  exists (run sample_env 40 sample_connect sample_backend).1.2. split; [exact sample_steps |].
  apply (tables_well_formed sample_lower sample_service true ($"tunnel.example.test") (fun _ => JNull) []
           sample_backend _ _ sample_database_ok eq_refl sample_steps).
Defined.

(** C10 (invariant).  Routes are backed by stored tunnels: in every state that the
    gateway's interleaved work reaches, the two maps of the registry describe the
    same set of tunnels, the route of each subdomain leads to a stored tunnel with
    the same ID, subdomain, agent and owner, so that no two routes share a tunnel or
    cross accounts, and traffic is held only for users that exist. *)
Theorem routes_backed `{PG : Postgres} `{PGL : !PostgresLaws} `{BC : Bcrypt} (lower : Z -> Z) (s : Service)
    (secure : bool) (baseDomain : gostring) (marshal_time : Z -> json) (rand_error : gostring)
    (b b' : backend) (ts : list (thread backend)) :
  schema_ok (be_db b) -> be_registry b = Registry.NewRegistry ->
  interleaves (gateway_call lower s secure baseDomain marshal_time rand_error) (b, []) (b', ts) ->
  Registry.coherent (be_registry b')
  /\ (forall sub t, Registry.Get sub (be_registry b') = Some t -> Registry.Subdomain t = sub /\ backed (be_db b') t)
  /\ (forall sub sub' t t', Registry.Get sub (be_registry b') = Some t -> Registry.Get sub' (be_registry b') = Some t' ->
        Registry.ID t = Registry.ID t' -> sub = sub')
  /\ (forall u, is_Some (Registry.perUser (be_registry b') !! u) -> is_Some (users (be_db b') !! u)).
Proof.
  intros Hb Hreg Hs. destruct (gateway_steps lower s secure baseDomain marshal_time rand_error b b' ts
    (gateway_ok_start b Hb Hreg) Hs) as [Hok _]. pose proof (gw_coherent _ Hok) as Hc. split_and!; [done | | | apply Hok].
  - intros sub t Ht. split; [by apply Hc | by eapply Hok].
  - intros sub sub' t t' Ht Ht' Heq. destruct (proj2 Hc _ _ Ht) as [_ H1], (proj2 Hc _ _ Ht') as [_ H2]. congruence.
Qed.

Lemma routes_backed_witness :
  exists t, Registry.Get ($"pppppppppp") (be_registry (run sample_env 50 sample_opening sample_backend).1.2) = Some t
    /\ Registry.Subdomain t = $"pppppppppp" /\ backed (be_db (run sample_env 50 sample_opening sample_backend).1.2) t.
Proof.
  destruct (Registry.Get ($"pppppppppp") (be_registry (run sample_env 50 sample_opening sample_backend).1.2)) as [t|] eqn:Ht;
    [|vm_compute in Ht; discriminate Ht].
  exists t. split; [reflexivity |].
  apply (routes_backed sample_lower sample_service true ($"tunnel.example.test") (fun _ => JNull) []
           sample_backend _ _ sample_database_ok eq_refl opening_steps). exact Ht.
Defined.
