(* ===== verification/Accounts.v ===== *)
(** * Accounts and tokens on the assembled gateway

    What users and agents rely on: refresh tokens, access tokens and agent tokens
    across the services, through every interleaving of the gateway's work. *)

From stdpp Require Import sorting.
From S2P Require Import Prelude GoStrings Crypto Effects Headers Json Messages Tables AuthService Reader Http.
From S2P Require Import AuthHTTP AgentTokens Agents TunnelService TrafficService AgentConnect Samples Backend.
From S2P Require RateLimiter Registry SessionManager PublicHost.

(** C13 (safety).  A refresh token works once: after a refresh succeeded, and
    whatever service calls run and interleave since, a refresh with the same token
    is refused, whatever the outside answers, and changes nothing. *)
Theorem refresh_single_use `{PG : Postgres} `{PGL : !PostgresLaws} `{BC : Bcrypt} (lower : Z -> Z) (s : Service)
    (raw userAgent ip : gostring) (env : nat -> answer) (n n1 : nat) (d d1 d2 : database)
    (x : User * Tokens) (ts : list (thread database)) :
  schema_ok d -> run env n (Refresh s raw userAgent ip) d = (Ok x, d1, n1) ->
  interleaves (service_call lower s) (d1, []) (d2, ts) ->
  forall env' n' userAgent' ip', exists n'',
    run env' n' (Refresh s raw userAgent' ip') d2 = (Err ErrUnauthorized, d2, n'').
Proof.
  intros Hd Hrun Hs env' n' userAgent' ip'. destruct (Refresh_spends s _ _ _ _ _ _ _ _ _ Hd Hrun) as [Hsp [Hd1 _]].
  destruct (calls_advance lower s _ _ _ Hd1 Hs) as [Hd2 Hev].
  apply spent_refused; [done |]. by eapply spent_evolves.
Qed.

(** The refresh token of the sample session. *)
Definition sample_refresh_token : gostring := base64url_encode (replicate 32 (byte_of_Z 6)).

Definition sample_refresh : prog database (result auth_error (User * Tokens)) :=
  Refresh sample_service sample_refresh_token ($"agent/1.0") [].

Lemma refresh_single_use_witness :
  exists d1 x n'', run sample_env 20 sample_refresh sample_database = (Ok x, d1, 27%nat)
  /\ run sample_env 30 sample_refresh d1 = (Err ErrUnauthorized, d1, n'').
Proof.
  destruct (run sample_env 20 sample_refresh sample_database) as [[x d1] n1] eqn:Hrun.
  assert (Hx : exists y, x = Ok y /\ n1 = 27%nat).
  { pose proof (f_equal (fun p => (match p.1.1 with Ok _ => true | Err _ => false end, p.2)) Hrun) as H.
    vm_compute in H. destruct x as [y|e]; [|done]. injection H as <-. exists y. split; reflexivity. }
  destruct Hx as (y & -> & ->). exists d1, y.
  edestruct (refresh_single_use sample_lower sample_service sample_refresh_token ($"agent/1.0") [] sample_env 20 27
               sample_database d1 d1 y [] sample_database_ok Hrun (rtc_refl _ _) sample_env 30%nat ($"agent/1.0") []) as [n'' H].
  exists n''. split; [reflexivity | exact H].
Defined.

(** Both look the token up, both revoke it, then each issues its tokens. *)
Definition race_schedule : list (bool * answer) :=
  [(false, sample_env 20); (true, sample_env 21); (false, sample_env 22); (true, sample_env 23)]
  ++ ((fun i => (false, sample_env i)) <$> seq 24 5) ++ ((fun i => (true, sample_env i)) <$> seq 29 5).

Definition returned {S A} (m : prog S A) : option A := match m with Ret a => Some a | Do _ _ => None end.

Lemma returned_Some {S A} (m : prog S A) a : returned m = Some a -> m = Ret a.
Proof. destruct m; cbn; congruence. Qed.

Definition race := schedule race_schedule sample_refresh sample_refresh sample_database.

Definition live_token (d : database) (t : Tokens) : bool :=
  match find_row (refreshable (sample_time + Minute) (hashToken (RefreshToken t) (refreshSecret sample_service)) d)
          (refresh_tokens d) with Some _ => true | None => false end.

Lemma race_outcome :
  match returned race.1.1, returned race.1.2 with
  | Some (Ok (u1, t1)), Some (Ok (u2, t2)) =>
      bool_decide (ID u1 = ID u2 /\ Email u1 = Email u2) && bool_decide (RefreshToken t1 <> RefreshToken t2)
      && live_token race.2 t1 && live_token race.2 t2
  | _, _ => false
  end = true.
Proof. vm_compute. reflexivity. Qed.

Lemma race_steps :
  let '(m1, m2, d') := race in
  interleaves (service_call sample_lower sample_service)
    (sample_database, [Thread sample_refresh; Thread sample_refresh]) (d', [Thread m1; Thread m2]).
Proof. unfold race. apply schedule_steps. Qed.

#[local] Opaque race.

Lemma live_token_row d t : live_token d t = true -> exists id r, refresh_tokens d !! id = Some r
  /\ refreshable (sample_time + Minute) (hashToken (RefreshToken t) (refreshSecret sample_service)) d r.
Proof.
  unfold live_token. destruct (find_row _ _) as [[id r]|] eqn:Hf; [|done]. intros _. exists id, r. by apply find_row_Some in Hf.
Qed.

(** C35 (safety).  The single use is not atomic: the look-up and the revocation are
    two statements, so two refreshes with the same token that interleave can both
    succeed.  From the tables of a freshly created session, both calls return
    different refresh tokens, and both of these are accepted afterwards. *)
Theorem refresh_token_reused_concurrently :
  exists (d' : database) (u : User) (t1 t2 : Tokens),
    interleaves (service_call sample_lower sample_service)
      (sample_database, [Thread sample_refresh; Thread sample_refresh])
      (d', [Thread (Ret (S := database) (Ok (E := auth_error) (u, t1)));
            Thread (Ret (S := database) (Ok (E := auth_error) (u, t2)))])
    /\ RefreshToken t1 <> RefreshToken t2
    /\ (forall t, t = t1 \/ t = t2 -> exists id r, refresh_tokens d' !! id = Some r
          /\ refreshable (sample_time + Minute) (hashToken (RefreshToken t) (refreshSecret sample_service)) d' r).
Proof.
  pose proof race_steps as Hs. pose proof race_outcome as Ho. destruct race as [[m1 m2] d'].
  cbn [fst snd] in Ho. destruct (returned m1) as [[[u1 t1]|]|] eqn:H1; try done.
  destruct (returned m2) as [[[u2 t2]|]|] eqn:H2; try done.
  apply returned_Some in H1, H2. subst m1 m2. prop_guards.
  assert (u1 = u2) as -> by (destruct u1, u2; cbn in *; naive_solver).
  exists d', u2, t1, t2. split; [exact Hs |]. split; [done |].
  intros t [->| ->]; by apply live_token_row.
Qed.

(** C19 (round trip).  The access token of a login authenticates its user: as long
    as the database answers, and whatever service calls ran since, the token is
    accepted for exactly that user until its expiry second has passed, and refused
    after it. *)
Theorem login_authenticates `{PG : Postgres} `{PGL : !PostgresLaws} `{BC : Bcrypt} (lower : Z -> Z) (s : Service)
    (email password userAgent ip : gostring) (env env' : nat -> answer) (n n1 m : nat) (d d1 d2 : database)
    (u : User) (t : Tokens) (ts : list (thread database)) :
  let expires := Unix (a_now (env (n + 3)%nat) + accessTTL s) in
  schema_ok d -> run env n (Login lower s email password userAgent ip) d = (Ok (u, t), d1, n1) ->
  bigint (Unix (a_now (env (n + 2)%nat))) -> bigint expires ->
  interleaves (service_call lower s) (d1, []) (d2, ts) -> a_fault (env' (S m)) = None ->
  exists m', run env' m (UserFromAccessToken s (AccessToken t)) d2
    = (if expires <? Unix (a_now (env' m)) then Err ErrUnauthorized else Ok u, d2, m').
Proof.
  intros expires Hd Hlogin Hi He Hs Hf.
  pose proof (run_advances env n _ d (Login_well_behaved s lower email password userAgent ip) Hd) as Hadv.
  rewrite Hlogin in Hadv. destruct Hadv as [Hd1 Hev1]. destruct (calls_advance lower s _ _ _ Hd1 Hs) as [Hd2 Hev2].
  apply Login_Ok in Hlogin as (row & d0 & Hrow & Hmail & Hmail' & Hact & _ & _ & Hissue).
  apply issue_Ok in Hissue.
  destruct (ev_users _ _ (transitivity Hev1 Hev2) _ _ Hrow) as (row2 & Hrow2 & Hm2 & _ & Hst2).
  pose proof (ok_user_ids _ Hd _ _ Hrow) as Hid. destruct (uuid_text _ _ Hid) as [Hne Hutf].
  edestruct (access_token_run s (access_claims s env (S (S n)) (ID u)) (AccessToken t) env' m d2 row2) as [m' Hm']; cbn.
  - rewrite Hissue. apply verify_sign; cbn; [done | reflexivity | |].
    + by replace (S (S n)) with (n + 2)%nat by lia.
    + by replace (S (S (S n))) with (n + 3)%nat by lia.
  - done.
  - done.
  - done.
  - done.
  - by rewrite Hst2.
  - done.
  - exists m'. rewrite Hm'. unfold access_claims. cbn [ExpiresAt Subject].
    replace (S (S (S n))) with (n + 3)%nat by lia. fold expires.
    assert (mkUser (ID u) (u_email row2) = u) as -> by (destruct u as [i e]; cbn in *; congruence). reflexivity.
Qed.

Lemma login_authenticates_witness :
  exists d1 u t m', run sample_env 20 (Login sample_lower sample_service sample_email sample_password ($"a") []) sample_database
                 = (Ok (u, t), d1, 27%nat)
  /\ run sample_env 30 (UserFromAccessToken sample_service (AccessToken t)) d1 = (Ok u, d1, m').
Proof.
  destruct (run sample_env 20 (Login sample_lower sample_service sample_email sample_password ($"a") []) sample_database)
    as [[x d1] n1] eqn:Hrun.
  assert (Hx : exists y, x = Ok y /\ n1 = 27%nat).
  { pose proof (f_equal (fun p => (match p.1.1 with Ok _ => true | Err _ => false end, p.2)) Hrun) as H.
    vm_compute in H. destruct x as [y|e]; [|discriminate H]. injection H as <-. exists y. split; reflexivity. }
  destruct Hx as ([u t] & -> & ->). exists d1, u, t.
  edestruct (login_authenticates sample_lower sample_service sample_email sample_password ($"a") [] sample_env sample_env 20 27 30
               sample_database d1 d1 u t [] sample_database_ok Hrun) as [m' H].
  - vm_compute. split; discriminate.
  - vm_compute. split; discriminate.
  - apply rtc_refl.
  - reflexivity.
  - exists m'. split; [reflexivity |]. rewrite H. reflexivity.
Defined.

(** What an accepted token looks like. *)
Lemma verifyJWT_Ok raw secret c :
  verifyJWT raw secret = Ok c ->
  exists header payload signature, split_byte dot raw = [header; payload; signature]
    /\ base64url_decode signature = Some (hmac_sha256 secret (header ++ [dot] ++ payload))
    /\ exists data, base64url_decode payload = Some data /\ Unmarshal dec_claims zero_claims data = Some c.
Proof.
  unfold verifyJWT. destruct (split_byte dot raw) as [|header [|payload [|signature [|]]]]; try done.
  destruct (base64url_decode signature) as [sig|] eqn:Hsig; [|done].
  destruct (bool_decide _) eqn:Hmac; cbn [negb]; [|done]. apply bool_decide_eq_true in Hmac.
  destruct (base64url_decode payload) as [data|] eqn:Hd; [|done].
  destruct (Unmarshal _ _ data) as [c'|] eqn:Hc; [|done]. intros [= <-].
  exists header, payload, signature. rewrite Hsig, Hmac. eauto.
Qed.

(** C14 (safety).  Only tokens signed with the access secret authenticate: a token
    that is accepted has three parts, the last of which is the HMAC of the other
    two under the secret, claims of type access that have not expired, and names an
    active user of the tables, who is the user returned; the check changes
    nothing. *)
Theorem access_token_authentic `{PG : Postgres} (s : Service) (token : gostring) (env : nat -> answer) (n n' : nat)
    (d d' : database) (u : User) :
  run env n (UserFromAccessToken s token) d = (Ok u, d', n') ->
  exists header payload signature c row,
    split_byte dot token = [header; payload; signature]
    /\ base64url_decode signature = Some (hmac_sha256 (accessSecret s) (header ++ [dot] ++ payload))
    /\ (exists data, base64url_decode payload = Some data /\ Unmarshal dec_claims zero_claims data = Some c)
    /\ Type_ c = $"access" /\ Unix (a_now (env n)) <= ExpiresAt c
    /\ uuid_in (Subject c) = Some (ID u) /\ users d !! ID u = Some row /\ u_status row = $"active" /\ Email u = u_email row
    /\ d' = d.
Proof.
  unfold UserFromAccessToken. destruct (verifyJWT token (accessSecret s)) as [c|] eqn:Hv; [|done].
  destruct (_ || _) eqn:Hg; [done |]. prop_guards. rewrite run_bind. unfold Now. rewrite run_action.
  destruct (_ <? _) eqn:Hexp; [done |]. rewrite run_bind.
  destruct (run env (S n) (exec _) d) as [[[x|[]] d1] n1] eqn:Hr; [|done..]. cbn. intros [= <- <- <-].
  apply run_exec_Ok in Hr as (_ & Hx & _). unfold select_active_user in Hx. stmt_inv. prop_guards.
  apply verifyJWT_Ok in Hv as (header & payload & signature & Hsplit & Hsig & Hdata).
  exists header, payload, signature, c. eexists. split_and!; try done.
Qed.

Lemma access_token_authentic_witness :
  exists u row, users sample_database !! ID u = Some row /\ u_status row = $"active" /\ Email u = u_email row.
Proof.
  destruct (run sample_env 30 (UserFromAccessToken sample_service (signJWT (mkClaims ($"id-1") ($"access") 0 (10 ^ 12))
              (accessSecret sample_service))) sample_database) as [[x d1] n1] eqn:Hrun.
  assert (Hx : exists u, x = Ok u).
  { pose proof (f_equal (fun p => match p.1.1 with Ok _ => true | Err _ => false end) Hrun) as H.
    vm_compute in H. destruct x as [y|e]; [exists y; reflexivity | discriminate H]. }
  destruct Hx as [u ->]. exists u.
  destruct (access_token_authentic _ _ _ _ _ _ _ _ Hrun) as (h & p & sg & c & row & _ & _ & _ & _ & _ & _ & H1 & H2 & H3 & _).
  exists row. split; [exact H1 | split; [exact H2 | exact H3]].
Defined.

(** ** Revoking an agent token *)

(** C11 (safety).  A revoked agent token is locked out: when the API answers 204 to
    the revocation, the token named in the path of the request was a live one of the
    user's own and is the one row of the table that changed, to revoked; the context of
    every session that was opened with it is cancelled; and from then on, through every
    interleaving of service calls, no connection with it is admitted or registered. *)
Theorem revoked_token_locked_out `{PG : Postgres} `{PGL : !PostgresLaws} `{BC : Bcrypt} (lower : Z -> Z) (s : Service)
    (r : Request) (user : User) (env : nat -> answer) (n n1 : nat)
    (b b1 : backend) (w1 : ResponseWriter) :
  schema_ok (be_db b) ->
  run env n (tokens_revoke dbL sessionsL true r user new_writer) b = (w1, b1, n1) -> status w1 = 204 ->
  exists tokenID row revokedAt,
    uuid_in (TrimPrefix (q_Path r) ($"/api/v1/agent-tokens/")) = Some tokenID
    /\ agent_tokens (be_db b) !! tokenID = Some row /\ uuid_in (ID user) = Some (at_user_id row) /\ at_revoked_at row = None
    /\ agent_tokens (be_db b1) = <[tokenID := revoked_token revokedAt row]> (agent_tokens (be_db b))
    /\ (forall sid session f, SessionManager.sessions (SessionManager.mgr (be_sessions b)) !! sid = Some session ->
          SessionManager.s_AgentTokenHash session = at_token_hash row -> SessionManager.s_Cancel session = Some f ->
          f ∈ SessionManager.cancelled (be_sessions b1))
    /\ (forall raw d2 ts, hash raw = at_token_hash row -> interleaves (service_call lower s) (be_db b1, []) (d2, ts) ->
          (forall env' m, (run env' m (valid raw) d2).1.1 = false)
          /\ forall env' m hello, exists e, (run env' m (Connect raw hello) d2).1 = (Err e, d2)).
Proof.
  intros Hd Hrun Hst. unfold tokens_revoke in Hrun. cbv zeta in Hrun.
  destruct (_ || _); [cbn in Hrun; simplify_eq; by vm_compute in Hst |].
  rewrite run_bind, (run_lift dbL) in Hrun.
  destruct (run env n (Revoke _ _) (view dbL b)) as [[x d1] n2] eqn:Hrev.
  destruct x as [[h|]|e]; [|cbn in Hrun; simplify_eq; by vm_compute in Hst | cbn in Hrun; simplify_eq; by vm_compute in Hst].
  pose proof (Revoke_revokes _ _ _ _ _ _ _ _ Hd Hrev) as Htok.
  pose proof (run_advances env n _ _ (Revoke_well_behaved (ID user) (TrimPrefix (q_Path r) ($"/api/v1/agent-tokens/"))) Hd) as Hadv.
  cbn [view dbL] in Hrev. rewrite Hrev in Hadv. destruct Hadv as [Hd1 _].
  unfold disconnect in Hrun. rewrite run_bind, run_action in Hrun. cbn in Hrun. injection Hrun as <- <- <-.
  unfold Revoke in Hrev. rewrite run_bind in Hrev.
  destruct (run env n (exec _) (be_db b)) as [[[y|[]] d2] n3] eqn:Hx; [|done..]. cbn in Hrev. injection Hrev as <- <- <-.
  apply run_exec_Ok in Hx as (_ & Hx & _). unfold revoke_token in Hx. stmt_inv. prop_guards.
  match goal with H : _ /\ at_revoked_at _ = None |- _ => destruct H as [Hown Hlive] end.
  eexists _, _, _. split; [done |]. split; [done |]. split; [by rewrite Hown |]. split; [done |]. split; [reflexivity |]. split.
  - intros sid session f Hs Hh Hf. cbn. eapply SessionManager.disconnect_cancels; eauto.
  - intros raw d2 ts Hraw Hs. cbn in Hs. destruct (calls_advance lower s _ _ _ Hd1 Hs) as [Hd2 Hev2].
    destruct (revoked_refused raw d2 Hd2) as [Hv1 Hv2].
    { rewrite Hraw. by eapply token_revoked_evolves. }
    split; [exact Hv1 |]. intros env' m hello. destruct (Hv2 hello env' m) as [e He]. exists e. by rewrite He.
Qed.

Lemma connected_backend_ok : schema_ok (be_db connected_backend).
Proof.
  refine (gw_schema _ (proj1 (safe_run sample_env 40 sample_connect sample_backend (connect_agent_safe _ _) _))).
  apply gateway_ok_start; [apply sample_database_ok | reflexivity].
Qed.

Lemma revoked_token_locked_out_witness :
  exists row, agent_tokens (be_db connected_backend) !! ($"id-10") = Some row
  /\ (forall sid session f, SessionManager.sessions (SessionManager.mgr (be_sessions connected_backend)) !! sid = Some session ->
        SessionManager.s_AgentTokenHash session = at_token_hash row -> SessionManager.s_Cancel session = Some f ->
        f ∈ SessionManager.cancelled (be_sessions (run sample_env 60 sample_revoke connected_backend).1.2)).
Proof.
  destruct (run sample_env 60 sample_revoke connected_backend) as [[w1 b1] n1] eqn:Hrun.
  assert (Hst : status w1 = 204).
  { pose proof (f_equal (fun p => status p.1.1) Hrun) as H. vm_compute in H. symmetry. exact H. }
  destruct (revoked_token_locked_out sample_lower sample_service sample_revoke_request (mkUser ($"id-1") sample_email)
              sample_env 60 n1 connected_backend b1 w1 connected_backend_ok Hrun Hst) as (tokenID & row & at_ & Hid & H1 & _ & _ & _ & H2 & _).
  assert (Heq : tokenID = $"id-10") by (vm_compute in Hid; injection Hid as <-; reflexivity).
  rewrite Heq in H1. exists row. split; [exact H1 | exact H2].
Defined.

(** The connection passes its checks, the token is revoked and its sessions are
    disconnected, then the session is registered. *)
Definition revocation_schedule : list (bool * answer) :=
  ((fun i => (false, sample_env i)) <$> seq 40 5) ++ [(true, sample_env 45); (true, sample_env 46); (false, sample_env 47)].

Definition revocation_race := schedule revocation_schedule sample_connect sample_revoke sample_backend.

Definition sample_token_row : gostring := $"id-10".

(** The session is in the manager, under the hash of a revoked token, and its
    context is alive. *)
Definition outlives (sessionID : gostring) (b : backend) : bool :=
  match SessionManager.sessions (SessionManager.mgr (be_sessions b)) !! sessionID, agent_tokens (be_db b) !! sample_token_row with
  | Some session, Some row =>
      bool_decide (SessionManager.s_AgentTokenHash session = at_token_hash row /\ at_revoked_at row <> None)
      && match SessionManager.s_Cancel session with
         | Some f => bool_decide (f ∉ SessionManager.cancelled (be_sessions b))
         | None => false
         end
  | _, _ => false
  end.

Lemma revocation_race_outcome :
  match returned revocation_race.1.1, returned revocation_race.1.2 with
  | Some (Some (Registered sessionID _ _ _)), Some w => (status w =? 204) && outlives sessionID revocation_race.2
  | _, _ => false
  end = true.
Proof. vm_compute. reflexivity. Qed.

Lemma revocation_race_steps :
  let '(m1, m2, b') := revocation_race in
  interleaves (gateway_call sample_lower sample_service true ($"tunnel.example.test") (fun _ => JNull) [])
    (sample_backend, [Thread sample_connect; Thread sample_revoke]) (b', [Thread m1; Thread m2]).
Proof. unfold revocation_race. apply schedule_steps. Qed.

#[local] Opaque revocation_race.

(** C36 (safety).  A connection that is being set up can survive the revocation of its
    token: there is an interleaving of a connecting agent and a revocation, in which the
    revocation falls between the check of the token and the registration of the session,
    that ends with the revocation answered 204 and a registered session of the revoked
    token whose context is alive. *)
Theorem connecting_session_survives_revocation :
  exists (b' : backend) (w : ResponseWriter) (g : greeting) (sessionID : gostring) (session : SessionManager.Session)
      (row : agent_token_row) (f : SessionManager.loc),
    interleaves (gateway_call sample_lower sample_service true ($"tunnel.example.test") (fun _ => JNull) [])
      (sample_backend, [Thread sample_connect; Thread sample_revoke])
      (b', [Thread (Ret (S := backend) (Some g)); Thread (Ret (S := backend) w)])
    /\ status w = 204
    /\ agent_tokens (be_db b') !! sample_token_row = Some row /\ at_revoked_at row <> None
    /\ SessionManager.sessions (SessionManager.mgr (be_sessions b')) !! sessionID = Some session
    /\ SessionManager.s_AgentTokenHash session = at_token_hash row
    /\ SessionManager.s_Cancel session = Some f /\ f ∉ SessionManager.cancelled (be_sessions b').
Proof.
  pose proof revocation_race_steps as Hs. pose proof revocation_race_outcome as Ho. destruct revocation_race as [[m1 m2] b'].
  cbn [fst snd] in Ho. destruct (returned m1) as [[[|sid aid hello wld]|]|] eqn:H1; try discriminate Ho.
  destruct (returned m2) as [w|] eqn:H2; [|discriminate Ho].
  apply returned_Some in H1, H2. subst m1 m2. apply andb_true_iff in Ho as [Hst Ho]. unfold outlives in Ho.
  destruct (SessionManager.sessions _ !! sid) as [session|] eqn:Hses; [|discriminate Ho].
  destruct (agent_tokens _ !! _) as [row|] eqn:Hrow; [|discriminate Ho].
  destruct (SessionManager.s_Cancel session) as [f|] eqn:Hf; [|rewrite andb_false_r in Ho; discriminate Ho].
  prop_guards. eexists b', w, _, sid, session, row, f. split; [exact Hs |].
  match goal with H : _ /\ _ |- _ => destruct H end. split_and!; assumption.
Qed.

(** ** The API *)

(** No statement is executed without its reply arriving. *)
Definition replies (env : nat -> answer) : Prop :=
  forall i, match a_fault (env i) with Some (ReplyLost _) => False | _ => True end.

(** A program that only reads. *)
Definition reads {S A} (m : prog S A) : Prop := forall env n s, (run env n m s).1.2 = s.
(** A program that either ends well or leaves the state alone. *)
Definition all_or_nothing {S A} (good : A -> bool) (m : prog S A) : Prop :=
  forall env n s, replies env -> good (run env n m s).1.1 = false -> (run env n m s).1.2 = s.
Definition is_Ok {E A} (x : result E A) : bool := match x with Ok _ => true | Err _ => false end.

Section all_or_nothing.
Context {S : Type}.

Lemma reads_ret {A} (a : A) : reads (S := S) (Ret a).
Proof. done. Qed.
Lemma reads_action {B : Set} (g : answer -> S -> B) : reads (action (fun a s => (g a s, s))).
Proof. intros env n s. by rewrite run_action. Qed.
Lemma reads_bind {A B} (m : prog S A) (k : A -> prog S B) : reads m -> (forall a, reads (k a)) -> reads (m ≫= k).
Proof.
  intros Hm Hk env n s. rewrite run_bind. specialize (Hm env n s). destruct (run env n m s) as [[a s'] n']. cbn in Hm. subst s'. apply Hk.
Qed.
Lemma reads_lift (l : lens S database) `{!LensLaws l} {A} (m : prog database A) : reads m -> reads (lift l m).
Proof.
  intros Hm env n s. rewrite (run_lift l). specialize (Hm env n (view l s)). destruct (run env n m (view l s)) as [[a d] n'].
  cbn in Hm |- *. subst d. apply update_view.
Qed.

Lemma reads_all {A} good (m : prog S A) : reads m -> all_or_nothing good m.
Proof. intros Hm env n s _ _. apply Hm. Qed.
Lemma all_bind {A B} (good : A -> bool) (good' : B -> bool) (m : prog S A) (k : A -> prog S B) :
  all_or_nothing good m ->
  (forall a env n s, good a = true -> good' (run env n (k a) s).1.1 = true) ->
  (forall a, good a = false -> reads (k a)) -> all_or_nothing good' (m ≫= k).
Proof.
  intros Hm Hgood Hbad env n s He. rewrite run_bind. specialize (Hm env n s He).
  destruct (run env n m s) as [[a s'] n']. cbn in Hm. destruct (good a) eqn:Ha.
  - intros Hf. by rewrite (Hgood _ _ _ _ Ha) in Hf.
  - intros _. rewrite (Hbad _ Ha). by apply Hm.
Qed.
Lemma all_after {A B} (good : B -> bool) (m : prog S A) (k : A -> prog S B) :
  reads m -> (forall a, all_or_nothing good (k a)) -> all_or_nothing good (m ≫= k).
Proof.
  intros Hm Hk env n s He. rewrite run_bind. specialize (Hm env n s). destruct (run env n m s) as [[a s'] n'].
  cbn in Hm. subst s'. by apply Hk.
Qed.
Lemma all_lift (l : lens S database) `{!LensLaws l} {A} good (m : prog database A) :
  all_or_nothing good m -> all_or_nothing good (lift l m).
Proof.
  intros Hm env n s He. rewrite (run_lift l). specialize (Hm env n (view l s) He).
  destruct (run env n m (view l s)) as [[a d] n']. cbn in Hm |- *. intros Hf. rewrite (Hm Hf). apply update_view.
Qed.
End all_or_nothing.

Lemma reads_exec {A : Set} (f : stmt A) : (forall a d x d', f a d = Ok (x, d') -> d' = d) -> reads (exec f).
Proof.
  intros Hf env n d. destruct (run env n (exec f) d) as [[[x|e] d'] n'] eqn:Hr; cbn.
  - apply run_exec_Ok in Hr as (_ & Hx & _). by eapply Hf.
  - apply run_exec_Err in Hr as [->|[x Hx]]; [done | by eapply Hf].
Qed.

Lemma all_exec {A : Set} (f : stmt A) : all_or_nothing is_Ok (exec f).
Proof.
  intros env n d He. unfold exec. rewrite run_action. cbn. specialize (He n). destruct (a_fault (env n)) as [[t|t]|]; [done | done |].
  by destruct (f (env n) d) as [[x d']|e].
Qed.

(** *** The services *)

Ltac reads_walk :=
  repeat lazymatch goal with
  | |- reads (mret _) => apply reads_ret
  | |- reads (Ret _) => apply reads_ret
  | |- reads (mbind _ _) => apply reads_bind; [|intros ?]
  | |- reads (lift _ _) => apply (reads_lift _)
  | |- reads Now => apply reads_action
  | |- reads (exec _) => apply reads_exec; let H := fresh in intros ? ? ? ? H
  | |- reads (action _) => apply reads_action
  | _ => case_match
  end.

Section api.
Context `{PG : Postgres} `{BC : Bcrypt} (lower : Z -> Z) (s : Service) (marshal_time : Z -> json) (rand_error : gostring).

Lemma UserFromAccessToken_reads token : reads (UserFromAccessToken s token).
Proof. unfold UserFromAccessToken. reads_walk. unfold select_active_user in *. by stmt_inv. Qed.
Lemma tokens_List_reads userID : reads (tokens_List userID).
Proof. unfold tokens_List. reads_walk. unfold select_agent_tokens in *. by stmt_inv. Qed.
Lemma agents_List_reads userID : reads (agents_List userID).
Proof. unfold agents_List. reads_walk. unfold select_agents in *. by stmt_inv. Qed.
Lemma tunnels_List_reads userID : reads (tunnels_List userID).
Proof. unfold tunnels_List. reads_walk. unfold select_tunnels in *. by stmt_inv. Qed.
Lemma GetTotals_reads userID : reads (GetTotals userID).
Proof. unfold GetTotals. reads_walk. unfold select_traffic in *. by stmt_inv. Qed.

Lemma Register_all email password : all_or_nothing is_Ok (Register lower email password).
Proof.
  unfold Register. cbv zeta. case_match; [apply reads_all, reads_ret |]. apply all_after; [apply reads_action |].
  intros [h|]; [|apply reads_all, reads_ret]. eapply all_bind; [apply all_exec | by intros [] |].
  intros [x|e] Hg; [done |]. apply reads_ret.
Qed.
Lemma Create_all userID name : all_or_nothing is_Ok (Create userID name).
Proof.
  unfold Create, generate. cbv zeta. case_match; [apply reads_all, reads_ret |].
  apply all_after; [apply reads_bind; [apply reads_action | intros; apply reads_ret] |].
  intros [raw|]; [|apply reads_all, reads_ret]. eapply all_bind; [apply all_exec | by intros [] |]. intros [x|e] Hg; [done |]. apply reads_ret.
Qed.
Definition revoked_one (x : result token_error (option gostring)) : bool :=
  match x with Ok (Some _) => true | _ => false end.
Lemma Revoke_all userID tokenID : all_or_nothing revoked_one (Revoke userID tokenID).
Proof.
  unfold Revoke. eapply all_bind; [apply all_exec | by intros [] |]. intros [x|e] Hg; [done |]. apply reads_ret.
Qed.

(** *** Requests *)

(** The requests that are all or nothing: registration, the own account, and the token,
    agent, tunnel and traffic API.  Logins and refreshes are not; they are dealt with
    below, through the whole handler of the authentication API. *)
Inductive api_request : prog backend ResponseWriter -> Prop :=
| api_register r : api_request (register dbL lower r new_writer)
| api_me r : api_request (me dbL s r new_writer)
| api_tokens r : api_request (tokens_ServeHTTP dbL sessionsL s true marshal_time rand_error r new_writer)
| api_agents r : api_request (agents_ServeHTTP dbL s marshal_time r new_writer)
| api_tunnels r : api_request (tunnels_ServeHTTP dbL s marshal_time r new_writer)
| api_traffic r : api_request (traffic_ServeHTTP dbL s r new_writer).

Definition accepted (w : ResponseWriter) : bool := status w <? 400.

Lemma register_all r : all_or_nothing accepted (register dbL lower r new_writer).
Proof.
  unfold register. destruct (decode _ _ r new_writer) as [c|w]; [|apply reads_all, reads_ret].
  eapply all_bind; [apply (all_lift dbL), Register_all | by intros [] |]. intros [x|e] Hg; [done |]. apply reads_ret.
Qed.

Lemma tokens_all r user :
  all_or_nothing accepted (tokens_create dbL marshal_time rand_error r user new_writer)
  /\ all_or_nothing accepted (tokens_revoke dbL sessionsL true r user new_writer).
Proof.
  split.
  - unfold tokens_create. destruct (decode_body _ _ r) as [name|]; [|apply reads_all, reads_ret].
    eapply all_bind; [apply (all_lift dbL), Create_all | by intros [] |]. intros [x|e] Hg; [done |]. apply reads_ret.
  - unfold tokens_revoke. cbv zeta. case_match; [apply reads_all, reads_ret |].
    eapply all_bind; [apply (all_lift dbL), Revoke_all | |].
    + by intros [[h|]|e] env n b.
    + intros [[h|]|e] Hg; [done | apply reads_ret | apply reads_ret].
Qed.

Lemma api_request_all m : api_request m -> all_or_nothing accepted m.
Proof.
  intros []; [apply register_all | apply reads_all; unfold me | unfold tokens_ServeHTTP | apply reads_all; unfold agents_ServeHTTP
    | apply reads_all; unfold tunnels_ServeHTTP | apply reads_all; unfold traffic_ServeHTTP].
  - reads_walk. apply UserFromAccessToken_reads.
  - apply all_after; [apply (reads_lift dbL), UserFromAccessToken_reads |]. intros [user|e]; [|apply reads_all, reads_ret].
    case_match; [apply reads_all; unfold tokens_list; reads_walk; apply tokens_List_reads |].
    case_match; [apply tokens_all |]. case_match; [apply tokens_all | apply reads_all, reads_ret].
  - reads_walk; [apply UserFromAccessToken_reads | apply agents_List_reads].
  - reads_walk; [apply UserFromAccessToken_reads | apply tunnels_List_reads].
  - reads_walk; [apply UserFromAccessToken_reads | apply GetTotals_reads].
Qed.

(** *** Logging in and refreshing *)

Lemma issue_all userID userAgent ip : all_or_nothing is_Ok (issue s userID userAgent ip).
Proof.
  unfold issue. apply all_after; [apply reads_action | intros issued]. apply all_after; [apply reads_action | intros expiry]. cbv zeta.
  apply all_after; [unfold randomToken, rand_Read; apply reads_bind; [apply reads_action | intros; apply reads_ret] |].
  intros [raw|]; [|apply reads_all, reads_ret]. apply all_after; [apply reads_action | intros now].
  eapply all_bind; [apply all_exec | by intros [] |]. intros [x|e] Hg; [done | apply reads_ret].
Qed.

(** What is left of a login that is refused although its password was right: the time of
    the login is stored. *)
Definition login_recorded (c : credentials) (d d' : database) : Prop :=
  exists id row a, users d !! id = Some row /\ u_email row = normalizeEmail lower (cr_Email c) /\ u_status row = $"active"
    /\ CompareHashAndPassword (u_password_hash row) (cr_Password c) = true /\ update_last_login id a d = Ok (tt, d').

(** What is left of a refresh that is refused although its token was accepted: the token
    is revoked. *)
Definition token_used_up (raw : gostring) (d d' : database) : Prop :=
  exists u a a', select_refresh_user (hashToken raw (refreshSecret s)) a d = Ok (u, d)
    /\ revoke_used (hashToken raw (refreshSecret s)) a' d = Ok (tt, d').

Lemma exec_refused {A : Set} env n (f : stmt A) d e d' n' : replies env -> run env n (exec f) d = (Err e, d', n') -> d' = d.
Proof. intros He Hrun. pose proof (all_exec f env n d He) as H. rewrite Hrun in H. by apply H. Qed.

Lemma Login_refused c userAgent ip env n d e d' n' : replies env ->
  run env n (Login lower s (cr_Email c) (cr_Password c) userAgent ip) d = (Err e, d', n') -> d' = d \/ login_recorded c d d'.
Proof.
  intros He. unfold Login. cbv zeta. rewrite run_bind.
  destruct (run env n (exec (select_user_by_email _)) d) as [[[[id row]|e1] d1] n1] eqn:Hsel.
  2: { intros [= <- <- <-]. left. by eapply exec_refused. }
  apply run_exec_Ok in Hsel as (_ & Hsel & _). unfold select_user_by_email in Hsel. stmt_inv.
  destruct (_ || _) eqn:Hg; [intros [= <- <- <-]; by left |]. prop_guards.
  rewrite run_bind. destruct (run env n1 (exec (update_last_login id)) d1) as [[[[]|e1] d2] n2] eqn:Hup.
  2: { intros [= <- <- <-]. left. by eapply exec_refused. }
  apply run_exec_Ok in Hup as (_ & Hup & _). rewrite run_bind.
  pose proof (issue_all id userAgent ip env n2 d2 He) as Hi. destruct (run env n2 (issue s id userAgent ip) d2) as [[[t|e1] d3] n3]; [done |].
  intros [= <- <- <-]. right. cbn [fst snd] in Hi. rewrite (Hi eq_refl). by eexists id, row, _.
Qed.

Lemma Refresh_refused raw userAgent ip env n d e d' n' : replies env ->
  run env n (Refresh s raw userAgent ip) d = (Err e, d', n') -> d' = d \/ token_used_up raw d d'.
Proof.
  intros He. unfold Refresh. cbv zeta. case_bool_decide; [intros [= <- <- <-]; by left |]. rewrite run_bind.
  destruct (run env n (exec (select_refresh_user _)) d) as [[[u|e1] d1] n1] eqn:Hsel.
  2: { intros [= <- <- <-]. left. by eapply exec_refused. }
  apply run_exec_Ok in Hsel as (_ & Hsel & _).
  assert (d1 = d) as -> by (unfold select_refresh_user in Hsel; by stmt_inv).
  rewrite run_bind. destruct (run env n1 (exec (revoke_used _)) d) as [[[[]|e1] d2] n2] eqn:Hup.
  2: { intros [= <- <- <-]. left. by eapply exec_refused. }
  apply run_exec_Ok in Hup as (_ & Hup & _). rewrite run_bind.
  pose proof (issue_all (ID u) userAgent ip env n2 d2 He) as Hi. destruct (run env n2 (issue s (ID u) userAgent ip) d2) as [[[t|e1] d3] n3]; [done |].
  intros [= <- <- <-]. right. cbn [fst snd] in Hi. rewrite (Hi eq_refl). by eexists u, _, _.
Qed.

(** What a refused request of the authentication API leaves in the tables. *)
Definition auth_leftover (secure : bool) (r : Request) (d d' : database) : Prop :=
  let key := q_Method r ++ $" " ++ q_Path r in
  d' = d
  \/ (key = $"POST /api/v1/auth/login" /\ exists c, decode_body dec_credentials zero_credentials r = Some c /\ login_recorded c d d')
  \/ (key = $"POST /api/v1/auth/refresh" /\ exists raw, r_Cookie (refreshCookie secure) r = Some raw /\ token_used_up raw d d').

Lemma route_refused secure r env n b w b' n' : replies env ->
  run env n (route dbL lower s secure r new_writer) b = (w, b', n') -> 400 <= status w ->
  exists d', b' = update dbL d' b /\ auth_leftover secure r (be_db b) d'.
Proof.
  intros He Hrun Hst. unfold route in Hrun. cbv zeta in Hrun.
  assert (Hsame : b' = b -> exists d', b' = update dbL d' b /\ auth_leftover secure r (be_db b) d').
  { intros ->. exists (be_db b). split; [by destruct b | by left]. }
  assert (Hall : forall m, all_or_nothing accepted m -> run env n m b = (w, b', n') -> b' = b).
  { intros m Hm Hr. specialize (Hm env n b He). rewrite Hr in Hm. apply Hm. unfold accepted. cbn [fst]. lia. }
  repeat case_bool_decide.
  - eapply Hsame, Hall; [apply register_all | exact Hrun].
  - unfold login, decode in Hrun. destruct (decode_body _ _ r) as [c|] eqn:Hc; [|cbn in Hrun; simplify_eq; by apply Hsame].
    rewrite run_bind, (run_lift dbL) in Hrun. cbn [view dbL] in Hrun.
    destruct (run env n (Login _ _ _ _ _ _) (be_db b)) as [[[[u t]|e] d1] n1] eqn:Hl; cbn in Hrun; injection Hrun as <- <- <-.
    { exfalso. cbn in Hst. lia. }
    exists d1. split; [done |]. apply Login_refused in Hl as [->|Hl]; [by left | right; left; eauto | done].
  - unfold refresh in Hrun. rewrite run_bind, (run_lift dbL) in Hrun. cbn [view dbL] in Hrun.
    destruct (run env n (Refresh _ _ _ _) (be_db b)) as [[[[u t]|e] d1] n1] eqn:Hl; cbn in Hrun; injection Hrun as <- <- <-.
    { exfalso. cbn in Hst. lia. }
    exists d1. split; [done |]. destruct (r_Cookie (refreshCookie secure) r) as [raw|] eqn:Hck; cbn in Hl.
    + apply Refresh_refused in Hl as [->|Hl]; [by left | right; right; eauto | done].
    + left. by simplify_eq.
  - exfalso. unfold logout in Hrun. rewrite run_bind in Hrun. destruct (run env n _ b) as [[[] b1] n1]. cbn in Hrun. injection Hrun as <- <- <-.
    cbn in Hst. lia.
  - eapply Hsame, Hall; [apply api_request_all, api_me | exact Hrun].
  - cbn in Hrun. simplify_eq. by apply Hsame.
Qed.

Lemma auth_refused secure r env n b w b' n' : replies env ->
  run env n (auth_ServeHTTP dbL limiterL lower s secure r new_writer) b = (w, b', n') -> 400 <= status w ->
  be_registry b' = be_registry b /\ be_sessions b' = be_sessions b
  /\ (if isRateLimitedRoute r then exists now, be_limiter b' = (RateLimiter.auth_allow (remoteIP r) now (be_limiter b)).2
      else be_limiter b' = be_limiter b)
  /\ auth_leftover secure r (be_db b) (be_db b').
Proof.
  intros He Hrun Hst. unfold auth_ServeHTTP in Hrun. destruct (isRateLimitedRoute r) eqn:Hlim.
  - rewrite run_bind in Hrun. unfold Now in Hrun. rewrite run_action, run_bind in Hrun. unfold limiter_allow in Hrun. rewrite run_action in Hrun.
    cbn [view limiterL] in Hrun. destruct (RateLimiter.auth_allow (remoteIP r) (a_now (env n)) (be_limiter b)) as [x l] eqn:Ha.
    destruct (negb x.1).
    + cbn in Hrun. simplify_eq. split_and!; [done | done | exists (a_now (env n)); by rewrite Ha | by left].
    + apply route_refused in Hrun as (d' & -> & Hl); [|done | done]. cbn in *.
      split_and!; [done | done | exists (a_now (env n)); by rewrite Ha | done].
  - apply route_refused in Hrun as (d' & -> & Hl); [|done | done]. by split_and!.
Qed.
End api.

(** C22 (error).  What a refused request changes.  A request to the token, agent, tunnel
    or traffic API that is answered with an error status changes nothing: the tables,
    the routes, the counters, the sessions are as they were.  A request to the
    authentication API that is answered with an error status leaves the routes and the
    sessions alone, touches the rate limiter only on the routes that take credentials
    and there by exactly one call for its address, and leaves the tables alone except in
    two cases: a login with the right password of an active account may leave the time of
    the login stored, and a refresh with an acceptable cookie may leave its token revoked,
    so that the session is lost.  All this provided that no statement is executed without
    its reply arriving. *)
Theorem refused_requests_effect `{PG : Postgres} `{BC : Bcrypt} (lower : Z -> Z) (s : Service) (secure : bool)
    (marshal_time : Z -> json) (rand_error : gostring) (m : prog backend ResponseWriter) (r : Request) (env : nat -> answer) (n n' : nat)
    (b b' : backend) (w : ResponseWriter) :
  replies env -> 400 <= status w ->
  (api_request lower s marshal_time rand_error m -> run env n m b = (w, b', n') -> b' = b)
  /\ (run env n (auth_ServeHTTP dbL limiterL lower s secure r new_writer) b = (w, b', n') ->
        be_registry b' = be_registry b /\ be_sessions b' = be_sessions b
        /\ (if isRateLimitedRoute r then exists now, be_limiter b' = (RateLimiter.auth_allow (remoteIP r) now (be_limiter b)).2
            else be_limiter b' = be_limiter b)
        /\ auth_leftover lower s secure r (be_db b) (be_db b')).
Proof.
  intros He Hst. split; [|intros; by eapply auth_refused]. intros Hm Hrun.
  pose proof (api_request_all lower s marshal_time rand_error m Hm env n b He) as H.
  rewrite Hrun in H. cbn [fst snd] in H. apply H. unfold accepted. lia.
Qed.

(** A refresh with the cookie of the sample session while the generator fails. *)
Definition random_fails (n : nat) : answer :=
  mkAnswer (sample_time + Z.of_nat n * Second) ($"id-" ++ print_int (Z.of_nat n)) None None.
Definition sample_refresh_request : Request :=
  mkReq ($"POST") ($"/api/v1/auth/refresh") ∅ ($"192.0.2.7:4711") [(secureRefreshCookieName, sample_refresh_token)] [] false.
Definition refused_refresh := run random_fails 60
  (auth_ServeHTTP dbL limiterL sample_lower sample_service true sample_refresh_request new_writer) sample_backend.

(** It is answered 401, and the session of the cookie is lost: the same cookie is
    refused when the generator works again. *)
Lemma refused_refresh_outcome :
  status refused_refresh.1.1 = 401
  /\ (run sample_env 80 sample_refresh sample_database).1.1 <> Err ErrUnauthorized
  /\ (run sample_env 80 sample_refresh (be_db refused_refresh.1.2)).1.1 = Err ErrUnauthorized.
Proof. split_and!; [by vm_compute | by vm_compute | vm_compute; reflexivity]. Qed.

#[local] Opaque refused_refresh.

Lemma refused_requests_effect_witness :
  auth_leftover sample_lower sample_service true sample_refresh_request sample_database (be_db refused_refresh.1.2)
  /\ exists w n', run sample_env 60 (register dbL sample_lower (mkReq ($"POST") ($"/api/v1/auth/register") ∅ [] [] [] false) new_writer)
       sample_backend = (w, sample_backend, n').
Proof.
  split.
  - destruct refused_refresh as [[w b'] n'] eqn:Hrun. pose proof (proj1 refused_refresh_outcome) as Hst. rewrite Hrun in Hst. cbn in Hst.
    apply (proj2 (refused_requests_effect sample_lower sample_service true (fun _ => JNull) [] (mret new_writer) sample_refresh_request
                    random_fails 60 n' sample_backend b' w (fun _ => I) ltac:(rewrite Hst; discriminate)) Hrun).
  - destruct (run sample_env 60 (register dbL sample_lower (mkReq ($"POST") ($"/api/v1/auth/register") ∅ [] [] [] false) new_writer)
      sample_backend) as [[w b'] n'] eqn:Hrun.
    assert (Hst : status w = 400) by (pose proof (f_equal (fun p => status p.1.1) Hrun) as H; vm_compute in H; symmetry; exact H).
    exists w, n'. rewrite (proj1 (refused_requests_effect sample_lower sample_service true (fun _ => JNull) [] _ sample_refresh_request
      sample_env 60 n' sample_backend b' w (fun _ => I) ltac:(rewrite Hst; discriminate)) (api_register _ _ _ _ _) Hrun). reflexivity.
Defined.

(** *** Lists *)

Definition get (path token : gostring) : Request :=
  mkReq ($"GET") path {[ $"Authorization" := [$"Bearer " ++ token] ]} [] [] [] false.

Lemma UserFromAccessToken_canonical `{PG : Postgres} `{PGL : !PostgresLaws} s token env n d u d' n' :
  run env n (UserFromAccessToken s token) d = (Ok u, d', n') -> d' = d /\ uuid_in (ID u) = Some (ID u).
Proof.
  intros Hrun. pose proof (UserFromAccessToken_reads s token env n d) as Hr. rewrite Hrun in Hr. split; [exact Hr |].
  unfold UserFromAccessToken in Hrun. repeat (case_match; try done). rewrite run_bind in Hrun. unfold Now in Hrun. rewrite run_action in Hrun.
  case_match; [done |]. rewrite run_bind in Hrun. destruct (run _ _ (exec _) d) as [[[x|[]] d1] n1] eqn:Hx; [|done..].
  cbn in Hrun. injection Hrun as <- <- <-. apply run_exec_Ok in Hx as (_ & Hx & _). unfold select_active_user in Hx. stmt_inv. cbn.
  by eapply uuid_canonical.
Qed.

(** Exactly the rows with the given owner, each once, newest first. *)
Definition rows_of {R : Type} (owner : R -> gostring) (key : R -> option Z) (u : gostring) (t : table R) (items : list (gostring * R)) : Prop :=
  (forall id r, (id, r) ∈ items <-> t !! id = Some r /\ owner r = u) /\ NoDup items.*1 /\ Sorted (later key) items.

Lemma select_rows_of {R : Type} (owner : R -> gostring) (key : R -> option Z) (u : gostring) (t : table R) : rows_of owner key u t (select_desc (fun r => owner r = u) key t).
Proof. split_and!; [intros; apply (select_desc_elem (fun r => owner r = u)) | apply select_desc_NoDup | apply select_desc_sorted]. Qed.

(** The three queries. *)
Lemma lists_run `{PG : Postgres} u env n b :
  uuid_in u = Some u -> a_fault (env n) = None ->
  run env n (lift dbL (tokens_List u)) b
  = (Ok (select_desc (fun r => at_user_id r = u) (fun r => Some (at_created_at r)) (agent_tokens (be_db b))), b, S n)
  /\ run env n (lift dbL (agents_List u)) b
     = (Ok (select_desc (fun r => ag_user_id r = u) ag_last_seen_at (agents (be_db b))), b, S n)
  /\ run env n (lift dbL (tunnels_List u)) b
     = (Ok (select_desc (fun r => tn_user_id r = u) (fun r => Some (tn_created_at r)) (tunnels (be_db b))), b, S n).
Proof.
  intros Hu Hf. split_and!; rewrite (run_lift dbL);
    [unfold tokens_List, select_agent_tokens | unfold agents_List, select_agents | unfold tunnels_List, select_tunnels];
    rewrite run_bind; (erewrite run_exec; [|exact Hf | rewrite Hu; reflexivity]); cbn; by destruct b.
Qed.

(** C23 (safety).  Lists show the caller's own rows: when the database answers, a GET
    of the tokens, agents or tunnels with a token that authenticates a user is
    answered 200 with exactly the rows that belong to that user, each once, the most
    recent first, and changes nothing; with any other token it is answered 401, and
    nothing of the tables is shown. *)
Theorem lists_isolated `{PG : Postgres} `{PGL : !PostgresLaws} (s : Service) (marshal_time : Z -> json) (rand_error token : gostring)
    (env : nat -> answer) (n n1 : nat) (b : backend) (who : result auth_error User) (d : database) :
  run env n (UserFromAccessToken s (bearer (get [] token))) (be_db b) = (who, d, n1) -> a_fault (env n1) = None ->
  let tokens := tokens_ServeHTTP dbL sessionsL s true marshal_time rand_error (get ($"/api/v1/agent-tokens") token) new_writer in
  let agents_ := agents_ServeHTTP dbL s marshal_time (get ($"/api/v1/agents") token) new_writer in
  let tunnels_ := tunnels_ServeHTTP dbL s marshal_time (get ($"/api/v1/tunnels") token) new_writer in
  match who with
  | Ok u =>
      (exists items, rows_of at_user_id (fun r => Some (at_created_at r)) (ID u) (agent_tokens (be_db b)) items
         /\ run env n tokens b = (writeData 200 (JArr (enc_token marshal_time <$> items)) new_writer, b, S n1))
      /\ (exists items, rows_of ag_user_id ag_last_seen_at (ID u) (agents (be_db b)) items
         /\ run env n agents_ b = (writeData 200 (JArr (enc_agent marshal_time <$> items)) new_writer, b, S n1))
      /\ (exists items, rows_of tn_user_id (fun r => Some (tn_created_at r)) (ID u) (tunnels (be_db b)) items
         /\ run env n tunnels_ b = (writeData 200 (JArr (enc_tunnel marshal_time <$> items)) new_writer, b, S n1))
  | Err _ =>
      let unauthorized := writeError 401 ($"UNAUTHORIZED") ($"Authentication required") new_writer in
      run env n tokens b = (unauthorized, b, n1) /\ run env n agents_ b = (unauthorized, b, n1)
      /\ run env n tunnels_ b = (unauthorized, b, n1)
  end.
Proof.
  intros Hrun Hf. cbv zeta.
  assert (d = be_db b) as -> by (pose proof (UserFromAccessToken_reads s (bearer (get [] token)) env n (be_db b)) as H; by rewrite Hrun in H).
  assert (Hlift : forall path, run env n (lift dbL (UserFromAccessToken s (bearer (get path token)))) b = (who, b, n1)).
  { intros path. rewrite (run_lift dbL). change (bearer (get path token)) with (bearer (get [] token)). cbn [view dbL].
    rewrite Hrun. by destruct b. }
  unfold tokens_ServeHTTP, tokens_bearer, agents_ServeHTTP, tunnels_ServeHTTP. rewrite !run_bind, !Hlift.
  destruct who as [u|e]; [|done]. apply UserFromAccessToken_canonical in Hrun as [_ Hid].
  destruct (lists_run (ID u) env n1 b Hid Hf) as (H1 & H2 & H3).
  split_and!; eexists; (split; [apply select_rows_of |]); cbn [q_Path q_Method get];
    rewrite ?bool_decide_eq_true_2 by done; cbn [negb orb andb]; cbv iota.
  - unfold tokens_list. by rewrite run_bind, H1.
  - by rewrite run_bind, H2.
  - by rewrite run_bind, H3.
Qed.

Definition sample_access : gostring := signJWT (mkClaims ($"id-1") ($"access") 0 (10 ^ 12)) (accessSecret sample_service).

Lemma lists_isolated_witness :
  exists items, rows_of at_user_id (fun r => Some (at_created_at r)) ($"id-1") (agent_tokens (be_db sample_backend)) items
  /\ run sample_env 30 (tokens_ServeHTTP dbL sessionsL sample_service true (fun _ => JNull) []
       (get ($"/api/v1/agent-tokens") sample_access) new_writer) sample_backend
     = (writeData 200 (JArr (enc_token (fun _ => JNull) <$> items)) new_writer, sample_backend, 33%nat).
Proof.
  destruct (run sample_env 30 (UserFromAccessToken sample_service (bearer (get [] sample_access))) (be_db sample_backend))
    as [[who d] n1] eqn:Hrun.
  assert (Hw : who = Ok (mkUser ($"id-1") sample_email) /\ n1 = 32%nat).
  { pose proof (f_equal (fun p => (p.1.1, p.2)) Hrun) as H. vm_compute in H. injection H as <- <-. split; reflexivity. }
  destruct Hw as [-> ->].
  apply (lists_isolated sample_service (fun _ => JNull) [] sample_access sample_env 30 32 sample_backend _ d Hrun). reflexivity.
Defined.

(** ** Logging out *)

(** C37 (safety).  With secure cookies a logout does not end the session: after a
    login, a logout request that carries the cookies the login set is answered 204,
    but it looks for the cookie under its other name, so that nothing is revoked:
    the tables are as the login left them. *)
Theorem secure_logout_keeps_session `{PG : Postgres} `{BC : Bcrypt} (lower : Z -> Z) (s : Service) (r1 r2 : Request)
    (env env' : nat -> answer) (n n1 m : nat) (b b1 : backend) (w1 : ResponseWriter) :
  run env n (login dbL lower s true r1 new_writer) b = (w1, b1, n1) -> status w1 = 200 ->
  q_Cookies r2 = (fun c => (c_Name c, c_Value c)) <$> w_Cookies w1 ->
  exists w2, run env' m (logout dbL s true r2 new_writer) b1 = (w2, b1, m) /\ status w2 = 204.
Proof.
  intros Hrun Hst Hc. assert (Hnone : r_Cookie ($"refresh_token") r2 = None).
  { unfold login in Hrun. destruct (decode _ _ r1 new_writer) as [c|w] eqn:Hdec.
    - rewrite run_bind in Hrun. destruct (run env n (lift dbL _) b) as [[[[u t]|e] b0] n0]; cbn in Hrun; injection Hrun as <- _ _.
      + unfold r_Cookie. rewrite Hc. reflexivity.
      + discriminate Hst.
    - unfold decode in Hdec. case_match; [done |]. injection Hdec as <-. cbn in Hrun. injection Hrun as <- _ _. discriminate Hst. }
  unfold logout. rewrite Hnone. eexists. split; reflexivity.
Qed.

Definition sample_login_request : Request :=
  mkReq ($"POST") ($"/api/v1/auth/login") ∅ ($"192.0.2.7:4711") []
    [(encode (JObj [($"email", JStr sample_email); ($"password", JStr sample_password)]), None)] false.

Lemma secure_logout_keeps_session_witness :
  exists w1 b1 w2, run sample_env 60 (login dbL sample_lower sample_service true sample_login_request new_writer) sample_backend
    = (w1, b1, 67%nat)
  /\ run sample_env 70 (logout dbL sample_service true
       (mkReq ($"POST") ($"/api/v1/auth/logout") ∅ [] ((fun c => (c_Name c, c_Value c)) <$> w_Cookies w1) [] false) new_writer) b1
     = (w2, b1, 70%nat) /\ status w2 = 204.
Proof.
  destruct (run sample_env 60 (login dbL sample_lower sample_service true sample_login_request new_writer) sample_backend)
    as [[w1 b1] n1] eqn:Hrun.
  assert (Hst : status w1 = 200) by (pose proof (f_equal (fun p => status p.1.1) Hrun) as H; vm_compute in H; symmetry; exact H).
  assert (Hn : n1 = 67%nat) by (pose proof (f_equal snd Hrun) as H; vm_compute in H; symmetry; exact H).
  subst n1. exists w1, b1.
  destruct (secure_logout_keeps_session sample_lower sample_service sample_login_request
              (mkReq ($"POST") ($"/api/v1/auth/logout") ∅ [] ((fun c => (c_Name c, c_Value c)) <$> w_Cookies w1) [] false)
              sample_env sample_env 60 67 70 sample_backend b1 w1 Hrun Hst eq_refl) as (w2 & H1 & H2).
  exists w2. split; [reflexivity | split; [exact H1 | exact H2]].
Defined.
