(* ===== verification/Tunneling.v ===== *)
(** * Tunnels and traffic on the assembled gateway

    The callbacks of backend/cmd/server/main.go seen from outside: a tunnel that is
    opened is reachable under its public address, keeps its subdomain across
    reconnections, and the traffic through it is charged to its owner. *)

From S2P Require Import Prelude GoStrings Crypto Effects Headers Json Messages Tables AuthService Reader Http.
From S2P Require Import AuthHTTP AgentTokens Agents TunnelService TrafficService AgentConnect Samples Backend.
From S2P Require RateLimiter Registry SessionManager PublicHost.

(** ** The sample with a tunnel *)

Definition sample_base : gostring := $"tunnel.example.test".
Definition sample_agent : gostring := $"id-12".
Definition sample_address : gostring := $"127.0.0.1:3000".
Definition sample_open : prog backend (result tunnel_error TunnelOpenedPayload) :=
  openTunnel sample_base ($"session-1") sample_agent sample_address.

Definition opened_backend : backend := (run sample_env 50 sample_open sample_backend).1.2.

Lemma sample_backend_ok : gateway_ok sample_backend.
Proof. apply gateway_ok_start; [apply sample_database_ok | reflexivity]. Qed.

Lemma opened_backend_ok : gateway_ok opened_backend.
Proof. apply (safe_run sample_env 50 sample_open sample_backend (openTunnel_safe _ _ _ _) sample_backend_ok). Qed.

(** The only stored tunnel. *)
Definition sample_tunnel_row : tunnel_row :=
  mkTunnelRow ($"id-1") sample_agent ($"pppppppppp") sample_address ($"http") ($"open")
    (Some (sample_time + 52 * Second)) None (sample_time + 52 * Second) (sample_time + 52 * Second).

Lemma opened_backend_tunnels id row :
  tunnels (be_db opened_backend) !! id = Some row <-> id = $"id-52" /\ row = sample_tunnel_row.
Proof.
  assert (Hl : map_to_list (tunnels (be_db opened_backend)) = [($"id-52", sample_tunnel_row)]) by (vm_compute; reflexivity).
  rewrite <- elem_of_map_to_list, Hl, list_elem_of_singleton. split; [intros [= -> ->]; auto | intros [-> ->]; reflexivity].
Qed.

(** ** Opening *)

(** A run of [ReopenForSession] that succeeded. *)
Lemma ReopenForSession_Ok `{PG : Postgres} `{PGL : !PostgresLaws} agentID localAddress env n d id r d' n' :
  schema_ok d -> run env n (ReopenForSession agentID localAddress) d = (Ok (id, r), d', n') ->
  advances d d' /\ tunnels d' !! id = Some r /\ uuid_in agentID = Some (tn_agent_id r) /\ tn_status r = $"open".
Proof.
  intros Hd Hrun. pose proof (rg_run _ _ _ _ _ _ _ _ _ _ Hd (ReopenForSession_rg agentID localAddress d) Hrun) as (H1 & H2 & H3 & H4).
  split_and!; [by split | done | done |]. unfold ReopenForSession in Hrun. rewrite run_bind in Hrun.
  destruct (run env n (exec _) d) as [[[[i r1]|[]] d1] n1] eqn:Hx; [| |done].
  - cbn in Hrun. simplify_eq. apply run_exec_Ok in Hx as (_ & Hx & _). apply reopen_tunnel_Ok in Hx. naive_solver.
  - rewrite run_bind in Hrun. destruct (run env n1 generate_subdomain d1) as [[[sub|] d2] n2]; [|done].
    rewrite run_bind in Hrun. destruct (run env n2 (exec _) d2) as [[[[i r1]|e] d3] n3] eqn:Hx2; [|done].
    cbn in Hrun. simplify_eq. apply run_exec_Ok in Hx2 as (_ & Hx2 & _). unfold insert_tunnel in Hx2. by stmt_inv.
Qed.

Lemma openTunnel_run `{PG : Postgres} baseDomain sessionID agentID localAddress env n b :
  run env n (openTunnel baseDomain sessionID agentID localAddress) b
  = match run env n (ReopenForSession agentID localAddress) (be_db b) with
    | (Err e, d, n1) => (Err e, update dbL d b, n1)
    | (Ok (id, row), d, n1) =>
        (Ok (mkTunnelOpened [] id (tn_subdomain row) ($"https://" ++ tn_subdomain row ++ $"." ++ baseDomain)),
         mkBackend d (be_limiter b)
           (Registry.Open (Registry.mkTunnel id (tn_subdomain row) agentID (tn_user_id row) sessionID localAddress) (be_registry b))
           (be_sessions b), S n1)
    end.
Proof.
  unfold openTunnel. rewrite run_bind, (run_lift dbL). cbn [view dbL].
  destruct (run env n (ReopenForSession _ _) (be_db b)) as [[[[id row]|e] d] n1]; [|done].
  rewrite run_bind. unfold on_registry. by rewrite run_action.
Qed.

(** C12 (functional).  An opened tunnel is reachable: when the gateway reports a
    tunnel as opened, it is stored as open, under the agent and its owner; a Host
    header that spells [<subdomain>.<base>] in any letter case, with or without a
    port, is parsed to its subdomain; and the subdomain is routed to the session
    that opened it, at the local address it asked for, and charged to the owner. *)
Theorem opened_tunnel_routes `{PG : Postgres} `{PGL : !PostgresLaws} (lower : Z -> Z)
    (baseDomain sessionID agentID localAddress : gostring) (env : nat -> answer) (n n' : nat) (b b' : backend)
    (p : TunnelOpenedPayload) (h port : gostring) :
  schema_ok (be_db b) -> PublicHost.base_ok baseDomain ->
  run env n (openTunnel baseDomain sessionID agentID localAddress) b = (Ok p, b', n') ->
  to_lower_byte <$> h = to_Subdomain p ++ PublicHost.dot :: baseDomain -> PublicHost.port_suffix port ->
  exists row, tunnels (be_db b') !! to_TunnelID p = Some row /\ tn_status row = $"open"
    /\ uuid_in agentID = Some (tn_agent_id row)
    /\ ag_user_id <$> agents (be_db b') !! tn_agent_id row = Some (tn_user_id row)
    /\ to_PublicURL p = $"https://" ++ to_Subdomain p ++ $"." ++ baseDomain
    /\ PublicHost.ParsePublicHost lower (h ++ port) baseDomain = Some (to_Subdomain p)
    /\ Registry.Get (to_Subdomain p) (be_registry b')
       = Some (Registry.mkTunnel (to_TunnelID p) (to_Subdomain p) agentID (tn_user_id row) sessionID localAddress).
Proof.
  intros Hd Hbase Hrun Hh Hport. rewrite openTunnel_run in Hrun.
  destruct (run env n (ReopenForSession _ _) (be_db b)) as [[[[id row]|e] d] n1] eqn:Hr; [|done].
  apply ReopenForSession_Ok in Hr as ([Hd' _] & Hrow & Ha & Hst); [|done]. injection Hrun as <- <- <-. cbn in *.
  exists row. split_and!; [done | done | done | by apply (ok_tunnel_agent _ Hd' _ _ Hrow) | done | | apply lookup_insert_eq].
  destruct (ok_label _ Hd' _ _ Hrow) as [Hne Hlab]. by apply PublicHost.label_routes.
Qed.

Lemma opened_tunnel_routes_witness :
  PublicHost.ParsePublicHost sample_lower ($"PPPPPppppp.Tunnel.Example.test" ++ $":443") sample_base = Some ($"pppppppppp")
  /\ exists row, Registry.Get ($"pppppppppp") (be_registry opened_backend)
       = Some (Registry.mkTunnel ($"id-52") ($"pppppppppp") sample_agent (tn_user_id row) ($"session-1") sample_address).
Proof.
  destruct (run sample_env 50 sample_open sample_backend) as [[x b'] n'] eqn:Hrun.
  assert (Hx : x = Ok (mkTunnelOpened [] ($"id-52") ($"pppppppppp") ($"https://pppppppppp.tunnel.example.test"))).
  { pose proof (f_equal (fun p => p.1.1) Hrun) as H. vm_compute in H. symmetry. exact H. }
  subst x.
  edestruct (opened_tunnel_routes sample_lower sample_base ($"session-1") sample_agent sample_address sample_env 50 n'
               sample_backend b' (mkTunnelOpened [] ($"id-52") ($"pppppppppp") ($"https://pppppppppp.tunnel.example.test"))
               ($"PPPPPppppp.Tunnel.Example.test") ($":443") sample_database_ok) as (row & H).
  - repeat split; done.
  - exact Hrun.
  - reflexivity.
  - right. exists ($"443"). split; reflexivity.
  - destruct H as (_ & _ & _ & _ & _ & H1 & H2). split; [exact H1 |]. exists row.
    unfold opened_backend. rewrite Hrun. exact H2.
Defined.

(** ** Closing and reopening *)

Lemma cleanupSession_run `{PG : Postgres} sessionID agentID a env n b :
  uuid_in agentID = Some a -> agentID <> [] -> a_fault (env (S n)) = None ->
  run env n (cleanupSession sessionID agentID) b
  = (tt, mkBackend (set_tunnels (update_where (fun r => tn_agent_id r = a /\ tn_status r = $"open")
                                  (closed_tunnel (NOW (env (S n)))) (tunnels (be_db b))) (be_db b))
           (be_limiter b) (Registry.CloseSession sessionID (be_registry b)) (be_sessions b), S (S n)).
Proof.
  intros Ha Hne Hf. unfold cleanupSession, on_registry. rewrite run_bind, run_action, (run_lift dbL).
  unfold CloseAgentTunnels. rewrite bool_decide_eq_false_2 by done. rewrite run_bind.
  erewrite run_exec; [reflexivity | exact Hf |]. unfold close_open_tunnels. rewrite Ha. reflexivity.
Qed.

(** C34 (functional).  What the end of a session closes: exactly the routes of the
    session, but the stored tunnels of its agent, all of them.  So a tunnel that the
    same agent opened in another session, which is still alive, keeps its route
    while its row is marked as closed. *)
Theorem cleanup_scope `{PG : Postgres} `{PGL : !PostgresLaws} (sessionID agentID a : gostring) (env : nat -> answer) (n : nat)
    (b : backend) :
  gateway_ok b -> uuid_in agentID = Some a -> agentID <> [] -> a_fault (env (S n)) = None ->
  exists b', run env n (cleanupSession sessionID agentID) b = (tt, b', S (S n))
    /\ (forall sub, Registry.Get sub (be_registry b')
          = match Registry.Get sub (be_registry b) with
            | Some t => if decide (Registry.SessionID t = sessionID) then None else Some t
            | None => None
            end)
    /\ (forall id, tunnels (be_db b') !! id
          = (fun row => if decide (tn_agent_id row = a /\ tn_status row = $"open")
                        then closed_tunnel (NOW (env (S n))) row else row) <$> tunnels (be_db b) !! id)
    /\ (forall sub t, Registry.Get sub (be_registry b) = Some t -> Registry.SessionID t <> sessionID ->
          uuid_in (Registry.AgentID t) = Some a ->
          Registry.Get sub (be_registry b') = Some t
          /\ exists row, tunnels (be_db b') !! Registry.ID t = Some row /\ tn_status row = $"closed").
Proof.
  intros Hb Ha Hne Hf. rewrite (cleanupSession_run _ _ a) by done. eexists. split; [reflexivity |]. cbn.
  assert (Hget : forall sub, Registry.Get sub (Registry.CloseSession sessionID (be_registry b))
    = match Registry.Get sub (be_registry b) with
      | Some t => if decide (Registry.SessionID t = sessionID) then None else Some t | None => None end).
  { apply Registry.close_session_exact; [apply Hb | reflexivity]. }
  split_and!; [exact Hget | intros id; apply lookup_update_where |].
  intros sub t Ht Hs Hag. rewrite Hget, Ht, decide_False by done. split; [done |].
  destruct (gw_backed _ Hb _ _ Ht) as (row & Hrow & _ & _ & Hag'). rewrite lookup_update_where, Hrow. cbn. eexists. split; [done |].
  destruct (decide _) as [|Hopen]; [done |].
  pose proof (ok_tunnel_status _ (gw_schema _ Hb) _ _ Hrow) as Hst. cbn beta in Hst. unfold tunnel_statuses in Hst.
  rewrite !elem_of_cons, elem_of_nil in Hst. destruct Hst as [Hst|[Hst|[]]]; [|done]. destruct Hopen. split; [congruence | done].
Qed.

Lemma cleanup_scope_witness :
  exists b', run sample_env 60 (cleanupSession ($"session-0") sample_agent) opened_backend = (tt, b', 62%nat)
  /\ Registry.Get ($"pppppppppp") (be_registry b') = Registry.Get ($"pppppppppp") (be_registry opened_backend)
  /\ exists row, tunnels (be_db b') !! $"id-52" = Some row /\ tn_status row = $"closed".
Proof.
  assert (Ht : Registry.Get ($"pppppppppp") (be_registry opened_backend)
    = Some (Registry.mkTunnel ($"id-52") ($"pppppppppp") sample_agent ($"id-1") ($"session-1") sample_address))
    by (vm_compute; reflexivity).
  destruct (cleanup_scope ($"session-0") sample_agent sample_agent sample_env 60 opened_backend opened_backend_ok)
    as (b' & Hrun & _ & _ & Hlive).
  - reflexivity.
  - discriminate.
  - reflexivity.
  - exists b'. split; [exact Hrun |]. rewrite Ht. apply (Hlive _ _ Ht); [discriminate | reflexivity].
Defined.

(** *** Programs that leave the stored tunnels alone *)

Definition keeps_tunnels {S A} (view : S -> database) (m : prog S A) : Prop :=
  forall env n s, tunnels (view (run env n m s).1.2) = tunnels (view s).

Section keeps.
Context {S : Type} (view : S -> database).
Lemma keeps_ret {A} (a : A) : keeps_tunnels view (Ret a).
Proof. done. Qed.
Lemma keeps_bind {A B} (m : prog S A) (k : A -> prog S B) :
  keeps_tunnels view m -> (forall a, keeps_tunnels view (k a)) -> keeps_tunnels view (m ≫= k).
Proof.
  intros Hm Hk env n s. rewrite run_bind. specialize (Hm env n s). destruct (run env n m s) as [[a s'] n']. cbn in Hm. by rewrite <- Hm, (Hk a).
Qed.
Lemma keeps_action {B : Set} (f : answer -> S -> B * S) :
  (forall a s, tunnels (view (f a s).2) = tunnels (view s)) -> keeps_tunnels view (action f).
Proof. intros Hf env n s. rewrite run_action. specialize (Hf (env n) s). by destruct (f (env n) s). Qed.
End keeps.

Lemma keeps_exec {A : Set} (f : stmt A) :
  (forall a d x d', f a d = Ok (x, d') -> tunnels d' = tunnels d) -> keeps_tunnels id (exec f).
Proof.
  intros Hf env n d. unfold id. destruct (run env n (exec f) d) as [[[x|e] d'] n'] eqn:Hr; cbn.
  - apply run_exec_Ok in Hr as (_ & Hx & _). by eapply Hf.
  - apply run_exec_Err in Hr as [->|[x Hx]]; [done | by eapply Hf].
Qed.

Lemma keeps_lift {A} (m : prog database A) : keeps_tunnels id m -> keeps_tunnels be_db (lift dbL m).
Proof.
  intros Hm env n b. rewrite (run_lift dbL). specialize (Hm env n (be_db b)). unfold id in Hm.
  destruct (run env n m (view dbL b)) as [[a d] n'] eqn:Hr. cbn [view dbL] in Hr. rewrite Hr in Hm. exact Hm.
Qed.

Section connecting.
Context `{PG : Postgres}.

Lemma Connect_keeps rawToken hello : keeps_tunnels id (Connect rawToken hello).
Proof.
  unfold Connect. case_match; [apply keeps_ret |]. apply keeps_bind.
  { apply keeps_exec. intros a d x d' Hx. unfold select_usable_token in Hx. by stmt_inv. }
  intros [[tokenID userID]|e]; [|apply keeps_ret]. apply keeps_bind.
  { apply keeps_exec. intros a d x d' Hx. unfold upsert_agent in Hx. stmt_inv; case_match; by stmt_inv. }
  intros [id|e]; [|apply keeps_ret]. apply keeps_bind; [|intros; apply keeps_ret].
  apply keeps_exec. intros a d x d' Hx. unfold update_last_used in Hx. by stmt_inv.
Qed.

Lemma connect_agent_keeps authorization data : keeps_tunnels be_db (connect_agent authorization data).
Proof.
  unfold connect_agent. cbv zeta. apply keeps_bind.
  { case_match; [|apply keeps_ret]. apply keeps_lift. unfold valid. apply keeps_bind; [|intros; apply keeps_ret].
    apply keeps_exec. intros a d x d' Hx. unfold exists_usable_token in Hx. by stmt_inv. }
  intros ok. case_match; [|apply keeps_ret]. apply keeps_bind; [by apply keeps_action | intros random]. apply keeps_bind.
  { repeat case_match; try apply keeps_ret. apply keeps_bind; [apply keeps_lift, Connect_keeps | intros; apply keeps_ret]. }
  intros agents_. apply keeps_bind; [|intros; apply keeps_ret]. apply keeps_action. intros a b. by case_match.
Qed.

(** The end of a session, with its clean-up. *)
Lemma after_session_tunnels cancel sessionID agentID a env n b b1 n1 :
  uuid_in agentID = Some a -> agentID <> [] -> a_fault (env (S (S n))) = None ->
  run env n (after_session cancel sessionID agentID) b = (true, b1, n1) ->
  tunnels (be_db b1) = update_where (fun r => tn_agent_id r = a /\ tn_status r = $"open") (closed_tunnel (NOW (env (S (S n))))) (tunnels (be_db b)).
Proof.
  intros Ha Hne Hf. unfold after_session. rewrite run_bind, run_action. unfold session_cleanup.
  destruct (SessionManager.Remove _ _) as [u w|w]; cbn [fst snd]; [|by intros [=]].
  rewrite bool_decide_eq_true_2 by done. cbn [andb]. rewrite run_bind, (cleanupSession_run _ _ a) by done. rewrite run_bind.
  set (b2 := mkBackend _ _ _ _). pose proof (keeps_lift (agents_Disconnect agentID)) as Hk.
  assert (Hd : keeps_tunnels id (agents_Disconnect agentID)).
  { unfold agents_Disconnect. apply keeps_bind; [|intros; apply keeps_ret]. apply keeps_exec.
    intros a0 d x d' Hx. unfold update_disconnected in Hx. by stmt_inv. }
  specialize (Hk Hd env (S (S (S n))) b2). destruct (run env (S (S (S n))) _ b2) as [[[] b3] n3]. cbn in Hk |- *.
  intros [= <- <-]. exact Hk.
Qed.
End connecting.

(** An inserted tunnel has a new ID and a new subdomain. *)
Lemma insert_tunnel_new `{PG : Postgres} agentID subdomain localAddress a d id r d' :
  insert_tunnel agentID subdomain localAddress a d = Ok ((id, r), d') ->
  tunnels d !! id = None /\ forall id' row, tunnels d !! id' = Some row -> tn_subdomain r <> tn_subdomain row.
Proof.
  intros Hx. unfold insert_tunnel in Hx. stmt_inv. split; [done |]. intros id' row Hrow Heq. cbn in Heq. naive_solver.
Qed.

(** Reopening after the tunnels of the agent were closed. *)
Lemma reopen_closed `{PG : Postgres} baseDomain sessionID agentID a id row now env m b :
  uuid_in agentID = Some a -> a_fault (env m) = None -> pg_text (tn_local_address row) = true ->
  tunnels (be_db b) !! id = Some (closed_tunnel now row) -> tn_agent_id row = a ->
  (forall id' row', tunnels (be_db b) !! id' = Some row' -> id' <> id -> tn_agent_id row' = a ->
     tn_local_address row' = tn_local_address row -> tn_status row' = $"closed" -> tn_updated_at row' < now) ->
  exists b', run env m (openTunnel baseDomain sessionID agentID (tn_local_address row)) b
    = (Ok (mkTunnelOpened [] id (tn_subdomain row) ($"https://" ++ tn_subdomain row ++ $"." ++ baseDomain)), b', S (S m))
    /\ Registry.Get (tn_subdomain row) (be_registry b')
       = Some (Registry.mkTunnel id (tn_subdomain row) agentID (tn_user_id row) sessionID (tn_local_address row)).
Proof.
  intros Ha Hf Htext Hrow Hag Hothers. rewrite openTunnel_run. unfold ReopenForSession. rewrite run_bind.
  erewrite run_exec; [| exact Hf |].
  2:{ unfold reopen_tunnel. rewrite Ha, Htext. cbn [or_else mbind result_bind check].
      erewrite (select_desc_head _ _ _ id (closed_tunnel now row)); [reflexivity | done | done |].
      intros id' row' Hrow' (Hag' & Hl & Hs) Hneq. pose proof (Hothers _ _ Hrow' Hneq Hag' Hl Hs). unfold later. cbn. lia. }
  eexists. split; [reflexivity |]. apply lookup_insert_eq.
Qed.

(** C20 (functional).  The address of an agent that reconnects depends on whether the
    clean-up of its old session is over.  Let the agent have one open tunnel at a local
    address, with tunnels it closed there earlier being older.  When the old session has
    ended and its clean-up has run, the agent connects again (as the same agent) and opens
    a tunnel to that address, with nothing else touching its tunnels in between, then it is
    that tunnel that is reopened, under the same ID,
    subdomain and public address, and routed to the new session, provided that the
    database answers.  But when it opens the tunnel before the clean-up has closed the old
    one, and has none closed there, the tunnel it gets is another with another subdomain. *)
Theorem reconnect_keeps_subdomain `{PG : Postgres} `{PGL : !PostgresLaws} (baseDomain sessionID sessionID' agentID a id : gostring)
    (row : tunnel_row) (b : backend) :
  uuid_in agentID = Some a -> agentID <> [] ->
  tunnels (be_db b) !! id = Some row -> tn_agent_id row = a -> tn_status row = $"open" -> pg_text (tn_local_address row) = true ->
  (forall id' row', tunnels (be_db b) !! id' = Some row' -> id' <> id -> tn_agent_id row' = a ->
     tn_local_address row' = tn_local_address row -> tn_status row' <> $"open") ->
  (forall cancel authorization data hello w env n b1 n1 env1 m1 b2 n2 env2 m2,
     a_fault (env (S (S n))) = None -> a_fault (env2 m2) = None ->
     (forall id' row', tunnels (be_db b) !! id' = Some row' -> id' <> id -> tn_agent_id row' = a ->
        tn_local_address row' = tn_local_address row -> tn_updated_at row' < NOW (env (S (S n)))) ->
     run env n (after_session cancel sessionID agentID) b = (true, b1, n1) ->
     run env1 m1 (connect_agent authorization data) b1 = (Some (Registered sessionID' agentID hello w), b2, n2) ->
     exists b3, run env2 m2 (openTunnel baseDomain sessionID' agentID (tn_local_address row)) b2
       = (Ok (mkTunnelOpened [] id (tn_subdomain row) ($"https://" ++ tn_subdomain row ++ $"." ++ baseDomain)), b3, S (S m2))
       /\ Registry.Get (tn_subdomain row) (be_registry b3)
          = Some (Registry.mkTunnel id (tn_subdomain row) agentID (tn_user_id row) sessionID' (tn_local_address row)))
  /\ (forall authorization data hello w env1 m1 b2 n2 env2 m2 p b3 n3,
        (forall id' row', tunnels (be_db b) !! id' = Some row' -> tn_agent_id row' = a ->
           tn_local_address row' = tn_local_address row -> tn_status row' <> $"closed") ->
        run env1 m1 (connect_agent authorization data) b = (Some (Registered sessionID' agentID hello w), b2, n2) ->
        run env2 m2 (openTunnel baseDomain sessionID' agentID (tn_local_address row)) b2 = (Ok p, b3, n3) ->
        to_TunnelID p <> id /\ to_Subdomain p <> tn_subdomain row).
Proof.
  intros Ha Hne Hrow Hag Hopen Htext Hsingle. split.
  - intros cancel authorization data hello w env n b1 n1 env1 m1 b2 n2 env2 m2 Hf Hf2 Hold Hend Hconn.
    pose proof (after_session_tunnels _ _ _ a _ _ _ _ _ Ha Hne Hf Hend) as Ht.
    pose proof (connect_agent_keeps authorization data env1 m1 b1) as Hk. rewrite Hconn in Hk. cbn [fst snd] in Hk. rewrite Ht in Hk.
    apply (reopen_closed _ _ _ a _ _ (NOW (env (S (S n))))); [done | done | done | | done |]; rewrite Hk.
    + rewrite lookup_update_where, Hrow. cbn. by rewrite decide_True.
    + intros id' row' Hrow' Hneq Hag' Hl Hs. rewrite lookup_update_where in Hrow'.
      apply fmap_Some in Hrow' as (r0 & Hr0 & ->). destruct (decide _) as [[Hag0 Hs0]|Hno]; cbn in *.
      * by destruct (Hsingle _ _ Hr0 Hneq Hag0 Hl).
      * by apply (Hold _ _ Hr0).
  - intros authorization data hello w env1 m1 b2 n2 env2 m2 p b3 n3 Hnone Hconn Hrun.
    pose proof (connect_agent_keeps authorization data env1 m1 b) as Hk. rewrite Hconn in Hk. cbn [fst snd] in Hk.
    rewrite openTunnel_run in Hrun. unfold ReopenForSession in Hrun. rewrite run_bind in Hrun.
    destruct (run env2 m2 (exec _) (be_db b2)) as [[[[i r]|[]] d1] k1] eqn:Hx; [| |done].
    { exfalso. apply run_exec_Ok in Hx as (_ & Hx & _). apply reopen_tunnel_Ok in Hx as (r0 & Hr0 & H1 & H2 & H3 & _).
      rewrite Hk in Hr0. apply (Hnone _ _ Hr0); congruence. }
    assert (Hd1 : tunnels d1 = tunnels (be_db b)).
    { rewrite <- Hk. apply run_exec_Err in Hx as [->|[[i r] Hx]]; [done | exfalso].
      apply reopen_tunnel_Ok in Hx as (r0 & Hr0 & H1 & H2 & H3 & _). rewrite Hk in Hr0. apply (Hnone _ _ Hr0); congruence. }
    rewrite run_bind in Hrun. destruct (run env2 k1 generate_subdomain d1) as [[[sub|] d2] k2] eqn:Hg; [|done].
    assert (d2 = d1) as -> by (unfold generate_subdomain in Hg; rewrite run_action in Hg; by injection Hg as _ <- _).
    rewrite run_bind in Hrun. destruct (run env2 k2 (exec _) d1) as [[[[i r]|e] d3] k3] eqn:Hi; [|done].
    cbn in Hrun. injection Hrun as <- _ _. cbn [to_TunnelID to_Subdomain].
    apply run_exec_Ok in Hi as (_ & Hi & _). apply insert_tunnel_new in Hi as [H1 H2]. rewrite Hd1 in H1, H2.
    split; [congruence | by apply (H2 _ _ Hrow)].
Qed.

(** The sample's session ends and its agent connects again; and the agent connects again
    while the old session is still there. *)
Definition ended := run sample_env 60 (after_session None ($"session-1") sample_agent) opened_backend.
Definition reconnected := run sample_env 70 sample_connect ended.1.2.
Definition connected_early := run sample_env 60 sample_connect opened_backend.
Definition session_of (x : option greeting) : option (gostring * gostring) :=
  match x with Some (Registered sessionID agentID _ _) => Some (sessionID, agentID) | _ => None end.

Definition new_session : gostring := $"ses_R0dHR0dHR0dHR0dHR0dHR0dH".
Definition early_session : gostring := $"ses_PT09PT09PT09PT09PT09PT09".

Lemma session_of_Some x sessionID agentID : session_of x = Some (sessionID, agentID) ->
  exists hello w, x = Some (Registered sessionID agentID hello w).
Proof. destruct x as [[|? ? hello w]|]; [done | intros [= <- <-]; eauto | done]. Qed.

Lemma reconnect_keeps_subdomain_witness :
  (exists p b3, run sample_env 80 (openTunnel sample_base new_session sample_agent sample_address) reconnected.1.2 = (Ok p, b3, 82%nat)
     /\ to_TunnelID p = $"id-52" /\ to_Subdomain p = $"pppppppppp")
  /\ (exists p b3, run sample_env 70 (openTunnel sample_base early_session sample_agent sample_address) connected_early.1.2 = (Ok p, b3, 74%nat)
        /\ to_TunnelID p <> $"id-52" /\ to_Subdomain p <> $"pppppppppp").
Proof.
  assert (Hrow : tunnels (be_db opened_backend) !! $"id-52" = Some sample_tunnel_row) by (apply opened_backend_tunnels; split; reflexivity).
  assert (Hu : uuid_in sample_agent = Some sample_agent) by reflexivity.
  assert (Hsingle : forall id' row', tunnels (be_db opened_backend) !! id' = Some row' -> id' <> $"id-52" -> tn_agent_id row' = sample_agent ->
            tn_local_address row' = tn_local_address sample_tunnel_row -> tn_status row' <> $"open").
  { intros id' row' [-> _]%opened_backend_tunnels Hne. destruct (Hne eq_refl). }
  split.
  - assert (Hr : session_of reconnected.1.1 = Some (new_session, sample_agent)) by (vm_compute; reflexivity).
    assert (He : ended.1.1 = true) by (vm_compute; reflexivity). apply session_of_Some in Hr as (hello & w & Hr).
    destruct (reconnect_keeps_subdomain sample_base ($"session-1") new_session sample_agent sample_agent ($"id-52") sample_tunnel_row
                opened_backend Hu ltac:(discriminate) Hrow eq_refl eq_refl eq_refl Hsingle) as [H _].
    destruct (H None ($"Bearer " ++ sample_token)
                (Envelope ClientHello (Some (enc_clientHello (mkclientHello 1 ($"0.1.0") ($"host-1") ($"host-1") ($"linux") ($"amd64")))))
                hello w sample_env 60%nat ended.1.2 ended.2 sample_env 70%nat reconnected.1.2 reconnected.2 sample_env 80%nat)
      as (b3 & Hrun & _).
    + reflexivity.
    + reflexivity.
    + intros id' row' [-> _]%opened_backend_tunnels Hne. destruct (Hne eq_refl).
    + rewrite <- He. change (ended = (ended.1.1, ended.1.2, ended.2)). destruct ended as [[x y] z]. reflexivity.
    + rewrite <- Hr. change (reconnected = (reconnected.1.1, reconnected.1.2, reconnected.2)). destruct reconnected as [[x y] z]. reflexivity.
    + eexists _, b3. split; [exact Hrun | split; reflexivity].
  - assert (Hr : session_of connected_early.1.1 = Some (early_session, sample_agent)) by (vm_compute; reflexivity).
    apply session_of_Some in Hr as (hello & w & Hr).
    destruct (run sample_env 70 (openTunnel sample_base early_session sample_agent sample_address) connected_early.1.2) as [[x b3] n3] eqn:Hrun.
    assert (Hx : exists p, x = Ok p /\ n3 = 74%nat).
    { pose proof (f_equal (fun q => (match q.1.1 with Ok _ => true | Err _ => false end, q.2)) Hrun) as H. vm_compute in H.
      destruct x as [p|e]; [|discriminate H]. injection H as <-. exists p. split; reflexivity. }
    destruct Hx as (p & -> & ->). exists p, b3. split; [reflexivity |].
    destruct (reconnect_keeps_subdomain sample_base ($"session-1") early_session sample_agent sample_agent ($"id-52") sample_tunnel_row
                opened_backend Hu ltac:(discriminate) Hrow eq_refl eq_refl eq_refl Hsingle) as [_ H].
    apply (H ($"Bearer " ++ sample_token)
             (Envelope ClientHello (Some (enc_clientHello (mkclientHello 1 ($"0.1.0") ($"host-1") ($"host-1") ($"linux") ($"amd64")))))
             hello w sample_env 60%nat connected_early.1.2 connected_early.2 sample_env 70%nat p b3 74%nat).
    + intros id' row' [_ ->]%opened_backend_tunnels _ _. discriminate.
    + rewrite <- Hr. change (connected_early = (connected_early.1.1, connected_early.1.2, connected_early.2)).
      destruct connected_early as [[x y] z]. reflexivity.
    + exact Hrun.
Defined.

(** ** Flushing the traffic counters *)

(** What a user's row shows; no row shows zeros. *)
Definition stored_totals (d : database) (u : gostring) : Totals :=
  match traffic_totals d !! u with
  | Some r => mkTotals (tr_requests_total r) (tr_request_bytes r) (tr_response_bytes r)
  | None => mkTotals 0 0 0
  end.

Definition plus_delta (t : Totals) (delta : Registry.TrafficMetrics) : Totals :=
  mkTotals (t_RequestsTotal t + Registry.RequestsTotal delta) (t_RequestBytes t + Registry.RequestBytes delta)
    (t_ResponseBytes t + Registry.ResponseBytes delta).

Definition delta_fits (delta : Registry.TrafficMetrics) : Prop :=
  0 <= Registry.RequestsTotal delta <= max_int64 /\ 0 <= Registry.RequestBytes delta <= max_int64
  /\ 0 <= Registry.ResponseBytes delta <= max_int64.
Definition totals_fit (t : Totals) : Prop :=
  bigint (t_RequestsTotal t) /\ bigint (t_RequestBytes t) /\ bigint (t_ResponseBytes t).

(** The statement reaches the server. *)
Definition executed (a : answer) : Prop := match a_fault a with Some (NotExecuted _) => False | _ => True end.
#[global] Instance executed_dec a : Decision (executed a).
Proof. unfold executed. destruct (a_fault a) as [[]|]; apply _. Defined.
#[global] Instance delta_fits_dec delta : Decision (delta_fits delta).
Proof. unfold delta_fits. apply _. Defined.
#[global] Instance totals_fit_dec t : Decision (totals_fit t).
Proof. unfold totals_fit, bigint. apply _. Defined.

Definition metrics_of (delta : Registry.TrafficMetrics) : Metrics :=
  mkMetrics (Registry.RequestsTotal delta) (Registry.RequestBytes delta) (Registry.ResponseBytes delta).

(** The tables after a statement, whatever its outcome. *)
Definition effect {A : Set} (f : stmt A) (a : answer) (d : database) : database :=
  if decide (executed a) then match f a d with Ok (_, d') => d' | Err _ => d end else d.

Lemma run_exec_effect {A : Set} env n (f : stmt A) d :
  exists x, run env n (exec f) d = (x, effect f (env n) d, S n).
Proof.
  unfold exec, effect. rewrite run_action. cbn beta. destruct (decide (executed (env n))) as [Hx|Hx]; unfold executed in Hx;
    destruct (a_fault (env n)) as [[t|t]|]; try tauto; try (by eexists); destruct (f (env n) d) as [[x d']|e]; by eexists.
Qed.

Section flush.
Context `{PG : Postgres} `{PGL : !PostgresLaws}.

Lemma upsert_effect a d u delta :
  schema_ok d -> is_Some (users d !! u) ->
  let d' := effect (upsert_traffic u (metrics_of delta)) a d in
  stored_totals d' u = (if decide (executed a /\ delta_fits delta /\ totals_fit (plus_delta (stored_totals d u) delta))
                        then plus_delta (stored_totals d u) delta else stored_totals d u)
  /\ (forall u', u' <> u -> stored_totals d' u' = stored_totals d u') /\ users d' = users d.
Proof.
  intros Hd [row Hu]. unfold effect. destruct (decide (executed a)) as [Hx|Hx]; [|by rewrite decide_False by tauto].
  unfold upsert_traffic. rewrite (ok_user_ids _ Hd _ _ Hu). cbn [or_else mbind result_bind].
  set (row' := match traffic_totals d !! u with Some r => _ | None => _ end). cbv zeta.
  assert (Hrow : mkTotals (tr_requests_total row') (tr_request_bytes row') (tr_response_bytes row')
                 = plus_delta (stored_totals d u) delta).
  { subst row'. unfold stored_totals, plus_delta. by destruct (traffic_totals d !! u). }
  clearbody row'. change (bool_decide (0 <= _ <= _ /\ _)) with (bool_decide (delta_fits delta)).
  change (bool_decide (bigint _ /\ _)) with
    (bool_decide (totals_fit (mkTotals (tr_requests_total row') (tr_request_bytes row') (tr_response_bytes row')))).
  rewrite Hu, Hrow. cbn [absent negb]. destruct (bool_decide_reflect (delta_fits delta)) as [Hfit|Hfit];
    [|rewrite decide_False by tauto; by split_and!].
  case_bool_decide as Ht; [|rewrite decide_False by tauto; by split_and!]. rewrite decide_True by tauto. rewrite <- Hrow.
  unfold stored_totals. cbn. rewrite lookup_insert_eq. split_and!; [done | | done]. intros u' Hne. by rewrite lookup_insert_ne.
Qed.

Lemma upsert_effect_ok a d u delta : schema_ok d -> schema_ok (effect (upsert_traffic u (metrics_of delta)) a d).
Proof.
  intros Hd. unfold effect. destruct (decide _) as [_|_]; [|done]. destruct (upsert_traffic _ _ a d) as [[x d']|err] eqn:Hx; [|done].
  by eapply upsert_traffic_advances.
Qed.

(** The loop, in any order. *)
Lemma flush_in_effect order : forall env n b,
  schema_ok (be_db b) -> NoDup order.*1 -> Forall (fun p => is_Some (users (be_db b) !! p.1)) order ->
  exists d', run env n (flush_in order) b = (tt, update dbL d' b, (n + length order)%nat)
    /\ (forall i u delta, order !! i = Some (u, delta) ->
          stored_totals d' u
          = (if decide (executed (env (n + i)%nat) /\ delta_fits delta /\ totals_fit (plus_delta (stored_totals (be_db b) u) delta))
             then plus_delta (stored_totals (be_db b) u) delta else stored_totals (be_db b) u))
    /\ (forall u, u ∉ order.*1 -> stored_totals d' u = stored_totals (be_db b) u).
Proof.
  induction order as [|[u delta] order IH]; intros env n b Hd Hnd Hus; cbn [flush_in].
  { exists (be_db b). split_and!; [cbn; by destruct b; rewrite Nat.add_0_r | done | done]. }
  rewrite fmap_cons in Hnd. apply list.NoDup_cons in Hnd as [Hu Hnd]. apply list.Forall_cons in Hus as [Hex Hus]. cbn in Hu, Hex.
  unfold AddDelta. fold (metrics_of delta). rewrite run_bind, (run_lift dbL), run_bind. cbn [view dbL].
  destruct (run_exec_effect env n (upsert_traffic u (metrics_of delta)) (be_db b)) as [x ->].
  destruct (upsert_effect (env n) (be_db b) u delta Hd Hex) as (H1 & H2 & H3).
  set (d1 := effect _ _ _) in *. cbn [run mret prog_ret].
  destruct (IH env (S n) (update dbL d1 b)) as (d' & Hrun & H4 & H5).
  { by apply upsert_effect_ok. }
  { done. }
  { eapply list.Forall_impl; [exact Hus |]. intros p. cbn. by rewrite H3. }
  exists d'. cbn [be_db update dbL] in *. split_and!.
  - etrans; [exact Hrun |]. cbn. f_equal. lia.
  - intros [|i] v dv Hi; cbn in Hi.
    + injection Hi as <- <-. rewrite Nat.add_0_r, <- H1. apply H5, Hu.
    + rewrite (H4 _ _ _ Hi), H2; [by replace (S n + i)%nat with (n + S i)%nat by lia |].
      intros ->. apply Hu, list_elem_of_fmap. exists (u, dv). split; [done |]. by eapply list_elem_of_lookup_2.
  - intros v Hv. cbn in Hv. rewrite not_elem_of_cons in Hv. rewrite H5, H2; tauto.
Qed.
End flush.

(** C21 (functional).  A flush charges each user exactly once: in whatever order the
    drained counters are visited, it returns, the registry keeps its routes and
    process-wide counters and holds no more per-user traffic, and the stored totals
    of a user grow by exactly what was held for that user, if the statement reached
    the server and the sums fit the columns, and not at all otherwise; users without
    traffic keep their totals. *)
Theorem flush_exact `{PG : Postgres} `{PGL : !PostgresLaws}
    (visit : gmap gostring Registry.TrafficMetrics -> list (gostring * Registry.TrafficMetrics))
    (env : nat -> answer) (n : nat) (b : backend) :
  gateway_ok b -> (forall m, visit m ≡ₚ map_to_list m) ->
  let held := Registry.perUser (be_registry b) in
  exists b', run env n (flushTraffic_in visit) b = (tt, b', (S n + length (visit held))%nat)
    /\ be_registry b' = Registry.mkRegistry (Registry.bySubdomain (be_registry b)) (Registry.byID (be_registry b))
                          (Registry.traffic (be_registry b)) ∅
    /\ (forall i u delta, visit held !! i = Some (u, delta) ->
          held !! u = Some delta
          /\ stored_totals (be_db b') u
             = (if decide (executed (env (S n + i)%nat) /\ delta_fits delta
                           /\ totals_fit (plus_delta (stored_totals (be_db b) u) delta))
                then plus_delta (stored_totals (be_db b) u) delta else stored_totals (be_db b) u))
    /\ (forall u, held !! u = None -> stored_totals (be_db b') u = stored_totals (be_db b) u).
Proof.
  intros Hb Hv held. unfold flushTraffic_in, on_registry. rewrite run_bind, run_action. cbn [view registryL Registry.DrainUserDeltas].
  fold held. specialize (Hv held). set (b0 := update registryL _ b).
  destruct (flush_in_effect (visit held) env (S n) b0) as (d' & Hrun & H1 & H2).
  - apply Hb.
  - rewrite Hv. apply NoDup_fst_map_to_list.
  - apply list.Forall_forall. intros [u delta] Hin. rewrite Hv, elem_of_map_to_list in Hin. apply (gw_users _ Hb). by exists delta.
  - exists (update dbL d' b0). split_and!; [exact Hrun | done | |].
    + intros i u delta Hi. split; [|by apply (H1 i)]. apply elem_of_map_to_list. rewrite <- Hv. by eapply list_elem_of_lookup_2.
    + intros u Hu. apply H2. intros Hin. apply list_elem_of_fmap in Hin as ([u' delta] & -> & Hin).
      rewrite Hv, elem_of_map_to_list in Hin. cbn in *. congruence.
Qed.

(** The sample after one proxied request. *)
Definition charged_backend : backend := (run sample_env 60 (recordTraffic ($"id-52") 7 11) opened_backend).1.2.

Lemma flush_exact_witness :
  exists b', run sample_env 70 flushTraffic charged_backend = (tt, b', 72%nat)
  /\ stored_totals (be_db b') ($"id-1") = mkTotals 1 7 11.
Proof.
  assert (Hok : gateway_ok charged_backend)
    by (apply (safe_run sample_env 60 _ opened_backend (record_safe _ _ _) opened_backend_ok)).
  destruct (flush_exact map_to_list sample_env 70 charged_backend Hok (fun m => Permutation_refl _)) as (b' & Hrun & _ & Hu & _).
  assert (Hl : map_to_list (Registry.perUser (be_registry charged_backend)) = [($"id-1", Registry.mkTraffic 1 7 11)])
    by (vm_compute; reflexivity).
  assert (Hd : stored_totals (be_db charged_backend) ($"id-1") = mkTotals 0 0 0) by (vm_compute; reflexivity).
  rewrite Hl in Hu, Hrun. exists b'. split; [exact Hrun |].
  destruct (Hu 0%nat ($"id-1") (Registry.mkTraffic 1 7 11) eq_refl) as [_ H]. rewrite Hd in H. rewrite H. reflexivity.
Defined.
