(* ===== verification/Process.v ===== *)
(** * The life of the server process

    [main] and [run] of backend/cmd/server/main.go and [Open] of
    backend/internal/database/database.go: from the configuration to the exit status.
    The start is a program on the database that other processes share; once the
    server listens, the goroutines of [run] (the one that flushes the traffic, the
    one that listens, and [run] itself in its [select]) act between the actions of
    the requests and connections that the server works on. *)

From S2P Require Import Prelude GoStrings Effects Config Migrate Tables AuthService Http Headers Json TrafficService Samples Backend Tunneling.
From S2P Require Registry SessionManager.

(** ** Starting *)

Inductive open_error := EmptyURL | ParseURL (text : gostring) | CreatePool (text : gostring) | PingPostgres.

Inductive run_error :=
| DatabaseUnavailable (e : open_error)
| MigrationFailed (e : migrate_error)
| StoppedUnexpectedly (text : gostring)
| ShutdownFailed (text : gostring).

(** [parseConfig] is the error text of [pgxpool.ParseConfig], if any, and [newPool] that
    of [pgxpool.NewWithConfig]; the ping is a statement like any other. *)
Definition Open (parseConfig : gostring -> option gostring) (newPool : option gostring) (databaseURL : gostring) :
    prog mdb (result open_error unit) :=
  if bool_decide (databaseURL = []) then mret (Err EmptyURL)
  else match parseConfig databaseURL with
  | Some e => mret (Err (ParseURL e))
  | None =>
      match newPool with
      | Some e => mret (Err (CreatePool e))
      | None =>
          ok ← request;
          mret (if (ok : bool) then Ok tt else Err PingPostgres)
      end
  end.

(** The first part of [run], up to the migrations; [polls] is how long the startup
    context lets [Migrate] wait for the lock. *)
Definition startup (parseConfig : gostring -> option gostring) (newPool : option gostring) (databaseURL : gostring)
    (ms : list Migration) (me polls : nat) : prog mdb (result run_error unit) :=
  db ← Open parseConfig newPool databaseURL;
  match db with
  | Err e => mret (Err (DatabaseUnavailable e))
  | Ok _ =>
      migrated ← Migrate ms me polls;
      mret (match migrated with Ok _ => Ok tt | Err e => Err (MigrationFailed e) end)
  end.

(** ** Serving *)

(** The flushing goroutine: in its [select], in [flushTraffic], or ended. *)
Inductive flusher := InSelect | Flushing (rest : prog backend unit) (last : bool) | Ended.

(** [run] itself: in its [select], waiting for the last flush, in [Shutdown], or back
    with its result. *)
Inductive main_at := Selecting | AwaitingFlush | ShuttingDown | Finished (err : option run_error).

Record life := mkLife {
  lf_backend : backend;
  lf_threads : list (thread backend);
  lf_flusher : flusher;
  lf_main : main_at;
  lf_signalled : bool                    (* ctx is done *)
}.

Definition running (l : life) : Prop := match lf_main l with Finished _ => False | _ => True end.

(** [Shutdown] was called; [ListenAndServe] returns [ErrServerClosed] only then. *)
Definition shut_down (l : life) : Prop := match lf_main l with ShuttingDown | Finished (Some (ShutdownFailed _)) => True | _ => False end.

(** The server has just started to listen. *)
Definition listening (b : backend) : life := mkLife b [] InSelect Selecting false.

Section life.
Context `{PG : Postgres} (arrives : thread backend -> Prop).

(** [Shutdown] lets requests that were accepted finish, and does not wait for the
    connections of agents; the process ends when [run] has returned. *)
Inductive life_step : life -> life -> Prop :=
| life_signal l : running l ->
    life_step l (mkLife (lf_backend l) (lf_threads l) (lf_flusher l) (lf_main l) true)
| life_work l b ts : running l -> step arrives (lf_backend l, lf_threads l) (b, ts) ->
    life_step l (mkLife b ts (lf_flusher l) (lf_main l) (lf_signalled l))
| life_tick l visit : running l -> lf_flusher l = InSelect ->
    life_step l (mkLife (lf_backend l) (lf_threads l) (Flushing (flushTraffic_in visit) false) (lf_main l) (lf_signalled l))
| life_last_flush l visit : running l -> lf_flusher l = InSelect -> lf_signalled l = true ->
    life_step l (mkLife (lf_backend l) (lf_threads l) (Flushing (flushTraffic_in visit) true) (lf_main l) (lf_signalled l))
| life_flush l (B : Set) (f : answer -> backend -> B * backend) (k : B -> prog backend unit) last a x b :
    running l -> lf_flusher l = Flushing (Do f k) last -> f a (lf_backend l) = (x, b) ->
    life_step l (mkLife b (lf_threads l) (Flushing (k x) last) (lf_main l) (lf_signalled l))
| life_flushed l last : running l -> lf_flusher l = Flushing (Ret tt) last ->
    life_step l (mkLife (lf_backend l) (lf_threads l) (if last then Ended else InSelect) (lf_main l) (lf_signalled l))
| life_server_error l (closed : bool) text : lf_main l = Selecting -> (closed = true -> shut_down l) ->
    life_step l (mkLife (lf_backend l) (lf_threads l) (lf_flusher l)
                   (Finished (if closed then None else Some (StoppedUnexpectedly text))) (lf_signalled l))
| life_done l : lf_main l = Selecting -> lf_signalled l = true ->
    life_step l (mkLife (lf_backend l) (lf_threads l) (lf_flusher l) AwaitingFlush (lf_signalled l))
| life_close_all l : lf_main l = AwaitingFlush -> lf_flusher l = Ended ->
    life_step l (mkLife (update sessionsL (SessionManager.CloseAll (be_sessions (lf_backend l))) (lf_backend l)) (lf_threads l)
                   (lf_flusher l) ShuttingDown (lf_signalled l))
| life_shutdown l (text : option gostring) : lf_main l = ShuttingDown ->
    life_step l (mkLife (lf_backend l) (lf_threads l) (lf_flusher l) (Finished (ShutdownFailed <$> text)) (lf_signalled l)).
End life.

(** [main]: the exit status of the process. *)
Definition exit_code {C} (cfg : result config_error C) (ran : option run_error) : Z :=
  match cfg with
  | Err _ => 1
  | Ok _ => match ran with Some _ => 1 | None => 0 end
  end.

(** ** The start *)

Section start.
Context (parseConfig : gostring -> option gostring) (newPool : option gostring) (databaseURL : gostring).
Context (ms : list Migration) (Hms : NoDup (Version <$> ms)).

Definition started_complete (r : result run_error unit) (d : mdb) : Prop :=
  match r with Ok _ => (length ms <= length (md_scripts d))%nat | Err _ => True end.

Lemma Open_lg me d0 : migrations_ok ms d0 -> lg ms me (fun _ _ => True) d0 (Open parseConfig newPool databaseURL).
Proof.
  intros Hd0. unfold Open. case_bool_decide; [done |]. destruct (parseConfig databaseURL); [done |]. destruct newPool; [done |].
  eapply (lg_bind ms me _ (fun _ _ => True)); [|done | done].
  apply lg_action. intros a d Hd _. split_and!; [done | split; [by left | done] | done].
Qed.

Lemma startup_lg me polls d0 : migrations_ok ms d0 -> lg ms me started_complete d0 (startup parseConfig newPool databaseURL ms me polls).
Proof.
  intros Hd0. unfold startup. eapply lg_bind; [by apply Open_lg | done |]. intros [u|e] d Hd _; [|by intros d' _ _].
  eapply lg_bind; [by apply Migrate_lg | done |]. intros [u'|e] d' Hd' Hc; [|by intros d2 _ _].
  intros d2 _ [_ Hp]. apply prefix_length in Hp. cbn in *. lia.
Qed.
End start.

(** C24 (safety).  No server listens on a database that is not ready: however many
    processes start at once on a fresh database, however long each waits for the
    lock, and whatever fails, the committed scripts are at every moment an initial
    segment of the list, each executed once, and the recorded versions are those of
    exactly these scripts; a process whose start succeeded finds all of them applied. *)
Theorem startup_migrates (enablePGCrypto createAuth createAgentTokens createAgents createTunnels createTrafficTotals : gostring)
    (parseConfig : gostring -> option gostring) (newPool : option gostring) (databaseURL : gostring)
    (polls : list nat) (d : mdb) (ps : list (prog mdb (result run_error unit))) :
  let ms := All enablePGCrypto createAuth createAgentTokens createAgents createTunnels createTrafficTotals in
  rtc mstep (fresh_database, imap (startup parseConfig newPool databaseURL ms) polls) (d, ps) ->
  (exists k, md_scripts d = take k (UpSQL <$> ms) /\ default [] (md_versions d) = take k (Version <$> ms))
  /\ forall i, ps !! i = Some (Ret (Ok tt)) -> md_scripts d = UpSQL <$> ms /\ md_versions d = Some (Version <$> ms).
Proof.
  intros ms Hs. assert (Hnd : NoDup (Version <$> ms)) by (apply (bool_decide_unpack (NoDup (Version <$> ms))); reflexivity).
  assert (H0 : migrations_ok ms fresh_database) by (split; [by exists 0%nat | done]).
  destruct (msteps_lg ms (started_complete ms) _ _ Hs H0) as [Hd Hps].
  { intros i p Hi. cbn in Hi. rewrite list_lookup_imap in Hi. destruct (polls !! i); [|done]. injection Hi as <-. by apply startup_lg. }
  cbn [fst snd] in *. split; [apply Hd |]. intros i Hi. apply all_applied; [done | done |].
  exact (Hps i _ Hi d Hd ltac:(by split)).
Qed.

Lemma startup_migrates_witness :
  let ms := All ($"a") ($"b") ($"c") ($"d") ($"e") ($"f") in
  let answers (n : nat) := mkAnswer 0 [] None None in
  let start := startup (fun _ => None) None ($"postgres://db") ms in
  let d1 := (Effects.run answers 0 (start 0%nat 1%nat) fresh_database).1.2 in
  let d2 := (Effects.run answers 0 (start 1%nat 1%nat) d1).1.2 in
  md_scripts d2 = [$"a"; $"b"; $"c"; $"d"; $"e"; $"f"] /\ md_versions d2 = Some (Version <$> ms).
Proof.
  intros ms answers start d1 d2.
  assert (Hs : rtc mstep (fresh_database, imap start [1; 1]%nat) (d2, [Ret (Ok tt); Ret (Ok tt)])).
  { etrans; [apply (run_msteps answers 0 (start 0%nat 1%nat) fresh_database [] [start 1%nat 1%nat]) |].
    apply (run_msteps answers 0 (start 1%nat 1%nat) d1 [Ret (Ok tt)] []). }
  destruct (startup_migrates ($"a") ($"b") ($"c") ($"d") ($"e") ($"f") (fun _ => None) None ($"postgres://db") [1; 1]%nat d2 _ Hs) as [_ H].
  apply (H 1%nat). reflexivity.
Defined.

(** ** The end *)

(** What [run] has seen to at each point. *)
Definition main_ok (l : life) : Prop :=
  match lf_main l with
  | Selecting | Finished (Some (StoppedUnexpectedly _)) => True
  | AwaitingFlush => lf_signalled l = true
  | ShuttingDown | Finished None | Finished (Some (ShutdownFailed _)) => lf_signalled l = true /\ lf_flusher l = Ended
  | Finished (Some _) => False
  end.

Section ending.
Context `{PG : Postgres} `{PGL : !PostgresLaws} (arrives : thread backend -> Prop).
Context (Harr : forall t b, arrives t -> gateway_ok b -> thread_rg gateway_ok grows b t).

Definition flusher_rg (b : backend) (k : flusher) : Prop :=
  match k with Flushing p _ => rg gateway_ok grows (fun _ _ => True) b p | _ => True end.

Record life_ok (l : life) : Prop := {
  lo_backend : gateway_ok (lf_backend l);
  lo_threads : Forall (thread_rg gateway_ok grows (lf_backend l)) (lf_threads l);
  lo_flusher : flusher_rg (lf_backend l) (lf_flusher l);
  lo_main : main_ok l
}.

Lemma threads_later b b' ts : grows b b' -> Forall (thread_rg gateway_ok grows b) ts -> Forall (thread_rg gateway_ok grows b') ts.
Proof. intros Hg H. eapply list.Forall_impl; [exact H |]. intros [A p]. by apply (rg_later gateway_ok grows b b'). Qed.
Lemma flusher_later b b' k : grows b b' -> flusher_rg b k -> flusher_rg b' k.
Proof. intros Hg. destruct k; [done | by apply (rg_later gateway_ok grows b b') | done]. Qed.

(** Steps of the other goroutines leave [run] where it is. *)
Ltac main_cases :=
  unfold main_ok, running in *; cbn [lf_main lf_flusher lf_signalled];
  match goal with Hm : context [lf_main ?l], Hr : context [lf_main ?l] |- context [lf_main ?l] =>
    revert Hm Hr; destruct (lf_main l) as [| | |[[]|]]; intros; destruct_and?; try done; try congruence; split; congruence end.

Lemma life_ok_step l l' : life_step arrives l l' -> life_ok l -> life_ok l'.
Proof.
  intros Hs [Hb Ht Hf Hm]. destruct Hs as [l Hr|l b ts Hr Hst|l visit Hr Hfl|l visit Hr Hfl Hsig|l B f k last a x b Hr Hfl Hx|l last Hr Hfl|
    l closed text Hsel Hcl|l Hsel Hsig|l Haw Hfl|l text Hsh].
  - split; try done. by main_cases.
  - destruct (rg_steps gateway_ok grows arrives _ _ _ _ (fun t s Ha Hs => Harr t s Ha Hs) (rtc_once _ _ Hst) Hb Ht) as (H1 & H2 & H3).
    split; [done | done | eapply flusher_later; eassumption | done].
  - split; try done; [by apply flushTraffic_safe |]. by main_cases.
  - split; try done; [by apply flushTraffic_safe |]. by main_cases.
  - rewrite Hfl in Hf. specialize (Hf a (lf_backend l) Hb ltac:(reflexivity)). rewrite Hx in Hf. destruct Hf as (H1 & H2 & H3).
    split; [done | eapply threads_later; eassumption | done |]. by main_cases.
  - split; try done; [by destruct last |]. by main_cases.
  - split; try done. unfold main_ok, shut_down in *. cbn. rewrite Hsel in Hcl. destruct closed; [by destruct (Hcl eq_refl) | done].
  - by split.
  - assert (Hg : grows (lf_backend l) (update sessionsL (SessionManager.CloseAll (be_sessions (lf_backend l))) (lf_backend l)))
      by (unfold grows; cbn; reflexivity).
    split; [by destruct Hb | eapply threads_later; eassumption | eapply flusher_later; eassumption |]. unfold main_ok in *. cbn. by rewrite Haw in Hm.
  - split; try done. unfold main_ok in *. cbn. rewrite Hsh in Hm. by destruct text.
Qed.

Lemma life_ok_steps l l' : rtc (life_step arrives) l l' -> life_ok l -> life_ok l'.
Proof. induction 1; eauto using life_ok_step. Qed.

(** The step in which [run] closes the sessions. *)
Lemma life_ok_closing l : life_ok l -> lf_main l = AwaitingFlush -> lf_signalled l = true.
Proof. intros Hl Hm. pose proof (lo_main l Hl) as H. unfold main_ok in H. by rewrite Hm in H. Qed.
End ending.

(** The sessions are closed by [run] in a state in which it waits for the flush. *)
Definition sessions_closed (l : life) : life :=
  mkLife (update sessionsL (SessionManager.CloseAll (be_sessions (lf_backend l))) (lf_backend l)) (lf_threads l)
    (lf_flusher l) ShuttingDown (lf_signalled l).

(** [run] has got past the closing of the sessions. *)
Definition past_closing (l : life) : Prop :=
  match lf_main l with
  | ShuttingDown | Finished None | Finished (Some (ShutdownFailed _)) => True
  | _ => False
  end.

Section order.
Context `{PG : Postgres} (arrives : thread backend -> Prop) (start : life).

(** On the way from [start] to [l] the sessions were closed, after a signal and the
    last flush. *)
Definition closed_in_order (l : life) : Prop :=
  exists l1, rtc (life_step arrives) start l1 /\ lf_main l1 = AwaitingFlush /\ lf_flusher l1 = Ended
    /\ rtc (life_step arrives) (sessions_closed l1) l.

(** What [run] itself does in a step: nothing to the state, or it closes the sessions. *)
Lemma main_step l l' : life_step arrives l l' ->
  lf_main l' = lf_main l
  \/ (lf_backend l' = lf_backend l /\ lf_main l' <> ShuttingDown /\ (past_closing l' -> past_closing l))
  \/ (lf_main l = AwaitingFlush /\ lf_flusher l = Ended /\ l' = sessions_closed l).
Proof.
  intros Hs. destruct Hs as [l Hr|l b ts Hr Hst|l visit Hr Hfl|l visit Hr Hfl Hsig|l B f k last a x b Hr Hfl Hx|l last Hr Hfl|
    l closed text Hsel Hcl|l Hsel Hsig|l Haw Hfl|l text Hsh]; try (by left); right.
  - left. split_and!; [done | done |]. unfold past_closing, shut_down in *. rewrite Hsel in *. destruct closed; [by destruct (Hcl eq_refl) | done].
  - by left.
  - by right.
  - left. split_and!; [done | done |]. unfold past_closing. by rewrite Hsh.
Qed.

Lemma past_closing_order l : ~ past_closing start -> rtc (life_step arrives) start l -> past_closing l -> closed_in_order l.
Proof.
  intros H0 Hs. revert l Hs. apply (rtc_ind_r (fun l => past_closing l -> closed_in_order l)); [done |].
  intros l l' Hs Hst IH Hp.
  assert (Hnext : closed_in_order l -> closed_in_order l').
  { intros (l1 & H1 & H2 & H3 & H4). exists l1. split_and!; [done | done | done | by eapply rtc_r]. }
  destruct (main_step l l' Hst) as [He|[(_ & _ & Hback)|(Hm & Hf & ->)]].
  - apply Hnext, IH. unfold past_closing in *. by rewrite <- He.
  - by apply Hnext, IH, Hback.
  - exists l. split_and!; [done | done | done | apply rtc_refl].
Qed.
End order.

(** C25 (safety).  The server stops in order.  From a server that has just started on
    well-formed tables, in every state [l] that its goroutines and the work they are
    given reach: a move of [run] leaves the whole state alone, except the one that closes
    the agents' sessions, by cancelling the context of every one, which it makes only
    after a signal and after the last flush of the traffic has come to its end, and which
    leads to the shutdown of the HTTP server;
    when that shutdown is under way, and when the process has exited with status 0, the
    sessions were closed on the way in just that manner; any other exit is due to a
    failure of listening or of the shutdown; and the tables and routes are well-formed
    throughout. *)
Theorem server_stops_in_order `{PG : Postgres} `{PGL : !PostgresLaws} `{BC : Bcrypt} (lower : Z -> Z) (s : Service)
    (secure : bool) (baseDomain : gostring) (marshal_time : Z -> json) (rand_error : gostring) (b : backend) (l : life) :
  schema_ok (be_db b) -> be_registry b = Registry.NewRegistry ->
  let calls := gateway_call lower s secure baseDomain marshal_time rand_error in
  rtc (life_step calls) (listening b) l ->
  gateway_ok (lf_backend l)
  /\ (forall l', life_step calls l l' -> lf_main l' <> lf_main l ->
        (lf_backend l' = lf_backend l /\ lf_main l' <> ShuttingDown)
        \/ (lf_signalled l = true /\ lf_flusher l = Ended /\ lf_main l = AwaitingFlush /\ l' = sessions_closed l
            /\ forall sid session f, SessionManager.sessions (SessionManager.mgr (be_sessions (lf_backend l))) !! sid = Some session ->
                 SessionManager.s_Cancel session = Some f -> f ∈ SessionManager.cancelled (be_sessions (lf_backend l'))))
  /\ (lf_main l = ShuttingDown -> lf_signalled l = true /\ lf_flusher l = Ended /\ closed_in_order calls (listening b) l)
  /\ (forall err, lf_main l = Finished err ->
        (exit_code (Ok tt) err = 0 -> lf_signalled l = true /\ lf_flusher l = Ended /\ closed_in_order calls (listening b) l)
        /\ (exit_code (Ok tt) err <> 0 -> exists text, err = Some (StoppedUnexpectedly text) \/ err = Some (ShutdownFailed text))).
Proof.
  intros Hb Hreg calls Hs. pose proof (past_closing_order calls (listening b) l (fun H => H) Hs) as Hpast.
  assert (Hl : life_ok l).
  { eapply (life_ok_steps calls (fun t b' Ht Hb' => gateway_call_safe lower s secure baseDomain marshal_time rand_error t b' Ht Hb'));
      [exact Hs |]. split; [by apply gateway_ok_start | constructor | exact I | exact I]. }
  pose proof (lo_main l Hl) as Hm. unfold main_ok in Hm. unfold past_closing in Hpast. split; [apply Hl |]. split_and!.
  - intros l' Hst Hne. destruct (main_step calls l l' Hst) as [He|[(He & Hn & _)|(H1 & H2 & H3)]]; [done | by left |].
    right. split_and!; [by apply life_ok_closing | done | done | done |]. intros sid session f Hses Hf. rewrite H3. cbn.
    apply (SessionManager.revocation_exact []). eauto.
  - intros He. rewrite He in Hm, Hpast. destruct Hm. auto.
  - intros err He. rewrite He in Hm, Hpast. split; [destruct err as [[]|]; try done; destruct Hm; auto |].
    intros Hne. destruct err as [[e|e|text|text]|]; [done | done | exists text; by left | exists text; by right | by destruct Hne].
Qed.

(** ** A signal that costs traffic *)

Section costs.
Context `{PG : Postgres} (arrives : thread backend -> Prop).

Lemma work_through b ts b' ts' fl mn sg : running (mkLife b ts fl mn sg) -> rtc (step arrives) (b, ts) (b', ts') ->
  rtc (life_step arrives) (mkLife b ts fl mn sg) (mkLife b' ts' fl mn sg).
Proof.
  intros Hr Hs. apply (rtc_congruence (fun c => mkLife c.1 c.2 fl mn sg) (life_step arrives)) in Hs; [exact Hs |].
  intros [b1 ts1] [b2 ts2] H. by apply (life_work arrives (mkLife b1 ts1 fl mn sg)).
Qed.

Lemma one_request {A : Set} env n (m : prog backend A) b ts fl mn sg : running (mkLife b ts fl mn sg) -> arrives (Thread m) ->
  exists ts', rtc (life_step arrives) (mkLife b ts fl mn sg) (mkLife (Effects.run env n m b).1.2 ts' fl mn sg).
Proof.
  intros Hr Ha. eexists. apply work_through; [done |]. eapply rtc_l; [by apply step_arrive |].
  apply (run_steps arrives env n m b ts []).
Qed.

Lemma flush_through env p : forall n b ts last mn sg, running (mkLife b ts InSelect mn sg) ->
  rtc (life_step arrives) (mkLife b ts (Flushing p last) mn sg)
    (mkLife (Effects.run env n p b).1.2 ts (if last then Ended else InSelect) mn sg).
Proof.
  induction p as [[]|B f k IH]; intros n b ts last mn sg Hr.
  - apply rtc_once. by apply (life_flushed arrives (mkLife b ts (Flushing (Ret tt) last) mn sg) last).
  - cbn [Effects.run]. destruct (f (env n) b) as [x b'] eqn:Hf. eapply rtc_l; [|by apply (IH x)].
    by apply (life_flush arrives (mkLife b ts (Flushing (Do f k) last) mn sg) B f k last (env n) x b').
Qed.

(** A stop in which the request [m] is finished after the last flush. *)
Lemma stop_with_request {A : Set} env n visit (m : prog backend A) b ts : arrives (Thread m) ->
  let b1 := (Effects.run env n (flushTraffic_in visit) b).1.2 in
  let b2 := (Effects.run env n m b1).1.2 in
  exists ts', rtc (life_step arrives) (mkLife b ts InSelect Selecting false)
    (mkLife (update sessionsL (SessionManager.CloseAll (be_sessions b2)) b2) ts' Ended (Finished None) true).
Proof.
  intros Ha b1 b2. destruct (one_request env n m b1 ts Ended AwaitingFlush true I Ha) as [ts' Hm]. exists ts'.
  eapply rtc_l; [by apply life_signal |]. eapply rtc_l; [by apply life_done |]. cbn.
  eapply rtc_l; [by apply (life_last_flush arrives (mkLife b ts InSelect AwaitingFlush true) visit) |].
  etrans; [by apply (flush_through env _ n) |]. etrans; [exact Hm |].
  eapply rtc_l; [by apply life_close_all |]. apply rtc_once. cbn.
  exact (life_shutdown arrives (mkLife _ ts' Ended ShuttingDown true) None eq_refl).
Qed.
End costs.

(** C40 (safety).  A stop can leave work undone.  The traffic is flushed for the last
    time before the HTTP server is shut down, and [Shutdown] does not wait for the
    connections of agents: a request that was accepted before the signal and is
    finished after that flush is counted in memory and nowhere else when the process
    exits, with status 0, and the tunnel of a connected agent is still stored as open. *)
Theorem stop_leaves_work_undone :
  exists l, rtc (life_step (gateway_call sample_lower sample_service true sample_base (fun _ => JNull) [])) (listening sample_backend) l
    /\ lf_main l = Finished None
    /\ Registry.perUser (be_registry (lf_backend l)) !! ($"id-1") = Some (Registry.mkTraffic 1 7 11)
    /\ stored_totals (be_db (lf_backend l)) ($"id-1") = mkTotals 0 0 0
    /\ (tn_status <$> tunnels (be_db (lf_backend l)) !! ($"id-52")) = Some ($"open")
    /\ forall l', ~ life_step (gateway_call sample_lower sample_service true sample_base (fun _ => JNull) []) l l'.
Proof.
  set (calls := gateway_call sample_lower sample_service true sample_base (fun _ => JNull) []).
  destruct (one_request calls sample_env 50 sample_open sample_backend [] InSelect Selecting false I ltac:(apply opens_tunnel)) as [ts1 H1].
  destruct (stop_with_request calls sample_env 70 map_to_list (recordTraffic ($"id-52") 7 11) opened_backend ts1 ltac:(apply records)) as [ts2 H2].
  eexists. split; [etrans; [exact H1 | exact H2] |]. split; [done |]. cbn [lf_backend]. do 3 (split; [by vm_compute |]).
  intros l' Hl. inversion Hl; done.
Qed.

Lemma server_stops_in_order_witness :
  exists l, rtc (life_step (gateway_call sample_lower sample_service true sample_base (fun _ => JNull) [])) (listening sample_backend) l
    /\ lf_main l = Finished None /\ lf_flusher l = Ended /\ schema_ok (be_db (lf_backend l))
    /\ closed_in_order (gateway_call sample_lower sample_service true sample_base (fun _ => JNull) []) (listening sample_backend) l.
Proof.
  set (calls := gateway_call sample_lower sample_service true sample_base (fun _ => JNull) []).
  destruct (one_request calls sample_env 50 sample_open sample_backend [] InSelect Selecting false I ltac:(apply opens_tunnel)) as [ts1 H1].
  destruct (stop_with_request calls sample_env 70 map_to_list (recordTraffic ($"id-52") 7 11) opened_backend ts1 ltac:(apply records)) as [ts2 H2].
  pose proof (transitivity H1 H2) as Hs.
  destruct (server_stops_in_order sample_lower sample_service true sample_base (fun _ => JNull) [] sample_backend _ sample_database_ok eq_refl Hs)
    as (Hok & _ & _ & Hfin).
  eexists. split; [exact Hs |]. split; [done |]. destruct (proj1 (Hfin None eq_refl) eq_refl) as (_ & Hf & Hc).
  split; [exact Hf |]. split; [apply Hok | exact Hc].
Defined.
